(** * ieee-md2docx: a shallow embedding of [ieee_md2docx.py]

    The converter reads IEEE-structured markdown and emits the OOXML body
    of a two-column conference paper.  This development embeds the
    program function by function (same names, same order of statements)
    and proves the properties its specification states about it.

    Python values are modelled as follows.
    - [str] is a sequence of Unicode code points: [pystr := list N].
    - [int] counters and lengths are [nat], [int] constants are [N];
      [str] of either is the decimal rendering [str_nat], [str_N].
    - [re] patterns are terms of [regex], run by a backtracking matcher
      with Python's priorities (leftmost, greedy or lazy, first
      alternative first).
    - lxml elements are trees [xml]; [OxmlElement], [set], [append] are
      pure functions on them.
    - what the source leaves to the Python runtime or to python-docx (the
      iteration order of a [set], the Unicode table behind [\d], the body
      of the default template, the file system) is a field of a record the
      functions take as a parameter. *)

From Stdlib Require Import String Ascii.
From Stdlib Require Import NArith Arith Bool Lia Permutation List.
Import ListNotations.

Set Implicit Arguments.

(* ====================================================================== *)
(** * Python strings *)
(* ====================================================================== *)

Module Py.

Definition char := N.
Definition pystr := list char.

(** An ASCII literal of the source, as code points. *)
Definition py (s : string) : pystr :=
  map (fun a => N.of_nat (nat_of_ascii a)) (list_ascii_of_string s).

Definition chr_eqb (a b : char) : bool := N.eqb a b.

Fixpoint str_eqb (a b : pystr) : bool :=
  match a, b with
  | [], [] => true
  | x :: a', y :: b' => chr_eqb x y && str_eqb a' b'
  | _, _ => false
  end.

Local Open Scope N_scope.

(** Characters used by the source, by code point. *)
Definition c_lf : char := 10.
Definition c_space : char := 32.
Definition c_dollar : char := 36.
Definition c_star : char := 42.
Definition c_minus : char := 45.
Definition c_dot : char := 46.
Definition c_gt : char := 62.
Definition c_lbracket : char := 91.
Definition c_backslash : char := 92.
Definition c_rbracket : char := 93.
Definition c_caret : char := 94.
Definition c_underscore : char := 95.
Definition c_backtick : char := 96.
Definition c_lbrace : char := 123.
Definition c_rbrace : char := 125.
Definition c_hash : char := 35.

Definition in_range (lo hi c : char) : bool := (lo <=? c) && (c <=? hi).

Definition is_upper_AZ (c : char) : bool := in_range 65 90 c.
Definition is_lower_az (c : char) : bool := in_range 97 122 c.
Definition is_digit_09 (c : char) : bool := in_range 48 57 c.
Definition is_alpha (c : char) : bool := is_lower_az c || is_upper_AZ c.
Definition is_alnum (c : char) : bool := is_alpha c || is_digit_09 c.

(** [str.isspace] on one character, which is also the class [\s] of a
    [str] pattern: the characters of bidirectional type WS, B or S and of
    category Zs. *)
Definition isspace (c : char) : bool :=
  in_range 0x09 0x0D c || in_range 0x1C 0x1F c || chr_eqb c 0x20
  || chr_eqb c 0x85 || chr_eqb c 0xA0 || chr_eqb c 0x1680
  || in_range 0x2000 0x200A c || chr_eqb c 0x2028 || chr_eqb c 0x2029
  || chr_eqb c 0x202F || chr_eqb c 0x205F || chr_eqb c 0x3000.

Local Close Scope N_scope.

(** [s.lstrip()], [s.rstrip()], [s.strip()] without argument. *)
Fixpoint lstrip (s : pystr) : pystr :=
  match s with
  | c :: s' => if isspace c then lstrip s' else s
  | [] => []
  end.

Definition rstrip (s : pystr) : pystr := rev (lstrip (rev s)).
Definition strip (s : pystr) : pystr := rstrip (lstrip s).

(** [s.rstrip(chars)] and [s.strip(chars)] for a one-character [chars]. *)
Fixpoint lstrip_chr (x : char) (s : pystr) : pystr :=
  match s with
  | c :: s' => if chr_eqb c x then lstrip_chr x s' else s
  | [] => []
  end.

Definition rstrip_chr (x : char) (s : pystr) : pystr :=
  rev (lstrip_chr x (rev s)).
Definition strip_chr (x : char) (s : pystr) : pystr :=
  rstrip_chr x (lstrip_chr x s).

(** [s.startswith(p)]. *)
Fixpoint startswith (p s : pystr) : bool :=
  match p, s with
  | [], _ => true
  | x :: p', y :: s' => chr_eqb x y && startswith p' s'
  | _ :: _, [] => false
  end.

(** The slices [s[a:]], [s[:b]] and [s[a:b]] of a string or a list, for
    non-negative indices. *)
Definition slice_from {A} (a : nat) (s : list A) : list A := skipn a s.
Definition slice_to {A} (b : nat) (s : list A) : list A := firstn b s.
Definition slice {A} (a b : nat) (s : list A) : list A :=
  firstn (b - a) (skipn a s).

(** [sep.join(xs)]. *)
Fixpoint join (sep : pystr) (xs : list pystr) : pystr :=
  match xs with
  | [] => []
  | [x] => x
  | x :: xs' => x ++ sep ++ join sep xs'
  end.

(** [s.replace(old, new)] for a non-empty [old]: the occurrences are
    found left to right and do not overlap.  [skip] counts the characters
    of a replaced occurrence that are still to be dropped. *)
Fixpoint replace_go (old new : pystr) (skip : nat) (s : pystr) : pystr :=
  match s with
  | [] => []
  | c :: s' =>
      match skip with
      | S n => replace_go old new n s'
      | O =>
          if startswith old s
          then new ++ replace_go old new (length old - 1) s'
          else c :: replace_go old new 0 s'
      end
  end.

Definition replace (old new s : pystr) : pystr := replace_go old new 0 s.

(** [str(n)] for a non-negative [int], held as [nat] or as [N]. *)
Fixpoint digits_of_uint (d : Decimal.uint) : pystr :=
  match d with
  | Decimal.Nil => []
  | Decimal.D0 d' => 48%N :: digits_of_uint d'
  | Decimal.D1 d' => 49%N :: digits_of_uint d'
  | Decimal.D2 d' => 50%N :: digits_of_uint d'
  | Decimal.D3 d' => 51%N :: digits_of_uint d'
  | Decimal.D4 d' => 52%N :: digits_of_uint d'
  | Decimal.D5 d' => 53%N :: digits_of_uint d'
  | Decimal.D6 d' => 54%N :: digits_of_uint d'
  | Decimal.D7 d' => 55%N :: digits_of_uint d'
  | Decimal.D8 d' => 56%N :: digits_of_uint d'
  | Decimal.D9 d' => 57%N :: digits_of_uint d'
  end.

Definition str_nat (n : nat) : pystr := digits_of_uint (Nat.to_uint n).
Definition str_N (n : N) : pystr := digits_of_uint (N.to_uint n).

End Py.
Import Py.

(* ====================================================================== *)
(** * The [re] module *)
(* ====================================================================== *)

Module Re.

(** Pattern syntax, restricted to the constructs the source uses.
    [Rep true r] is [r*], [Rep false r] is [r*?]; [r+] and [r+?] are
    [Seq r (Rep _ r)].  [Grp n r] is the n-th capturing group. *)
Inductive regex : Type :=
| Eps
| Cls (p : char -> bool)
| Seq (r1 r2 : regex)
| Alt (r1 r2 : regex)
| Rep (greedy : bool) (r : regex)
| Grp (n : nat) (r : regex)
| NotAhead (r : regex)
| NotBehind (p : char -> bool)
| Bol
| Eol.

(** Matcher state: the character before the current position ([None] at
    position 0), the rest of the subject, and the groups captured so far
    (most recent binding first). *)
Record mstate : Type := MState {
  m_prev : option char;
  m_rest : pystr;
  m_caps : list (nat * pystr)
}.

Definition advance (c : char) (s' : pystr) (st : mstate) : mstate :=
  MState (Some c) s' (m_caps st).

Definition consumed (before after : mstate) : nat :=
  length (m_rest before) - length (m_rest after).

Definition capture (n : nat) (before after : mstate) : mstate :=
  MState (m_prev after) (m_rest after)
         ((n, firstn (consumed before after) (m_rest before)) :: m_caps after).

Definition or_else {A} (a : option A) (b : unit -> option A) : option A :=
  match a with Some x => Some x | None => b tt end.

(** Backtracking matcher in continuation-passing style.  A repetition
    runs at most once per remaining character, an iteration that consumes
    nothing is not repeated. *)
Fixpoint rmatch (r : regex) (st : mstate) (k : mstate -> option mstate)
  {struct r} : option mstate :=
  match r with
  | Eps => k st
  | Cls p =>
      match m_rest st with
      | c :: s' => if p c then k (advance c s' st) else None
      | [] => None
      end
  | Seq r1 r2 => rmatch r1 st (fun st1 => rmatch r2 st1 k)
  | Alt r1 r2 => or_else (rmatch r1 st k) (fun _ => rmatch r2 st k)
  | Rep greedy r1 =>
      (fix loop (n : nat) (st0 : mstate) {struct n} : option mstate :=
         match n with
         | O => k st0
         | S n' =>
             let again (_ : unit) :=
               rmatch r1 st0 (fun st1 =>
                 if length (m_rest st1) <? length (m_rest st0)
                 then loop n' st1 else None) in
             if greedy then or_else (again tt) (fun _ => k st0)
             else or_else (k st0) again
         end) (length (m_rest st)) st
  | Grp n r1 => rmatch r1 st (fun st1 => k (capture n st st1))
  | NotAhead r1 =>
      match rmatch r1 st (fun st1 => Some st1) with
      | Some _ => None
      | None => k st
      end
  | NotBehind p =>
      match m_prev st with
      | Some c => if p c then None else k st
      | None => k st
      end
  | Bol => match m_prev st with None => k st | Some _ => None end
  | Eol =>
      match m_rest st with
      | [] => k st
      | [c] => if chr_eqb c c_lf then k st else None
      | _ => None
      end
  end.

(** [m.group(n)]: [None] when the group did not take part in the match. *)
Fixpoint group (n : nat) (caps : list (nat * pystr)) : option pystr :=
  match caps with
  | [] => None
  | (i, s) :: caps' => if Nat.eqb i n then Some s else group n caps'
  end.

(** [m.group(n)] inside a replacement template, where an unmatched group
    expands to the empty string. *)
Definition group_or_empty (n : nat) (st : mstate) : pystr :=
  match group n (m_caps st) with Some s => s | None => [] end.

(** One attempt at the current position. *)
Definition match_here (r : regex) (prev : option char) (s : pystr)
  : option mstate :=
  rmatch r (MState prev s []) (fun st => Some st).

(** [re.match(r, s)]. *)
Definition re_match (r : regex) (s : pystr) : option mstate :=
  match_here r None s.

(** [re.sub(r, repl, s)], with the replacement as a function of the
    match.  [skip] counts the characters of the last match still to be
    passed over.  None of the program's patterns matches the empty
    string; for an empty match the replacement is emitted and the scan
    moves one character on. *)
Fixpoint sub_go (r : regex) (repl : mstate -> pystr) (skip : nat)
  (prev : option char) (s : pystr) : pystr :=
  match s with
  | [] =>
      match match_here r prev [] with
      | Some st => repl st
      | None => []
      end
  | c :: s' =>
      match skip with
      | S n => sub_go r repl n (Some c) s'
      | O =>
          match match_here r prev s with
          | Some st =>
              match length s - length (m_rest st) with
              | O => repl st ++ c :: sub_go r repl 0 (Some c) s'
              | S n => repl st ++ sub_go r repl n (Some c) s'
              end
          | None => c :: sub_go r repl 0 (Some c) s'
          end
      end
  end.

Definition sub (r : regex) (repl : mstate -> pystr) (s : pystr) : pystr :=
  sub_go r repl 0 None s.

(** A match object of [finditer]: [m.start()], [m.end()] and the groups. *)
Record match_obj : Type := MatchObj {
  mo_start : nat;
  mo_end : nat;
  mo_caps : list (nat * pystr)
}.

Fixpoint finditer_go (r : regex) (skip idx : nat) (prev : option char)
  (s : pystr) : list match_obj :=
  match s with
  | [] =>
      match match_here r prev [] with
      | Some st => [MatchObj idx idx (m_caps st)]
      | None => []
      end
  | c :: s' =>
      match skip with
      | S n => finditer_go r n (S idx) (Some c) s'
      | O =>
          match match_here r prev s with
          | Some st =>
              let len := length s - length (m_rest st) in
              MatchObj idx (idx + len) (m_caps st)
                :: finditer_go r (len - 1) (S idx) (Some c) s'
          | None => finditer_go r 0 (S idx) (Some c) s'
          end
      end
  end.

Definition finditer (r : regex) (s : pystr) : list match_obj :=
  finditer_go r 0 0 None s.

(** Pattern building blocks. *)
Definition Chr (c : char) : regex := Cls (chr_eqb c).
Definition Plus (r : regex) : regex := Seq r (Rep true r).
Definition PlusLazy (r : regex) : regex := Seq r (Rep false r).
Definition Star (r : regex) : regex := Rep true r.

(** The pattern matching the literal string [s] (what [re.escape(s)]
    denotes). *)
Fixpoint Lit (s : pystr) : regex :=
  match s with
  | [] => Eps
  | c :: s' => Seq (Chr c) (Lit s')
  end.

Fixpoint seqs (rs : list regex) : regex :=
  match rs with
  | [] => Eps
  | [r] => r
  | r :: rs' => Seq r (seqs rs')
  end.

(** [.] without DOTALL. *)
Definition dot (c : char) : bool := negb (chr_eqb c c_lf).
Definition Any : regex := Cls dot.

End Re.
Import Re.

(* ====================================================================== *)
(** * lxml elements *)
(* ====================================================================== *)

Module Xml.

#[local] Set Warnings "-register-all".

(** An element: tag, attributes in insertion order, text, children.  Tags
    and attribute names are written with their prefix, as the argument of
    [qn] in the source. *)
Inductive xml : Type :=
| Element (tag : string) (attrib : list (string * pystr))
          (text : option pystr) (children : list xml).

Definition tag_of (e : xml) : string :=
  match e with Element t _ _ _ => t end.
Definition attrib_of (e : xml) : list (string * pystr) :=
  match e with Element _ a _ _ => a end.
Definition text_of (e : xml) : option pystr :=
  match e with Element _ _ t _ => t end.
Definition children_of (e : xml) : list xml :=
  match e with Element _ _ _ c => c end.

(** [OxmlElement(tag)]. *)
Definition OxmlElement (tag : string) : xml := Element tag [] None [].

Fixpoint attrib_set (k : string) (v : pystr) (a : list (string * pystr))
  : list (string * pystr) :=
  match a with
  | [] => [(k, v)]
  | (k', v') :: a' =>
      if String.eqb k' k then (k, v) :: a' else (k', v') :: attrib_set k v a'
  end.

(** [e.set(k, v)], [e.append(child)], [e.text = s], [e.get(k)]. *)
Definition xset (e : xml) (k : string) (v : pystr) : xml :=
  match e with Element t a x c => Element t (attrib_set k v a) x c end.

Definition xappend (e child : xml) : xml :=
  match e with Element t a x c => Element t a x (c ++ [child]) end.

Definition xset_text (e : xml) (s : pystr) : xml :=
  match e with Element t a _ c => Element t a (Some s) c end.

(** The strings lxml accepts as the text of an element: [e.text = s]
    raises [ValueError] (All strings must be XML compatible) when [s]
    holds a NUL or another control character below the space, tab, line
    feed and carriage return apart, a surrogate, or one of U+FFFE and
    U+FFFF. *)
Definition xml_char (c : char) : bool :=
  (N.eqb c 9 || N.eqb c 10 || N.eqb c 13 || (32 <=? c)%N)
  && negb ((0xD800 <=? c)%N && (c <=? 0xDFFF)%N)
  && negb (N.eqb c 0xFFFE || N.eqb c 0xFFFF).

Definition xml_compatible (s : pystr) : bool := forallb xml_char s.

Fixpoint xget (a : list (string * pystr)) (k : string) : option pystr :=
  match a with
  | [] => None
  | (k', v) :: a' => if String.eqb k' k then Some v else xget a' k
  end.

Definition has_tag (t : string) (e : xml) : bool := String.eqb (tag_of e) t.

(** [e.find(tag)]: the first child with that tag. *)
Definition xfind (t : string) (children : list xml) : option xml :=
  List.find (has_tag t) children.

(** [e.remove(child)] for the child that [find(tag)] returned. *)
Fixpoint remove_first (t : string) (children : list xml) : list xml :=
  match children with
  | [] => []
  | c :: cs => if has_tag t c then cs else c :: remove_first t cs
  end.

(** Removing every element of [e.findall(tag)]. *)
Definition remove_all (t : string) (children : list xml) : list xml :=
  filter (fun c => negb (has_tag t c)) children.

(** [target.addprevious(p)] where [target] is the child at index [i]: [p]
    becomes the child at index [i] and [target] moves to [i + 1]. *)
Definition addprevious_at (i : nat) (p : xml) (children : list xml)
  : list xml :=
  firstn i children ++ p :: skipn i children.

End Xml.
Import Xml.

(* ====================================================================== *)
(** * What the source leaves to its environment *)
(* ====================================================================== *)

(** [set_order]: the order in which [for func in LATEX_FUNCTIONS] visits
    the set (Python fixes none).  [unicode_Nd]: the decimal-digit class
    [\d] of the running interpreter's Unicode table.  [template_body]: the
    children of [w:body] in the document [Document()] returns, after the
    page setup on [doc.sections[0]]. *)
Record runtime : Type := Runtime {
  set_order : list pystr;
  unicode_Nd : char -> bool;
  template_body : list xml
}.

(* ====================================================================== *)
(** * Constants *)
(* ====================================================================== *)

Definition FONT : pystr := py "Times New Roman".

Definition PAGE_W_TWIPS : N := 12240.
Definition PAGE_H_TWIPS : N := 15840.
Definition MARGIN_TOP_TWIPS : N := 1080.
Definition MARGIN_BOTTOM_TWIPS : N := 1440.
Definition MARGIN_LR_TWIPS : N := 893.

Definition TITLE_PT : N := 24.
Definition AUTHOR_PT : N := 11.
Definition AUTHOR_AFFIL_PT : N := 9.
Definition AFFIL_PT : N := 10.
Definition ABSTRACT_PT : N := 9.
Definition BODY_PT : N := 10.
Definition H1_PT : N := 10.
Definition H2_PT : N := 10.
Definition REF_PT : N := 8.
Definition KEYWORDS_PT : N := 9.

Definition AUTHOR_COL_SPACE_TWIPS : N := 216.

Definition BODY_FIRST_INDENT : N := 288.
Definition ABSTRACT_FIRST_INDENT : N := 272.
Definition KEYWORDS_FIRST_INDENT : N := 274.
Definition COL_SPACE_TWIPS : N := 360.
Definition REF_INDENT_TWIPS : N := 354.

Definition NBSP : pystr := [0xA0%N].

(** [int(Inches(0.2))] and [int(Inches(0.25))]: [Inches(x)] is
    [int(x * 914400)] English Metric Units. *)
Definition Inches_0_2 : N := 182880.
Definition Inches_0_25 : N := 228600.

(* ====================================================================== *)
(** * Markdown helpers *)
(* ====================================================================== *)

(** The patterns "\*\*(.+?)\*\*", "\*(.+?)\*" and "`(.+?)`". *)
Definition re_bold : regex :=
  seqs [Chr c_star; Chr c_star; Grp 1 (PlusLazy Any); Chr c_star; Chr c_star].
Definition re_italic : regex :=
  seqs [Chr c_star; Grp 1 (PlusLazy Any); Chr c_star].
Definition re_code : regex :=
  seqs [Chr c_backtick; Grp 1 (PlusLazy Any); Chr c_backtick].

Definition strip_markdown (text : pystr) : pystr :=
  let text := sub re_bold (group_or_empty 1) text in
  let text := sub re_italic (group_or_empty 1) text in
  let text := sub re_code (group_or_empty 1) text in
  text.

(** The inner [while n >= v] of [to_roman]: it runs at most [n] times,
    which is the fuel. *)
Fixpoint roman_while (fuel n v : nat) (s result : pystr) : pystr * nat :=
  match fuel with
  | O => (result, n)
  | S fuel' =>
      if v <=? n then roman_while fuel' (n - v) v s (result ++ s)
      else (result, n)
  end.

Definition roman_vals : list (nat * pystr) :=
  [(1000, py "M"); (900, py "CM"); (500, py "D"); (400, py "CD");
   (100, py "C"); (90, py "XC"); (50, py "L"); (40, py "XL");
   (10, py "X"); (9, py "IX"); (5, py "V"); (4, py "IV"); (1, py "I")].

Definition to_roman (n : nat) : pystr :=
  fst (fold_left
         (fun (acc : pystr * nat) (vs : nat * pystr) =>
            let '(result, n) := acc in
            let '(v, s) := vs in
            roman_while n n v s result)
         roman_vals ([], n)).

(** [chr(i)]: the character of code point [i]; [None] is the
    [ValueError] that [chr] raises above code point 0x10FFFF. *)
Definition chr (i : nat) : option char :=
  if (N.of_nat i <=? 0x10FFFF)%N then Some (N.of_nat i) else None.

(** [chr(64 + n)], a string of one character. *)
Definition to_letter (n : nat) : option pystr :=
  match chr (64 + n) with
  | Some c => Some [c]
  | None => None
  end.

(** The value of an expression that may raise, where it does not.  Where
    it raises, the build ends there ([build_raises] below) and nothing of
    what is built is seen. *)
Definition value (o : option pystr) : pystr :=
  match o with Some v => v | None => [] end.

(* ====================================================================== *)
(** * The transliterator *)
(* ====================================================================== *)

Local Open Scope N_scope.

Definition LATEX_GLYPHS : list (pystr * pystr) := [
  (py "\alpha", [0x03B1]);
  (py "\beta", [0x03B2]);
  (py "\gamma", [0x03B3]);
  (py "\delta", [0x03B4]);
  (py "\epsilon", [0x03B5]);
  (py "\varepsilon", [0x03B5]);
  (py "\zeta", [0x03B6]);
  (py "\eta", [0x03B7]);
  (py "\theta", [0x03B8]);
  (py "\iota", [0x03B9]);
  (py "\kappa", [0x03BA]);
  (py "\lambda", [0x03BB]);
  (py "\mu", [0x03BC]);
  (py "\nu", [0x03BD]);
  (py "\xi", [0x03BE]);
  (py "\pi", [0x03C0]);
  (py "\rho", [0x03C1]);
  (py "\sigma", [0x03C3]);
  (py "\tau", [0x03C4]);
  (py "\upsilon", [0x03C5]);
  (py "\phi", [0x03C6]);
  (py "\varphi", [0x03C6]);
  (py "\chi", [0x03C7]);
  (py "\psi", [0x03C8]);
  (py "\omega", [0x03C9]);
  (py "\Gamma", [0x0393]);
  (py "\Delta", [0x0394]);
  (py "\Theta", [0x0398]);
  (py "\Lambda", [0x039B]);
  (py "\Xi", [0x039E]);
  (py "\Pi", [0x03A0]);
  (py "\Sigma", [0x03A3]);
  (py "\Phi", [0x03A6]);
  (py "\Psi", [0x03A8]);
  (py "\Omega", [0x03A9]);
  (py "\cdot", [0x00B7]);
  (py "\times", [0x00D7]);
  (py "\div", [0x00F7]);
  (py "\pm", [0x00B1]);
  (py "\mp", [0x2213]);
  (py "\leq", [0x2264]);
  (py "\geq", [0x2265]);
  (py "\neq", [0x2260]);
  (py "\approx", [0x2248]);
  (py "\equiv", [0x2261]);
  (py "\sim", [0x223C]);
  (py "\propto", [0x221D]);
  (py "\in", [0x2208]);
  (py "\notin", [0x2209]);
  (py "\subset", [0x2282]);
  (py "\supset", [0x2283]);
  (py "\cup", [0x222A]);
  (py "\cap", [0x2229]);
  (py "\emptyset", [0x2205]);
  (py "\infty", [0x221E]);
  (py "\partial", [0x2202]);
  (py "\nabla", [0x2207]);
  (py "\forall", [0x2200]);
  (py "\exists", [0x2203]);
  (py "\rightarrow", [0x2192]);
  (py "\leftarrow", [0x2190]);
  (py "\Rightarrow", [0x21D2]);
  (py "\Leftarrow", [0x21D0]);
  (py "\leftrightarrow", [0x2194]);
  (py "\Leftrightarrow", [0x21D4]);
  (py "\mapsto", [0x21A6]);
  (py "\int", [0x222B]);
  (py "\iint", [0x222C]);
  (py "\iiint", [0x222D]);
  (py "\oint", [0x222E]);
  (py "\sum", [0x2211]);
  (py "\prod", [0x220F]);
  (py "\ldots", [0x2026]);
  (py "\dots", [0x2026]);
  (py "\cdots", [0x22EF]);
  (py "\prime", [0x2032]);
  (py "\neg", [0x00AC]);
  (py "\wedge", [0x2227]);
  (py "\vee", [0x2228]);
  (py "\oplus", [0x2295]);
  (py "\otimes", [0x2297]);
  (py "\dagger", [0x2020]);
  (py "\ddagger", [0x2021]);
  (py "\ell", [0x2113]);
  (py "\hbar", [0x210F]);
  (py "\quad", [0x2003]);
  (py "\qquad", [0x2003; 0x2003])
].

(** The elements of the set [LATEX_FUNCTIONS], in the order of the
    source text. *)
Definition LATEX_FUNCTIONS : list pystr := [
  py "\tanh"; py "\cosh"; py "\sinh"; py "\sin";
  py "\cos"; py "\tan"; py "\log"; py "\ln";
  py "\exp"; py "\lim"; py "\max"; py "\min";
  py "\sup"; py "\inf"; py "\det"; py "\dim";
  py "\ker"; py "\arg"; py "\deg"; py "\gcd";
  py "\hom"; py "\sec"; py "\csc"; py "\cot";
  py "\arcsin"; py "\arccos"; py "\arctan"
].

Definition _MATHBB : list (pystr * pystr) := [
  (py "A", [0x1D538]);
  (py "B", [0x1D539]);
  (py "C", [0x2102]);
  (py "D", [0x1D53B]);
  (py "E", [0x1D53C]);
  (py "F", [0x1D53D]);
  (py "G", [0x1D53E]);
  (py "H", [0x210D]);
  (py "I", [0x1D540]);
  (py "J", [0x1D541]);
  (py "K", [0x1D542]);
  (py "L", [0x1D543]);
  (py "M", [0x1D544]);
  (py "N", [0x2115]);
  (py "O", [0x1D546]);
  (py "P", [0x2119]);
  (py "Q", [0x211A]);
  (py "R", [0x211D]);
  (py "S", [0x1D54A]);
  (py "T", [0x1D54B]);
  (py "U", [0x1D54C]);
  (py "V", [0x1D54D]);
  (py "W", [0x1D54E]);
  (py "X", [0x1D54F]);
  (py "Y", [0x1D550]);
  (py "Z", [0x2124])
].

Local Close Scope N_scope.

(** [d.get(k, default)] on a table with string keys. *)
Fixpoint dict_get (d : list (pystr * pystr)) (k default : pystr) : pystr :=
  match d with
  | [] => default
  | (k', v) :: d' => if str_eqb k' k then v else dict_get d' k default
  end.

(** [sorted(keys, key=len, reverse=True)]: the sort is stable, keys of
    equal length keep their order. *)
Fixpoint insert_by_len_desc (x : pystr) (l : list pystr) : list pystr :=
  match l with
  | [] => [x]
  | y :: l' =>
      if length y <? length x then x :: l else y :: insert_by_len_desc x l'
  end.

Definition sorted_by_len_desc (keys : list pystr) : list pystr :=
  fold_left (fun acc x => insert_by_len_desc x acc) keys [].

(** Pattern "\\\\([a-zA-Z])": two backslashes before a letter. *)
Definition re_double_backslash : regex :=
  seqs [Chr c_backslash; Chr c_backslash; Grp 1 (Cls is_alpha)].

(** Pattern "\\text\{(" "[^}]*" ")\}": the group is a run of
    characters other than the closing brace. *)
Definition not_rbrace (c : char) : bool := negb (chr_eqb c c_rbrace).
Definition re_text : regex :=
  seqs [Lit (py "\text{"); Grp 1 (Star (Cls not_rbrace)); Chr c_rbrace].

(** Pattern "\\mathbb\{([A-Z])\}". *)
Definition re_mathbb : regex :=
  seqs [Lit (py "\mathbb{"); Grp 1 (Cls is_upper_AZ); Chr c_rbrace].

(** Pattern "\\frac\{(ARG)\}\{(ARG)\}" where ARG is a repetition of
    "(?:[^{}]|\{[^{}]*\})": a character that is no brace, or a brace
    group without braces inside. *)
Definition not_brace (c : char) : bool :=
  negb (chr_eqb c c_lbrace || chr_eqb c c_rbrace).
Definition re_frac_arg : regex :=
  Star (Alt (Cls not_brace)
            (seqs [Chr c_lbrace; Star (Cls not_brace); Chr c_rbrace])).
Definition re_frac : regex :=
  seqs [Lit (py "\frac{"); Grp 1 re_frac_arg; Chr c_rbrace;
        Chr c_lbrace; Grp 2 re_frac_arg; Chr c_rbrace].

(** Pattern [re.escape(func)] followed by "(?![a-zA-Z])". *)
Definition re_func (func : pystr) : regex :=
  Seq (Lit func) (NotAhead (Cls is_alpha)).

(** Pattern "(?<!\$)\$(?!\$)(.+?)(?<!\$)\$(?!\$)". *)
Definition is_dollar (c : char) : bool := chr_eqb c c_dollar.
Definition re_inline_math : regex :=
  seqs [NotBehind is_dollar; Chr c_dollar; NotAhead (Chr c_dollar);
        Grp 1 (PlusLazy Any);
        NotBehind is_dollar; Chr c_dollar; NotAhead (Chr c_dollar)].

Section Transliterator.

Variable rt : runtime.

Definition _resolve_latex_commands (text : pystr) : pystr :=
  let text :=
    sub re_double_backslash (fun m => c_backslash :: group_or_empty 1 m) text in
  let text := sub re_text (group_or_empty 1) text in
  let mathbb_replace (m : mstate) :=
    let char := group_or_empty 1 m in
    dict_get _MATHBB char char in
  let text := sub re_mathbb mathbb_replace text in
  let text :=
    sub re_frac
        (fun m => py "(" ++ group_or_empty 1 m ++ py ")/("
                  ++ group_or_empty 2 m ++ py ")") text in
  let text :=
    fold_left
      (fun text func =>
         let name := slice_from 1 func in
         sub (re_func func) (fun _ => name) text)
      (set_order rt) text in
  let text :=
    fold_left
      (fun text cmd => replace cmd (dict_get LATEX_GLYPHS cmd []) text)
      (sorted_by_len_desc (map fst LATEX_GLYPHS)) text in
  text.

Definition resolve_latex (text : pystr) : pystr :=
  let text :=
    sub re_double_backslash (fun m => c_backslash :: group_or_empty 1 m) text in
  let resolve_inline_math (m : mstate) :=
    let inner := group_or_empty 1 m in
    let inner := _resolve_latex_commands inner in
    let inner := replace (py " ") NBSP inner in
    inner in
  let text := sub re_inline_math resolve_inline_math text in
  let text := _resolve_latex_commands text in
  text.

End Transliterator.


(* ====================================================================== *)
(** * The parsed document *)
(* ====================================================================== *)

(** The dict that [parse_markdown] returns and [build_document] reads.  A
    content item is a [str], or the tuple [("equation", body)]. *)
Record author : Type := Author {
  a_name : pystr;
  a_lines : list pystr
}.

Inductive content_item : Type :=
| PlainText (text : pystr)
| Equation (latex : pystr).

Record sec : Type := Sec {
  level : nat;
  heading : pystr;
  number : nat;
  content : list content_item
}.

Record parsed_document : Type := Parsed {
  title : pystr;
  authors : list author;
  abstract : list pystr;
  keywords : pystr;
  sections : list sec;
  references : list pystr
}.

(* ====================================================================== *)
(** * Document builder: runs and paragraphs *)
(* ====================================================================== *)

Definition xappend_if (b : bool) (e child : xml) : xml :=
  if b then xappend e child else e.

(** [make_run(text, size, bold, italic, small_caps, subscript,
    superscript, font)]; the keyword defaults of the source are
    [BODY_PT], [False] five times, and [FONT]. *)
Definition make_run (text : pystr) (size : N)
  (bold italic small_caps subscript superscript : bool) (font : pystr) : xml :=
  let run := OxmlElement "w:r" in
  let rPr := OxmlElement "w:rPr" in
  let rFonts := OxmlElement "w:rFonts" in
  let rFonts := xset rFonts "w:ascii" font in
  let rFonts := xset rFonts "w:hAnsi" font in
  let rFonts := xset rFonts "w:cs" font in
  let rPr := xappend rPr rFonts in
  let sz := OxmlElement "w:sz" in
  let sz := xset sz "w:val" (str_N (size * 2)) in
  let rPr := xappend rPr sz in
  let szCs := OxmlElement "w:szCs" in
  let szCs := xset szCs "w:val" (str_N (size * 2)) in
  let rPr := xappend rPr szCs in
  let rPr := xappend_if bold rPr (OxmlElement "w:b") in
  let rPr := xappend_if bold rPr (OxmlElement "w:bCs") in
  let rPr := xappend_if italic rPr (OxmlElement "w:i") in
  let rPr := xappend_if italic rPr (OxmlElement "w:iCs") in
  let rPr := xappend_if small_caps rPr (OxmlElement "w:smallCaps") in
  let rPr :=
    xappend_if subscript rPr
      (xset (OxmlElement "w:vertAlign") "w:val" (py "subscript")) in
  let rPr :=
    xappend_if superscript rPr
      (xset (OxmlElement "w:vertAlign") "w:val" (py "superscript")) in
  let run := xappend run rPr in
  let t := OxmlElement "w:t" in
  let t := xset t "xml:space" (py "preserve") in
  let t := xset_text t text in
  let run := xappend run t in
  run.

(** Pattern "([_^])\{([^}]*" ")\}|([_^])([^\s{}_^])". *)
Definition is_marker (c : char) : bool :=
  chr_eqb c c_underscore || chr_eqb c c_caret.
Definition is_single_script (c : char) : bool :=
  negb (isspace c || chr_eqb c c_lbrace || chr_eqb c c_rbrace
        || chr_eqb c c_underscore || chr_eqb c c_caret).
Definition re_subsup : regex :=
  Alt (seqs [Grp 1 (Cls is_marker); Chr c_lbrace;
             Grp 2 (Star (Cls not_rbrace)); Chr c_rbrace])
      (seqs [Grp 3 (Cls is_marker); Grp 4 (Cls is_single_script)]).

(** Truth value of [m.group(n)]: false for [None] and for [""]. *)
Definition truthy (o : option pystr) : bool :=
  match o with Some (_ :: _) => true | _ => false end.

Definition or_none (o : option pystr) : pystr :=
  match o with Some s => s | None => [] end.

(** The scan of [parse_math_text] over the transliterated [text]: plain
    runs between the matches, a subscript or superscript run per match. *)
Definition script_runs (text : pystr) (size : N) (bold italic : bool)
  (font : pystr) : list xml :=
  let base (t : pystr) (subscript superscript : bool) :=
    make_run t size bold italic false subscript superscript font in
  let '(runs, pos) :=
    fold_left
      (fun (acc : list xml * nat) (m : match_obj) =>
         let '(runs, pos) := acc in
         let runs :=
           if pos <? mo_start m then
             let preceding := slice pos (mo_start m) text in
             match preceding with
             | [] => runs
             | _ => runs ++ [base preceding false false]
             end
           else runs in
         let g := fun n => group n (mo_caps m) in
         let marker := if truthy (g 1) then g 1 else g 3 in
         let content := if truthy (g 1) then g 2 else g 4 in
         let is_sub :=
           match marker with
           | Some s => str_eqb s (py "_")
           | None => false
           end in
         let runs := runs ++ [base (or_none content) is_sub (negb is_sub)] in
         (runs, mo_end m))
      (finditer re_subsup text) ([], 0) in
  let runs :=
    if pos <? length text then
      let remaining := slice_from pos text in
      match remaining with
      | [] => runs
      | _ => runs ++ [base remaining false false]
      end
    else runs in
  let runs :=
    match runs with
    | [] => [base text false false]
    | _ => runs
    end in
  runs.

(** [parse_math_text(text, size, bold, italic, font)]. *)
Definition parse_math_text (rt : runtime) (text : pystr) (size : N)
  (bold italic : bool) (font : pystr) : list xml :=
  let text := resolve_latex rt text in
  script_runs text size bold italic font.

(** [align_map.get(align, "both")]. *)
Definition align_map (align : string) : pystr :=
  if String.eqb align "justify" then py "both"
  else if String.eqb align "center" then py "center"
  else if String.eqb align "left" then py "start"
  else if String.eqb align "right" then py "end"
  else py "both".

Definition is_some {A} (o : option A) : bool :=
  match o with Some _ => true | None => false end.

(** [make_paragraph(runs, align, space_before, space_after, first_indent,
    left_indent, hanging, keep_next, line_spacing, line_rule, tab_stops)];
    the keyword defaults of the source are ["justify"], [0], [80], [None]
    three times, [False], [228], ["auto"] and [None].  A single run passed
    for [runs] is the one-element list; [tab_stops=None] is the empty
    list. *)
Definition make_paragraph (runs : list xml) (align : string)
  (space_before space_after : N) (first_indent left_indent hanging : option N)
  (keep_next : bool) (line_spacing : option N) (line_rule : string)
  (tab_stops : list (N * string)) : xml :=
  let p := OxmlElement "w:p" in
  let pPr := OxmlElement "w:pPr" in
  let pPr := xappend_if keep_next pPr (OxmlElement "w:keepNext") in
  let pPr :=
    match tab_stops with
    | [] => pPr
    | _ =>
        let tabs :=
          fold_left
            (fun tabs (ps : N * string) =>
               let '(pos, align_type) := ps in
               let tab := OxmlElement "w:tab" in
               let tab := xset tab "w:val" (py align_type) in
               let tab := xset tab "w:pos" (str_N pos) in
               xappend tabs tab)
            tab_stops (OxmlElement "w:tabs") in
        xappend pPr tabs
    end in
  let spacing := OxmlElement "w:spacing" in
  let spacing := xset spacing "w:before" (str_N space_before) in
  let spacing := xset spacing "w:after" (str_N space_after) in
  let spacing :=
    match line_spacing with
    | Some ls =>
        let spacing := xset spacing "w:line" (str_N ls) in
        xset spacing "w:lineRule" (py line_rule)
    | None => spacing
    end in
  let pPr := xappend pPr spacing in
  let pPr :=
    if is_some first_indent || is_some left_indent || is_some hanging then
      let ind := OxmlElement "w:ind" in
      let ind :=
        match first_indent, hanging with
        | Some fi, None => xset ind "w:firstLine" (str_N fi)
        | _, _ => ind
        end in
      let ind :=
        match left_indent with
        | Some li => xset ind "w:left" (str_N li)
        | None => ind
        end in
      let ind :=
        match hanging with
        | Some h => xset ind "w:hanging" (str_N h)
        | None => ind
        end in
      xappend pPr ind
    else pPr in
  let jc := OxmlElement "w:jc" in
  let jc := xset jc "w:val" (align_map align) in
  let pPr := xappend pPr jc in
  let p := xappend p pPr in
  let p := fold_left xappend runs p in
  p.

(* ====================================================================== *)
(** * Document builder: section properties *)
(* ====================================================================== *)

Definition make_pgSz : xml :=
  let pgSz := OxmlElement "w:pgSz" in
  let pgSz := xset pgSz "w:w" (str_N PAGE_W_TWIPS) in
  let pgSz := xset pgSz "w:h" (str_N PAGE_H_TWIPS) in
  pgSz.

Definition make_pgMar : xml :=
  let pgMar := OxmlElement "w:pgMar" in
  let pgMar := xset pgMar "w:top" (str_N MARGIN_TOP_TWIPS) in
  let pgMar := xset pgMar "w:right" (str_N MARGIN_LR_TWIPS) in
  let pgMar := xset pgMar "w:bottom" (str_N MARGIN_BOTTOM_TWIPS) in
  let pgMar := xset pgMar "w:left" (str_N MARGIN_LR_TWIPS) in
  let pgMar := xset pgMar "w:header" (py "720") in
  let pgMar := xset pgMar "w:footer" (py "720") in
  let pgMar := xset pgMar "w:gutter" (py "0") in
  pgMar.

Definition make_docGrid : xml :=
  xset (OxmlElement "w:docGrid") "w:linePitch" (py "360").

(** The [w:sectPr] that [inject_continuous_two_col_section_break] builds:
    [w:cols] with [num] 1, and no [w:type]. *)
Definition two_col_break_sectPr : xml :=
  let sectPr := OxmlElement "w:sectPr" in
  let sectPr := xappend sectPr make_pgSz in
  let sectPr := xappend sectPr make_pgMar in
  let cols := OxmlElement "w:cols" in
  let cols := xset cols "w:space" (str_N COL_SPACE_TWIPS) in
  let cols := xset cols "w:num" (py "1") in
  let sectPr := xappend sectPr cols in
  let sectPr := xappend sectPr make_docGrid in
  sectPr.

(** Its separator paragraph, which carries the section properties only. *)
Definition two_col_break_paragraph : xml :=
  let p := OxmlElement "w:p" in
  let pPr := OxmlElement "w:pPr" in
  let pPr := xappend pPr two_col_break_sectPr in
  let p := xappend p pPr in
  p.

(** [inject_continuous_two_col_section_break(body, insert_before_element)]
    with [insert_before_element] the child of [body] at index [target]. *)
Definition inject_continuous_two_col_section_break (body : list xml)
  (target : nat) : list xml :=
  addprevious_at target two_col_break_paragraph body.

(** The [w:sectPr] that [inject_section_break] builds. *)
Definition section_break_sectPr (num_cols : nat) (col_space : N)
  (continuous : bool) : xml :=
  let sectPr := OxmlElement "w:sectPr" in
  let sectPr :=
    if continuous then
      let sect_type := OxmlElement "w:type" in
      let sect_type := xset sect_type "w:val" (py "continuous") in
      xappend sectPr sect_type
    else sectPr in
  let sectPr := xappend sectPr make_pgSz in
  let sectPr := xappend sectPr make_pgMar in
  let cols := OxmlElement "w:cols" in
  let cols := xset cols "w:num" (str_nat num_cols) in
  let cols := xset cols "w:space" (str_N col_space) in
  let cols :=
    if 1 <? num_cols then xset cols "w:equalWidth" (py "1") else cols in
  let sectPr := xappend sectPr cols in
  let sectPr := xappend sectPr make_docGrid in
  sectPr.

(** Its separator paragraph. *)
Definition section_break_paragraph (num_cols : nat) (col_space : N)
  (continuous : bool) : xml :=
  let p := OxmlElement "w:p" in
  let pPr := OxmlElement "w:pPr" in
  let pPr := xappend pPr (section_break_sectPr num_cols col_space continuous) in
  let p := xappend p pPr in
  p.

(** [inject_section_break(body, insert_before_element, num_cols,
    col_space, continuous)] with [insert_before_element] the child of
    [body] at index [target]. *)
Definition inject_section_break (body : list xml) (target : nat)
  (num_cols : nat) (col_space : N) (continuous : bool) : list xml :=
  addprevious_at target (section_break_paragraph num_cols col_space continuous)
                 body.

(** The soft line break run of [make_author_paragraph]. *)
Definition br_run (size : N) : xml :=
  let br_run := OxmlElement "w:r" in
  let br_rPr := OxmlElement "w:rPr" in
  let sz := OxmlElement "w:sz" in
  let sz := xset sz "w:val" (str_N (size * 2)) in
  let br_rPr := xappend br_rPr sz in
  let szCs := OxmlElement "w:szCs" in
  let szCs := xset szCs "w:val" (str_N (size * 2)) in
  let br_rPr := xappend br_rPr szCs in
  let br_run := xappend br_run br_rPr in
  let br_run := xappend br_run (OxmlElement "w:br") in
  br_run.

(** [make_author_paragraph(author, size=AUTHOR_AFFIL_PT)]. *)
Definition make_author_paragraph (a : author) (size : N) : xml :=
  let runs := [make_run (a_name a) size false false false false false FONT] in
  let runs :=
    fold_left
      (fun runs line_text =>
         let runs := runs ++ [br_run size] in
         runs ++ [make_run line_text size false true false false false FONT])
      (a_lines a) runs in
  make_paragraph runs "center" 0 40 None None None false (Some 228%N) "auto" [].

(** The [w:sectPr] that [set_final_section_two_col] builds. *)
Definition final_sectPr : xml :=
  let sectPr := OxmlElement "w:sectPr" in
  let sect_type := OxmlElement "w:type" in
  let sect_type := xset sect_type "w:val" (py "continuous") in
  let sectPr := xappend sectPr sect_type in
  let sectPr := xappend sectPr make_pgSz in
  let sectPr := xappend sectPr make_pgMar in
  let cols := OxmlElement "w:cols" in
  let cols := xset cols "w:num" (py "2") in
  let cols := xset cols "w:space" (str_N COL_SPACE_TWIPS) in
  let cols := xset cols "w:equalWidth" (py "1") in
  let sectPr := xappend sectPr cols in
  let sectPr := xappend sectPr make_docGrid in
  sectPr.

(** [set_final_section_two_col(doc)], on the children of [doc]'s body. *)
Definition set_final_section_two_col (body : list xml) : list xml :=
  let body :=
    match xfind "w:sectPr" body with
    | Some _ => remove_first "w:sectPr" body
    | None => body
    end in
  body ++ [final_sectPr].

(* ====================================================================== *)
(** * Document builder: [build_document] *)
(* ====================================================================== *)

(** [range(start, stop, step)] for [step > 0], as the loop it abbreviates;
    it yields at most [stop] values, which is the fuel. *)
Fixpoint range_go (fuel start stop step : nat) : list nat :=
  match fuel with
  | O => []
  | S fuel' =>
      if start <? stop then start :: range_go fuel' (start + step) stop step
      else []
  end.

Definition py_range (start stop step : nat) : list nat :=
  range_go stop start stop step.

(** Pattern "^[A-Za-z0-9]+\.\s*". *)
Definition re_heading_prefix : regex :=
  seqs [Bol; Plus (Cls is_alnum); Chr c_dot; Star (Cls isspace)].

(** Patterns "^[-*]\s" and "^[-*]\s+". *)
Definition is_bullet_marker (c : char) : bool :=
  chr_eqb c c_minus || chr_eqb c c_star.
Definition re_bullet : regex :=
  seqs [Bol; Cls is_bullet_marker; Cls isspace].
Definition re_bullet_strip : regex :=
  seqs [Bol; Cls is_bullet_marker; Plus (Cls isspace)].

(** Pattern "^\*\*(.+?)\*\*\s*(.*" ")". *)
Definition re_bold_label : regex :=
  seqs [Bol; Chr c_star; Chr c_star; Grp 1 (PlusLazy Any);
        Chr c_star; Chr c_star; Star (Cls isspace); Grp 2 (Star Any)].

(** A run that holds one [w:tab]. *)
Definition tab_run : xml := xappend (OxmlElement "w:r") (OxmlElement "w:tab").

(** The bullet run of a list item. *)
Definition bullet_run : xml :=
  let bullet_run := OxmlElement "w:r" in
  let bRPr := OxmlElement "w:rPr" in
  let brf := OxmlElement "w:rFonts" in
  let brf := xset brf "w:ascii" FONT in
  let brf := xset brf "w:hAnsi" FONT in
  let brf := xset brf "w:cs" FONT in
  let bRPr := xappend bRPr brf in
  let bsz := OxmlElement "w:sz" in
  let bsz := xset bsz "w:val" (str_N (BODY_PT * 2)) in
  let bRPr := xappend bRPr bsz in
  let bszCs := OxmlElement "w:szCs" in
  let bszCs := xset bszCs "w:val" (str_N (BODY_PT * 2)) in
  let bRPr := xappend bRPr bszCs in
  let bullet_run := xappend bullet_run bRPr in
  let bt := OxmlElement "w:t" in
  let bt := xset_text bt [0x2022%N] in
  let bullet_run := xappend bullet_run bt in
  bullet_run.

Definition nonempty (s : pystr) : bool :=
  match s with [] => false | _ => true end.

Section Builder.

Variable rt : runtime.

(** Pattern "^(\d+)\.\s+\*\*(.+?)\*\*\s*(.*" ")". *)
Definition re_list_label : regex :=
  seqs [Bol; Grp 1 (Plus (Cls (unicode_Nd rt))); Chr c_dot;
        Plus (Cls isspace); Chr c_star; Chr c_star; Grp 2 (PlusLazy Any);
        Chr c_star; Chr c_star; Star (Cls isspace); Grp 3 (Star Any)].

(** The heading paragraph of a section, if its level has one. *)
Definition heading_paragraph (s : sec) : option xml :=
  if level s =? 1 then
    let heading := heading s in
    let heading := sub re_heading_prefix (fun _ => []) heading in
    let display := to_roman (number s) ++ py ". " ++ heading in
    Some (make_paragraph
            [make_run display H1_PT false false true false false FONT]
            "center" 160 80 None None None true (Some 228%N) "auto" [])
  else if level s =? 2 then
    let heading := heading s in
    let heading := sub re_heading_prefix (fun _ => []) heading in
    let display := value (to_letter (number s)) ++ py ". " ++ heading in
    Some (make_paragraph
            [make_run display H2_PT false true false false false FONT]
            "left" 120 60 None None None true (Some 228%N) "auto" [])
  else None.

(** The paragraph of a display equation numbered [equation_counter]. *)
Definition equation_paragraph (latex : pystr) (equation_counter : nat) : xml :=
  let eq_text := strip_markdown latex in
  let eq_text := resolve_latex rt eq_text in
  let eq_text := replace (py " ") NBSP eq_text in
  let tab1 := tab_run in
  let tab2 := tab_run in
  make_paragraph
    ([tab1]
     ++ parse_math_text rt eq_text BODY_PT false false FONT
     ++ [tab2;
         make_run (py "(" ++ str_nat equation_counter ++ py ")")
                  BODY_PT false false false false false FONT])
    "left" 240 240 None None None false (Some 228%N) "auto"
    [(2520%N, "center"%string); (5040%N, "end"%string)].

(** The last two rules of the content loop: a bullet item, else a
    regular paragraph; [None] where the loop body reaches [continue]
    without appending. *)
Definition bullet_or_regular (para_text : pystr) : option xml :=
  if is_some (re_match re_bullet para_text) then
    let item :=
      strip_markdown (sub re_bullet_strip (fun _ => []) para_text) in
    Some (make_paragraph
            ([bullet_run; tab_run]
             ++ parse_math_text rt item BODY_PT false false FONT)
            "justify" 0 40 None (Some 576%N) (Some 288%N)
            false (Some 228%N) "auto" [])
  else
    let cleaned := strip_markdown para_text in
    if negb (nonempty (strip cleaned)) then None
    else
      Some (make_paragraph
              (parse_math_text rt cleaned BODY_PT false false FONT)
              "justify" 0 120 (Some BODY_FIRST_INDENT) None None
              false (Some 228%N) "auto" []).

(** The paragraph of a plain content item: block quote, numbered item
    with a bold label, bold label, then the rules above. *)
Definition text_paragraph (para_text : pystr) : option xml :=
  if startswith (py "> ") para_text then
    let quote := strip_markdown (slice_from 2 para_text) in
    Some (make_paragraph
            (parse_math_text rt quote BODY_PT false true FONT)
            "justify" 0 120 None (Some Inches_0_2) None
            false (Some 228%N) "auto" [])
  else
    match re_match re_list_label para_text with
    | Some list_match =>
        let num := group_or_empty 1 list_match in
        let label := group_or_empty 2 list_match in
        let rest := group_or_empty 3 list_match in
        let rest := strip_markdown rest in
        Some (make_paragraph
                [make_run (num ++ py ". ") BODY_PT
                          false false false false false FONT;
                 make_run (label ++ py " ") BODY_PT
                          true false false false false FONT;
                 make_run rest BODY_PT false false false false false FONT]
                "justify" 0 120 None (Some Inches_0_25) (Some Inches_0_25)
                false (Some 228%N) "auto" [])
    | None =>
        let bold_match := re_match re_bold_label para_text in
        match bold_match with
        | Some m =>
            if truthy (group 2 (m_caps m)) then
              let label := group_or_empty 1 m in
              let rest := group_or_empty 2 m in
              let rest := strip_markdown rest in
              Some (make_paragraph
                      ([make_run (label ++ py " ") BODY_PT
                                 true false false false false FONT]
                       ++ parse_math_text rt rest BODY_PT false false FONT)
                      "justify" 0 120 (Some BODY_FIRST_INDENT) None None
                      false (Some 228%N) "auto" [])
            else bullet_or_regular para_text
        | None => bullet_or_regular para_text
        end
    end.

Definition append_opt (body : list xml) (p : option xml) : list xml :=
  match p with Some x => body ++ [x] | None => body end.

(** One turn of [for para_text in sec["content"]], on the body and the
    equation counter. *)
Definition content_step (st : list xml * nat) (item : content_item)
  : list xml * nat :=
  let '(body, equation_counter) := st in
  match item with
  | Equation latex =>
      let equation_counter := equation_counter + 1 in
      (body ++ [equation_paragraph latex equation_counter], equation_counter)
  | PlainText para_text =>
      (append_opt body (text_paragraph para_text), equation_counter)
  end.

(** One turn of [for sec in parsed["sections"]]. *)
Definition section_step (st : list xml * nat) (s : sec) : list xml * nat :=
  let '(body, equation_counter) := st in
  let body := append_opt body (heading_paragraph s) in
  fold_left content_step (content s) (body, equation_counter).

(** The title paragraph. *)
Definition title_paragraph (parsed : parsed_document) : xml :=
  make_paragraph
    [make_run (title parsed) TITLE_PT false false false false false FONT]
    "center" 0 120 None None None false (Some 228%N) "auto" [].

(** One turn of [for row_start in range(0, num_authors, max_cols_per_row)]:
    the row's paragraphs are appended, then the section break is put
    before the first of them. *)
Definition author_row_step (authors : list author) (max_cols_per_row : nat)
  (body : list xml) (row_start : nat) : list xml :=
  let row_authors := slice row_start (row_start + max_cols_per_row) authors in
  let ncols := length row_authors in
  let author_paras :=
    map (fun a => make_author_paragraph a AUTHOR_AFFIL_PT) row_authors in
  let first_para := length body in
  let body := body ++ author_paras in
  inject_section_break body first_para ncols AUTHOR_COL_SPACE_TWIPS true.

(** The author block: nothing for no author, centred paragraphs for one,
    rows of columns for more. *)
Definition author_block (authors : list author) (body : list xml) : list xml :=
  let num_authors := length authors in
  if num_authors =? 0 then body
  else if num_authors =? 1 then
    match authors with
    | [] => body
    | author :: _ =>
        let body :=
          body ++ [make_paragraph
                     [make_run (a_name author) AUTHOR_PT
                               false false false false false FONT]
                     "center" 0 40 None None None
                     false (Some 228%N) "auto" []] in
        fold_left
          (fun body affil_line =>
             body ++ [make_paragraph
                        [make_run affil_line AFFIL_PT
                                  false true false false false FONT]
                        "center" 0 40 None None None
                        false (Some 228%N) "auto" []])
          (a_lines author) body
    end
  else
    let max_cols_per_row := Nat.min num_authors 4 in
    fold_left (author_row_step authors max_cols_per_row)
              (py_range 0 num_authors max_cols_per_row) body.

(** The abstract paragraph. *)
Definition abstract_paragraph (parsed : parsed_document) : xml :=
  let abstract_text := strip_markdown (join (py " ") (abstract parsed)) in
  let abstract_runs :=
    [make_run (py "Abstract") ABSTRACT_PT true true false false false FONT;
     make_run [0x2014%N] ABSTRACT_PT true false false false false FONT]
    ++ parse_math_text rt abstract_text ABSTRACT_PT true false FONT in
  make_paragraph abstract_runs "justify" 360 200
                 (Some ABSTRACT_FIRST_INDENT) None None
                 false (Some 228%N) "auto" [].

(** The keywords paragraph. *)
Definition keywords_paragraph (parsed : parsed_document) : xml :=
  make_paragraph
    [make_run (py "Keywords" ++ [0x2014%N]) KEYWORDS_PT
              true true false false false FONT;
     make_run (keywords parsed) KEYWORDS_PT true true false false false FONT]
    "justify" 0 120 (Some KEYWORDS_FIRST_INDENT) None None
    false (Some 228%N) "auto" [].

(** One turn of [for i, ref_text in enumerate(parsed["references"])]. *)
Definition reference_paragraph (i : nat) (ref_text : pystr) : xml :=
  let ref_text := strip_markdown ref_text in
  make_paragraph
    [make_run (py "[" ++ str_nat (i + 1) ++ py "]" ++ NBSP) REF_PT
              false false false false false FONT;
     make_run ref_text REF_PT false false false false false FONT]
    "justify" 0 50 None (Some REF_INDENT_TWIPS) (Some REF_INDENT_TWIPS)
    false (Some 180%N) "exact" [].

Fixpoint enumerate_from {A} (i : nat) (xs : list A) : list (nat * A) :=
  match xs with
  | [] => []
  | x :: xs' => (i, x) :: enumerate_from (S i) xs'
  end.

(** [build_document(parsed)]: the children of the body of the document it
    returns. *)
Definition build_document (parsed : parsed_document) : list xml :=
  let body := template_body rt in
  let body := remove_all "w:p" body in
  (* title *)
  let body := body ++ [title_paragraph parsed] in
  (* authors *)
  let body := author_block (authors parsed) body in
  (* abstract, and the section break before it *)
  let abstract_para := length body in
  let body := body ++ [abstract_paragraph parsed] in
  let body := inject_continuous_two_col_section_break body abstract_para in
  (* keywords *)
  let body :=
    if nonempty (keywords parsed) then body ++ [keywords_paragraph parsed]
    else body in
  (* body sections *)
  let equation_counter := 0 in
  let '(body, equation_counter) :=
    fold_left section_step (sections parsed) (body, equation_counter) in
  (* references *)
  let body :=
    body ++ [make_paragraph
               [make_run (py "References") H1_PT
                         false false true false false FONT]
               "center" 200 80 None None None false (Some 228%N) "auto" []] in
  let body :=
    fold_left
      (fun body (ir : nat * pystr) =>
         let '(i, ref_text) := ir in
         body ++ [reference_paragraph i ref_text])
      (enumerate_from 0 (references parsed)) body in
  set_final_section_two_col body.

(** The texts that [make_run] has written into the body: the text of the
    [w:t] children of the runs of its paragraphs. *)
Definition written_texts (body : list xml) : list pystr :=
  flat_map
    (fun p =>
       flat_map
         (fun r =>
            flat_map
              (fun t => match text_of t with Some s => [s] | None => [] end)
              (filter (has_tag "w:t") (children_of r)))
         (filter (has_tag "w:r") (children_of p)))
    (filter (has_tag "w:p") body).

(** Whether [build_document(parsed)] raises instead of returning: the
    heading of a section of level 2 asks for a letter that [chr] does not
    have, or one of the texts handed to [make_run] is refused by lxml.
    Every run that [make_run] returns is put into a paragraph of the
    body, so these texts are the ones written into the body that is
    built when none is refused. *)
Definition build_raises (parsed : parsed_document) : bool :=
  existsb (fun s => (level s =? 2) && negb (is_some (to_letter (number s))))
          (sections parsed)
  || negb (forallb xml_compatible (written_texts (build_document parsed))).

End Builder.


(* ====================================================================== *)
(** * Markdown parser *)
(* ====================================================================== *)

(** A literal character of a pattern compiled with [re.IGNORECASE]: a
    letter matches both of its cases, and the characters whose lower case
    the [re] module treats as equivalent to it (the long s for [s], the
    Kelvin sign for [k]). *)
Definition ignorecase (c x : char) : bool :=
  if is_alpha c then
    let lower := if is_upper_AZ c then (c + 32)%N else c in
    let upper := (lower - 32)%N in
    chr_eqb x lower || chr_eqb x upper
    || (chr_eqb lower 115%N && chr_eqb x 0x17F%N)
    || (chr_eqb lower 107%N && chr_eqb x 0x212A%N)
  else chr_eqb x c.

Fixpoint LitI (s : pystr) : regex :=
  match s with
  | [] => Eps
  | c :: s' => Seq (Cls (ignorecase c)) (LitI s')
  end.

(** Patterns "^##\s+References", "^##\s+Abstract" and "^##\s+Keywords",
    all with [re.IGNORECASE]. *)
Definition re_h2_named (name : pystr) : regex :=
  seqs [Bol; Chr c_hash; Chr c_hash; Plus (Cls isspace); LitI name].

(** Patterns "^---+$", "^##\s", "^## " and "^### ". *)
Definition re_rule : regex :=
  seqs [Bol; Chr c_minus; Chr c_minus; Plus (Chr c_minus); Eol].
Definition re_h2_any : regex :=
  seqs [Bol; Chr c_hash; Chr c_hash; Cls isspace].
Definition re_h2 : regex := Seq Bol (Lit (py "## ")).
Definition re_h3 : regex := Seq Bol (Lit (py "### ")).

(** Patterns "^\*\*(.+?)\*\*\s*$" and "^\*(.+?)\*\s*$". *)
Definition re_author_name : regex :=
  seqs [Bol; Chr c_star; Chr c_star; Grp 1 (PlusLazy Any);
        Chr c_star; Chr c_star; Star (Cls isspace); Eol].
Definition re_author_line : regex :=
  seqs [Bol; Chr c_star; Grp 1 (PlusLazy Any); Chr c_star;
        Star (Cls isspace); Eol].

(** Pattern "^\$\$(.+?)\$\$$". *)
Definition re_display_equation : regex :=
  seqs [Bol; Chr c_dollar; Chr c_dollar; Grp 1 (PlusLazy Any);
        Chr c_dollar; Chr c_dollar; Eol].

(** [state], and the variables of [parse_markdown].  [current_section]
    is [None] or the dict last appended to [result["sections"]]: the
    model holds its index there, and an append to its content updates the
    list at that index. *)
Inductive parse_state : Type :=
| front | post_title | in_abstract | in_keywords | in_body.

Record parser : Type := Parser {
  result : parsed_document;
  state : parse_state;
  in_references : bool;
  current_section : option nat;
  h1_count : nat;
  h2_count : nat
}.

Definition is_post_title (s : parse_state) : bool :=
  match s with post_title => true | _ => false end.
Definition is_front (s : parse_state) : bool :=
  match s with front => true | _ => false end.
Definition is_in_abstract (s : parse_state) : bool :=
  match s with in_abstract => true | _ => false end.
Definition is_in_keywords (s : parse_state) : bool :=
  match s with in_keywords => true | _ => false end.
Definition is_in_body (s : parse_state) : bool :=
  match s with in_body => true | _ => false end.

(** Field updates of [result]. *)
Definition set_title (t : pystr) (r : parsed_document) : parsed_document :=
  Parsed t (authors r) (abstract r) (keywords r) (sections r) (references r).
Definition set_authors (a : list author) (r : parsed_document) :=
  Parsed (title r) a (abstract r) (keywords r) (sections r) (references r).
Definition set_abstract (a : list pystr) (r : parsed_document) :=
  Parsed (title r) (authors r) a (keywords r) (sections r) (references r).
Definition set_keywords (k : pystr) (r : parsed_document) :=
  Parsed (title r) (authors r) (abstract r) k (sections r) (references r).
Definition set_sections (s : list sec) (r : parsed_document) :=
  Parsed (title r) (authors r) (abstract r) (keywords r) s (references r).
Definition set_references (x : list pystr) (r : parsed_document) :=
  Parsed (title r) (authors r) (abstract r) (keywords r) (sections r) x.

(** [xs[i] = f(xs[i])]. *)
Fixpoint update_nth {A} (i : nat) (f : A -> A) (xs : list A) : list A :=
  match xs, i with
  | [], _ => []
  | x :: xs', O => f x :: xs'
  | x :: xs', S i' => x :: update_nth i' f xs'
  end.

(** [xs[-1] = f(xs[-1])]. *)
Definition update_last {A} (f : A -> A) (xs : list A) : list A :=
  update_nth (length xs - 1) f xs.

Definition add_line (l : pystr) (a : author) : author :=
  Author (a_name a) (a_lines a ++ [l]).

Definition add_content (c : content_item) (s : sec) : sec :=
  Sec (level s) (heading s) (number s) (content s ++ [c]).

Section Parser.

Variable rt : runtime.

(** Patterns "^\[(\d+)\]\s*(.*" ")" and "^\[\d+\]". *)
Definition re_reference : regex :=
  seqs [Bol; Chr c_lbracket; Grp 1 (Plus (Cls (unicode_Nd rt)));
        Chr c_rbracket; Star (Cls isspace); Grp 2 (Star Any)].
Definition re_reference_start : regex :=
  seqs [Bol; Chr c_lbracket; Plus (Cls (unicode_Nd rt)); Chr c_rbracket].

(** The inner [while] that collects the continuation lines of a
    reference: the extended text and the number of lines consumed. *)
Fixpoint collect_continuation (ref_text : pystr) (rest : list pystr)
  : pystr * nat :=
  match rest with
  | [] => (ref_text, 0)
  | l :: rest' =>
      if nonempty (strip l) && negb (is_some (re_match re_reference_start (strip l)))
      then
        let '(t, n) := collect_continuation (ref_text ++ py " " ++ strip l) rest' in
        (t, S n)
      else (ref_text, 0)
  end.

Definition with_result (f : parsed_document -> parsed_document) (p : parser)
  : parser :=
  Parser (f (result p)) (state p) (in_references p) (current_section p)
         (h1_count p) (h2_count p).

Definition with_state (s : parse_state) (p : parser) : parser :=
  Parser (result p) s (in_references p) (current_section p)
         (h1_count p) (h2_count p).

Definition with_current (c : option nat) (p : parser) : parser :=
  Parser (result p) (state p) (in_references p) c (h1_count p) (h2_count p).

(** The tail of the loop body, from the test for a horizontal rule. *)
Definition parse_body_line (p : parser) (trimmed : pystr) : parser :=
  if is_some (re_match re_rule trimmed) then p
  else if is_some (re_match re_h2 trimmed) then
    let heading := strip (slice_from 3 trimmed) in
    let h1_count := h1_count p + 1 in
    let h2_count := 0 in
    let current_section := Sec 1 heading h1_count [] in
    Parser (set_sections (sections (result p) ++ [current_section]) (result p))
           in_body (in_references p)
           (Some (length (sections (result p)))) h1_count h2_count
  else if is_some (re_match re_h3 trimmed) then
    let heading := strip (slice_from 4 trimmed) in
    let h2_count := h2_count p + 1 in
    let current_section := Sec 2 heading h2_count [] in
    Parser (set_sections (sections (result p) ++ [current_section]) (result p))
           (state p) (in_references p)
           (Some (length (sections (result p)))) (h1_count p) h2_count
  else
    match current_section p with
    | Some i =>
        if is_in_body (state p) && nonempty trimmed then
          let item :=
            match re_match re_display_equation trimmed with
            | Some eq_match => Equation (group_or_empty 1 eq_match)
            | None => PlainText trimmed
            end in
          with_result
            (fun r => set_sections (update_nth i (add_content item) (sections r)) r)
            p
        else p
    | None => p
    end.

(** The loop body from the test for the keywords heading. *)
Definition parse_keywords_line (p : parser) (trimmed : pystr) : parser :=
  if is_some (re_match (re_h2_named (py "Keywords")) trimmed) then
    with_current None (with_state in_keywords p)
  else if is_in_keywords (state p) then
    if negb (nonempty trimmed) || is_some (re_match re_rule trimmed) then p
    else if is_some (re_match re_h2_any trimmed) then
      parse_body_line (with_state in_body p) trimmed
    else with_result (set_keywords (strip_markdown trimmed)) p
  else parse_body_line p trimmed.

(** The loop body from the test for the abstract heading. *)
Definition parse_abstract_line (p : parser) (trimmed : pystr) : parser :=
  if is_some (re_match (re_h2_named (py "Abstract")) trimmed) then
    with_current None (with_state in_abstract p)
  else if is_in_abstract (state p) then
    if negb (nonempty trimmed) || is_some (re_match re_rule trimmed) then p
    else if is_some (re_match re_h2_any trimmed) then
      parse_keywords_line (with_state in_body p) trimmed
    else with_result (fun r => set_abstract (abstract r ++ [trimmed]) r) p
  else parse_keywords_line p trimmed.

(** The author block after the title. *)
Definition parse_post_title_line (p : parser) (trimmed : pystr) : parser :=
  if is_some (re_match re_rule trimmed) then p
  else if negb (nonempty trimmed) then p
  else
    match re_match re_author_name trimmed with
    | Some bold_match =>
        with_result
          (fun r =>
             set_authors
               (authors r ++ [Author (strip (group_or_empty 1 bold_match)) []]) r)
          p
    | None =>
        match re_match re_author_line trimmed with
        | Some italic_match =>
            if negb (length (authors (result p)) =? 0) then
              with_result
                (fun r =>
                   set_authors
                     (update_last
                        (add_line (strip (group_or_empty 1 italic_match)))
                        (authors r)) r)
                p
            else parse_abstract_line p trimmed
        | None => parse_abstract_line p trimmed
        end
    end.

(** One turn of [while i < len(lines)] at [line = lines[i]], with [rest]
    the lines after it: the new state, and the number of lines of [rest]
    the inner loop has consumed. *)
Definition parse_line (p : parser) (raw : pystr) (rest : list pystr)
  : parser * nat :=
  let line := rstrip_chr c_lf raw in
  let trimmed := strip line in
  if is_some (re_match (re_h2_named (py "References")) trimmed)
     || str_eqb trimmed (py "REFERENCES")
  then
    (Parser (result p) (state p) true None (h1_count p) (h2_count p), 0)
  else if in_references p then
    match re_match re_reference trimmed with
    | Some ref_match =>
        let ref_text := group_or_empty 2 ref_match in
        let '(ref_text, n) := collect_continuation ref_text rest in
        (with_result (fun r => set_references (references r ++ [ref_text]) r) p,
         n)
    | None => (p, 0)
    end
  else if startswith (py "# ") line && is_front (state p) then
    (with_state post_title
       (with_result (set_title (strip (slice_from 2 line))) p), 0)
  else if is_post_title (state p) then (parse_post_title_line p trimmed, 0)
  else (parse_abstract_line p trimmed, 0).

(** The [while] loop; [skip] counts the lines the inner loop has already
    consumed. *)
Fixpoint parse_loop (skip : nat) (p : parser) (lines : list pystr) : parser :=
  match lines with
  | [] => p
  | raw :: rest =>
      match skip with
      | S n => parse_loop n p rest
      | O =>
          let '(p, n) := parse_line p raw rest in
          parse_loop n p rest
      end
  end.

(** [parse_markdown(filepath)], on the lines [f.readlines()] returns. *)
Definition parse_markdown (lines : list pystr) : parsed_document :=
  result
    (parse_loop 0
       (Parser (Parsed [] [] [] [] [] []) front false None 0 0)
       lines).

End Parser.

(* ====================================================================== *)
(** * Main *)
(* ====================================================================== *)

(** What [main] finds around it: the arguments, the lines [input()] will
    return, the [pathlib] operations on a path held as its string (with
    [resolve] for [Path(p).expanduser().resolve()]), [str.lower], the lines
    of a file ([None]: the file cannot be opened or decoded), and whether
    [doc.save] to a path succeeds.  The build itself fails where
    [build_raises] says so. *)
Record world : Type := World {
  argv : list pystr;
  stdin : list pystr;
  resolve : pystr -> pystr;
  path_exists : pystr -> bool;
  path_suffix : pystr -> pystr;
  path_stem : pystr -> pystr;
  path_with_name : pystr -> pystr -> pystr;
  str_lower : pystr -> pystr;
  readlines : pystr -> option (list pystr);
  save_ok : pystr -> bool
}.

(** What [main] does to the world, in order. *)
Inductive event : Type :=
| EInput (prompt : pystr)
| EPrint (line : pystr)
| ERead (path : pystr)
| ESave (path : pystr) (body : list xml).

(** How [main] ends: it returns, [sys.exit(code)], or an exception of a
    library call leaves it. *)
Inductive outcome : Type :=
| Returned
| SysExit (code : nat)
| Raised.

Definition c_dquote : char := 34%N.
Definition c_squote : char := 39%N.

Section Main.

Variable rt : runtime.
Variable w : world.

Definition prompt_path : pystr := py "Enter path to markdown file: ".
Definition prompt_exit : pystr := c_lf :: py "Press Enter to exit...".

(** The summary [main] prints after parsing. *)
Definition summary (parsed : parsed_document) : list event :=
  [EPrint (py "  Title:      " ++ slice_to 60 (title parsed) ++ py "...");
   EPrint (py "  Authors:    " ++ str_nat (length (authors parsed)))]
  ++ map (fun a =>
            EPrint (py "              " ++ a_name a ++ py " ("
                    ++ str_nat (length (a_lines a)) ++ py " affil lines)"))
         (authors parsed)
  ++ [EPrint (py "  Abstract:   " ++ str_nat (length (abstract parsed))
              ++ py " paragraph(s)");
      EPrint (py "  Sections:   " ++ str_nat (length (sections parsed)));
      EPrint (py "  References: " ++ str_nat (length (references parsed)));
      EPrint []].

(** [main] from the computation of the output path on, for the resolved
    [input_path]; [pending] are the lines [input()] has not returned yet. *)
Definition convert (input_path : pystr) (pending : list pystr)
  : list event * outcome :=
  let output_path :=
    path_with_name w input_path (path_stem w input_path ++ py "_IEEE.docx") in
  let ev :=
    [EPrint (py "Input:  " ++ input_path);
     EPrint (py "Output: " ++ output_path);
     EPrint [];
     EPrint (py "Parsing markdown...");
     ERead input_path] in
  match readlines w input_path with
  | None => (ev, Raised)
  | Some lines =>
      let parsed := parse_markdown rt lines in
      let ev := ev ++ summary parsed in
      let ev := ev ++ [EPrint (py "Building IEEE document...")] in
      if build_raises rt parsed then (ev, Raised)
      else
        let doc := build_document rt parsed in
        let ev := ev ++ [ESave output_path doc] in
        if negb (save_ok w output_path) then (ev, Raised)
        else
          let ev := ev ++ [EPrint (py "Saved: " ++ output_path)] in
          if length (argv w) <=? 1 then
            match pending with
            | _ :: _ => (ev ++ [EInput prompt_exit], Returned)
            | [] => (ev ++ [EInput prompt_exit], Raised)
            end
          else (ev, Returned)
  end.

(** [main] after the input path has been obtained. *)
Definition main_with_path (ev : list event) (input_path : pystr)
  (pending : list pystr) : list event * outcome :=
  let input_path := resolve w input_path in
  if negb (path_exists w input_path) then
    (ev ++ [EPrint (py "Error: File not found: " ++ input_path)], SysExit 1)
  else
    let ev :=
      if negb (str_eqb (str_lower w (path_suffix w input_path)) (py ".md"))
      then ev ++ [EPrint (py "Warning: Expected .md file, got "
                          ++ path_suffix w input_path)]
      else ev in
    let '(ev', out) := convert input_path pending in
    (ev ++ ev', out).

Definition main : list event * outcome :=
  if 1 <? length (argv w) then
    main_with_path [] (nth 1 (argv w) []) (stdin w)
  else
    match stdin w with
    | [] => ([EInput prompt_path], Raised)
    | answer :: pending =>
        let input_path :=
          strip_chr c_squote (strip_chr c_dquote (strip answer)) in
        main_with_path [EInput prompt_path] input_path pending
    end.

End Main.

(* ====================================================================== *)
(** * Patterns by their first character *)
(* ====================================================================== *)

(** A pattern that can only match where the current character satisfies
    [q]. *)
Inductive starts_with (q : char -> bool) : regex -> Prop :=
| sw_cls p : (forall c, p c = true -> q c = true) -> starts_with q (Cls p)
| sw_seq r1 r2 : starts_with q r1 -> starts_with q (Seq r1 r2)
| sw_behind p r2 : starts_with q r2 -> starts_with q (Seq (NotBehind p) r2)
| sw_bol r2 : starts_with q r2 -> starts_with q (Seq Bol r2)
| sw_grp n r : starts_with q r -> starts_with q (Grp n r)
| sw_alt r1 r2 : starts_with q r1 -> starts_with q r2 -> starts_with q (Alt r1 r2).

Definition head_fails (q : char -> bool) (s : pystr) : Prop :=
  match s with [] => True | c :: _ => q c = false end.

(* ====================================================================== *)
(** * Runtimes, and the stages of the transliterator *)
(* ====================================================================== *)

(** The loop over [LATEX_FUNCTIONS] visits every element of the set once,
    in an order the runtime chooses. *)
Definition visits_functions (rt : runtime) : Prop :=
  Permutation (set_order rt) LATEX_FUNCTIONS.

(** A runtime to evaluate the program at: the set is visited in the order
    of the source text, [\d] is the ASCII digits, and the template body
    holds an empty paragraph and the section properties. *)
Definition reference_runtime : runtime :=
  Runtime LATEX_FUNCTIONS is_digit_09
          [OxmlElement "w:p"; OxmlElement "w:sectPr"].

Definition no_backslash (s : pystr) : Prop :=
  Forall (fun c => chr_eqb c_backslash c = false) s.

Definition no_dollar (s : pystr) : Prop :=
  Forall (fun c => is_dollar c = false) s.

Definition starts_bs (f : pystr) : bool :=
  match f with c :: _ => chr_eqb c_backslash c | [] => false end.

(** The three stages of [_resolve_latex_commands]. *)
Definition pre_pass (text : pystr) : pystr :=
  let text :=
    sub re_double_backslash (fun m => c_backslash :: group_or_empty 1 m) text in
  let text := sub re_text (group_or_empty 1) text in
  let text :=
    sub re_mathbb
        (fun m => dict_get _MATHBB (group_or_empty 1 m) (group_or_empty 1 m))
        text in
  sub re_frac
      (fun m => py "(" ++ group_or_empty 1 m ++ py ")/("
                ++ group_or_empty 2 m ++ py ")") text.

Definition func_step (text func : pystr) : pystr :=
  sub (re_func func) (fun _ => slice_from 1 func) text.

Definition glyph_pass (text : pystr) : pystr :=
  fold_left (fun text cmd => replace cmd (dict_get LATEX_GLYPHS cmd []) text)
            (sorted_by_len_desc (map fst LATEX_GLYPHS)) text.

(** [re.search(r, s) is not None]: the pattern matches at some position
    of [s]; [prev] is the character before the current position. *)
Fixpoint search_go (r : regex) (prev : option char) (s : pystr) : bool :=
  match match_here r prev s with
  | Some _ => true
  | None =>
      match s with
      | [] => false
      | c :: s' => search_go r (Some c) s'
      end
  end.

Definition search (r : regex) (s : pystr) : bool := search_go r None s.

(** [old in s]. *)
Fixpoint contains (old s : pystr) : bool :=
  startswith old s
  || match s with
     | [] => false
     | _ :: s' => contains old s'
     end.

(** Notation that the transliterator recognizes in a text: a place where
    one of its patterns matches, or one of the commands of the glyph
    table.  A command that is in no table, and a dollar sign that opens
    no inline span, are not recognized. *)
Definition recognized (t : pystr) : bool :=
  search re_double_backslash t
  || search re_inline_math t
  || search re_text t
  || search re_mathbb t
  || search re_frac t
  || existsb (fun func => search (re_func func) t) LATEX_FUNCTIONS
  || existsb (fun cmd => contains cmd t) (map fst LATEX_GLYPHS).

(* ====================================================================== *)
(** * Reading a document back *)
(* ====================================================================== *)

Definition opt_list {A} (o : option A) : list A :=
  match o with Some x => [x] | None => [] end.

(** Reading a paragraph back. *)
Definition para_pPr (p : xml) : option xml := xfind "w:pPr" (children_of p).

Definition pPr_child (t : string) (p : xml) : option xml :=
  match para_pPr p with
  | Some pPr => xfind t (children_of pPr)
  | None => None
  end.

Definition para_runs (p : xml) : list xml :=
  filter (has_tag "w:r") (children_of p).

Definition alignment (p : xml) : option pystr :=
  match pPr_child "w:jc" p with
  | Some jc => xget (attrib_of jc) "w:val"
  | None => None
  end.

Definition has_tabs (p : xml) : bool := is_some (pPr_child "w:tabs" p).

Definition keep_with_next (p : xml) : bool := is_some (pPr_child "w:keepNext" p).

(** Reading a run back. *)
Definition run_text (r : xml) : option pystr :=
  match xfind "w:t" (children_of r) with
  | Some t => text_of t
  | None => None
  end.

Definition run_has (t : string) (r : xml) : bool :=
  match xfind "w:rPr" (children_of r) with
  | Some rPr => is_some (xfind t (children_of rPr))
  | None => false
  end.

Definition is_bold (r : xml) : bool := run_has "w:b" r.

Definition is_italic (r : xml) : bool := run_has "w:i" r.

(** Reading more of a run back: an attribute of a child of its [w:rPr]. *)
Definition run_prop_attr (t k : string) (r : xml) : option pystr :=
  match xfind "w:rPr" (children_of r) with
  | Some rPr =>
      match xfind t (children_of rPr) with
      | Some e => xget (attrib_of e) k
      | None => None
      end
  | None => None
  end.

Definition run_size (r : xml) : option pystr := run_prop_attr "w:sz" "w:val" r.
Definition run_font (r : xml) : option pystr := run_prop_attr "w:rFonts" "w:ascii" r.
Definition run_vert_align (r : xml) : option pystr :=
  run_prop_attr "w:vertAlign" "w:val" r.
Definition is_small_caps (r : xml) : bool := run_has "w:smallCaps" r.

(** The number of [w:vertAlign] elements of a run. *)
Definition vert_align_count (r : xml) : nat :=
  match xfind "w:rPr" (children_of r) with
  | Some rPr => length (filter (has_tag "w:vertAlign") (children_of rPr))
  | None => 0
  end.

(** A run in the plain style of the body: the size and font given,
    upright, of normal weight, not in small caps, and on the line. *)
Definition plain_run (size : N) (font : pystr) (r : xml) : Prop :=
  run_size r = Some (str_N (size * 2)) /\ run_font r = Some font
  /\ is_bold r = false /\ is_italic r = false /\ is_small_caps r = false
  /\ run_vert_align r = None /\ vert_align_count r = 0.

(** A run that holds a tab and no text. *)
Definition is_tab_run (r : xml) : bool :=
  is_some (xfind "w:tab" (children_of r)) && negb (is_some (run_text r)).

(** The region descriptor a child of the body carries: a [w:sectPr] child
    is the document-level descriptor, a paragraph carries the one in its
    [w:pPr], if any. *)
Definition paragraph_descriptor (child : xml) : option xml :=
  if has_tag "w:p" child then pPr_child "w:sectPr" child else None.

Definition descriptor_of (child : xml) : option xml :=
  if has_tag "w:sectPr" child then Some child else paragraph_descriptor child.

Definition region_descriptors (body : list xml) : list xml :=
  flat_map (fun c => opt_list (descriptor_of c)) body.

Definition paragraph_descriptors (body : list xml) : list xml :=
  flat_map (fun c => opt_list (paragraph_descriptor c)) body.

Definition terminal_descriptors (body : list xml) : list xml :=
  filter (has_tag "w:sectPr") body.

Definition cols_attr (k : string) (d : xml) : option pystr :=
  match xfind "w:cols" (children_of d) with
  | Some cols => xget (attrib_of cols) k
  | None => None
  end.

Definition column_count (d : xml) : option pystr := cols_attr "w:num" d.

Definition column_gap (d : xml) : option pystr := cols_attr "w:space" d.

Definition is_continuous (d : xml) : bool :=
  match xfind "w:type" (children_of d) with
  | Some t =>
      match xget (attrib_of t) "w:val" with
      | Some v => str_eqb v (py "continuous")
      | None => false
      end
  | None => false
  end.

Definition opt_str_eqb (a : option pystr) (b : pystr) : bool :=
  match a with Some x => str_eqb x b | None => false end.

(** The boundaries of author rows: the paragraph-level descriptors with
    the column gap of the author block. *)
Definition author_row_breaks (body : list xml) : list xml :=
  filter (fun d => opt_str_eqb (column_gap d) (str_N AUTHOR_COL_SPACE_TWIPS))
         (paragraph_descriptors body).

(** The template's children that are left in the document: its
    paragraphs are removed at the start, its first [w:sectPr] at the
    end. *)
Definition template_rest (rt : runtime) : list xml :=
  let body := remove_all "w:p" (template_body rt) in
  match xfind "w:sectPr" body with
  | Some _ => remove_first "w:sectPr" body
  | None => body
  end.

(** The template holds at most one [w:sectPr], as python-docx's does. *)
Definition single_sectPr_template (rt : runtime) : Prop :=
  length (filter (has_tag "w:sectPr") (template_body rt)) <= 1.

(** The pPr of [make_paragraph], child by child. *)
Definition tabs_element (tab_stops : list (N * string)) : xml :=
  fold_left
    (fun tabs (ps : N * string) =>
       let '(pos, align_type) := ps in
       let tab := OxmlElement "w:tab" in
       let tab := xset tab "w:val" (py align_type) in
       let tab := xset tab "w:pos" (str_N pos) in
       xappend tabs tab)
    tab_stops (OxmlElement "w:tabs").

Definition spacing_element (space_before space_after : N)
  (line_spacing : option N) (line_rule : string) : xml :=
  let spacing := OxmlElement "w:spacing" in
  let spacing := xset spacing "w:before" (str_N space_before) in
  let spacing := xset spacing "w:after" (str_N space_after) in
  match line_spacing with
  | Some ls =>
      let spacing := xset spacing "w:line" (str_N ls) in
      xset spacing "w:lineRule" (py line_rule)
  | None => spacing
  end.

Definition ind_element (first_indent left_indent hanging : option N) : xml :=
  let ind := OxmlElement "w:ind" in
  let ind :=
    match first_indent, hanging with
    | Some fi, None => xset ind "w:firstLine" (str_N fi)
    | _, _ => ind
    end in
  let ind :=
    match left_indent with
    | Some li => xset ind "w:left" (str_N li)
    | None => ind
    end in
  match hanging with
  | Some h => xset ind "w:hanging" (str_N h)
  | None => ind
  end.

Definition paragraph_pPr (align : string) (space_before space_after : N)
  (first_indent left_indent hanging : option N) (keep_next : bool)
  (line_spacing : option N) (line_rule : string)
  (tab_stops : list (N * string)) : xml :=
  Element "w:pPr" [] None
    ((if keep_next then [OxmlElement "w:keepNext"] else [])
     ++ match tab_stops with [] => [] | _ => [tabs_element tab_stops] end
     ++ [spacing_element space_before space_after line_spacing line_rule]
     ++ (if is_some first_indent || is_some left_indent || is_some hanging
         then [ind_element first_indent left_indent hanging] else [])
     ++ [xset (OxmlElement "w:jc") "w:val" (align_map align)]).

(** The stream [build_document] appends, part by part. *)
Section Stream.

Variable rt : runtime.

Definition author_row (authors : list author) (max_cols_per_row row_start : nat)
  : list xml :=
  let row_authors := slice row_start (row_start + max_cols_per_row) authors in
  section_break_paragraph (length row_authors) AUTHOR_COL_SPACE_TWIPS true
  :: map (fun a => make_author_paragraph a AUTHOR_AFFIL_PT) row_authors.

Definition centered_paragraph (text : pystr) (size : N) (italic : bool) : xml :=
  make_paragraph [make_run text size false italic false false false FONT]
                 "center" 0 40 None None None false (Some 228%N) "auto" [].

Definition author_stream (authors : list author) : list xml :=
  match authors with
  | [] => []
  | [a] =>
      centered_paragraph (a_name a) AUTHOR_PT false
      :: map (fun l => centered_paragraph l AFFIL_PT true) (a_lines a)
  | _ =>
      let m := Nat.min (length authors) 4 in
      concat (map (author_row authors m) (py_range 0 (length authors) m))
  end.

Fixpoint count_equations (items : list content_item) : nat :=
  match items with
  | [] => 0
  | Equation _ :: r => S (count_equations r)
  | PlainText _ :: r => count_equations r
  end.

Fixpoint content_stream (c : nat) (items : list content_item) : list xml :=
  match items with
  | [] => []
  | Equation l :: r => equation_paragraph rt l (c + 1) :: content_stream (c + 1) r
  | PlainText t :: r => opt_list (text_paragraph rt t) ++ content_stream c r
  end.

Fixpoint sections_stream (c : nat) (secs : list sec) : list xml :=
  match secs with
  | [] => []
  | s :: r =>
      opt_list (heading_paragraph s)
      ++ content_stream c (content s)
      ++ sections_stream (c + count_equations (content s)) r
  end.

Definition references_heading : xml :=
  make_paragraph
    [make_run (py "References") H1_PT false false true false false FONT]
    "center" 200 80 None None None false (Some 228%N) "auto" [].

Definition front_stream (parsed : parsed_document) : list xml :=
  title_paragraph parsed :: author_stream (authors parsed).

Definition back_stream (parsed : parsed_document) : list xml :=
  (if nonempty (keywords parsed) then [keywords_paragraph parsed] else [])
  ++ sections_stream 0 (sections parsed)
  ++ references_heading
     :: map (fun ir => reference_paragraph (fst ir) (snd ir))
            (enumerate_from 0 (references parsed)).

Definition body_stream (parsed : parsed_document) : list xml :=
  front_stream parsed
  ++ two_col_break_paragraph :: abstract_paragraph rt parsed
     :: back_stream parsed.

End Stream.

(** The tags of the children of a paragraph's [w:pPr], in order. *)
Definition pPr_tags (fi li h : option N) (kn : bool) (ts : list (N * string))
  : list string :=
  (if kn then ["w:keepNext"%string] else [])
  ++ match ts with [] => [] | _ => ["w:tabs"%string] end
  ++ ["w:spacing"%string]
  ++ (if is_some fi || is_some li || is_some h then ["w:ind"%string] else [])
  ++ ["w:jc"%string].

(* ====================================================================== *)
(** * Kinds of paragraph *)
(* ====================================================================== *)

(** A paragraph of [make_paragraph], by what matters to the layout:
    whether it keeps with the next one and whether it has tab stops. *)
Definition para_with (kn tabs : bool) (e : xml) : Prop :=
  exists runs a sb sa fi li h ls lr ts,
    e = make_paragraph runs a sb sa fi li h kn ls lr ts
    /\ match ts with [] => false | _ => true end = tabs.

Definition is_p (e : xml) : Prop := has_tag "w:p" e = true.

(** Every element of the sections' stream is a paragraph of
    [make_paragraph]. *)
Definition any_para (e : xml) : Prop := exists kn tabs, para_with kn tabs e.

(* ====================================================================== *)
(** * Author rows *)
(* ====================================================================== *)

(** The descriptor of an author row of [ncols] columns. *)
Definition author_row_sectPr (ncols : nat) : xml :=
  section_break_sectPr ncols AUTHOR_COL_SPACE_TWIPS true.

(** The sizes of the author rows for [n] authors: none below two
    authors, else [ceil(n/4)] rows, row [k] of [min(n - 4k, 4)] columns. *)
Definition expected_author_rows (n : nat) : list nat :=
  if n <? 2 then []
  else map (fun k => Nat.min (n - 4 * k) 4) (seq 0 ((n + 3) / 4)).

(* ====================================================================== *)
(** * Sample documents, and what the statements observe *)
(* ====================================================================== *)

Definition empty_doc : parsed_document := Parsed [] [] [] [] [] [].

Definition one_author_doc : parsed_document :=
  Parsed (py "T") [Author (py "A") [py "Dept"; py "Org"]]
         [py "Some text."] [] [] [].

Definition two_author_doc : parsed_document :=
  Parsed (py "T") [Author (py "A") []; Author (py "B") []] [] [] [] [].

(** A document with keywords. *)
Definition keywords_doc : parsed_document :=
  Parsed (py "T") [] [py "Some text."] (py "docx, markdown") [] [].

(** C1 as the specification words it: a single-column title descriptor,
    then the author rows (only from two authors on), then a two-column
    body descriptor, then the two-column terminal descriptor. *)
Definition claimed_descriptor_order (n : nat) (ds : list xml) : Prop :=
  exists t rows b f,
    ds = t :: rows ++ [b; f]
    /\ column_count t = Some (py "1")
    /\ (n < 2 -> rows = [])
    /\ column_count b = Some (py "2")
    /\ column_count f = Some (py "2").

(** The equation paragraphs of a body: the paragraphs with tab stops. *)
Definition equation_paragraphs (body : list xml) : list xml :=
  filter (fun e => has_tag "w:p" e && has_tabs e) body.

(** The section heading paragraphs of a body: the paragraphs kept with
    the next one. *)
Definition heading_paragraphs (body : list xml) : list xml :=
  filter (fun e => has_tag "w:p" e && keep_with_next e) body.

Fixpoint equations (items : list content_item) : list pystr :=
  match items with
  | [] => []
  | Equation l :: r => l :: equations r
  | PlainText _ :: r => equations r
  end.

(** The equations of a document, in document order. *)
Definition all_equations (secs : list sec) : list pystr :=
  flat_map (fun s => equations (content s)) secs.

(* ====================================================================== *)
(** * Styled runs *)
(* ====================================================================== *)

(** A run of [make_run] with the weight, slant and font given. *)
Definition styled_run (size : N) (bold italic : bool) (font : pystr) (r : xml)
  : Prop :=
  exists t sub sup, r = make_run t size bold italic false sub sup font.

(* ====================================================================== *)
(** * Headings *)
(* ====================================================================== *)

(** The number a heading is prefixed with: Roman for level 1, a letter
    for level 2. *)
Definition number_prefix (s : sec) : pystr :=
  if level s =? 1 then to_roman (number s) else value (to_letter (number s)).

(** The text of a paragraph of one run. *)
Definition paragraph_text (p : xml) : option pystr :=
  match para_runs p with
  | [r] => run_text r
  | _ => None
  end.

(** The text of the heading paragraph of a section. *)
Definition heading_text (s : sec) : option pystr :=
  match heading_paragraph s with
  | Some p => paragraph_text p
  | None => None
  end.

(** The longest prefix of characters in [p], and what follows it. *)
Fixpoint take_while (p : char -> bool) (s : pystr) : pystr :=
  match s with
  | c :: s' => if p c then c :: take_while p s' else []
  | [] => []
  end.

Fixpoint drop_while (p : char -> bool) (s : pystr) : pystr :=
  match s with
  | c :: s' => if p c then drop_while p s' else s
  | [] => []
  end.

Definition last_char (prev : option char) (tok : pystr) : option char :=
  match rev tok with c :: _ => Some c | [] => prev end.

Definition intro_section : sec :=
  Sec 1 (py "Intro. and Motivation") 1 [].

(* ====================================================================== *)
(** * Section numbers *)
(* ====================================================================== *)

(** Section numbering as the specification words it: the level-1 counter
    grows with every level-1 section and resets the level-2 counter,
    which grows with every other section.  [numbering] gives the numbers,
    [counters] the two counters at the end. *)
Fixpoint numbering (h1 h2 : nat) (levels : list nat) : list nat :=
  match levels with
  | [] => []
  | l :: r =>
      if l =? 1 then (h1 + 1) :: numbering (h1 + 1) 0 r
      else (h2 + 1) :: numbering h1 (h2 + 1) r
  end.

Fixpoint counters (h1 h2 : nat) (levels : list nat) : nat * nat :=
  match levels with
  | [] => (h1, h2)
  | l :: r => if l =? 1 then counters (h1 + 1) 0 r else counters h1 (h2 + 1) r
  end.

(** What the parser keeps true of its sections and counters. *)
Definition numbered (p : parser) : Prop :=
  let secs := sections (result p) in
  map number secs = numbering 0 0 (map level secs)
  /\ counters 0 0 (map level secs) = (h1_count p, h2_count p)
  /\ Forall (fun s => level s = 1 \/ level s = 2) secs.

Definition five_sections : list pystr :=
  [py "## Intro" ++ [c_lf]; py "### Scope" ++ [c_lf]; py "### Terms" ++ [c_lf];
   py "## Method" ++ [c_lf]; py "### Setup" ++ [c_lf]].

(* ====================================================================== *)
(** * Worlds *)
(* ====================================================================== *)

(** How [main] obtains the input path: the events, the path as given,
    and the lines [input()] has left; [None] when the prompt finds the
    input exhausted. *)
Definition requested_path (w : world)
  : option (list event * pystr * list pystr) :=
  if 1 <? length (argv w) then Some ([], nth 1 (argv w) [], stdin w)
  else
    match stdin w with
    | [] => None
    | answer :: pending =>
        Some ([EInput prompt_path],
              strip_chr c_squote (strip_chr c_dquote (strip answer)),
              pending)
    end.

Definition output_path_of (w : world) (input_path : pystr) : pystr :=
  path_with_name w input_path (path_stem w input_path ++ py "_IEEE.docx").

(** A world where the file named on the command line does not exist. *)
Definition world_missing : world :=
  World [py "ieee_md2docx.py"; py "paper.md"] []
        (fun p => p) (fun _ => false) (fun _ => py ".md") (fun _ => py "paper")
        (fun _ n => n) (fun s => s) (fun _ => None) (fun _ => true).

(** A world where it exists, is readable, and is named [notes.txt]. *)
Definition world_txt : world :=
  World [py "ieee_md2docx.py"; py "notes.txt"] []
        (fun p => p) (fun _ => true) (fun _ => py ".txt") (fun _ => py "notes")
        (fun _ n => n) (fun s => s) (fun _ => Some five_sections)
        (fun _ => true).

(** A readable [notes.txt] with a form feed inside a line of text. *)
Definition form_feed_lines : list pystr :=
  [py "# Title" ++ [c_lf]; py "## Intro" ++ [c_lf];
   py "one" ++ 12%N :: py "two" ++ [c_lf]].

Definition world_form_feed : world :=
  World [py "ieee_md2docx.py"; py "notes.txt"] []
        (fun p => p) (fun _ => true) (fun _ => py ".txt") (fun _ => py "notes")
        (fun _ n => n) (fun s => s) (fun _ => Some form_feed_lines)
        (fun _ => true).

(* ====================================================================== *)
(** * What the further properties observe *)
(* ====================================================================== *)

(** ** Roman numerals and letters *)

(** The value of a Roman digit, by code point; 0 for any other character. *)
Definition roman_digit (c : char) : nat :=
  if chr_eqb c 77%N then 1000
  else if chr_eqb c 68%N then 500
  else if chr_eqb c 67%N then 100
  else if chr_eqb c 76%N then 50
  else if chr_eqb c 88%N then 10
  else if chr_eqb c 86%N then 5
  else if chr_eqb c 73%N then 1
  else 0.

(** Reading a Roman numeral: a digit before a larger one is subtracted,
    any other is added. *)
Fixpoint roman_value (s : pystr) : nat :=
  match s with
  | [] => 0
  | c :: s' =>
      match s' with
      | d :: _ =>
          if roman_digit c <? roman_digit d
          then roman_value s' - roman_digit c
          else roman_digit c + roman_value s'
      | [] => roman_digit c
      end
  end.

(** [s] repeated [k] times. *)
Fixpoint repeat_str (s : pystr) (k : nat) : pystr :=
  match k with
  | O => []
  | S k' => s ++ repeat_str s k'
  end.

(** One turn of [for v, s in vals] in [to_roman]. *)
Definition roman_step (acc : pystr * nat) (vs : nat * pystr) : pystr * nat :=
  let '(result, n) := acc in
  let '(v, s) := vs in
  roman_while n n v s result.

(** ** Runs and paragraphs read back *)

(** An attribute of the [w:ind] of a paragraph, and of its [w:spacing]. *)
Definition para_attr (t k : string) (p : xml) : option pystr :=
  match pPr_child t p with
  | Some e => xget (attrib_of e) k
  | None => None
  end.

Definition str_opt (o : option N) : option pystr :=
  match o with Some n => Some (str_N n) | None => None end.



(** ** Region descriptors of the document *)



(** ** Plain text, blank text and the author block *)

(** Text without the markers of emphasis and of code. *)
Definition no_star (s : pystr) : Prop :=
  Forall (fun c => chr_eqb c_star c = false) s.

Definition no_backtick (s : pystr) : Prop :=
  Forall (fun c => chr_eqb c_backtick c = false) s.

(** Text of white space only; the empty text is one. *)
Definition blank (s : pystr) : Prop := Forall (fun c => isspace c = true) s.

(** A runtime whose decimal digits are not white space. *)
Definition digits_not_space (rt : runtime) : Prop :=
  forall c, isspace c = true -> unicode_Nd rt c = false.

(** The children of the body that carry no region descriptor. *)
Definition content_children (body : list xml) : list xml :=
  filter (fun e => negb (is_some (descriptor_of e))) body.

(** ** The order of the body, and plain math text *)

(** Text without the markers of subscript and superscript. *)
Definition no_marker (s : pystr) : Prop :=
  Forall (fun c => is_marker c = false) s.

(** ** The tables of the transliterator *)

(** A text that holds no inline math and that the loop over the function
    names leaves alone after the first rewrites, and what the glyph table
    makes of it: a check that can be run. *)
Definition resolves_to (t t2 : pystr) : bool :=
  str_eqb (sub re_double_backslash
               (fun m => c_backslash :: group_or_empty 1 m) t) t
  && forallb (fun c => negb (is_dollar c)) t
  && forallb (fun f => str_eqb (func_step (pre_pass t) f) (pre_pass t))
             LATEX_FUNCTIONS
  && str_eqb (glyph_pass (pre_pass t)) t2.

(** The capital letters. *)
Definition capitals : list char := map N.of_nat (seq 65 26).

(** ** The events of main *)

(** Kinds of event. *)
Definition is_input (e : event) : bool :=
  match e with EInput _ => true | _ => false end.
Definition is_print (e : event) : bool :=
  match e with EPrint _ => true | _ => false end.
Definition is_read (e : event) : bool :=
  match e with ERead _ => true | _ => false end.
Definition is_save (e : event) : bool :=
  match e with ESave _ _ => true | _ => false end.

(** The events of a kind, in order. *)
Definition events_of (kind : event -> bool) (ev : list event) : list event :=
  filter kind ev.

(** A world where the file named on the command line is read and the
    document saved. *)
Definition world_md : world :=
  World [py "ieee_md2docx.py"; py "paper.md"] []
        (fun p => p) (fun _ => true) (fun _ => py ".md") (fun _ => py "paper")
        (fun _ n => n) (fun s => s) (fun _ => Some []) (fun _ => true).

(** ** Lines the parser ignores *)

(** A line as the loop of [parse_markdown] looks at it. *)
Definition trimmed_of (raw : pystr) : pystr := strip (rstrip_chr c_lf raw).

(** A horizontal rule: three dashes or more, and nothing else. *)
Definition is_rule (trimmed : pystr) : Prop :=
  exists k, trimmed = repeat c_minus (3 + k).

(** ** The references and the title *)

(** The test at the head of the loop of [parse_markdown]: the heading of
    the references. *)
Definition is_references_heading (raw : pystr) : bool :=
  is_some (re_match (re_h2_named (py "References")) (trimmed_of raw))
  || str_eqb (trimmed_of raw) (py "REFERENCES").

(** The lines before the first heading of the references. *)
Fixpoint before_references (lines : list pystr) : list pystr :=
  match lines with
  | [] => []
  | raw :: rest =>
      if is_references_heading raw then [] else raw :: before_references rest
  end.

(** What the parser holds apart from the references. *)
Definition same_front (d d0 : parsed_document) : Prop :=
  title d = title d0 /\ authors d = authors d0 /\ abstract d = abstract d0
  /\ keywords d = keywords d0 /\ sections d = sections d0.

(** ** Markers of emphasis and of code *)

(** Text without a line feed, which is what [.] of a pattern matches. *)
Definition one_line (s : pystr) : Prop := Forall (fun c => dot c = true) s.

(** ** Authors in the input format *)

(** A text that can stand between markers on a line of its own: not
    empty, on one line, without asterisk, and without white space at
    either end. *)
Definition clean (s : pystr) : Prop :=
  s <> [] /\ one_line s /\ no_star s /\ strip s = s.

Definition clean_author (a : author) : Prop :=
  clean (a_name a) /\ Forall clean (a_lines a).

(** An author as the input format has it: the name in bold on a line,
    then each affiliation line in italics on a line. *)
Definition author_lines (a : author) : list pystr :=
  (py "**" ++ a_name a ++ py "**" ++ [c_lf])
  :: map (fun l => py "*" ++ l ++ py "*" ++ [c_lf]) (a_lines a).

(** ** References in the input format *)

(** A runtime for which the ASCII digits are decimal digits and the
    closing bracket is not. *)
Definition ascii_digits (rt : runtime) : Prop :=
  (forall c, is_digit_09 c = true -> unicode_Nd rt c = true)
  /\ unicode_Nd rt c_rbracket = false.

(** A reference in the input format: the label in brackets and the text
    on a line, then the lines that continue the text. *)
Record reference_entry : Type := Entry {
  r_label : pystr;
  r_first : pystr;
  r_more : list pystr
}.

Definition reference_lines (e : reference_entry) : list pystr :=
  (py "[" ++ r_label e ++ py "] " ++ r_first e ++ [c_lf])
  :: map (fun c => c ++ [c_lf]) (r_more e).

(** Its text as the parser joins it. *)
Definition reference_text (e : reference_entry) : pystr :=
  fold_left (fun acc c => acc ++ py " " ++ c) (r_more e) (r_first e).

(** A label of ASCII digits; a first line that is not empty, on one line
    and without white space at either end; continuation lines that are
    not empty, without white space at either end, and do not begin with
    a bracket. *)
Definition digit_label (s : pystr) : Prop :=
  s <> [] /\ Forall (fun c => is_digit_09 c = true) s.

Definition first_line (s : pystr) : Prop :=
  s <> [] /\ one_line s /\ strip s = s.

Definition continuation_line (s : pystr) : Prop :=
  s <> [] /\ strip s = s /\ head_fails (chr_eqb c_lbracket) s.

Definition clean_entry (e : reference_entry) : Prop :=
  digit_label (r_label e) /\ first_line (r_first e)
  /\ Forall continuation_line (r_more e).

(** A line at which the collection of continuation lines stops: a blank
    line, or the first line of a reference. *)
Definition stops (rt : runtime) (rest : list pystr) : Prop :=
  match rest with
  | [] => True
  | l :: _ =>
      nonempty (strip l)
      && negb (is_some (re_match (re_reference_start rt) (strip l))) = false
  end.

(** ** Sections in the input format *)

(** The characters that open a heading, a rule or a display equation. *)
Definition opens_markup (c : char) : bool :=
  chr_eqb c_hash c || chr_eqb c_minus c || chr_eqb c_dollar c.

(** A line of text of the body: not empty, without white space at either
    end, not beginning with one of these characters, and not the word
    that opens the references. *)
Definition body_text (t : pystr) : Prop :=
  t <> [] /\ strip t = t /\ head_fails opens_markup t
  /\ str_eqb t (py "REFERENCES") = false.

(** The text of a display equation: not empty, on one line, without
    dollar sign. *)
Definition equation_text (x : pystr) : Prop :=
  x <> [] /\ one_line x /\ no_dollar x.

Definition clean_item (c : content_item) : Prop :=
  match c with
  | PlainText t => body_text t
  | Equation x => equation_text x
  end.

(** Whether a heading of level 1 is one of the three the parser knows by
    name. *)
Definition named_heading (h : pystr) : bool :=
  existsb (fun name => is_some (re_match (re_h2_named name) (py "## " ++ h)))
          [py "References"; py "Abstract"; py "Keywords"].

(** A section of level 1 or 2 whose heading is not empty, has no white
    space at either end and, at level 1, is none of these three, and
    whose content is clean. *)
Definition clean_section (s : sec) : Prop :=
  (level s = 1 /\ named_heading (heading s) = false \/ level s = 2)
  /\ heading s <> [] /\ strip (heading s) = heading s
  /\ Forall clean_item (content s).

(** The input format: the line of a content item, the heading line and
    the lines of a section, of the abstract, of the keywords and of the
    references, and the lines of a document. *)
Definition content_line (c : content_item) : pystr :=
  match c with
  | PlainText t => t ++ [c_lf]
  | Equation x => py "$$" ++ x ++ py "$$" ++ [c_lf]
  end.

Definition heading_line (s : sec) : pystr :=
  (if level s =? 1 then py "## " else py "### ") ++ heading s ++ [c_lf].

Definition section_lines (s : sec) : list pystr :=
  heading_line s :: map content_line (content s).

Definition abstract_lines (abstract : list pystr) : list pystr :=
  (py "## Abstract" ++ [c_lf]) :: map (fun a => a ++ [c_lf]) abstract.

Definition keywords_lines (keywords : pystr) : list pystr :=
  [py "## Keywords" ++ [c_lf]; keywords ++ [c_lf]].

Definition references_lines (entries : list reference_entry) : list pystr :=
  (py "## References" ++ [c_lf]) :: flat_map reference_lines entries.

Definition document_lines (t : pystr) (auths : list author)
  (abstr : list pystr) (kws : pystr) (secs : list sec)
  (entries : list reference_entry) : list pystr :=
  (py "# " ++ t ++ [c_lf])
  :: flat_map author_lines auths
  ++ abstract_lines abstr
  ++ keywords_lines kws
  ++ flat_map section_lines secs
  ++ references_lines entries.

(** The first section, if any, is of level 1. *)
Definition starts_at_level_1 (sections : list sec) : Prop :=
  match sections with [] => True | s :: _ => level s = 1 end.

(** ** More of the builder *)

(** Text that holds nothing the builder rewrites: no backslash, dollar
    sign, underscore, caret, asterisk or backtick. *)
Definition plain_text (t : pystr) : Prop :=
  no_backslash t /\ no_dollar t /\ no_marker t /\ no_star t /\ no_backtick t.

(** The characters that open a block quote, a numbered item or a list
    item. *)
Definition opens_item (rt : runtime) (c : char) : bool :=
  chr_eqb c_gt c || unicode_Nd rt c || chr_eqb c_minus c.

(** The paragraphs of the three rules. *)
Definition regular_paragraph (t : pystr) : xml :=
  make_paragraph [make_run t BODY_PT false false false false false FONT]
                 "justify" 0 120 (Some BODY_FIRST_INDENT) None None
                 false (Some 228%N) "auto" [].

Definition bullet_paragraph (item : pystr) : xml :=
  make_paragraph
    [bullet_run; tab_run;
     make_run item BODY_PT false false false false false FONT]
    "justify" 0 40 None (Some 576%N) (Some 288%N)
    false (Some 228%N) "auto" [].


(* ====================================================================== *)
(** * Facts about strings and the matcher *)
(* ====================================================================== *)

Lemma str_eqb_eq a b : str_eqb a b = true <-> a = b.
Proof.
  revert b; induction a as [|x a IH]; intros [|y b]; simpl; split;
    try congruence; try discriminate; auto.
  - intros H. apply andb_true_iff in H as [H1 H2].
    apply N.eqb_eq in H1. apply IH in H2. congruence.
  - intros H. inversion H; subst. apply andb_true_iff. split.
    + apply N.eqb_refl.
    + now apply IH.
Qed.

Lemma starts_with_fails q r :
  starts_with q r ->
  forall st k, head_fails q (m_rest st) -> rmatch r st k = None.
Proof.
  induction 1; intros st k Hh; simpl.
  - destruct (m_rest st) as [|c s']; [reflexivity|].
    simpl in Hh. destruct (p c) eqn:E; [|reflexivity].
    apply H in E. congruence.
  - now apply IHstarts_with.
  - destruct (m_prev st) as [c|]; [destruct (p c)|]; auto.
  - destruct (m_prev st); auto.
  - now apply IHstarts_with.
  - rewrite IHstarts_with1 by assumption. simpl. now apply IHstarts_with2.
Qed.

(** Where no character satisfies [q], such a pattern matches nowhere and
    [re.sub] returns its subject. *)
Lemma sub_go_unchanged q r repl :
  starts_with q r ->
  forall s prev, Forall (fun c => q c = false) s -> sub_go r repl 0 prev s = s.
Proof.
  intros Hr s. induction s as [|c s IH]; intros prev Hs; simpl.
  - unfold match_here. now rewrite (starts_with_fails Hr).
  - unfold match_here. rewrite (starts_with_fails Hr).
    + f_equal. apply IH. now inversion Hs.
    + simpl. now inversion Hs.
Qed.

Lemma sub_unchanged q r repl s :
  starts_with q r -> Forall (fun c => q c = false) s -> sub r repl s = s.
Proof. intros. unfold sub. now apply sub_go_unchanged with (q := q). Qed.

Lemma starts_with_Lit q c s :
  q c = true -> starts_with q (Lit (c :: s)).
Proof.
  intros H. simpl. apply sw_seq. apply sw_cls. intros x Hx.
  unfold chr_eqb in Hx. apply N.eqb_eq in Hx. now subst.
Qed.

Lemma startswith_head_fails c old s :
  Forall (fun x => chr_eqb c x = false) s -> startswith (c :: old) s = false.
Proof.
  intros H. destruct s as [|y s]; simpl; [reflexivity|].
  inversion H; subst. now rewrite H2.
Qed.

(** [str.replace] leaves a string unchanged when the first character of
    [old] does not occur in it. *)
Lemma replace_unchanged c old new s :
  Forall (fun x => chr_eqb c x = false) s -> replace (c :: old) new s = s.
Proof.
  unfold replace. induction s as [|y s IH]; intros H; [reflexivity|].
  cbn [replace_go]. rewrite startswith_head_fails by assumption.
  f_equal. apply IH. now inversion H.
Qed.

(* ====================================================================== *)
(** * The transliterator *)
(* ====================================================================== *)

Lemma reference_runtime_visits : visits_functions reference_runtime.
Proof. apply Permutation_refl. Qed.

Lemma starts_bs_inv f : starts_bs f = true -> exists t, f = c_backslash :: t.
Proof.
  destruct f as [|c t]; unfold starts_bs; [discriminate|].
  intros H. unfold chr_eqb in H. apply N.eqb_eq in H. exists t. now subst.
Qed.

Lemma functions_start_bs f : In f LATEX_FUNCTIONS -> starts_bs f = true.
Proof.
  assert (H : forallb starts_bs LATEX_FUNCTIONS = true) by (vm_compute; reflexivity).
  rewrite forallb_forall in H. apply H.
Qed.

Lemma glyph_keys_start_bs k :
  In k (sorted_by_len_desc (map fst LATEX_GLYPHS)) -> starts_bs k = true.
Proof.
  assert (H : forallb starts_bs (sorted_by_len_desc (map fst LATEX_GLYPHS)) = true)
    by (vm_compute; reflexivity).
  rewrite forallb_forall in H. apply H.
Qed.

Lemma resolve_commands_stages rt text :
  _resolve_latex_commands rt text
  = glyph_pass (fold_left func_step (set_order rt) (pre_pass text)).
Proof. reflexivity. Qed.

Lemma bs_pattern q s :
  q c_backslash = true -> starts_with q (Lit (c_backslash :: s)).
Proof. apply starts_with_Lit. Qed.

Lemma pre_pass_plain s : no_backslash s -> pre_pass s = s.
Proof.
  intros H. unfold pre_pass.
  rewrite (@sub_unchanged (chr_eqb c_backslash) re_double_backslash); auto.
  2:{ apply sw_seq, sw_cls. auto. }
  rewrite (@sub_unchanged (chr_eqb c_backslash) re_text); auto.
  2:{ apply sw_seq. apply bs_pattern. reflexivity. }
  rewrite (@sub_unchanged (chr_eqb c_backslash) re_mathbb); auto.
  2:{ apply sw_seq. apply bs_pattern. reflexivity. }
  rewrite (@sub_unchanged (chr_eqb c_backslash) re_frac); auto.
  apply sw_seq. apply bs_pattern. reflexivity.
Qed.

Lemma func_pass_plain order s :
  (forall f, In f order -> starts_bs f = true) ->
  no_backslash s -> fold_left func_step order s = s.
Proof.
  induction order as [|f order IH]; intros Ho Hs; [reflexivity|].
  simpl. assert (E : func_step s f = s).
  { destruct (starts_bs_inv f (Ho f (or_introl eq_refl))) as [t ->].
    unfold func_step, re_func.
    apply sub_unchanged with (q := chr_eqb c_backslash); auto.
    apply sw_seq. apply bs_pattern. reflexivity. }
  rewrite E. apply IH; auto. intros g Hg. apply Ho. now right.
Qed.

Lemma glyph_fold_plain keys s :
  (forall k, In k keys -> starts_bs k = true) ->
  no_backslash s ->
  fold_left (fun text cmd => replace cmd (dict_get LATEX_GLYPHS cmd []) text)
            keys s = s.
Proof.
  induction keys as [|k keys IH]; intros Hk Hs; [reflexivity|].
  simpl. destruct (starts_bs_inv k (Hk k (or_introl eq_refl))) as [t ->].
  rewrite replace_unchanged by exact Hs.
  apply IH; auto. intros g Hg. apply Hk. now right.
Qed.

Lemma visits_start_bs rt :
  visits_functions rt -> forall f, In f (set_order rt) -> starts_bs f = true.
Proof.
  intros H f Hf. apply functions_start_bs.
  eapply Permutation_in; eauto.
Qed.

(** Text without a backslash holds no command: [_resolve_latex_commands]
    returns it as it is. *)
Lemma resolve_commands_plain rt s :
  visits_functions rt -> no_backslash s -> _resolve_latex_commands rt s = s.
Proof.
  intros Hv Hs. rewrite resolve_commands_stages.
  rewrite pre_pass_plain by assumption.
  rewrite func_pass_plain.
  - unfold glyph_pass. apply glyph_fold_plain.
    + apply glyph_keys_start_bs.
    + assumption.
  - now apply visits_start_bs.
  - assumption.
Qed.

Lemma resolve_latex_unfold rt text :
  resolve_latex rt text
  = _resolve_latex_commands rt
      (sub re_inline_math
           (fun m => replace (py " ") NBSP
                       (_resolve_latex_commands rt (group_or_empty 1 m)))
           (sub re_double_backslash
                (fun m => c_backslash :: group_or_empty 1 m) text)).
Proof. reflexivity. Qed.

Lemma inline_math_starts : starts_with is_dollar re_inline_math.
Proof.
  unfold re_inline_math. cbn [seqs]. apply sw_behind, sw_seq, sw_cls.
  intros c H. unfold is_dollar, chr_eqb in *. now rewrite N.eqb_sym.
Qed.

(** Text without a backslash and without a dollar sign is a fixed point of
    the transliterator. *)
Lemma resolve_latex_plain rt s :
  visits_functions rt -> no_backslash s -> no_dollar s ->
  resolve_latex rt s = s.
Proof.
  intros Hv Hb Hd. rewrite resolve_latex_unfold.
  rewrite (@sub_unchanged (chr_eqb c_backslash) re_double_backslash); auto.
  2:{ apply sw_seq, sw_cls. auto. }
  rewrite (sub_unchanged _ inline_math_starts) by exact Hd.
  now apply resolve_commands_plain.
Qed.

(** A text that no function-name pattern matches passes the function
    loop unchanged, whatever the order of the visit. *)
Lemma func_pass_fixed rt t :
  visits_functions rt ->
  forallb (fun f => str_eqb (func_step t f) t) LATEX_FUNCTIONS = true ->
  fold_left func_step (set_order rt) t = t.
Proof.
  intros Hv H. rewrite forallb_forall in H.
  assert (Ho : forall f, In f (set_order rt) -> func_step t f = t).
  { intros f Hf. apply str_eqb_eq, H. eapply Permutation_in; eauto. }
  clear H Hv. induction (set_order rt) as [|f l IH]; [reflexivity|].
  simpl. rewrite Ho by now left. apply IH. intros g Hg. apply Ho. now right.
Qed.

Lemma resolve_commands_by_stages rt t t1 t2 :
  visits_functions rt ->
  pre_pass t = t1 ->
  forallb (fun f => str_eqb (func_step t1 f) t1) LATEX_FUNCTIONS = true ->
  glyph_pass t1 = t2 ->
  _resolve_latex_commands rt t = t2.
Proof.
  intros Hv H1 H2 H3. rewrite resolve_commands_stages, H1.
  now rewrite func_pass_fixed.
Qed.

Lemma no_backslash_dec s :
  forallb (fun c => negb (chr_eqb c_backslash c)) s = true -> no_backslash s.
Proof.
  intros H. rewrite forallb_forall in H. apply Forall_forall.
  intros c Hc. apply H in Hc. now apply negb_true_iff in Hc.
Qed.

Lemma no_dollar_dec s :
  forallb (fun c => negb (is_dollar c)) s = true -> no_dollar s.
Proof.
  intros H. rewrite forallb_forall in H. apply Forall_forall.
  intros c Hc. apply H in Hc. now apply negb_true_iff in Hc.
Qed.

(** Without a dollar sign there is no inline-math span, and
    [resolve_latex] is [_resolve_latex_commands] after the normalization
    of doubled backslashes. *)
Lemma resolve_latex_without_math rt t t0 :
  sub re_double_backslash (fun m => c_backslash :: group_or_empty 1 m) t = t0 ->
  no_dollar t0 ->
  resolve_latex rt t = _resolve_latex_commands rt t0.
Proof.
  intros E H. rewrite resolve_latex_unfold, E.
  now rewrite (sub_unchanged _ inline_math_starts).
Qed.

Ltac by_stages :=
  eapply resolve_commands_by_stages;
  [ assumption | vm_compute; reflexivity | vm_compute; reflexivity
  | vm_compute; reflexivity ].

(** C3 (as the code has it).  [_resolve_latex_commands] rewrites
    [\frac{a+b}{c}] to [(a+b)/(c)]; the arguments are matched
    brace-balanced with one level of brace groups, so [\frac{x_{i}}{y}]
    becomes [(x_{i})/(y)]; of the nested [\frac{\frac{a}{b}}{c}] the one
    pass rewrites the outer fraction only and gives [(\frac{a}{b})/(c)];
    [resolve_latex] gives the same on these inputs. *)
Theorem frac_rewrite (rt : runtime) :
  visits_functions rt ->
  _resolve_latex_commands rt (py "\frac{a+b}{c}") = py "(a+b)/(c)"
  /\ _resolve_latex_commands rt (py "\frac{x_{i}}{y}") = py "(x_{i})/(y)"
  /\ _resolve_latex_commands rt (py "\frac{\frac{a}{b}}{c}")
     = py "(\frac{a}{b})/(c)"
  /\ resolve_latex rt (py "\frac{a+b}{c}") = py "(a+b)/(c)"
  /\ resolve_latex rt (py "\frac{\frac{a}{b}}{c}") = py "(\frac{a}{b})/(c)".
Proof.
  intros Hv. split; [by_stages|]. split; [by_stages|]. split; [by_stages|].
  split.
  - rewrite (@resolve_latex_without_math rt _ (py "\frac{a+b}{c}")).
    + by_stages.
    + vm_compute. reflexivity.
    + apply no_dollar_dec. vm_compute. reflexivity.
  - rewrite (@resolve_latex_without_math rt _ (py "\frac{\frac{a}{b}}{c}")).
    + by_stages.
    + vm_compute. reflexivity.
    + apply no_dollar_dec. vm_compute. reflexivity.
Qed.

Lemma frac_rewrite_witness :
  _resolve_latex_commands reference_runtime (py "\frac{a+b}{c}") = py "(a+b)/(c)"
  /\ _resolve_latex_commands reference_runtime (py "\frac{x_{i}}{y}")
     = py "(x_{i})/(y)"
  /\ _resolve_latex_commands reference_runtime (py "\frac{\frac{a}{b}}{c}")
     = py "(\frac{a}{b})/(c)"
  /\ resolve_latex reference_runtime (py "\frac{a+b}{c}") = py "(a+b)/(c)"
  /\ resolve_latex reference_runtime (py "\frac{\frac{a}{b}}{c}")
     = py "(\frac{a}{b})/(c)".
Proof. apply (frac_rewrite reference_runtime_visits). Defined.

(** C3 as stated fails: the nested fraction is not rewritten to
    [((a)/(b))/(c)]. *)
Lemma frac_nested_counterexample :
  _resolve_latex_commands reference_runtime (py "\frac{\frac{a}{b}}{c}")
  <> py "((a)/(b))/(c)".
Proof. vm_compute. discriminate. Qed.

(** C6 as stated fails: a second pass rewrites what the first left. *)
Lemma idempotence_counterexample :
  resolve_latex reference_runtime
    (resolve_latex reference_runtime (py "\frac{\frac{a}{b}}{c}"))
  <> resolve_latex reference_runtime (py "\frac{\frac{a}{b}}{c}").
Proof. vm_compute. discriminate. Qed.

Lemma sub_go_no_match r repl : forall s prev,
  search_go r prev s = false -> sub_go r repl 0 prev s = s.
Proof.
  induction s as [|c s IH]; intros prev H; cbn [search_go sub_go] in *.
  - destruct (match_here r prev []); [discriminate H|reflexivity].
  - destruct (match_here r prev (c :: s)); [discriminate H|].
    f_equal. now apply IH.
Qed.

Lemma sub_no_match r repl s : search r s = false -> sub r repl s = s.
Proof. apply sub_go_no_match. Qed.

Lemma replace_absent old new s : contains old s = false -> replace old new s = s.
Proof.
  unfold replace. induction s as [|c s IH]; intros H; [reflexivity|].
  cbn [contains] in H. apply orb_false_iff in H as [H1 H2].
  cbn [replace_go]. rewrite H1. f_equal. now apply IH.
Qed.

Lemma in_insert_by_len_desc x y l :
  In x (insert_by_len_desc y l) -> x = y \/ In x l.
Proof.
  induction l as [|z l IH]; cbn [insert_by_len_desc].
  - intros [H|[]]. now left.
  - destruct (length z <? length y).
    + intros [H|H]; [now left|now right].
    + intros [H|H]; [right; now left|].
      destruct (IH H) as [E|E]; [now left|right; now right].
Qed.

Lemma in_sorted_by_len_desc x keys :
  In x (sorted_by_len_desc keys) -> In x keys.
Proof.
  unfold sorted_by_len_desc.
  assert (G : forall acc, In x (fold_left (fun acc x => insert_by_len_desc x acc)
                                          keys acc) -> In x keys \/ In x acc).
  { induction keys as [|k keys IH]; intros acc H; cbn [fold_left] in H.
    - now right.
    - destruct (IH _ H) as [E|E]; [left; now right|].
      destruct (in_insert_by_len_desc _ _ _ E) as [->|E'];
        [left; now left|now right]. }
  intros H. destruct (G [] H) as [E|[]]. exact E.
Qed.

Lemma glyph_pass_fixed t :
  existsb (fun cmd => contains cmd t) (map fst LATEX_GLYPHS) = false ->
  glyph_pass t = t.
Proof.
  intros H. unfold glyph_pass.
  assert (G : forall cmd, In cmd (sorted_by_len_desc (map fst LATEX_GLYPHS)) ->
                          contains cmd t = false).
  { intros cmd Hc. apply in_sorted_by_len_desc in Hc.
    destruct (contains cmd t) eqn:E; [|reflexivity].
    assert (X : existsb (fun cmd => contains cmd t) (map fst LATEX_GLYPHS) = true)
      by (apply existsb_exists; eauto).
    congruence. }
  induction (sorted_by_len_desc (map fst LATEX_GLYPHS)) as [|cmd l IH];
    [reflexivity|].
  cbn [fold_left]. rewrite replace_absent by (apply G; now left).
  apply IH. intros c Hc. apply G. now right.
Qed.

Lemma func_pass_no_match rt t :
  visits_functions rt ->
  existsb (fun func => search (re_func func) t) LATEX_FUNCTIONS = false ->
  fold_left func_step (set_order rt) t = t.
Proof.
  intros Hv H.
  assert (G : forall f, In f (set_order rt) -> func_step t f = t).
  { intros f Hf. unfold func_step. apply sub_no_match.
    destruct (search (re_func f) t) eqn:E; [|reflexivity].
    assert (X : existsb (fun func => search (re_func func) t) LATEX_FUNCTIONS
                = true).
    { apply existsb_exists. exists f. split; [|exact E].
      eapply Permutation_in; eauto. }
    congruence. }
  induction (set_order rt) as [|f l IH]; [reflexivity|].
  cbn [fold_left]. rewrite G by now left. apply IH.
  intros g Hg. apply G. now right.
Qed.

(** A text that holds no recognized notation is a fixed point of the
    transliterator. *)
Lemma resolve_latex_fixed rt t :
  visits_functions rt -> recognized t = false -> resolve_latex rt t = t.
Proof.
  intros Hv H. unfold recognized in H.
  apply orb_false_iff in H as [H Hg]. apply orb_false_iff in H as [H Hf].
  apply orb_false_iff in H as [H Hfrac]. apply orb_false_iff in H as [H Hbb].
  apply orb_false_iff in H as [H Htext]. apply orb_false_iff in H as [Hdb Him].
  rewrite resolve_latex_unfold.
  rewrite (@sub_no_match _ _ t Hdb), (@sub_no_match _ _ t Him).
  rewrite resolve_commands_stages. unfold pre_pass.
  rewrite (@sub_no_match _ _ t Hdb), (@sub_no_match _ _ t Htext).
  rewrite (@sub_no_match _ _ t Hbb), (@sub_no_match _ _ t Hfrac).
  rewrite (@func_pass_no_match rt t Hv Hf).
  now apply glyph_pass_fixed.
Qed.

(** C6 (as the code has it).  Where one pass leaves no notation that the
    transliterator recognizes, a second pass changes nothing; commands
    that are in no table and dollar signs that open no inline span may
    remain. *)
Theorem resolve_latex_idempotent_when_resolved (rt : runtime) (s : pystr) :
  visits_functions rt ->
  recognized (resolve_latex rt s) = false ->
  resolve_latex rt (resolve_latex rt s) = resolve_latex rt s.
Proof. intros Hv H. now apply resolve_latex_fixed. Qed.

Lemma resolve_latex_idempotent_witness :
  visits_functions reference_runtime
  /\ resolve_latex reference_runtime (py "$\alpha + \frac{a}{b}$ \foo costs $5")
     = [0x3B1; 0xA0; 43; 0xA0; 40; 97; 41; 47; 40; 98; 41]%N
       ++ py " \foo costs $5"
  /\ recognized (resolve_latex reference_runtime
                   (py "$\alpha + \frac{a}{b}$ \foo costs $5")) = false
  /\ resolve_latex reference_runtime
       (resolve_latex reference_runtime
          (py "$\alpha + \frac{a}{b}$ \foo costs $5"))
     = resolve_latex reference_runtime
         (py "$\alpha + \frac{a}{b}$ \foo costs $5").
Proof.
  split; [exact reference_runtime_visits|].
  split; [vm_compute; reflexivity|].
  assert (H : recognized (resolve_latex reference_runtime
                            (py "$\alpha + \frac{a}{b}$ \foo costs $5")) = false)
    by (vm_compute; reflexivity).
  split; [exact H|].
  exact (@resolve_latex_idempotent_when_resolved reference_runtime
           (py "$\alpha + \frac{a}{b}$ \foo costs $5")
           reference_runtime_visits H).
Defined.

Lemma parse_math_text_X_ab_c rt size bold italic font :
  visits_functions rt ->
  parse_math_text rt (py "X_{ab}^c") size bold italic font
  = [make_run (py "X") size bold italic false false false font;
     make_run (py "ab") size bold italic false true false font;
     make_run (py "c") size bold italic false false true font].
Proof.
  intros Hv. unfold parse_math_text.
  assert (E : resolve_latex rt (py "X_{ab}^c") = py "X_{ab}^c").
  { apply resolve_latex_plain; [assumption| |].
    - apply no_backslash_dec. vm_compute. reflexivity.
    - apply no_dollar_dec. vm_compute. reflexivity. }
  rewrite E. vm_compute. reflexivity.
Qed.

(** C7.  [parse_math_text] splits [X_{ab}^c] into three runs, in this
    order: one with the text [X] on the line, one with the text [ab]
    lowered, and one with the text [c] raised; each of the three has the
    size, weight, slant and font asked for. *)
Theorem parse_math_text_sub_super (rt : runtime) (size : N)
  (bold italic : bool) (font : pystr) :
  visits_functions rt ->
  let runs := parse_math_text rt (py "X_{ab}^c") size bold italic font in
  map run_text runs = [Some (py "X"); Some (py "ab"); Some (py "c")]
  /\ map run_vert_align runs
     = [None; Some (py "subscript"); Some (py "superscript")]
  /\ map vert_align_count runs = [0; 1; 1]
  /\ Forall (fun r => has_tag "w:r" r = true
                      /\ run_size r = Some (str_N (size * 2))
                      /\ run_font r = Some font
                      /\ is_bold r = bold /\ is_italic r = italic
                      /\ is_small_caps r = false) runs.
Proof.
  intros Hv. cbv zeta. rewrite (parse_math_text_X_ab_c size bold italic font Hv).
  destruct bold, italic; repeat split; repeat constructor.
Qed.

Lemma parse_math_text_sub_super_witness :
  visits_functions reference_runtime
  /\ map run_text (parse_math_text reference_runtime (py "X_{ab}^c")
                                   BODY_PT false false FONT)
     = [Some (py "X"); Some (py "ab"); Some (py "c")]
  /\ map run_vert_align (parse_math_text reference_runtime (py "X_{ab}^c")
                                         BODY_PT false false FONT)
     = [None; Some (py "subscript"); Some (py "superscript")].
Proof.
  split; [exact reference_runtime_visits|].
  destruct (@parse_math_text_sub_super reference_runtime BODY_PT false false
              FONT reference_runtime_visits) as (H1 & H2 & _).
  split; [exact H1|exact H2].
Defined.

(* ====================================================================== *)
(** * The paragraphs of [make_paragraph] *)
(* ====================================================================== *)

Lemma fold_left_xappend runs t a x c :
  fold_left xappend runs (Element t a x c) = Element t a x (c ++ runs).
Proof.
  revert c. induction runs as [|r runs IH]; intros c; simpl.
  - now rewrite app_nil_r.
  - rewrite IH. now rewrite <- app_assoc.
Qed.

Lemma make_paragraph_eq runs align sb sa fi li h kn ls lr ts :
  make_paragraph runs align sb sa fi li h kn ls lr ts
  = Element "w:p" [] None (paragraph_pPr align sb sa fi li h kn ls lr ts :: runs).
Proof.
  unfold make_paragraph.
  destruct kn, ts as [|t0 ts], fi, li, h, ls; cbn -[str_N align_map fold_left py];
    rewrite fold_left_xappend; reflexivity.
Qed.

Lemma tag_xset e k v : tag_of (xset e k v) = tag_of e.
Proof. now destruct e. Qed.

Lemma tag_xappend e c : tag_of (xappend e c) = tag_of e.
Proof. now destruct e. Qed.

Lemma tag_tabs_element ts : tag_of (tabs_element ts) = "w:tabs"%string.
Proof.
  unfold tabs_element.
  assert (H : forall e, tag_of
     (fold_left
        (fun tabs (ps : N * string) =>
           let '(pos, align_type) := ps in
           let tab := OxmlElement "w:tab" in
           let tab := xset tab "w:val" (py align_type) in
           let tab := xset tab "w:pos" (str_N pos) in
           xappend tabs tab) ts e) = tag_of e).
  { induction ts as [|[pos al] ts IH]; intros e; simpl; [reflexivity|].
    rewrite IH. apply tag_xappend. }
  now rewrite H.
Qed.

Lemma tag_spacing_element sb sa ls lr :
  tag_of (spacing_element sb sa ls lr) = "w:spacing"%string.
Proof. destruct ls; reflexivity. Qed.

Lemma tag_ind_element fi li h : tag_of (ind_element fi li h) = "w:ind"%string.
Proof. destruct fi, li, h; reflexivity. Qed.

Lemma paragraph_pPr_tags align sb sa fi li h kn ls lr ts :
  map tag_of (children_of (paragraph_pPr align sb sa fi li h kn ls lr ts))
  = pPr_tags fi li h kn ts.
Proof.
  unfold paragraph_pPr, pPr_tags. cbn [children_of].
  destruct kn, ts as [|t0 ts], (is_some fi || is_some li || is_some h);
    cbn [map app];
    rewrite ?tag_tabs_element, ?tag_spacing_element, ?tag_ind_element;
    reflexivity.
Qed.

Lemma xfind_is_some t l :
  is_some (xfind t l) = existsb (fun x => String.eqb x t) (map tag_of l).
Proof.
  unfold xfind. induction l as [|e l IH]; [reflexivity|].
  cbn [find map existsb]. unfold has_tag at 1.
  destruct (String.eqb (tag_of e) t); [reflexivity|exact IH].
Qed.

Lemma xfind_none t l :
  existsb (fun x => String.eqb x t) (map tag_of l) = false -> xfind t l = None.
Proof.
  rewrite <- xfind_is_some. now destruct (xfind t l).
Qed.

Lemma para_pPr_make_paragraph runs align sb sa fi li h kn ls lr ts :
  para_pPr (make_paragraph runs align sb sa fi li h kn ls lr ts)
  = Some (paragraph_pPr align sb sa fi li h kn ls lr ts).
Proof. rewrite make_paragraph_eq. reflexivity. Qed.

Lemma pPr_child_make_paragraph t runs align sb sa fi li h kn ls lr ts :
  pPr_child t (make_paragraph runs align sb sa fi li h kn ls lr ts)
  = xfind t (children_of (paragraph_pPr align sb sa fi li h kn ls lr ts)).
Proof. unfold pPr_child. now rewrite para_pPr_make_paragraph. Qed.

Lemma has_tag_make_paragraph t runs align sb sa fi li h kn ls lr ts :
  has_tag t (make_paragraph runs align sb sa fi li h kn ls lr ts)
  = String.eqb "w:p" t.
Proof. rewrite make_paragraph_eq. reflexivity. Qed.

Ltac pPr_cases fi li h kn ts :=
  unfold pPr_tags; destruct kn, ts, fi, li, h; reflexivity.

Lemma make_paragraph_no_descriptor runs align sb sa fi li h kn ls lr ts :
  descriptor_of (make_paragraph runs align sb sa fi li h kn ls lr ts) = None.
Proof.
  unfold descriptor_of, paragraph_descriptor.
  rewrite !has_tag_make_paragraph. cbn [String.eqb Ascii.eqb Bool.eqb andb].
  rewrite pPr_child_make_paragraph. apply xfind_none.
  rewrite paragraph_pPr_tags. pPr_cases fi li h kn ts.
Qed.

Lemma make_paragraph_has_tabs runs align sb sa fi li h kn ls lr ts :
  has_tabs (make_paragraph runs align sb sa fi li h kn ls lr ts)
  = match ts with [] => false | _ => true end.
Proof.
  unfold has_tabs. rewrite pPr_child_make_paragraph, xfind_is_some.
  rewrite paragraph_pPr_tags. pPr_cases fi li h kn ts.
Qed.

Lemma make_paragraph_keep_with_next runs align sb sa fi li h kn ls lr ts :
  keep_with_next (make_paragraph runs align sb sa fi li h kn ls lr ts) = kn.
Proof.
  unfold keep_with_next. rewrite pPr_child_make_paragraph, xfind_is_some.
  rewrite paragraph_pPr_tags. pPr_cases fi li h kn ts.
Qed.

Lemma para_runs_make_paragraph runs align sb sa fi li h kn ls lr ts :
  para_runs (make_paragraph runs align sb sa fi li h kn ls lr ts)
  = filter (has_tag "w:r") runs.
Proof. rewrite make_paragraph_eq. reflexivity. Qed.

Lemma xfind_app_skip t l1 l2 :
  existsb (fun x => String.eqb x t) (map tag_of l1) = false ->
  xfind t (l1 ++ l2) = xfind t l2.
Proof.
  unfold xfind. induction l1 as [|e l1 IH]; [reflexivity|].
  cbn [map existsb app find]. unfold has_tag at 1. intros H.
  apply orb_false_iff in H as [H1 H2]. rewrite H1. now apply IH.
Qed.

Lemma alignment_make_paragraph runs align sb sa fi li h kn ls lr ts :
  alignment (make_paragraph runs align sb sa fi li h kn ls lr ts)
  = Some (align_map align).
Proof.
  unfold alignment. rewrite pPr_child_make_paragraph.
  unfold paragraph_pPr. cbn [children_of].
  rewrite !app_assoc.
  rewrite xfind_app_skip.
  - reflexivity.
  - rewrite !map_app.
    replace (map tag_of (if kn then [OxmlElement "w:keepNext"] else []))
      with (if kn then ["w:keepNext"%string] else []) by now destruct kn.
    replace (map tag_of match ts with [] => [] | _ :: _ => [tabs_element ts] end)
      with (match ts with [] => [] | _ => ["w:tabs"%string] end)
      by (destruct ts; [reflexivity|]; cbn [map]; now rewrite tag_tabs_element).
    cbn [map]. rewrite tag_spacing_element.
    replace (map tag_of (if is_some fi || is_some li || is_some h
                         then [ind_element fi li h] else []))
      with (if is_some fi || is_some li || is_some h then ["w:ind"%string] else [])
      by (destruct (is_some fi || is_some li || is_some h);
          [cbn [map]; now rewrite tag_ind_element|reflexivity]).
    destruct kn, ts, (is_some fi || is_some li || is_some h); reflexivity.
Qed.

Lemma addprevious_at_length body x rest :
  addprevious_at (length body) x (body ++ rest) = body ++ x :: rest.
Proof.
  unfold addprevious_at.
  rewrite firstn_app, Nat.sub_diag, firstn_all, firstn_O, app_nil_r.
  rewrite skipn_app, Nat.sub_diag, skipn_all. reflexivity.
Qed.

Lemma author_row_step_eq authors m body start :
  author_row_step authors m body start = body ++ author_row authors m start.
Proof.
  unfold author_row_step, author_row, inject_section_break.
  cbv zeta. now rewrite addprevious_at_length.
Qed.

Lemma fold_left_stream {A} (step : list xml -> A -> list xml)
  (f : A -> list xml) l :
  (forall body x, step body x = body ++ f x) ->
  forall body, fold_left step l body = body ++ concat (map f l).
Proof.
  intros H. induction l as [|x l IH]; intros body; simpl.
  - now rewrite app_nil_r.
  - rewrite H, IH. now rewrite <- app_assoc.
Qed.

Lemma author_block_eq authors body :
  author_block authors body = body ++ author_stream authors.
Proof.
  unfold author_block, author_stream.
  destruct authors as [|a [|b r]].
  - simpl. now rewrite app_nil_r.
  - cbn [length Nat.eqb].
    rewrite (fold_left_stream
               (fun body affil_line =>
                  body ++ [make_paragraph
                             [make_run affil_line AFFIL_PT
                                       false true false false false FONT]
                             "center" 0 40 None None None
                             false (Some 228%N) "auto" []])
               (fun l => [centered_paragraph l AFFIL_PT true])).
    + rewrite <- app_assoc. cbn [app]. f_equal. f_equal.
      induction (a_lines a) as [|l ls IH]; [reflexivity|].
      cbn [map concat app]. now rewrite IH.
    + reflexivity.
  - cbn [length Nat.eqb].
    apply fold_left_stream. intros. apply author_row_step_eq.
Qed.

Lemma content_fold rt items : forall body c,
  fold_left (content_step rt) items (body, c)
  = (body ++ content_stream rt c items, c + count_equations items).
Proof.
  induction items as [|[t|l] items IH]; intros body c; cbn [fold_left].
  - cbn. now rewrite app_nil_r, Nat.add_0_r.
  - cbn [content_step content_stream count_equations]. rewrite IH.
    f_equal. destruct (text_paragraph rt t); cbn [append_opt opt_list].
    + now rewrite <- app_assoc.
    + reflexivity.
  - cbn [content_step content_stream count_equations]. rewrite IH.
    f_equal.
    + now rewrite <- app_assoc.
    + lia.
Qed.

Lemma section_fold rt secs : forall body c,
  fold_left (section_step rt) secs (body, c)
  = (body ++ sections_stream rt c secs,
     c + fold_right (fun s n => count_equations (content s) + n) 0 secs).
Proof.
  induction secs as [|s secs IH]; intros body c; cbn [fold_left].
  - cbn. now rewrite app_nil_r, Nat.add_0_r.
  - cbn [section_step sections_stream fold_right].
    rewrite content_fold, IH. f_equal.
    + destruct (heading_paragraph s); cbn [append_opt opt_list];
        now rewrite <- ?app_assoc.
    + lia.
Qed.

Lemma references_fold refs : forall i body,
  fold_left
    (fun body (ir : nat * pystr) =>
       let '(i, ref_text) := ir in body ++ [reference_paragraph i ref_text])
    (enumerate_from i refs) body
  = body ++ map (fun ir => reference_paragraph (fst ir) (snd ir))
                (enumerate_from i refs).
Proof.
  induction refs as [|r refs IH]; intros i body; cbn.
  - now rewrite app_nil_r.
  - rewrite IH. now rewrite <- app_assoc.
Qed.

(** What [build_document] holds before [set_final_section_two_col]. *)
Lemma build_document_before_final rt parsed :
  build_document rt parsed
  = set_final_section_two_col
      (remove_all "w:p" (template_body rt) ++ body_stream rt parsed).
Proof.
  unfold build_document. cbv zeta.
  rewrite author_block_eq.
  unfold inject_continuous_two_col_section_break.
  rewrite addprevious_at_length.
  set (b1 := (remove_all "w:p" (template_body rt) ++ [title_paragraph parsed])
             ++ author_stream (authors parsed)).
  set (b2 := if nonempty (keywords parsed) then _ else _).
  rewrite section_fold. rewrite references_fold.
  f_equal. subst b2 b1. unfold body_stream, front_stream, back_stream,
    references_heading.
  destruct (nonempty (keywords parsed)); cbn [app];
    repeat rewrite <- app_assoc; cbn [app]; reflexivity.
Qed.

(* ====================================================================== *)
(** * The layout of the body *)
(* ====================================================================== *)

Lemma para_with_plain runs a sb sa fi li h kn ls lr :
  para_with kn false (make_paragraph runs a sb sa fi li h kn ls lr []).
Proof. unfold para_with. do 10 eexists. split; reflexivity. Qed.

Lemma para_with_tabbed runs a sb sa fi li h kn ls lr t ts :
  para_with kn true (make_paragraph runs a sb sa fi li h kn ls lr (t :: ts)).
Proof. unfold para_with. do 10 eexists. split; reflexivity. Qed.

Lemma para_with_is_p kn tabs e : para_with kn tabs e -> is_p e.
Proof.
  intros (runs & a & sb & sa & fi & li & h & ls & lr & ts & -> & _).
  unfold is_p. now rewrite has_tag_make_paragraph.
Qed.

Lemma para_with_descriptor kn tabs e : para_with kn tabs e -> descriptor_of e = None.
Proof.
  intros (runs & a & sb & sa & fi & li & h & ls & lr & ts & -> & _).
  apply make_paragraph_no_descriptor.
Qed.

Lemma para_with_tabs kn tabs e : para_with kn tabs e -> has_tabs e = tabs.
Proof.
  intros (runs & a & sb & sa & fi & li & h & ls & lr & ts & -> & <-).
  apply make_paragraph_has_tabs.
Qed.

Lemma para_with_keep kn tabs e : para_with kn tabs e -> keep_with_next e = kn.
Proof.
  intros (runs & a & sb & sa & fi & li & h & ls & lr & ts & -> & _).
  apply make_paragraph_keep_with_next.
Qed.

Lemma some_inj {A} (a b : A) : Some a = Some b -> a = b.
Proof.
  intros H.
  exact (f_equal (fun o => match o with Some x => x | None => a end) H).
Qed.

Ltac some_inv :=
  let H := fresh "H" in
  intros H; first [discriminate H | apply some_inj in H; rewrite <- H].

Lemma text_paragraph_para rt t p :
  text_paragraph rt t = Some p -> para_with false false p.
Proof.
  unfold text_paragraph, bullet_or_regular.
  repeat match goal with
         | |- context [if ?b then _ else _] => destruct b
         | |- context [match ?x with Some _ => _ | None => _ end] => destruct x
         end;
    some_inv; apply para_with_plain.
Qed.

Lemma heading_paragraph_para s p :
  heading_paragraph s = Some p -> para_with true false p.
Proof.
  unfold heading_paragraph.
  destruct (level s =? 1); [|destruct (level s =? 2)];
    some_inv; apply para_with_plain.
Qed.

Lemma equation_paragraph_para rt l c :
  para_with false true (equation_paragraph rt l c).
Proof.
  unfold equation_paragraph. cbv zeta.
  apply para_with_tabbed.
Qed.

Lemma author_paragraph_para a size :
  para_with false false (make_author_paragraph a size).
Proof.
  unfold make_author_paragraph. cbv zeta.
  apply para_with_plain.
Qed.

Lemma centered_paragraph_para t size it :
  para_with false false (centered_paragraph t size it).
Proof. apply para_with_plain. Qed.

Lemma title_paragraph_para parsed : para_with false false (title_paragraph parsed).
Proof. apply para_with_plain. Qed.

Lemma abstract_paragraph_para rt parsed :
  para_with false false (abstract_paragraph rt parsed).
Proof.
  unfold abstract_paragraph. cbv zeta.
  apply para_with_plain.
Qed.

Lemma keywords_paragraph_para parsed :
  para_with false false (keywords_paragraph parsed).
Proof. apply para_with_plain. Qed.

Lemma reference_paragraph_para i r : para_with false false (reference_paragraph i r).
Proof.
  unfold reference_paragraph. cbv zeta.
  apply para_with_plain.
Qed.

Lemma references_heading_para : para_with false false references_heading.
Proof. apply para_with_plain. Qed.

Lemma content_stream_paras rt items : forall c,
  Forall any_para (content_stream rt c items).
Proof.
  induction items as [|[t|l] items IH]; intros c; cbn [content_stream].
  - constructor.
  - apply Forall_app. split; [|apply IH].
    destruct (text_paragraph rt t) eqn:E; cbn [opt_list]; constructor; [|constructor].
    exists false, false. eapply text_paragraph_para; eauto.
  - constructor; [|apply IH]. exists false, true. apply equation_paragraph_para.
Qed.

Lemma sections_stream_paras rt secs : forall c,
  Forall any_para (sections_stream rt c secs).
Proof.
  induction secs as [|s secs IH]; intros c; cbn [sections_stream].
  - constructor.
  - apply Forall_app. split.
    + destruct (heading_paragraph s) eqn:E; cbn [opt_list]; constructor; [|constructor].
      exists true, false. eapply heading_paragraph_para. exact E.
    + apply Forall_app. split; [apply content_stream_paras|apply IH].
Qed.

Lemma back_stream_paras rt parsed : Forall any_para (back_stream rt parsed).
Proof.
  unfold back_stream. apply Forall_app. split.
  - destruct (nonempty (keywords parsed)); constructor; [|constructor].
    exists false, false. apply keywords_paragraph_para.
  - apply Forall_app. split; [apply sections_stream_paras|].
    constructor; [exists false, false; apply references_heading_para|].
    apply Forall_forall. intros e He. apply in_map_iff in He as ([i r] & <- & _).
    exists false, false. apply reference_paragraph_para.
Qed.

Lemma any_para_is_p e : any_para e -> is_p e.
Proof. intros (kn & tabs & H). eapply para_with_is_p; eauto. Qed.

Lemma any_para_descriptor e : any_para e -> descriptor_of e = None.
Proof. intros (kn & tabs & H). eapply para_with_descriptor; eauto. Qed.

Lemma section_break_is_p n cs c : is_p (section_break_paragraph n cs c).
Proof. reflexivity. Qed.

Lemma author_stream_is_p authors : Forall is_p (author_stream authors).
Proof.
  unfold author_stream. destruct authors as [|a [|b r]].
  - constructor.
  - constructor.
    + eapply para_with_is_p, centered_paragraph_para.
    + apply Forall_forall. intros e He. apply in_map_iff in He as (l & <- & _).
      eapply para_with_is_p, centered_paragraph_para.
  - apply Forall_concat. apply Forall_forall. intros row Hrow.
    apply in_map_iff in Hrow as (start & <- & _).
    unfold author_row. constructor; [apply section_break_is_p|].
    apply Forall_forall. intros e He. apply in_map_iff in He as (x & <- & _).
    eapply para_with_is_p, author_paragraph_para.
Qed.

Lemma body_stream_is_p rt parsed : Forall is_p (body_stream rt parsed).
Proof.
  unfold body_stream, front_stream. apply Forall_app. split.
  - constructor; [eapply para_with_is_p, title_paragraph_para|].
    apply author_stream_is_p.
  - constructor; [reflexivity|].
    constructor; [eapply para_with_is_p, abstract_paragraph_para|].
    eapply Forall_impl; [|apply back_stream_paras]. apply any_para_is_p.
Qed.

Lemma is_p_not_sectPr e : is_p e -> has_tag "w:sectPr" e = false.
Proof.
  unfold is_p, has_tag. intros H. apply String.eqb_eq in H. now rewrite H.
Qed.

Lemma xfind_sectPr_paras l g :
  Forall is_p g -> xfind "w:sectPr" (l ++ g) = xfind "w:sectPr" l.
Proof.
  intros Hg. unfold xfind. induction l as [|e l IH]; cbn [app find].
  - induction Hg as [|e g He Hg IH]; [reflexivity|].
    cbn [find]. now rewrite (is_p_not_sectPr He).
  - destruct (has_tag "w:sectPr" e); [reflexivity|exact IH].
Qed.

Lemma remove_first_app t l g :
  xfind t l <> None -> remove_first t (l ++ g) = remove_first t l ++ g.
Proof.
  unfold xfind. induction l as [|e l IH]; cbn [app find remove_first].
  - congruence.
  - destruct (has_tag t e); [reflexivity|].
    intros H. now rewrite IH.
Qed.

(** The layout of the body: what is left of the template, the stream of
    the builder, and the document-level section properties. *)
Lemma build_document_layout rt parsed :
  build_document rt parsed
  = template_rest rt ++ body_stream rt parsed ++ [final_sectPr].
Proof.
  rewrite build_document_before_final.
  unfold set_final_section_two_col, template_rest. cbv zeta.
  rewrite (xfind_sectPr_paras _ (body_stream_is_p rt parsed)).
  destruct (xfind "w:sectPr" (remove_all "w:p" (template_body rt))) eqn:E.
  - rewrite remove_first_app by congruence. now rewrite <- app_assoc.
  - now rewrite <- app_assoc.
Qed.

(* ====================================================================== *)
(** * Region descriptors *)
(* ====================================================================== *)

Lemma range_go_spec step : 0 < step -> forall stop fuel start,
  stop - start <= fuel ->
  range_go fuel start stop step
  = map (fun k => start + k * step) (seq 0 ((stop - start + step - 1) / step)).
Proof.
  intros Hs stop fuel. induction fuel as [|fuel IH]; intros start Hf.
  - cbn [range_go]. replace (stop - start) with 0 by lia.
    rewrite Nat.div_small by lia. reflexivity.
  - cbn [range_go]. destruct (start <? stop) eqn:E.
    + apply Nat.ltb_lt in E.
      rewrite IH by lia.
      assert (D : (stop - start + step - 1) / step
                  = S ((stop - (start + step) + step - 1) / step)).
      { destruct (le_lt_dec step (stop - start)) as [L|L].
        - replace (stop - start + step - 1)
            with ((stop - (start + step) + step - 1) + 1 * step) by lia.
          rewrite Nat.div_add by lia. lia.
        - replace (stop - (start + step)) with 0 by lia.
          rewrite (Nat.div_small (0 + step - 1)) by lia.
          symmetry. apply Nat.div_unique with (r := stop - start - 1); lia. }
      rewrite D. cbn [seq map]. f_equal; [lia|].
      rewrite <- seq_shift, map_map. apply map_ext. intros k. lia.
    + apply Nat.ltb_ge in E. replace (stop - start) with 0 by lia.
      rewrite Nat.div_small by lia. reflexivity.
Qed.

Lemma py_range_spec stop step : 0 < step ->
  py_range 0 stop step
  = map (fun k => k * step) (seq 0 ((stop + step - 1) / step)).
Proof.
  intros H. unfold py_range. rewrite range_go_spec by lia.
  rewrite Nat.sub_0_r. reflexivity.
Qed.

Lemma slice_length {A} a b (l : list A) :
  length (slice a b l) = Nat.min (b - a) (length l - a).
Proof. unfold slice. now rewrite length_firstn, length_skipn. Qed.

(** The rows of the author block, for two authors and more. *)
Lemma author_rows_sizes {A} (authors : list A) :
  2 <= length authors ->
  map (fun start =>
         length (slice start (start + Nat.min (length authors) 4) authors))
      (py_range 0 (length authors) (Nat.min (length authors) 4))
  = expected_author_rows (length authors).
Proof.
  intros H. set (n := length authors) in *.
  unfold expected_author_rows.
  destruct (n <? 2) eqn:E; [apply Nat.ltb_lt in E; lia|].
  rewrite py_range_spec by lia. rewrite map_map.
  destruct (le_lt_dec 4 n) as [L|L].
  - rewrite Nat.min_r by lia. replace (n + 4 - 1) with (n + 3) by lia.
    apply map_ext. intros k. rewrite slice_length. fold n. lia.
  - assert (R : (n + Nat.min n 4 - 1) / Nat.min n 4 = 1).
    { rewrite Nat.min_l by lia.
      symmetry. apply Nat.div_unique with (r := n - 1); lia. }
    assert (R' : (n + 3) / 4 = 1).
    { symmetry. apply Nat.div_unique with (r := n - 1); lia. }
    rewrite R, R'. cbn [seq map]. rewrite slice_length. fold n.
    f_equal. lia.
Qed.

Lemma region_descriptors_app l1 l2 :
  region_descriptors (l1 ++ l2) = region_descriptors l1 ++ region_descriptors l2.
Proof. apply flat_map_app. Qed.

Lemma paragraph_descriptors_app l1 l2 :
  paragraph_descriptors (l1 ++ l2)
  = paragraph_descriptors l1 ++ paragraph_descriptors l2.
Proof. apply flat_map_app. Qed.

Lemma region_descriptors_none l :
  Forall (fun e => descriptor_of e = None) l -> region_descriptors l = [].
Proof.
  induction 1 as [|e l He Hl IH]; [reflexivity|].
  unfold region_descriptors in *. cbn [flat_map]. now rewrite He, IH.
Qed.

Lemma descriptor_paragraph e :
  is_p e -> descriptor_of e = paragraph_descriptor e.
Proof.
  intros H. unfold descriptor_of. now rewrite (is_p_not_sectPr H).
Qed.

Lemma region_descriptors_paras l :
  Forall is_p l -> region_descriptors l = paragraph_descriptors l.
Proof.
  induction 1 as [|e l He Hl IH]; [reflexivity|].
  unfold region_descriptors, paragraph_descriptors in *. cbn [flat_map].
  now rewrite (descriptor_paragraph He), IH.
Qed.

Lemma section_break_descriptor n cs c :
  descriptor_of (section_break_paragraph n cs c)
  = Some (section_break_sectPr n cs c).
Proof.
  unfold descriptor_of, paragraph_descriptor, pPr_child, para_pPr.
  destruct c; reflexivity.
Qed.

Lemma two_col_break_descriptor :
  descriptor_of two_col_break_paragraph = Some two_col_break_sectPr.
Proof. reflexivity. Qed.

Lemma final_sectPr_descriptor : descriptor_of final_sectPr = Some final_sectPr.
Proof. reflexivity. Qed.

Lemma author_row_descriptors authors m start :
  region_descriptors (author_row authors m start)
  = [author_row_sectPr (length (slice start (start + m) authors))].
Proof.
  unfold author_row. cbv zeta. unfold region_descriptors. cbn [flat_map].
  rewrite section_break_descriptor. cbn [opt_list app]. f_equal.
  apply region_descriptors_none. apply Forall_forall. intros e He.
  apply in_map_iff in He as (a & <- & _).
  eapply para_with_descriptor, author_paragraph_para.
Qed.

Lemma region_descriptors_concat {A} (f : A -> list xml) (g : A -> xml) l :
  (forall x, region_descriptors (f x) = [g x]) ->
  region_descriptors (concat (map f l)) = map g l.
Proof.
  intros H. induction l as [|x l IH]; [reflexivity|].
  cbn [map concat]. now rewrite region_descriptors_app, H, IH.
Qed.

(** The descriptors of the author block. *)
Lemma author_stream_descriptors authors :
  region_descriptors (author_stream authors)
  = map author_row_sectPr (expected_author_rows (length authors)).
Proof.
  unfold author_stream. destruct authors as [|a [|b r]].
  - reflexivity.
  - apply region_descriptors_none. constructor.
    + eapply para_with_descriptor, centered_paragraph_para.
    + apply Forall_forall. intros e He. apply in_map_iff in He as (l & <- & _).
      eapply para_with_descriptor, centered_paragraph_para.
  - set (authors := a :: b :: r).
    rewrite (region_descriptors_concat _
               (fun start => author_row_sectPr
                  (length (slice start (start + Nat.min (length authors) 4)
                                 authors)))).
    + rewrite <- author_rows_sizes by (cbn; lia).
      now rewrite map_map.
    + intros start. apply author_row_descriptors.
Qed.

Lemma back_stream_descriptors rt parsed :
  region_descriptors (back_stream rt parsed) = [].
Proof.
  apply region_descriptors_none.
  eapply Forall_impl; [|apply back_stream_paras]. apply any_para_descriptor.
Qed.

(** The descriptors of the builder's stream. *)
Lemma body_stream_descriptors rt parsed :
  region_descriptors (body_stream rt parsed)
  = map author_row_sectPr (expected_author_rows (length (authors parsed)))
    ++ [two_col_break_sectPr].
Proof.
  unfold body_stream, front_stream.
  rewrite region_descriptors_app.
  change (title_paragraph parsed :: author_stream (authors parsed))
    with ([title_paragraph parsed] ++ author_stream (authors parsed)).
  rewrite region_descriptors_app, author_stream_descriptors.
  rewrite (@region_descriptors_none [title_paragraph parsed]).
  2:{ constructor; [|constructor].
      eapply para_with_descriptor, title_paragraph_para. }
  cbn [app]. f_equal.
  change (two_col_break_paragraph :: abstract_paragraph rt parsed
            :: back_stream rt parsed)
    with ([two_col_break_paragraph] ++ [abstract_paragraph rt parsed]
            ++ back_stream rt parsed).
  rewrite !region_descriptors_app, back_stream_descriptors.
  rewrite (@region_descriptors_none [abstract_paragraph rt parsed]).
  2:{ constructor; [|constructor].
      eapply para_with_descriptor, abstract_paragraph_para. }
  reflexivity.
Qed.

Lemma remove_all_no_tag t l :
  Forall (fun e => has_tag t e = false) (remove_all t l).
Proof.
  unfold remove_all. apply Forall_forall. intros e He.
  apply filter_In in He as [_ He]. now apply negb_true_iff in He.
Qed.

Lemma remove_first_Forall (P : xml -> Prop) t l :
  Forall P l -> Forall P (remove_first t l).
Proof.
  induction 1 as [|e l He Hl IH]; cbn [remove_first]; [constructor|].
  destruct (has_tag t e); [assumption|now constructor].
Qed.

Lemma filter_remove_first t l :
  length (filter (has_tag t) l) <= 1 ->
  Forall (fun e => has_tag t e = false) (remove_first t l).
Proof.
  induction l as [|e l IH]; cbn [remove_first filter]; [constructor|].
  destruct (has_tag t e) eqn:E; cbn [length]; intros H.
  - apply Forall_forall. intros x Hx.
    destruct (has_tag t x) eqn:Ex; [|reflexivity].
    assert (In x (filter (has_tag t) l)) by (apply filter_In; auto).
    destruct (filter (has_tag t) l); [contradiction|cbn in H; lia].
  - constructor; [assumption|now apply IH].
Qed.

Lemma xfind_none_Forall t l :
  xfind t l = None -> Forall (fun e => has_tag t e = false) l.
Proof.
  unfold xfind. induction l as [|e l IH]; cbn [find]; [constructor|].
  destruct (has_tag t e) eqn:E; [discriminate|].
  intros H. constructor; auto.
Qed.

Lemma filter_remove_all_le t u l :
  length (filter (has_tag t) (remove_all u l)) <= length (filter (has_tag t) l).
Proof.
  unfold remove_all. induction l as [|e l IH]; cbn [filter]; [lia|].
  destruct (negb (has_tag u e)); cbn [filter];
    destruct (has_tag t e); cbn [length]; lia.
Qed.

(** With one [w:sectPr] at most in the template, what is left of the
    template holds no paragraph and no section properties. *)
Lemma template_rest_inert rt :
  single_sectPr_template rt ->
  Forall (fun e => has_tag "w:p" e = false /\ has_tag "w:sectPr" e = false)
         (template_rest rt).
Proof.
  intros H. unfold template_rest. cbv zeta.
  set (b := remove_all "w:p" (template_body rt)).
  assert (Hp : Forall (fun e => has_tag "w:p" e = false) b)
    by apply remove_all_no_tag.
  assert (Hs : length (filter (has_tag "w:sectPr") b) <= 1).
  { etransitivity; [apply filter_remove_all_le|exact H]. }
  destruct (xfind "w:sectPr" b) eqn:E.
  - assert (H1 := remove_first_Forall "w:sectPr" Hp).
    assert (H2 := filter_remove_first "w:sectPr" b Hs).
    rewrite Forall_forall in *. intros e He. split; auto.
  - assert (H2 := xfind_none_Forall _ _ E).
    rewrite Forall_forall in *. intros e He. split; auto.
Qed.

Lemma template_rest_no_p rt :
  Forall (fun e => has_tag "w:p" e = false) (template_rest rt).
Proof.
  unfold template_rest. cbv zeta.
  destruct (xfind "w:sectPr" (remove_all "w:p" (template_body rt))).
  - apply remove_first_Forall, remove_all_no_tag.
  - apply remove_all_no_tag.
Qed.

Lemma template_rest_descriptors rt :
  single_sectPr_template rt -> region_descriptors (template_rest rt) = [].
Proof.
  intros H. apply region_descriptors_none.
  eapply Forall_impl; [|apply (template_rest_inert H)].
  intros e [Hp Hs]. unfold descriptor_of, paragraph_descriptor.
  now rewrite Hs, Hp.
Qed.

Lemma filter_none {A} (f : A -> bool) l :
  Forall (fun e => f e = false) l -> filter f l = [].
Proof.
  induction 1 as [|e l He Hl IH]; [reflexivity|].
  cbn [filter]. now rewrite He.
Qed.

(** The column facts of the three kinds of descriptor. *)
Lemma author_row_sectPr_columns n :
  column_count (author_row_sectPr n) = Some (str_nat n)
  /\ column_gap (author_row_sectPr n) = Some (str_N AUTHOR_COL_SPACE_TWIPS)
  /\ is_continuous (author_row_sectPr n) = true.
Proof.
  unfold author_row_sectPr, section_break_sectPr, column_count, column_gap,
    cols_attr, is_continuous.
  destruct (1 <? n); (split; [|split]); reflexivity.
Qed.

Lemma two_col_break_sectPr_columns :
  column_count two_col_break_sectPr = Some (py "1")
  /\ column_gap two_col_break_sectPr = Some (str_N COL_SPACE_TWIPS)
  /\ is_continuous two_col_break_sectPr = false.
Proof. split; [|split]; reflexivity. Qed.

Lemma final_sectPr_columns :
  column_count final_sectPr = Some (py "2")
  /\ column_gap final_sectPr = Some (str_N COL_SPACE_TWIPS)
  /\ is_continuous final_sectPr = true.
Proof. split; [|split]; reflexivity. Qed.

(* ====================================================================== *)
(** * The descriptors of sample documents, and the author rows *)
(* ====================================================================== *)

Lemma single_sectPr_reference : single_sectPr_template reference_runtime.
Proof. exact (le_n 1). Defined.

Lemma paragraph_descriptors_none l :
  Forall (fun e => has_tag "w:p" e = false) l -> paragraph_descriptors l = [].
Proof.
  induction 1 as [|e l He Hl IH]; [reflexivity|].
  unfold paragraph_descriptors in *. cbn [flat_map].
  unfold paragraph_descriptor at 1. now rewrite He, IH.
Qed.

Lemma build_document_paragraph_descriptors rt parsed :
  paragraph_descriptors (build_document rt parsed)
  = map author_row_sectPr (expected_author_rows (length (authors parsed)))
    ++ [two_col_break_sectPr].
Proof.
  rewrite build_document_layout, !paragraph_descriptors_app.
  rewrite (paragraph_descriptors_none (template_rest_no_p rt)).
  rewrite <- (region_descriptors_paras (body_stream_is_p rt parsed)).
  rewrite body_stream_descriptors. cbn [app]. now rewrite app_nil_r.
Qed.

(** C1 (what the code does by design).  The document-level descriptor is
    the last child of the body and the last descriptor of the stream, it
    is the only one of its kind, and it is two-column and continuous: the
    body region has no descriptor but this one.  The descriptors before
    it are those of paragraphs: the single-column one, which has no
    continuous type, and one per author row, none below two authors.
    Below two authors the stream is the single-column descriptor and then
    the document-level one. *)
Theorem region_descriptor_order (rt : runtime) (parsed : parsed_document) :
  single_sectPr_template rt ->
  let body := build_document rt parsed in
  let n := length (authors parsed) in
  terminal_descriptors body = [final_sectPr]
  /\ (exists pre, body = pre ++ [final_sectPr])
  /\ column_count final_sectPr = Some (py "2")
  /\ is_continuous final_sectPr = true
  /\ region_descriptors body = paragraph_descriptors body ++ [final_sectPr]
  /\ Permutation (paragraph_descriptors body)
                 (two_col_break_sectPr
                    :: map author_row_sectPr (expected_author_rows n))
  /\ (n < 2 ->
      region_descriptors body = [two_col_break_sectPr; final_sectPr])
  /\ column_count two_col_break_sectPr = Some (py "1")
  /\ is_continuous two_col_break_sectPr = false
  /\ (forall k, column_count (author_row_sectPr k) = Some (str_nat k)
                /\ is_continuous (author_row_sectPr k) = true).
Proof.
  intros H. cbv zeta.
  assert (D : region_descriptors (build_document rt parsed)
              = map author_row_sectPr
                    (expected_author_rows (length (authors parsed)))
                ++ [two_col_break_sectPr; final_sectPr]).
  { rewrite build_document_layout, !region_descriptors_app.
    rewrite (template_rest_descriptors H), body_stream_descriptors.
    cbn [app]. now rewrite <- app_assoc. }
  pose proof (build_document_paragraph_descriptors rt parsed) as P.
  split.
  { rewrite build_document_layout.
    unfold terminal_descriptors. rewrite !filter_app.
    rewrite (@filter_none _ (has_tag "w:sectPr") (template_rest rt)).
    2:{ eapply Forall_impl; [|apply (template_rest_inert H)]. now intros e []. }
    rewrite (@filter_none _ (has_tag "w:sectPr") (body_stream rt parsed)).
    2:{ eapply Forall_impl; [|apply body_stream_is_p]. apply is_p_not_sectPr. }
    reflexivity. }
  split.
  { rewrite build_document_layout.
    exists (template_rest rt ++ body_stream rt parsed).
    now rewrite <- app_assoc. }
  split; [reflexivity|]. split; [reflexivity|].
  split.
  { rewrite D, P.
    now rewrite <- app_assoc. }
  split.
  { rewrite P. apply Permutation_sym, Permutation_cons_append. }
  split.
  { intros Hn. rewrite D. unfold expected_author_rows.
    apply Nat.ltb_lt in Hn. now rewrite Hn. }
  split; [reflexivity|]. split; [reflexivity|].
  intros k. split; apply author_row_sectPr_columns.
Qed.

Lemma region_descriptor_order_witness :
  single_sectPr_template reference_runtime
  /\ region_descriptors (build_document reference_runtime one_author_doc)
     = [two_col_break_sectPr; final_sectPr].
Proof.
  split.
  - exact single_sectPr_reference.
  - exact (proj1 (proj2 (proj2 (proj2 (proj2 (proj2 (proj2
             (@region_descriptor_order reference_runtime one_author_doc
                single_sectPr_reference)))))))
             (le_n 2)).
Defined.

(** C1 as stated fails: with no author, and with one, there are two
    descriptors only, the single-column one and the document-level one;
    no body descriptor of its own stands between them. *)
Lemma descriptor_order_counterexample :
  ~ claimed_descriptor_order 0
      (region_descriptors (build_document reference_runtime empty_doc))
  /\ ~ claimed_descriptor_order 1
        (region_descriptors (build_document reference_runtime one_author_doc)).
Proof.
  split.
  - intros (t & rows & b & f & E & _).
    assert (D : region_descriptors (build_document reference_runtime empty_doc)
                = [two_col_break_sectPr; final_sectPr])
      by (vm_compute; reflexivity).
    rewrite D in E. apply (f_equal (@length xml)) in E.
    cbn [length] in E. rewrite length_app in E. cbn [length] in E. lia.
  - intros (t & rows & b & f & E & _).
    assert (D : region_descriptors
                  (build_document reference_runtime one_author_doc)
                = [two_col_break_sectPr; final_sectPr])
      by (vm_compute; reflexivity).
    rewrite D in E. apply (f_equal (@length xml)) in E.
    cbn [length] in E. rewrite length_app in E. cbn [length] in E. lia.
Qed.

Lemma filter_map_all {A B} (f : B -> bool) (g : A -> B) l :
  (forall x, f (g x) = true) -> filter f (map g l) = map g l.
Proof.
  intros H. induction l as [|x l IH]; [reflexivity|].
  cbn [map filter]. now rewrite H, IH.
Qed.

Lemma author_row_breaks_eq rt parsed :
  author_row_breaks (build_document rt parsed)
  = map author_row_sectPr (expected_author_rows (length (authors parsed))).
Proof.
  unfold author_row_breaks. rewrite build_document_paragraph_descriptors.
  rewrite filter_app, filter_map_all.
  - cbn. now rewrite app_nil_r.
  - intros n. destruct (author_row_sectPr_columns n) as (_ & -> & _).
    reflexivity.
Qed.

Lemma expected_author_rows_length n :
  length (expected_author_rows n) = if n <? 2 then 0 else (n + 3) / 4.
Proof.
  unfold expected_author_rows. destruct (n <? 2); [reflexivity|].
  now rewrite length_map, length_seq.
Qed.

Lemma centered_paragraph_facts t size it :
  alignment (centered_paragraph t size it) = Some (py "center")
  /\ para_runs (centered_paragraph t size it)
     = [make_run t size false it false false false FONT]
  /\ run_text (make_run t size false it false false false FONT) = Some t
  /\ descriptor_of (centered_paragraph t size it) = None.
Proof.
  unfold centered_paragraph. split; [|split; [|split]].
  - now rewrite alignment_make_paragraph.
  - rewrite para_runs_make_paragraph. destruct it; reflexivity.
  - destruct it; reflexivity.
  - apply make_paragraph_no_descriptor.
Qed.

(** C2.  The boundaries of author rows in the body have the column
    counts [min(n - 4k, 4)] for [k < ceil(n/4)] when there are [n >= 2]
    authors, and there is none for [n < 2]; a single author is rendered
    after the title as centred paragraphs, one for the name and one per
    affiliation line, each of one run and without a descriptor. *)
Theorem author_region_boundaries (rt : runtime) (parsed : parsed_document) :
  map column_count (author_row_breaks (build_document rt parsed))
  = map (fun c => Some (str_nat c))
        (expected_author_rows (length (authors parsed)))
  /\ length (author_row_breaks (build_document rt parsed))
     = (if length (authors parsed) <? 2 then 0
        else (length (authors parsed) + 3) / 4)
  /\ (forall a, authors parsed = [a] ->
        exists post,
          build_document rt parsed
          = template_rest rt
            ++ title_paragraph parsed
               :: centered_paragraph (a_name a) AUTHOR_PT false
               :: map (fun l => centered_paragraph l AFFIL_PT true) (a_lines a)
            ++ two_col_break_paragraph :: post)
  /\ (forall t size it,
        alignment (centered_paragraph t size it) = Some (py "center")
        /\ para_runs (centered_paragraph t size it)
           = [make_run t size false it false false false FONT]
        /\ run_text (make_run t size false it false false false FONT) = Some t
        /\ descriptor_of (centered_paragraph t size it) = None).
Proof.
  rewrite author_row_breaks_eq. split; [|split; [|split]].
  - rewrite map_map. apply map_ext. intros n.
    apply author_row_sectPr_columns.
  - now rewrite length_map, expected_author_rows_length.
  - intros a Ha. rewrite build_document_layout.
    unfold body_stream, front_stream. rewrite Ha. cbn [author_stream].
    eexists. f_equal. cbn [app]. f_equal. f_equal.
    rewrite <- app_assoc. reflexivity.
  - apply centered_paragraph_facts.
Qed.

Lemma author_region_boundaries_witness :
  authors one_author_doc = [Author (py "A") [py "Dept"; py "Org"]]
  /\ exists post,
       build_document reference_runtime one_author_doc
       = template_rest reference_runtime
         ++ title_paragraph one_author_doc
            :: centered_paragraph (py "A") AUTHOR_PT false
            :: map (fun l => centered_paragraph l AFFIL_PT true)
                   [py "Dept"; py "Org"]
         ++ two_col_break_paragraph :: post.
Proof.
  split; [reflexivity|].
  exact (proj1 (proj2 (proj2
           (author_region_boundaries reference_runtime one_author_doc)))
           (Author (py "A") [py "Dept"; py "Org"]) eq_refl).
Defined.

(* ====================================================================== *)
(** * The abstract, and the equations *)
(* ====================================================================== *)

Lemma script_runs_styled text size bold italic font :
  Forall (styled_run size bold italic font)
         (script_runs text size bold italic font).
Proof.
  unfold script_runs.
  set (base := fun (t : pystr) (subscript superscript : bool) =>
                 make_run t size bold italic false subscript superscript font).
  assert (Hb : forall t a b, styled_run size bold italic font (base t a b))
    by (intros t a b; exists t, a, b; reflexivity).
  set (step := fun (acc : list xml * nat) (m : match_obj) => _).
  assert (Hf : forall ms acc,
             Forall (styled_run size bold italic font) (fst acc) ->
             Forall (styled_run size bold italic font)
                    (fst (fold_left step ms acc))).
  { induction ms as [|m ms IH]; intros [runs pos] Hacc; [exact Hacc|].
    cbn [fold_left]. apply IH. unfold step. cbn [fst].
    apply Forall_app. split.
    - destruct (pos <? mo_start m); [|exact Hacc].
      destruct (slice pos (mo_start m) text); [exact Hacc|].
      apply Forall_app. split; [exact Hacc|]. constructor; [apply Hb|constructor].
    - constructor; [apply Hb|constructor]. }
  specialize (Hf (finditer re_subsup text) ([], 0) (Forall_nil _)).
  destruct (fold_left step (finditer re_subsup text) ([], 0)) as [runs pos].
  cbn [fst] in Hf.
  assert (H1 : Forall (styled_run size bold italic font)
                 (if pos <? length text
                  then match slice_from pos text with
                       | [] => runs
                       | _ :: _ => runs ++ [base (slice_from pos text) false false]
                       end
                  else runs)).
  { destruct (pos <? length text); [|exact Hf].
    destruct (slice_from pos text) eqn:E; [exact Hf|].
    apply Forall_app. split; [exact Hf|]. constructor; [apply Hb|constructor]. }
  destruct (if pos <? length text then _ else _); [|exact H1].
  constructor; [apply Hb|constructor].
Qed.

Lemma parse_math_text_styled rt text size bold italic font :
  Forall (styled_run size bold italic font)
         (parse_math_text rt text size bold italic font).
Proof. unfold parse_math_text. apply script_runs_styled. Qed.

Lemma make_run_facts t size bold italic sc sub sup font :
  has_tag "w:r" (make_run t size bold italic sc sub sup font) = true
  /\ run_text (make_run t size bold italic sc sub sup font) = Some t
  /\ is_bold (make_run t size bold italic sc sub sup font) = bold
  /\ is_italic (make_run t size bold italic sc sub sup font) = italic.
Proof.
  destruct bold, italic, sc, sub, sup; (split; [|split; [|split]]); reflexivity.
Qed.

Lemma styled_run_facts size bold italic font r :
  styled_run size bold italic font r ->
  has_tag "w:r" r = true /\ is_bold r = bold /\ is_italic r = italic.
Proof.
  intros (t & sub & sup & ->).
  destruct (make_run_facts t size bold italic false sub sup font)
    as (H1 & _ & H3 & H4).
  auto.
Qed.

Lemma filter_all {A} (f : A -> bool) l :
  Forall (fun x => f x = true) l -> filter f l = l.
Proof.
  induction 1 as [|x l Hx Hl IH]; [reflexivity|].
  cbn [filter]. now rewrite Hx, IH.
Qed.

(** The abstract as the code builds it.  It is one paragraph, the first
    after the separator paragraph that follows the title and the authors.
    It is justified; its first run is the text Abstract in bold italic,
    its second run is an em-dash in bold and not italic, and the runs
    after them are those of the abstract's text, all bold. *)
Theorem abstract_paragraph_runs (rt : runtime) (parsed : parsed_document) :
  build_document rt parsed
  = (template_rest rt ++ front_stream parsed)
    ++ two_col_break_paragraph :: abstract_paragraph rt parsed
       :: back_stream rt parsed ++ [final_sectPr]
  /\ alignment (abstract_paragraph rt parsed) = Some (py "both")
  /\ exists lead dash body_runs,
       para_runs (abstract_paragraph rt parsed) = lead :: dash :: body_runs
       /\ run_text lead = Some (py "Abstract")
       /\ is_bold lead = true /\ is_italic lead = true
       /\ run_text dash = Some [0x2014%N]
       /\ is_bold dash = true /\ is_italic dash = false
       /\ body_runs
          = parse_math_text rt (strip_markdown (join (py " ") (abstract parsed)))
                            ABSTRACT_PT true false FONT
       /\ Forall (fun r => is_bold r = true) body_runs.
Proof.
  split; [|split].
  - rewrite build_document_layout. unfold body_stream.
    rewrite <- !app_assoc. reflexivity.
  - unfold abstract_paragraph. cbv zeta. apply alignment_make_paragraph.
  - unfold abstract_paragraph. cbv zeta.
    rewrite para_runs_make_paragraph.
    set (body_runs := parse_math_text rt _ ABSTRACT_PT true false FONT).
    assert (Hs : Forall (styled_run ABSTRACT_PT true false FONT) body_runs)
      by apply parse_math_text_styled.
    exists (make_run (py "Abstract") ABSTRACT_PT true true false false false FONT),
           (make_run [0x2014%N] ABSTRACT_PT true false false false false FONT),
           body_runs.
    split.
    { cbn [app filter].
      replace (has_tag "w:r" (make_run (py "Abstract") ABSTRACT_PT true true
                                       false false false FONT)) with true
        by reflexivity.
      replace (has_tag "w:r" (make_run [0x2014%N] ABSTRACT_PT true false
                                       false false false FONT)) with true
        by reflexivity.
      f_equal. f_equal. apply filter_all.
      eapply Forall_impl; [|exact Hs].
      intros r Hr. now destruct (styled_run_facts Hr). }
    split; [reflexivity|]. split; [reflexivity|]. split; [reflexivity|].
    split; [reflexivity|]. split; [reflexivity|]. split; [reflexivity|].
    split; [reflexivity|].
    eapply Forall_impl; [|exact Hs].
    intros r Hr. now destruct (styled_run_facts Hr) as (_ & ? & _).
Qed.

(** C4.  The code at a document with an abstract: the lead-in of the
    abstract paragraph is the run Abstract, bold and italic, and a run of
    its own for the em-dash, which is bold and not italic.  The keywords
    paragraph beside it holds its em-dash in the bold italic run of the
    lead-in. *)
Theorem abstract_dash_not_italic :
  (exists lead dash body_runs,
      para_runs (abstract_paragraph reference_runtime keywords_doc)
      = lead :: dash :: body_runs
      /\ run_text lead = Some (py "Abstract")
      /\ is_bold lead = true /\ is_italic lead = true
      /\ run_text dash = Some [0x2014%N]
      /\ is_bold dash = true /\ is_italic dash = false)
  /\ (exists lead body_runs,
        para_runs (keywords_paragraph keywords_doc) = lead :: body_runs
        /\ run_text lead = Some (py "Keywords" ++ [0x2014%N])
        /\ is_bold lead = true /\ is_italic lead = true).
Proof.
  split.
  - eexists _, _, _. split; [vm_compute; reflexivity|].
    repeat split.
  - eexists _, _. split; [vm_compute; reflexivity|].
    repeat split.
Qed.

Lemma equation_paragraphs_app l1 l2 :
  equation_paragraphs (l1 ++ l2) = equation_paragraphs l1 ++ equation_paragraphs l2.
Proof. apply filter_app. Qed.

Lemma equation_paragraphs_none l :
  Forall (fun e => has_tag "w:p" e = false \/ has_tabs e = false) l ->
  equation_paragraphs l = [].
Proof.
  intros H. apply filter_none. eapply Forall_impl; [|exact H].
  intros e [-> | ->]; [reflexivity|apply andb_false_r].
Qed.

Lemma para_no_tabs kn e :
  para_with kn false e -> has_tag "w:p" e = false \/ has_tabs e = false.
Proof. intros H. right. eapply para_with_tabs; eauto. Qed.

Lemma content_stream_equations rt items : forall c,
  equation_paragraphs (content_stream rt c items)
  = map (fun kl => equation_paragraph rt (snd kl) (fst kl))
        (enumerate_from (c + 1) (equations items)).
Proof.
  induction items as [|[t|l] items IH]; intros c;
    cbn [content_stream equations].
  - reflexivity.
  - rewrite equation_paragraphs_app, IH.
    rewrite equation_paragraphs_none; [reflexivity|].
    destruct (text_paragraph rt t) eqn:E; cbn [opt_list]; constructor;
      [|constructor].
    eapply para_no_tabs, text_paragraph_para; eauto.
  - unfold equation_paragraphs at 1. cbn [filter].
    assert (P := equation_paragraph_para rt l (c + 1)).
    rewrite (para_with_is_p P), (para_with_tabs P). cbn [andb].
    cbn [enumerate_from map fst snd]. f_equal.
    fold (equation_paragraphs (content_stream rt (c + 1) items)).
    rewrite IH. now replace (c + 1 + 1) with (S (c + 1)) by lia.
Qed.

Lemma enumerate_from_app {A} (l1 l2 : list A) : forall i,
  enumerate_from i (l1 ++ l2)
  = enumerate_from i l1 ++ enumerate_from (i + length l1) l2.
Proof.
  induction l1 as [|x l1 IH]; intros i; cbn [app enumerate_from length].
  - now rewrite Nat.add_0_r.
  - rewrite IH. now replace (S i + length l1) with (i + S (length l1)) by lia.
Qed.

Lemma equations_length items : length (equations items) = count_equations items.
Proof.
  induction items as [|[t|l] items IH]; cbn; auto.
Qed.

Lemma sections_stream_equations rt secs : forall c,
  equation_paragraphs (sections_stream rt c secs)
  = map (fun kl => equation_paragraph rt (snd kl) (fst kl))
        (enumerate_from (c + 1) (all_equations secs)).
Proof.
  induction secs as [|s secs IH]; intros c; [reflexivity|].
  cbn [sections_stream]. unfold all_equations. cbn [flat_map].
  fold (all_equations secs).
  rewrite !equation_paragraphs_app, content_stream_equations, IH.
  rewrite equation_paragraphs_none.
  - cbn [app]. rewrite enumerate_from_app, map_app, equations_length.
    f_equal. f_equal. f_equal. lia.
  - destruct (heading_paragraph s) eqn:E; cbn [opt_list]; constructor;
      [|constructor].
    eapply para_no_tabs, heading_paragraph_para; eauto.
Qed.

Lemma equation_paragraph_last_run rt l k :
  exists runs,
    para_runs (equation_paragraph rt l k)
    = runs ++ [make_run (py "(" ++ str_nat k ++ py ")") BODY_PT
                        false false false false false FONT].
Proof.
  unfold equation_paragraph. cbv zeta. rewrite para_runs_make_paragraph.
  rewrite app_assoc, filter_app.
  set (front := filter (has_tag "w:r") _).
  exists (front ++ [tab_run]). rewrite <- app_assoc. reflexivity.
Qed.

(** C8.  The equation paragraphs of the body are, in order, those of the
    equation items of all sections in document order, the k-th numbered
    [k] from 1 on; the number is the text of the paragraph's last run,
    between parentheses. *)
Theorem equation_numbering (rt : runtime) (parsed : parsed_document) :
  equation_paragraphs (build_document rt parsed)
  = map (fun kl => equation_paragraph rt (snd kl) (fst kl))
        (enumerate_from 1 (all_equations (sections parsed)))
  /\ forall l k,
       exists runs,
         para_runs (equation_paragraph rt l k)
         = runs ++ [make_run (py "(" ++ str_nat k ++ py ")") BODY_PT
                             false false false false false FONT]
         /\ run_text (make_run (py "(" ++ str_nat k ++ py ")") BODY_PT
                               false false false false false FONT)
            = Some (py "(" ++ str_nat k ++ py ")").
Proof.
  split.
  - rewrite build_document_layout. unfold body_stream, front_stream, back_stream.
    rewrite !equation_paragraphs_app.
    rewrite (@equation_paragraphs_none (template_rest rt)).
    2:{ eapply Forall_impl; [|apply template_rest_no_p]. intros e He. now left. }
    change (two_col_break_paragraph :: abstract_paragraph rt parsed :: ?x)
      with ([two_col_break_paragraph; abstract_paragraph rt parsed] ++ x).
    change (references_heading :: ?x) with ([references_heading] ++ x).
    rewrite !equation_paragraphs_app, sections_stream_equations.
    rewrite (@equation_paragraphs_none (title_paragraph parsed :: _)).
    2:{ constructor; [eapply para_no_tabs, title_paragraph_para|].
        unfold author_stream. destruct (authors parsed) as [|a [|b r]].
        - constructor.
        - constructor; [eapply para_no_tabs, centered_paragraph_para|].
          apply Forall_forall. intros e He. apply in_map_iff in He as (x & <- & _).
          eapply para_no_tabs, centered_paragraph_para.
        - apply Forall_concat, Forall_forall. intros row Hrow.
          apply in_map_iff in Hrow as (start & <- & _).
          unfold author_row. constructor; [right; reflexivity|].
          apply Forall_forall. intros e He. apply in_map_iff in He as (x & <- & _).
          eapply para_no_tabs, author_paragraph_para. }
    rewrite (@equation_paragraphs_none [two_col_break_paragraph; _]).
    2:{ constructor; [right; reflexivity|]. constructor; [|constructor].
        eapply para_no_tabs, abstract_paragraph_para. }
    rewrite (@equation_paragraphs_none (if nonempty (keywords parsed) then _ else _)).
    2:{ destruct (nonempty (keywords parsed)); constructor; [|constructor].
        eapply para_no_tabs, keywords_paragraph_para. }
    rewrite (@equation_paragraphs_none [references_heading]).
    2:{ constructor; [|constructor]. eapply para_no_tabs, references_heading_para. }
    rewrite (@equation_paragraphs_none (map _ _)).
    2:{ apply Forall_forall. intros e He. apply in_map_iff in He as ([i r] & <- & _).
        eapply para_no_tabs, reference_paragraph_para. }
    rewrite (@equation_paragraphs_none [final_sectPr]).
    2:{ constructor; [left; reflexivity|constructor]. }
    cbn [app]. now rewrite !app_nil_r.
  - intros l k. destruct (equation_paragraph_last_run rt l k) as [runs E].
    exists runs. split; [exact E|reflexivity].
Qed.

(* ====================================================================== *)
(** * Heading prefixes *)
(* ====================================================================== *)

Lemma rep_cls_nil g p prev caps k :
  rmatch (Rep g (Cls p)) (MState prev [] caps) k = k (MState prev [] caps).
Proof. reflexivity. Qed.

Lemma rep_cls_cons p prev c s caps k :
  rmatch (Rep true (Cls p)) (MState prev (c :: s) caps) k
  = or_else (if p c then rmatch (Rep true (Cls p)) (MState (Some c) s caps) k
             else None)
            (fun _ => k (MState prev (c :: s) caps)).
Proof.
  cbn [rmatch m_rest length advance m_caps].
  assert (L : (length s <? S (length s)) = true) by (apply Nat.ltb_lt; lia).
  rewrite L. reflexivity.
Qed.

Lemma last_char_cons prev c tok : last_char prev (c :: tok) = last_char (Some c) tok.
Proof.
  unfold last_char. cbn [rev].
  destruct (rev tok) as [|x r] eqn:E; reflexivity.
Qed.

(** A greedy repetition of a class takes the longest run first: if the
    continuation accepts there, that is the match. *)
Lemma rep_cls_longest p k r : forall tok rest prev caps,
  Forall (fun c => p c = true) tok ->
  head_fails p rest ->
  k (MState (last_char prev tok) rest caps) = Some r ->
  rmatch (Rep true (Cls p)) (MState prev (tok ++ rest) caps) k = Some r.
Proof.
  induction tok as [|c tok IH]; intros rest prev caps Ht Hr Hk.
  - cbn [app]. unfold last_char in Hk. cbn [rev] in Hk.
    destruct rest as [|x rest]; [now rewrite rep_cls_nil|].
    rewrite rep_cls_cons. cbn in Hr. rewrite Hr. exact Hk.
  - cbn [app]. rewrite rep_cls_cons. inversion Ht; subst.
    rewrite H1. rewrite (last_char_cons prev c tok) in Hk.
    rewrite (IH rest (Some c) caps); auto.
Qed.

(** If the continuation rejects every string of [Q], and every split of
    the run leaves a string of [Q], the repetition fails. *)
Lemma rep_cls_rejects p k (Q : pystr -> Prop) : forall tok rest prev caps,
  (forall prev' s caps', Q s -> k (MState prev' s caps') = None) ->
  Forall (fun c => p c = true) tok ->
  head_fails p rest ->
  (forall i, i <= length tok -> Q (skipn i (tok ++ rest))) ->
  rmatch (Rep true (Cls p)) (MState prev (tok ++ rest) caps) k = None.
Proof.
  induction tok as [|c tok IH]; intros rest prev caps Hk Ht Hr HQ.
  - cbn [app]. specialize (HQ 0 (le_n _)). cbn in HQ.
    destruct rest as [|x rest]; [rewrite rep_cls_nil; now apply Hk|].
    rewrite rep_cls_cons. cbn in Hr. rewrite Hr. cbn. now apply Hk.
  - cbn [app]. rewrite rep_cls_cons. inversion Ht; subst. rewrite H1.
    rewrite IH; auto.
    + cbn. apply Hk. apply (HQ 0). lia.
    + intros i Hi. apply (HQ (S i)). cbn. lia.
Qed.

Lemma take_drop_while p s : s = take_while p s ++ drop_while p s.
Proof.
  induction s as [|c s IH]; [reflexivity|].
  cbn. destruct (p c); [cbn; now f_equal|reflexivity].
Qed.

Lemma take_while_all p s : Forall (fun c => p c = true) (take_while p s).
Proof.
  induction s as [|c s IH]; cbn; [constructor|].
  destruct (p c) eqn:E; constructor; auto.
Qed.

Lemma drop_while_head p s : head_fails p (drop_while p s).
Proof.
  induction s as [|c s IH]; cbn; [exact I|].
  destruct (p c) eqn:E; [exact IH|exact E].
Qed.

Lemma take_while_app p tok rest :
  Forall (fun c => p c = true) tok -> head_fails p rest ->
  take_while p (tok ++ rest) = tok /\ drop_while p (tok ++ rest) = rest.
Proof.
  induction 1 as [|c tok Hc Ht IH]; intros Hr; cbn [app].
  - destruct rest as [|x rest]; [split; reflexivity|].
    cbn in *. rewrite Hr. split; reflexivity.
  - cbn. rewrite Hc. destruct (IH Hr) as [E1 E2]. rewrite E1, E2. auto.
Qed.

Lemma bol_later r c s k caps :
  rmatch (Seq Bol r) (MState (Some c) s caps) k = None.
Proof. reflexivity. Qed.

Lemma sub_go_bol_later r repl : forall s c,
  sub_go (Seq Bol r) repl 0 (Some c) s = s.
Proof.
  induction s as [|x s IH]; intros c; cbn [sub_go]; unfold match_here;
    rewrite bol_later; [reflexivity|]. now rewrite IH.
Qed.

Lemma sub_go_bol_skip r repl : forall n s c,
  n <= length s -> sub_go (Seq Bol r) repl n (Some c) s = skipn n s.
Proof.
  induction n as [|n IH]; intros s c Hn.
  - apply sub_go_bol_later.
  - destruct s as [|x s]; [cbn in Hn; lia|].
    cbn [sub_go skipn]. apply IH. cbn in Hn. lia.
Qed.

(** An anchored pattern that does not match at the start leaves the
    subject unchanged. *)
Lemma sub_bol_nomatch r repl s :
  match_here (Seq Bol r) None s = None -> sub (Seq Bol r) repl s = s.
Proof.
  intros H. unfold sub. destruct s as [|c s]; cbn [sub_go]; rewrite H.
  - reflexivity.
  - now rewrite sub_go_bol_later.
Qed.

(** An anchored pattern that matches a non-empty prefix replaces it. *)
Lemma sub_bol_match r repl s st pre :
  match_here (Seq Bol r) None s = Some st ->
  s = pre ++ m_rest st -> pre <> [] ->
  sub (Seq Bol r) repl s = repl st ++ m_rest st.
Proof.
  intros H E Hp. unfold sub.
  destruct pre as [|c pre]; [congruence|].
  destruct s as [|x s]; [discriminate E|].
  cbn [sub_go]. rewrite H.
  assert (L : length (x :: s) = S (length pre) + length (m_rest st)).
  { rewrite E at 1. cbn [app length]. rewrite length_app. lia. }
  replace (length (x :: s) - length (m_rest st)) with (S (length pre)) by lia.
  f_equal. cbn [length] in L.
  rewrite sub_go_bol_skip by lia.
  cbn [app] in E. injection E as _ E. rewrite E.
  rewrite skipn_app, Nat.sub_diag, skipn_all. reflexivity.
Qed.

Lemma alnum_not_dot c : is_alnum c = true -> chr_eqb c_dot c = false.
Proof.
  intros H. unfold chr_eqb. destruct (N.eqb_spec c_dot c) as [<-|]; [|reflexivity].
  vm_compute in H. discriminate H.
Qed.

Lemma dot_not_alnum : is_alnum c_dot = false.
Proof. reflexivity. Qed.

Lemma heading_prefix_unfold s :
  match_here re_heading_prefix None s
  = rmatch (Cls is_alnum) (MState None s [])
      (fun st1 =>
         rmatch (Rep true (Cls is_alnum)) st1
           (fun st2 =>
              rmatch (Cls (chr_eqb c_dot)) st2
                (fun st3 =>
                   rmatch (Rep true (Cls isspace)) st3 (fun st => Some st)))).
Proof. reflexivity. Qed.

(** The pattern matches a leading token: a non-empty run of letters and
    digits, a period, and the white space after it. *)
Lemma heading_prefix_match tok ws rest :
  tok <> [] ->
  Forall (fun c => is_alnum c = true) tok ->
  Forall (fun c => isspace c = true) ws ->
  head_fails isspace rest ->
  exists st,
    match_here re_heading_prefix None (tok ++ c_dot :: ws ++ rest) = Some st
    /\ m_rest st = rest.
Proof.
  intros Hne Ht Hw Hr. destruct tok as [|c0 tok]; [congruence|].
  inversion Ht as [|? ? Hc0 Ht']; subst.
  rewrite heading_prefix_unfold. cbn [app].
  cbn [rmatch m_rest advance m_caps]. rewrite Hc0.
  eexists. split.
  - apply rep_cls_longest; [exact Ht'| |].
    + cbn. exact dot_not_alnum.
    + cbn [rmatch m_rest advance m_caps].
      replace (chr_eqb c_dot c_dot) with true by reflexivity.
      apply rep_cls_longest; [exact Hw|exact Hr|reflexivity].
  - reflexivity.
Qed.

Lemma skipn_run_cases {A} (tok r0 : list A) : forall i,
  i <= length tok ->
  skipn i (tok ++ r0) = r0
  \/ exists x t, skipn i (tok ++ r0) = x :: t /\ In x tok.
Proof.
  induction tok as [|c tok IH]; intros i Hi.
  - left. cbn in Hi. now replace i with 0 by lia.
  - destruct i as [|i].
    + right. exists c, (tok ++ r0). split; [reflexivity|now left].
    + cbn [app skipn]. cbn in Hi. destruct (IH i ltac:(lia)) as [E|(x & t & E & Hx)].
      * now left.
      * right. exists x, t. split; [exact E|now right].
Qed.

(** It matches nothing else. *)
Lemma heading_prefix_nomatch s :
  ~ (exists tok rest,
       tok <> [] /\ Forall (fun c => is_alnum c = true) tok
       /\ s = tok ++ c_dot :: rest) ->
  match_here re_heading_prefix None s = None.
Proof.
  intros Hn. rewrite heading_prefix_unfold.
  destruct s as [|c0 s]; [reflexivity|].
  cbn [rmatch m_rest advance m_caps].
  destruct (is_alnum c0) eqn:Hc0; [|reflexivity].
  pose proof (take_drop_while is_alnum s) as Es.
  pose proof (take_while_all is_alnum s) as Hall.
  pose proof (drop_while_head is_alnum s) as Hhead.
  set (tok := take_while is_alnum s) in *.
  set (r0 := drop_while is_alnum s) in *.
  clearbody tok r0. subst s.
  apply rep_cls_rejects with (Q := head_fails (chr_eqb c_dot));
    [ |exact Hall|exact Hhead| ].
  - intros prev' s' caps' HQ. cbn [rmatch m_rest].
    destruct s' as [|x s']; [reflexivity|]. unfold head_fails in HQ.
    now rewrite HQ.
  - intros i Hi. destruct (skipn_run_cases tok r0 Hi) as [E|(x & t & E & Hx)];
      rewrite E.
    + destruct r0 as [|x r]; [exact I|]. unfold head_fails.
      destruct (chr_eqb c_dot x) eqn:Ex; [|reflexivity].
      exfalso. apply Hn. exists (c0 :: tok), r.
      split; [discriminate|]. split; [now constructor|].
      unfold chr_eqb in Ex. apply N.eqb_eq in Ex. now subst x.
    + unfold head_fails. apply alnum_not_dot.
      rewrite Forall_forall in Hall. now apply Hall.
Qed.

Lemma heading_text_eq s :
  level s = 1 \/ level s = 2 ->
  heading_text s
  = Some (number_prefix s ++ py ". "
          ++ sub re_heading_prefix (fun _ => []) (heading s)).
Proof.
  intros H. unfold heading_text, paragraph_text, heading_paragraph, number_prefix.
  destruct H as [H|H]; rewrite H; cbn [Nat.eqb];
    rewrite para_runs_make_paragraph; cbn [filter];
    match goal with
    | |- context [has_tag "w:r" (make_run ?t ?z ?b ?i ?sc ?su ?sp ?f)] =>
        destruct (make_run_facts t z b i sc su sp f) as (-> & -> & _)
    end; reflexivity.
Qed.

Lemma in_sections_stream rt s p secs : forall c,
  In s secs -> heading_paragraph s = Some p ->
  In p (sections_stream rt c secs).
Proof.
  induction secs as [|x secs IH]; intros c Hin Hp; [contradiction|].
  cbn [sections_stream]. destruct Hin as [->|Hin].
  - rewrite Hp. cbn. now left.
  - apply in_or_app. right. apply in_or_app. right. now apply IH.
Qed.

Lemma heading_in_document rt parsed s p :
  In s (sections parsed) -> heading_paragraph s = Some p ->
  In p (build_document rt parsed).
Proof.
  intros Hin Hp. rewrite build_document_layout.
  apply in_or_app. right. apply in_or_app. left.
  unfold body_stream. apply in_or_app. right. right. right.
  unfold back_stream. apply in_or_app. right. apply in_or_app. left.
  eapply in_sections_stream; eauto.
Qed.

(** C10.  In the heading of a level 1 or level 2 section, a leading token
    (a non-empty run of ASCII letters and digits, a period, and the white
    space after it) is removed before the number is put in front, also
    where the token is an ordinary first word; a heading that starts with
    no such token is prefixed as it is.  The paragraph is in the document
    that [build_document] returns. *)
Theorem heading_prefix_stripped (s : sec) :
  level s = 1 \/ level s = 2 ->
  (forall tok ws rest,
      heading s = tok ++ c_dot :: ws ++ rest ->
      tok <> [] ->
      Forall (fun c => is_alnum c = true) tok ->
      Forall (fun c => isspace c = true) ws ->
      head_fails isspace rest ->
      heading_text s = Some (number_prefix s ++ py ". " ++ rest))
  /\ (~ (exists tok rest,
           tok <> [] /\ Forall (fun c => is_alnum c = true) tok
           /\ heading s = tok ++ c_dot :: rest) ->
      heading_text s = Some (number_prefix s ++ py ". " ++ heading s))
  /\ (exists p, heading_paragraph s = Some p
                /\ forall rt parsed, In s (sections parsed) ->
                                     In p (build_document rt parsed)).
Proof.
  intros Hl. split; [|split].
  - intros tok ws rest E Hne Ht Hw Hr.
    rewrite heading_text_eq by exact Hl.
    destruct (heading_prefix_match rest Hne Ht Hw Hr) as (st & Hm & Hrest).
    unfold re_heading_prefix in *. cbn [seqs] in *.
    rewrite (@sub_bol_match _ (fun _ => []) (heading s) st (tok ++ c_dot :: ws)).
    + now rewrite Hrest.
    + now rewrite E.
    + rewrite Hrest, E, <- app_assoc. reflexivity.
    + destruct tok; [congruence|discriminate].
  - intros Hn. rewrite heading_text_eq by exact Hl.
    unfold re_heading_prefix. cbn [seqs].
    rewrite sub_bol_nomatch; [reflexivity|].
    now apply heading_prefix_nomatch.
  - unfold heading_paragraph.
    destruct Hl as [Hl|Hl]; rewrite Hl; cbn [Nat.eqb];
      eexists; (split; [reflexivity|]);
      intros rt parsed Hin; apply heading_in_document with (s := s); auto;
      unfold heading_paragraph; rewrite Hl; reflexivity.
Qed.

Lemma heading_prefix_stripped_witness :
  level intro_section = 1
  /\ heading_text intro_section = Some (py "I. and Motivation").
Proof.
  split; [reflexivity|].
  exact (proj1 (heading_prefix_stripped intro_section (or_introl eq_refl))
           (py "Intro") (py " ") (py "and Motivation")
           eq_refl
           ltac:(discriminate)
           ltac:(repeat constructor)
           ltac:(repeat constructor)
           eq_refl).
Defined.

(* ====================================================================== *)
(** * Section numbering *)
(* ====================================================================== *)

Lemma numbering_snoc levels l : forall h1 h2,
  numbering h1 h2 (levels ++ [l])
  = numbering h1 h2 levels
    ++ [if l =? 1 then fst (counters h1 h2 levels) + 1
        else snd (counters h1 h2 levels) + 1].
Proof.
  induction levels as [|x levels IH]; intros h1 h2; cbn [app numbering counters].
  - destruct (l =? 1); reflexivity.
  - destruct (x =? 1); cbn [app]; now rewrite IH.
Qed.

Lemma counters_snoc levels l : forall h1 h2,
  counters h1 h2 (levels ++ [l])
  = if l =? 1 then (fst (counters h1 h2 levels) + 1, 0)
    else (fst (counters h1 h2 levels), snd (counters h1 h2 levels) + 1).
Proof.
  induction levels as [|x levels IH]; intros h1 h2; cbn [app counters].
  - destruct (l =? 1); reflexivity.
  - destruct (x =? 1); now rewrite IH.
Qed.

Lemma numbered_same p p' :
  map level (sections (result p')) = map level (sections (result p)) ->
  map number (sections (result p')) = map number (sections (result p)) ->
  h1_count p' = h1_count p -> h2_count p' = h2_count p ->
  numbered p -> numbered p'.
Proof.
  intros Hl Hn H1 H2 (A & B & C). unfold numbered. cbv zeta.
  rewrite Hl, Hn, H1, H2. split; [exact A|]. split; [exact B|].
  rewrite Forall_forall in *. intros s Hs.
  assert (In (level s) (map level (sections (result p)))).
  { rewrite <- Hl. now apply in_map. }
  apply in_map_iff in H as (s' & E & Hs'). rewrite <- E. now apply C.
Qed.

Lemma update_nth_map {A B} (g : A -> B) (f : A -> A) :
  (forall x, g (f x) = g x) ->
  forall i xs, map g (update_nth i f xs) = map g xs.
Proof.
  intros H i xs. revert i. induction xs as [|x xs IH]; intros i.
  - now destruct i.
  - destruct i; cbn [update_nth map]; [now rewrite H|now rewrite IH].
Qed.

Lemma numbered_add_h1 p st r heading :
  numbered p ->
  numbered
    (Parser (set_sections (sections (result p)
                           ++ [Sec 1 heading (h1_count p + 1) []]) (result p))
            st r (Some (length (sections (result p)))) (h1_count p + 1) 0).
Proof.
  intros (A & B & C). unfold numbered. cbv zeta.
  cbn [result sections set_sections h1_count h2_count].
  rewrite !map_app. cbn [map level number].
  rewrite numbering_snoc, counters_snoc, B. cbn [Nat.eqb fst snd].
  split; [now rewrite A|]. split; [reflexivity|].
  apply Forall_app. split; [exact C|]. constructor; [now left|constructor].
Qed.

Lemma numbered_add_h2 p st r heading :
  numbered p ->
  numbered
    (Parser (set_sections (sections (result p)
                           ++ [Sec 2 heading (h2_count p + 1) []]) (result p))
            st r (Some (length (sections (result p)))) (h1_count p) (h2_count p + 1)).
Proof.
  intros (A & B & C). unfold numbered. cbv zeta.
  cbn [result sections set_sections h1_count h2_count].
  rewrite !map_app. cbn [map level number].
  rewrite numbering_snoc, counters_snoc, B. cbn [Nat.eqb fst snd].
  split; [now rewrite A|]. split; [reflexivity|].
  apply Forall_app. split; [exact C|]. constructor; [now right|constructor].
Qed.

Ltac same := eapply numbered_same; [| | | |eassumption]; reflexivity.

Lemma numbered_with_state s p : numbered p -> numbered (with_state s p).
Proof. intros H. same. Qed.

Lemma numbered_with_current c p : numbered p -> numbered (with_current c p).
Proof. intros H. same. Qed.

Lemma parse_body_line_numbered p trimmed :
  numbered p -> numbered (parse_body_line p trimmed).
Proof.
  intros H. unfold parse_body_line.
  destruct (is_some (re_match re_rule trimmed)); [exact H|].
  destruct (is_some (re_match re_h2 trimmed)); [now apply numbered_add_h1|].
  destruct (is_some (re_match re_h3 trimmed)); [now apply numbered_add_h2|].
  destruct (current_section p) as [i|]; [|exact H].
  destruct (is_in_body (state p) && nonempty trimmed); [|exact H].
  eapply numbered_same; [| | | |exact H]; try reflexivity;
    unfold with_result; cbn [result sections set_sections];
    now apply update_nth_map.
Qed.

Lemma parse_keywords_line_numbered p trimmed :
  numbered p -> numbered (parse_keywords_line p trimmed).
Proof.
  intros H. unfold parse_keywords_line.
  destruct (is_some (re_match (re_h2_named (py "Keywords")) trimmed)).
  { now apply numbered_with_current, numbered_with_state. }
  destruct (is_in_keywords (state p)); [|now apply parse_body_line_numbered].
  destruct (negb (nonempty trimmed) || is_some (re_match re_rule trimmed));
    [exact H|].
  destruct (is_some (re_match re_h2_any trimmed)).
  - now apply parse_body_line_numbered, numbered_with_state.
  - same.
Qed.

Lemma parse_abstract_line_numbered p trimmed :
  numbered p -> numbered (parse_abstract_line p trimmed).
Proof.
  intros H. unfold parse_abstract_line.
  destruct (is_some (re_match (re_h2_named (py "Abstract")) trimmed)).
  { now apply numbered_with_current, numbered_with_state. }
  destruct (is_in_abstract (state p)); [|now apply parse_keywords_line_numbered].
  destruct (negb (nonempty trimmed) || is_some (re_match re_rule trimmed));
    [exact H|].
  destruct (is_some (re_match re_h2_any trimmed)).
  - now apply parse_keywords_line_numbered, numbered_with_state.
  - same.
Qed.

Lemma parse_post_title_line_numbered p trimmed :
  numbered p -> numbered (parse_post_title_line p trimmed).
Proof.
  intros H. unfold parse_post_title_line.
  destruct (is_some (re_match re_rule trimmed)); [exact H|].
  destruct (negb (nonempty trimmed)); [exact H|].
  destruct (re_match re_author_name trimmed); [same|].
  destruct (re_match re_author_line trimmed);
    [|now apply parse_abstract_line_numbered].
  destruct (negb (length (authors (result p)) =? 0));
    [same|now apply parse_abstract_line_numbered].
Qed.

Lemma parse_line_numbered rt p raw rest :
  numbered p -> numbered (fst (parse_line rt p raw rest)).
Proof.
  intros H. unfold parse_line. cbv zeta.
  destruct (is_some (re_match (re_h2_named (py "References")) _) || _);
    [cbn [fst]; same|].
  destruct (in_references p).
  { destruct (re_match (re_reference rt) _); [|exact H].
    destruct (collect_continuation rt _ rest) as [t n]. cbn [fst]. same. }
  destruct (startswith (py "# ") _ && is_front (state p)); [cbn [fst]; same|].
  destruct (is_post_title (state p)); cbn [fst].
  - now apply parse_post_title_line_numbered.
  - now apply parse_abstract_line_numbered.
Qed.

Lemma parse_loop_numbered rt lines : forall skip p,
  numbered p -> numbered (parse_loop rt skip p lines).
Proof.
  induction lines as [|raw rest IH]; intros skip p H; cbn [parse_loop];
    [exact H|].
  destruct skip as [|n]; [|now apply IH].
  pose proof (parse_line_numbered rt raw rest H) as H'.
  destruct (parse_line rt p raw rest) as [p' n]. now apply IH.
Qed.

(** The parser numbers its sections as the specification says. *)
Lemma parse_markdown_numbered rt lines :
  let secs := sections (parse_markdown rt lines) in
  map number secs = numbering 0 0 (map level secs)
  /\ Forall (fun s => level s = 1 \/ level s = 2) secs.
Proof.
  unfold parse_markdown.
  assert (H : numbered (Parser (Parsed [] [] [] [] [] []) front false None 0 0)).
  { unfold numbered. cbn. repeat split; constructor. }
  destruct (parse_loop_numbered rt lines 0 H) as (A & _ & C). auto.
Qed.

Lemma heading_paragraphs_app l1 l2 :
  heading_paragraphs (l1 ++ l2) = heading_paragraphs l1 ++ heading_paragraphs l2.
Proof. apply filter_app. Qed.

Lemma heading_paragraphs_none l :
  Forall (fun e => has_tag "w:p" e = false \/ keep_with_next e = false) l ->
  heading_paragraphs l = [].
Proof.
  intros H. apply filter_none. eapply Forall_impl; [|exact H].
  intros e [-> | ->]; [reflexivity|apply andb_false_r].
Qed.

Lemma para_no_keep tabs e :
  para_with false tabs e -> has_tag "w:p" e = false \/ keep_with_next e = false.
Proof. intros H. right. eapply para_with_keep; eauto. Qed.

Lemma content_stream_headings rt items : forall c,
  heading_paragraphs (content_stream rt c items) = [].
Proof.
  induction items as [|[t|l] items IH]; intros c; cbn [content_stream].
  - reflexivity.
  - rewrite heading_paragraphs_app, IH, app_nil_r.
    apply heading_paragraphs_none.
    destruct (text_paragraph rt t) eqn:E; cbn [opt_list]; constructor;
      [|constructor].
    eapply para_no_keep, text_paragraph_para; eauto.
  - change (equation_paragraph rt l (c + 1) :: content_stream rt (c + 1) items)
      with ([equation_paragraph rt l (c + 1)] ++ content_stream rt (c + 1) items).
    rewrite heading_paragraphs_app, IH, app_nil_r.
    apply heading_paragraphs_none. constructor; [|constructor].
    eapply para_no_keep, equation_paragraph_para.
Qed.

Lemma sections_stream_headings rt secs : forall c,
  heading_paragraphs (sections_stream rt c secs)
  = flat_map (fun s => opt_list (heading_paragraph s)) secs.
Proof.
  induction secs as [|s secs IH]; intros c; [reflexivity|].
  cbn [sections_stream flat_map].
  rewrite !heading_paragraphs_app, content_stream_headings, IH. cbn [app].
  f_equal. destruct (heading_paragraph s) eqn:E; cbn [opt_list]; [|reflexivity].
  unfold heading_paragraphs. cbn [filter].
  pose proof (heading_paragraph_para s E) as P.
  now rewrite (para_with_is_p P), (para_with_keep P).
Qed.

(** The paragraphs kept with the next one are the section headings. *)
Lemma build_document_headings rt parsed :
  heading_paragraphs (build_document rt parsed)
  = flat_map (fun s => opt_list (heading_paragraph s)) (sections parsed).
Proof.
  rewrite build_document_layout. unfold body_stream, front_stream, back_stream.
  rewrite !heading_paragraphs_app.
  rewrite (@heading_paragraphs_none (template_rest rt)).
  2:{ eapply Forall_impl; [|apply template_rest_no_p]. intros e He. now left. }
  change (two_col_break_paragraph :: abstract_paragraph rt parsed :: ?x)
    with ([two_col_break_paragraph; abstract_paragraph rt parsed] ++ x).
  change (references_heading :: ?x) with ([references_heading] ++ x).
  rewrite !heading_paragraphs_app, sections_stream_headings.
  rewrite (@heading_paragraphs_none (title_paragraph parsed :: _)).
  2:{ constructor; [eapply para_no_keep, title_paragraph_para|].
      unfold author_stream. destruct (authors parsed) as [|a [|b r]].
      - constructor.
      - constructor; [eapply para_no_keep, centered_paragraph_para|].
        apply Forall_forall. intros e He. apply in_map_iff in He as (x & <- & _).
        eapply para_no_keep, centered_paragraph_para.
      - apply Forall_concat, Forall_forall. intros row Hrow.
        apply in_map_iff in Hrow as (start & <- & _).
        unfold author_row. constructor; [right; reflexivity|].
        apply Forall_forall. intros e He. apply in_map_iff in He as (x & <- & _).
        eapply para_no_keep, author_paragraph_para. }
  rewrite (@heading_paragraphs_none [two_col_break_paragraph; _]).
  2:{ constructor; [right; reflexivity|]. constructor; [|constructor].
      eapply para_no_keep, abstract_paragraph_para. }
  rewrite (@heading_paragraphs_none (if nonempty (keywords parsed) then _ else _)).
  2:{ destruct (nonempty (keywords parsed)); constructor; [|constructor].
      eapply para_no_keep, keywords_paragraph_para. }
  rewrite (@heading_paragraphs_none [references_heading]).
  2:{ constructor; [|constructor]. eapply para_no_keep, references_heading_para. }
  rewrite (@heading_paragraphs_none (map _ _)).
  2:{ apply Forall_forall. intros e He. apply in_map_iff in He as ([i r] & <- & _).
      eapply para_no_keep, reference_paragraph_para. }
  rewrite (@heading_paragraphs_none [final_sectPr]).
  2:{ constructor; [left; reflexivity|constructor]. }
  cbn [app]. now rewrite !app_nil_r.
Qed.

Lemma heading_texts secs :
  Forall (fun s => level s = 1 \/ level s = 2) secs ->
  map paragraph_text (flat_map (fun s => opt_list (heading_paragraph s)) secs)
  = map (fun s => Some (number_prefix s ++ py ". "
                        ++ sub re_heading_prefix (fun _ => []) (heading s)))
        secs.
Proof.
  induction 1 as [|s secs Hs Hsecs IH]; [reflexivity|].
  cbn [flat_map map]. rewrite map_app, IH.
  rewrite <- (heading_text_eq s Hs). unfold heading_text.
  destruct (heading_paragraph s) eqn:E; [reflexivity|].
  exfalso. unfold heading_paragraph in E.
  destruct Hs as [Hs|Hs]; rewrite Hs in E; discriminate E.
Qed.

(** C5.  The parser numbers the sections by two counters, the level-2
    counter reset by every level-1 section, and the heading paragraphs of
    the document show these numbers, Roman for level 1 and a letter for
    level 2, before the stripped heading; for the levels 1, 2, 2, 1, 2
    they are I, A, B, II, A. *)
Theorem section_numbering (rt : runtime) (lines : list pystr) :
  let parsed := parse_markdown rt lines in
  map number (sections parsed) = numbering 0 0 (map level (sections parsed))
  /\ map paragraph_text (heading_paragraphs (build_document rt parsed))
     = map (fun s => Some (number_prefix s ++ py ". "
                           ++ sub re_heading_prefix (fun _ => []) (heading s)))
           (sections parsed)
  /\ (map level (sections parsed) = [1; 2; 2; 1; 2] ->
      map number_prefix (sections parsed)
      = [py "I"; py "A"; py "B"; py "II"; py "A"]).
Proof.
  cbv zeta. destruct (parse_markdown_numbered rt lines) as [A C].
  split; [exact A|]. split.
  - rewrite build_document_headings. now apply heading_texts.
  - intros L. rewrite L in A.
    destruct (sections (parse_markdown rt lines))
      as [|s1 [|s2 [|s3 [|s4 [|s5 [|s6 r]]]]]]; try discriminate L.
    cbn [map] in *. cbn [numbering Nat.eqb Nat.add] in A.
    injection L as L1 L2 L3 L4 L5. injection A as A1 A2 A3 A4 A5.
    unfold number_prefix.
    rewrite L1, L2, L3, L4, L5, A1, A2, A3, A4, A5. reflexivity.
Qed.

Lemma section_numbering_witness :
  map level (sections (parse_markdown reference_runtime five_sections))
  = [1; 2; 2; 1; 2]
  /\ map number_prefix (sections (parse_markdown reference_runtime five_sections))
     = [py "I"; py "A"; py "B"; py "II"; py "A"].
Proof.
  assert (L : map level (sections (parse_markdown reference_runtime five_sections))
              = [1; 2; 2; 1; 2]) by (vm_compute; reflexivity).
  split; [exact L|].
  exact (proj2 (proj2 (section_numbering reference_runtime five_sections)) L).
Defined.

(* ====================================================================== *)
(** * The command line *)
(* ====================================================================== *)

Lemma main_requested rt w :
  main rt w
  = match requested_path w with
    | Some (ev, path, pending) => main_with_path rt w ev path pending
    | None => ([EInput prompt_path], Raised)
    end.
Proof.
  unfold main, requested_path.
  destruct (1 <? length (argv w)); [reflexivity|].
  destruct (stdin w); reflexivity.
Qed.

Lemma requested_events w ev path pending :
  requested_path w = Some (ev, path, pending) ->
  ev = [] \/ ev = [EInput prompt_path].
Proof.
  unfold requested_path. destruct (1 <? length (argv w)).
  - intros H. left. congruence.
  - destruct (stdin w); [discriminate|]. intros H. right. congruence.
Qed.

(** A readable input, a build that does not raise and a writable output
    let [convert] run to its end: the file is read, the document built
    from it is saved, and the last line printed reports it. *)
Lemma convert_completes rt w input_path pending lines :
  readlines w input_path = Some lines ->
  build_raises rt (parse_markdown rt lines) = false ->
  save_ok w (output_path_of w input_path) = true ->
  (1 < length (argv w) \/ pending <> []) ->
  snd (convert rt w input_path pending) = Returned
  /\ exists before after,
       fst (convert rt w input_path pending)
       = before
         ++ [ERead input_path]
         ++ summary (parse_markdown rt lines)
         ++ [EPrint (py "Building IEEE document...");
             ESave (output_path_of w input_path)
                   (build_document rt (parse_markdown rt lines));
             EPrint (py "Saved: " ++ output_path_of w input_path)]
         ++ after
       /\ (after = [] \/ after = [EInput prompt_exit]).
Proof.
  intros Hr Hb Hs Hp. unfold convert. cbv zeta.
  fold (output_path_of w input_path). rewrite Hr, Hb, Hs. cbn [negb].
  destruct (length (argv w) <=? 1) eqn:E.
  - apply Nat.leb_le in E. destruct Hp as [Hp|Hp]; [lia|].
    destruct pending as [|x pending]; [congruence|]. cbn [fst snd].
    split; [reflexivity|].
    eexists [_; _; _; _], [EInput prompt_exit]. split; [|now right].
    cbn [app]. rewrite <- !app_assoc. reflexivity.
  - cbn [fst snd]. split; [reflexivity|].
    eexists [_; _; _; _], []. split; [|now left].
    cbn [app]. rewrite <- !app_assoc. reflexivity.
Qed.

(* ====================================================================== *)
(** * Roman numerals and letters *)
(* ====================================================================== *)

Lemma div_mod_step n v :
  0 < v -> v <= n -> n / v = S ((n - v) / v) /\ n mod v = (n - v) mod v.
Proof.
  intros Hv Hn.
  replace n with ((n - v) + 1 * v) at 1 3 by lia.
  rewrite Nat.div_add, Nat.Div0.mod_add by lia. split; lia.
Qed.

(** The inner loop of [to_roman] appends [s] as often as [v] goes into
    [n], and leaves the remainder. *)
Lemma roman_while_spec v s : 0 < v -> forall fuel n result,
  n <= fuel ->
  roman_while fuel n v s result = (result ++ repeat_str s (n / v), n mod v).
Proof.
  intros Hv. induction fuel as [|fuel IH]; intros n result Hf.
  - replace n with 0 by lia. cbn [roman_while].
    rewrite Nat.div_small, Nat.mod_small by lia. cbn. now rewrite app_nil_r.
  - cbn [roman_while]. destruct (v <=? n) eqn:E.
    + apply Nat.leb_le in E. rewrite IH by lia.
      destruct (div_mod_step Hv E) as [-> ->].
      cbn [repeat_str]. now rewrite <- app_assoc.
    + apply Nat.leb_gt in E.
      rewrite Nat.div_small, Nat.mod_small by lia. cbn. now rewrite app_nil_r.
Qed.

Lemma to_roman_fold n : to_roman n = fst (fold_left roman_step roman_vals ([], n)).
Proof. reflexivity. Qed.

Lemma roman_fold_prefix vals :
  Forall (fun vs : nat * pystr => 0 < fst vs) vals ->
  forall r m,
    fst (fold_left roman_step vals (r, m))
    = r ++ fst (fold_left roman_step vals ([], m)).
Proof.
  induction 1 as [|[v s] vals Hv Hvals IH]; intros r m; cbn [fold_left].
  - cbn. now rewrite app_nil_r.
  - cbn [fst] in Hv. unfold roman_step at 2 4.
    rewrite !(roman_while_spec s Hv) by lia.
    rewrite IH. rewrite (IH (_ ++ _)). cbn [app]. now rewrite app_assoc.
Qed.

Lemma roman_vals_positive : Forall (fun vs : nat * pystr => 0 < fst vs) roman_vals.
Proof. unfold roman_vals. repeat constructor; apply Nat.lt_0_succ. Qed.

(** [to_roman] writes one M per thousand, then the numeral of the rest. *)
Lemma to_roman_thousands n :
  to_roman n = repeat_str (py "M") (n / 1000) ++ to_roman (n mod 1000).
Proof.
  assert (P : Forall (fun vs : nat * pystr => 0 < fst vs) (tl roman_vals)).
  { pose proof roman_vals_positive as H. inversion H; assumption. }
  assert (E : forall m,
             to_roman m
             = repeat_str (py "M") (m / 1000)
               ++ fst (fold_left roman_step (tl roman_vals) ([], m mod 1000))).
  { intros m. rewrite to_roman_fold.
    change (fold_left roman_step roman_vals ([], m))
      with (fold_left roman_step (tl roman_vals)
              (roman_while m m 1000 (py "M") [])).
    rewrite (roman_while_spec (py "M") (Nat.lt_0_succ 999)) by lia.
    now rewrite roman_fold_prefix. }
  rewrite (E n), (E (n mod 1000)).
  rewrite Nat.Div0.mod_mod.
  rewrite (Nat.div_small (n mod 1000)).
  - reflexivity.
  - apply Nat.mod_upper_bound. discriminate.
Qed.

Lemma roman_digit_le d : roman_digit d <= 1000.
Proof.
  unfold roman_digit.
  repeat match goal with
         | |- context [if ?b then _ else _] => destruct b
         end; lia.
Qed.

Lemma roman_value_M s : roman_value (77%N :: s) = 1000 + roman_value s.
Proof.
  cbn [roman_value]. destruct s as [|d s]; [reflexivity|].
  change (roman_digit 77%N) with 1000.
  assert (H : (1000 <? roman_digit d) = false).
  { apply Nat.ltb_ge. apply roman_digit_le. }
  rewrite H. reflexivity.
Qed.

Lemma roman_value_below_1000 b :
  b < 1000 -> roman_value (to_roman b) = b.
Proof.
  intros H.
  assert (C : forallb (fun b => roman_value (to_roman b) =? b) (seq 0 1000) = true)
    by (vm_compute; reflexivity).
  rewrite forallb_forall in C. apply Nat.eqb_eq, C, in_seq. lia.
Qed.

Lemma roman_value_thousands a s :
  roman_value (repeat_str (py "M") a ++ s) = 1000 * a + roman_value s.
Proof.
  induction a as [|a IH]; [cbn [repeat_str app]; lia|].
  cbn [repeat_str]. change (py "M") with [77%N]. cbn [app].
  rewrite roman_value_M. change [77%N] with (py "M") . rewrite IH. lia.
Qed.

(** X1.  Read as a Roman numeral, [to_roman n] has the value [n]. *)
Theorem to_roman_value (n : nat) : roman_value (to_roman n) = n.
Proof.
  rewrite to_roman_thousands, roman_value_thousands.
  rewrite roman_value_below_1000.
  - symmetry. apply (Nat.div_mod_eq n 1000).
  - apply Nat.mod_upper_bound. discriminate.
Qed.

(** X2.  [to_letter n] raises exactly when 64 + n lies above the last
    code point, 0x10FFFF.  For [n] from 1 to 26 it returns the capital
    letter at position [n]; where it returns, the result is one character,
    an upper-case ASCII letter for no other [n], and different numbers
    give different characters. *)
Theorem to_letter_upper (n : nat) :
  (to_letter n = None <-> (0x10FFFF < N.of_nat (64 + n))%N)
  /\ (1 <= n <= 26 -> to_letter n = Some [nth (n - 1) capitals 0%N])
  /\ (forall s, to_letter n = Some s ->
        exists c, s = [c] /\ (is_upper_AZ c = true <-> 1 <= n <= 26))
  /\ (forall m, to_letter n = to_letter m -> to_letter n <> None -> n = m).
Proof.
  unfold to_letter, chr.
  destruct (N.leb_spec (N.of_nat (64 + n)) 0x10FFFF) as [L|L].
  - split; [split; [discriminate|intros H; exfalso; lia]|].
    split; [|split].
    + intros H. do 2 f_equal. unfold capitals.
      rewrite (nth_indep _ 0%N (N.of_nat 0)) by (rewrite length_map, length_seq; lia).
      rewrite (map_nth N.of_nat), seq_nth by lia. f_equal. lia.
    + intros s H. exists (N.of_nat (64 + n)). split; [congruence|].
      unfold is_upper_AZ, in_range. rewrite andb_true_iff, !N.leb_le. lia.
    + intros m H _.
      destruct (N.leb_spec (N.of_nat (64 + m)) 0x10FFFF); [|discriminate H].
      apply (f_equal (fun o => match o with Some l => hd 0%N l | None => 0%N end))
        in H.
      cbn [hd] in H. apply Nat2N.inj in H. lia.
  - split; [split; [intros _; exact L|reflexivity]|].
    split; [|split].
    + intros H. exfalso. lia.
    + intros s H. discriminate H.
    + intros m _ H. now contradiction H.
Qed.

(* ====================================================================== *)
(** * Runs and paragraphs read back *)
(* ====================================================================== *)

(** X3.  A run built by [make_run] reads back as it was made: text, size
    in half-points, font, weight, slant and small caps.  The vertical
    position read first is that of the subscript flag, else of the
    superscript flag; each of the two flags that is set writes an element
    of its own. *)
Theorem make_run_read_back (t : pystr) (size : N)
  (bold italic small_caps subscript superscript : bool) (font : pystr) :
  let r := make_run t size bold italic small_caps subscript superscript font in
  run_text r = Some t
  /\ run_size r = Some (str_N (size * 2))
  /\ run_font r = Some font
  /\ is_bold r = bold
  /\ is_italic r = italic
  /\ is_small_caps r = small_caps
  /\ run_vert_align r
     = (if subscript then Some (py "subscript")
        else if superscript then Some (py "superscript") else None)
  /\ vert_align_count r
     = (if subscript then 1 else 0) + (if superscript then 1 else 0).
Proof.
  cbv zeta.
  destruct bold, italic, small_caps, subscript, superscript;
    (split; [|split; [|split; [|split; [|split; [|split; [|split]]]]]]);
    reflexivity.
Qed.

Lemma pPr_prefix_tags (kn : bool) (ts : list (N * string)) sb sa ls lr t :
  String.eqb "w:keepNext" t = false ->
  String.eqb "w:tabs" t = false ->
  String.eqb "w:spacing" t = false ->
  existsb (fun x => String.eqb x t)
    (map tag_of
       (((if kn then [OxmlElement "w:keepNext"] else [])
         ++ match ts with [] => [] | _ :: _ => [tabs_element ts] end)
        ++ [spacing_element sb sa ls lr])) = false.
Proof.
  intros H1 H2 H3. rewrite !map_app. cbn [map]. rewrite tag_spacing_element.
  destruct kn, ts as [|t0 ts]; cbn [map app existsb];
    rewrite ?tag_tabs_element; cbn [tag_of OxmlElement];
    rewrite ?H1, ?H2, ?H3; reflexivity.
Qed.

Lemma xfind_ind_make_paragraph runs align sb sa fi li h kn ls lr ts :
  pPr_child "w:ind" (make_paragraph runs align sb sa fi li h kn ls lr ts)
  = if is_some fi || is_some li || is_some h
    then Some (ind_element fi li h) else None.
Proof.
  rewrite pPr_child_make_paragraph. unfold paragraph_pPr. cbn [children_of].
  rewrite !app_assoc. rewrite <- (app_assoc _ _ [xset _ _ _]).
  rewrite xfind_app_skip by (apply pPr_prefix_tags; reflexivity).
  destruct (is_some fi || is_some li || is_some h); cbn [app]; unfold xfind.
  - cbn [find]. unfold has_tag. now rewrite tag_ind_element.
  - reflexivity.
Qed.

(** X4.  The indentation of a paragraph reads back as given, except that
    a hanging indent suppresses the first-line indent: the two are never
    both present. *)
Theorem make_paragraph_indent (runs : list xml) (align : string) (sb sa : N)
  (fi li h : option N) (kn : bool) (ls : option N) (lr : string)
  (ts : list (N * string)) :
  let p := make_paragraph runs align sb sa fi li h kn ls lr ts in
  para_attr "w:ind" "w:firstLine" p
  = match h with None => str_opt fi | Some _ => None end
  /\ para_attr "w:ind" "w:left" p = str_opt li
  /\ para_attr "w:ind" "w:hanging" p = str_opt h
  /\ (para_attr "w:ind" "w:firstLine" p = None
      \/ para_attr "w:ind" "w:hanging" p = None).
Proof.
  cbv zeta. unfold para_attr. rewrite xfind_ind_make_paragraph.
  destruct fi, li, h; cbn [is_some orb];
    (split; [|split; [|split]]); try reflexivity; auto.
Qed.

(** X5.  A paragraph of [make_paragraph] has its properties first and
    then the runs in the order given; the properties' children come in
    the order of the schema: keepNext, tabs, spacing, ind, jc, of which
    spacing and jc are always there. *)
Theorem make_paragraph_children (runs : list xml) (align : string) (sb sa : N)
  (fi li h : option N) (kn : bool) (ls : option N) (lr : string)
  (ts : list (N * string)) :
  exists pPr,
    children_of (make_paragraph runs align sb sa fi li h kn ls lr ts)
    = pPr :: runs
    /\ tag_of pPr = "w:pPr"%string
    /\ map tag_of (children_of pPr)
       = (if kn then ["w:keepNext"%string] else [])
         ++ match ts with [] => [] | _ => ["w:tabs"%string] end
         ++ ["w:spacing"%string]
         ++ (if is_some fi || is_some li || is_some h
             then ["w:ind"%string] else [])
         ++ ["w:jc"%string].
Proof.
  exists (paragraph_pPr align sb sa fi li h kn ls lr ts).
  split; [now rewrite make_paragraph_eq|]. split; [reflexivity|].
  apply paragraph_pPr_tags.
Qed.

Lemma xfind_spacing_make_paragraph runs align sb sa fi li h kn ls lr ts :
  pPr_child "w:spacing" (make_paragraph runs align sb sa fi li h kn ls lr ts)
  = Some (spacing_element sb sa ls lr).
Proof.
  rewrite pPr_child_make_paragraph. unfold paragraph_pPr. cbn [children_of].
  rewrite app_assoc. rewrite xfind_app_skip.
  - cbn [app]. unfold xfind. cbn [find]. unfold has_tag.
    now rewrite tag_spacing_element.
  - destruct kn, ts as [|t0 ts]; cbn [map app existsb];
      rewrite ?tag_tabs_element; reflexivity.
Qed.

(** X6.  Alignment and spacing read back as given: the four alignment
    names are written as both, center, start and end, and any other name
    is written as both; the line rule is written only with a line
    spacing. *)
Theorem make_paragraph_format (runs : list xml) (align : string) (sb sa : N)
  (fi li h : option N) (kn : bool) (ls : option N) (lr : string)
  (ts : list (N * string)) :
  let p := make_paragraph runs align sb sa fi li h kn ls lr ts in
  alignment p
  = Some (if String.eqb align "center" then py "center"
          else if String.eqb align "left" then py "start"
          else if String.eqb align "right" then py "end"
          else py "both")
  /\ para_attr "w:spacing" "w:before" p = Some (str_N sb)
  /\ para_attr "w:spacing" "w:after" p = Some (str_N sa)
  /\ para_attr "w:spacing" "w:line" p = str_opt ls
  /\ para_attr "w:spacing" "w:lineRule" p
     = match ls with Some _ => Some (py lr) | None => None end.
Proof.
  cbv zeta. split.
  - rewrite alignment_make_paragraph. unfold align_map.
    destruct (String.eqb align "justify") eqn:E; [|reflexivity].
    apply String.eqb_eq in E. subst align. reflexivity.
  - unfold para_attr. rewrite xfind_spacing_make_paragraph.
    destruct ls; (split; [|split; [|split]]); reflexivity.
Qed.

(* ====================================================================== *)
(** * Region descriptors of the document *)
(* ====================================================================== *)









Lemma xfind_app_found t l g e :
  xfind t l = Some e -> xfind t (l ++ g) = Some e.
Proof.
  unfold xfind. induction l as [|x l IH]; cbn [app find]; [discriminate|].
  destruct (has_tag t x); auto.
Qed.

Lemma xfind_app_none t l g :
  Forall (fun e => has_tag t e = false) l -> xfind t (l ++ g) = xfind t g.
Proof.
  unfold xfind. induction 1 as [|x l Hx Hl IH]; cbn [app find]; [reflexivity|].
  now rewrite Hx.
Qed.

Lemma remove_first_none t l :
  Forall (fun e => has_tag t e = false) l -> remove_first t l = l.
Proof.
  induction 1 as [|x l Hx Hl IH]; cbn [remove_first]; [reflexivity|].
  now rewrite Hx, IH.
Qed.

Lemma remove_first_skip t l g :
  Forall (fun e => has_tag t e = false) l ->
  remove_first t (l ++ g) = l ++ remove_first t g.
Proof.
  induction 1 as [|x l Hx Hl IH]; cbn [app remove_first]; [reflexivity|].
  now rewrite Hx, IH.
Qed.

Lemma set_final_eq body :
  set_final_section_two_col body
  = remove_first "w:sectPr" body ++ [final_sectPr].
Proof.
  unfold set_final_section_two_col. cbv zeta.
  destruct (xfind "w:sectPr" body) eqn:E; [reflexivity|].
  now rewrite (@remove_first_none _ _ (@xfind_none_Forall _ _ E)).
Qed.

Lemma filter_app_none {A} (f : A -> bool) l g :
  Forall (fun e => f e = false) l -> filter f (l ++ g) = filter f g.
Proof.
  intros H. rewrite filter_app.
  induction H as [|x l Hx Hl IH]; cbn [filter app]; [reflexivity|].
  now rewrite Hx.
Qed.

Lemma filter_remove_first_other (f : xml -> bool) t l :
  (forall e, has_tag t e = true -> f e = false) ->
  filter f (remove_first t l) = filter f l.
Proof.
  intros H. induction l as [|x l IH]; cbn [remove_first filter]; [reflexivity|].
  destruct (has_tag t x) eqn:E.
  - now rewrite (H x E).
  - cbn [filter]. now rewrite IH.
Qed.

(** X8.  [set_final_section_two_col] keeps every child of the body that
    is not a section descriptor, in order, and puts its descriptor last.
    On a body with at most one descriptor of its own the result has that
    one descriptor only, and applying the function again changes
    nothing. *)
Theorem set_final_section_idempotent (body : list xml) :
  let body' := set_final_section_two_col body in
  filter (fun e => negb (has_tag "w:sectPr" e)) body'
  = filter (fun e => negb (has_tag "w:sectPr" e)) body
  /\ last body' (OxmlElement "w:p") = final_sectPr
  /\ (length (filter (has_tag "w:sectPr") body) <= 1 ->
      terminal_descriptors body' = [final_sectPr]
      /\ set_final_section_two_col body' = body').
Proof.
  cbv zeta. rewrite !set_final_eq.
  split; [|split].
  - rewrite filter_app. cbn [filter].
    change (negb (has_tag "w:sectPr" final_sectPr)) with false.
    rewrite app_nil_r. apply filter_remove_first_other.
    intros e He. now rewrite He.
  - apply last_last.
  - intros H. pose proof (@filter_remove_first _ _ H) as R.
    set (rest := remove_first "w:sectPr" body) in *. split.
    + unfold terminal_descriptors.
      rewrite (@filter_app_none _ _ _ _ R). reflexivity.
    + rewrite (@remove_first_skip _ _ _ R). cbn [remove_first].
      change (has_tag "w:sectPr" final_sectPr) with true. cbn iota.
      now rewrite app_nil_r.
Qed.

Lemma set_final_section_idempotent_witness :
  let body := [OxmlElement "w:p"; OxmlElement "w:sectPr"; OxmlElement "w:p"] in
  length (filter (has_tag "w:sectPr") body) <= 1
  /\ set_final_section_two_col (set_final_section_two_col body)
     = set_final_section_two_col body.
Proof.
  cbv zeta. split; [exact (le_n 1)|].
  exact (proj2 (proj2 (proj2 (@set_final_section_idempotent
           [OxmlElement "w:p"; OxmlElement "w:sectPr"; OxmlElement "w:p"]))
           (le_n 1))).
Defined.

(* ====================================================================== *)
(** * Plain text, blank text and the author block *)
(* ====================================================================== *)

Lemma strip_markdown_unchanged s :
  no_star s -> no_backtick s -> strip_markdown s = s.
Proof.
  intros Hs Hb. unfold strip_markdown. cbv zeta.
  rewrite (@sub_unchanged (chr_eqb c_star) re_bold _ s).
  - rewrite (@sub_unchanged (chr_eqb c_star) re_italic _ s).
    + apply (@sub_unchanged (chr_eqb c_backtick)); [|exact Hb].
      apply sw_seq, sw_cls. auto.
    + apply sw_seq, sw_cls. auto.
    + exact Hs.
  - apply sw_seq, sw_cls. auto.
  - exact Hs.
Qed.

(** X9.  [strip_markdown] leaves a text without asterisk and backtick as
    it is. *)
Theorem strip_markdown_plain (s : pystr) :
  no_star s -> no_backtick s -> strip_markdown s = s.
Proof.
  intros Hs Hb. unfold strip_markdown. cbv zeta.
  assert (B : starts_with (chr_eqb c_star) re_bold)
    by (apply sw_seq, sw_cls; auto).
  assert (I : starts_with (chr_eqb c_star) re_italic)
    by (apply sw_seq, sw_cls; auto).
  assert (C : starts_with (chr_eqb c_backtick) re_code)
    by (apply sw_seq, sw_cls; auto).
  rewrite (@sub_unchanged (chr_eqb c_star) re_bold _ s B Hs).
  rewrite (@sub_unchanged (chr_eqb c_star) re_italic _ s I Hs).
  exact (@sub_unchanged (chr_eqb c_backtick) re_code _ s C Hb).
Qed.

Lemma no_star_dec s : forallb (fun c => negb (chr_eqb c_star c)) s = true -> no_star s.
Proof.
  intros H. apply Forall_forall. intros c Hc.
  rewrite forallb_forall in H. apply H in Hc. now apply negb_true_iff in Hc.
Qed.

Lemma no_backtick_dec s :
  forallb (fun c => negb (chr_eqb c_backtick c)) s = true -> no_backtick s.
Proof.
  intros H. apply Forall_forall. intros c Hc.
  rewrite forallb_forall in H. apply H in Hc. now apply negb_true_iff in Hc.
Qed.

Lemma strip_markdown_plain_witness :
  no_star (py "a_1 + b") /\ no_backtick (py "a_1 + b")
  /\ strip_markdown (py "a_1 + b") = py "a_1 + b".
Proof.
  assert (Hs : no_star (py "a_1 + b")) by (apply no_star_dec; reflexivity).
  assert (Hb : no_backtick (py "a_1 + b"))
    by (apply no_backtick_dec; reflexivity).
  split; [exact Hs|]. split; [exact Hb|].
  apply (@strip_markdown_plain (py "a_1 + b") Hs Hb).
Defined.

Lemma space_not (x : char) c :
  isspace x = false -> isspace c = true -> chr_eqb x c = false.
Proof.
  intros Hx Hc. destruct (chr_eqb x c) eqn:E; [|reflexivity].
  unfold chr_eqb in E. apply N.eqb_eq in E. subst c. congruence.
Qed.

Lemma space_not_r (x : char) c :
  isspace x = false -> isspace c = true -> chr_eqb c x = false.
Proof.
  intros Hx Hc. unfold chr_eqb. rewrite N.eqb_sym. now apply space_not.
Qed.

Lemma blank_head_fails q s :
  (forall c, isspace c = true -> q c = false) -> blank s -> head_fails q s.
Proof.
  intros Hq Hs. destruct s as [|c s]; [exact I|].
  cbn. apply Hq. now inversion Hs.
Qed.

Lemma blank_Forall q s :
  (forall c, isspace c = true -> q c = false) -> blank s ->
  Forall (fun c => q c = false) s.
Proof.
  intros Hq Hs. eapply Forall_impl; [|exact Hs]. exact Hq.
Qed.

Lemma lstrip_blank s : blank s -> lstrip s = [].
Proof.
  induction 1 as [|c s Hc Hs IH]; [reflexivity|].
  cbn [lstrip]. now rewrite Hc.
Qed.

Lemma strip_blank s : blank s -> strip s = [].
Proof.
  intros H. unfold strip, rstrip. now rewrite (lstrip_blank H).
Qed.

Lemma re_match_fails q r s :
  starts_with q r -> head_fails q s -> re_match r s = None.
Proof.
  intros Hr Hs. unfold re_match, match_here.
  now apply (starts_with_fails Hr).
Qed.

(** X10.  A content item that is empty or holds white space only gives
    no paragraph. *)
Theorem blank_text_no_paragraph (rt : runtime) (para_text : pystr) :
  digits_not_space rt -> blank para_text -> text_paragraph rt para_text = None.
Proof.
  intros Hrt Hb. unfold text_paragraph.
  change (py "> ") with [c_gt; c_space].
  rewrite startswith_head_fails
    by (apply (@blank_Forall (chr_eqb c_gt)); [|exact Hb];
        intros c; now apply space_not).
  rewrite (@re_match_fails (unicode_Nd rt) (re_list_label rt) para_text).
  2:{ apply sw_bol, sw_seq, sw_grp, sw_seq, sw_cls. auto. }
  2:{ apply blank_head_fails; [exact Hrt|exact Hb]. }
  assert (Hstar : forall c, isspace c = true -> chr_eqb c_star c = false)
    by (intros c; now apply space_not).
  assert (Htick : forall c, isspace c = true -> chr_eqb c_backtick c = false)
    by (intros c; now apply space_not).
  rewrite (@re_match_fails (chr_eqb c_star) re_bold_label para_text).
  2:{ apply sw_bol, sw_seq, sw_cls. auto. }
  2:{ now apply blank_head_fails. }
  cbv zeta. unfold bullet_or_regular.
  rewrite (@re_match_fails is_bullet_marker re_bullet para_text).
  2:{ apply sw_bol, sw_seq, sw_cls. auto. }
  2:{ apply blank_head_fails; [|exact Hb]. intros c Hc.
      unfold is_bullet_marker.
      rewrite (@space_not_r c_minus c), (@space_not_r c_star c) by auto.
      reflexivity. }
  cbn [is_some]. cbv zeta.
  rewrite strip_markdown_unchanged.
  - now rewrite (strip_blank Hb).
  - now apply blank_Forall.
  - now apply blank_Forall.
Qed.

Lemma reference_digits_not_space : digits_not_space reference_runtime.
Proof.
  intros c Hc. cbn [unicode_Nd reference_runtime].
  destruct (is_digit_09 c) eqn:E; [|reflexivity].
  unfold is_digit_09, in_range in E. apply andb_true_iff in E as [E1 E2].
  apply N.leb_le in E1, E2. exfalso.
  unfold isspace, in_range, chr_eqb in Hc.
  repeat (apply orb_true_iff in Hc as [Hc|Hc]);
    try (apply andb_true_iff in Hc as [H1 H2]; apply N.leb_le in H1, H2; lia);
    try (apply N.eqb_eq in Hc; lia).
Defined.

Lemma blank_text_no_paragraph_witness :
  digits_not_space reference_runtime /\ blank (py "  ")
  /\ text_paragraph reference_runtime (py "  ") = None.
Proof.
  assert (Hb : blank (py "  ")).
  { constructor; [reflexivity|]. constructor; [reflexivity|]. constructor. }
  split; [exact reference_digits_not_space|]. split; [exact Hb|].
  apply (@blank_text_no_paragraph reference_runtime (py "  ")
           reference_digits_not_space Hb).
Defined.

Lemma concat_slices {A} m : 0 < m -> forall c (l : list A),
  length l <= c * m ->
  concat (map (fun k => slice (k * m) (k * m + m) l) (seq 0 c)) = l.
Proof.
  intros Hm c. induction c as [|c IH]; intros l Hl.
  - destruct l; [reflexivity|]. cbn in Hl. lia.
  - rewrite <- cons_seq, <- seq_shift. cbn [map concat]. rewrite map_map.
    rewrite (map_ext _ (fun k => slice (k * m) (k * m + m) (skipn m l))).
    + rewrite IH.
      * unfold slice. cbn [Nat.mul skipn]. rewrite Nat.add_0_l, Nat.sub_0_r.
        apply firstn_skipn.
      * rewrite length_skipn. cbn [Nat.mul] in Hl. lia.
    + intros k. unfold slice. rewrite skipn_skipn.
      replace (S k * m + m - S k * m) with (k * m + m - k * m) by lia.
      replace (S k * m) with (k * m + m) by (cbn [Nat.mul]; lia).
      reflexivity.
Qed.

Lemma concat_rows {A} (l : list A) m : 0 < m ->
  concat (map (fun start => slice start (start + m) l)
              (py_range 0 (length l) m)) = l.
Proof.
  intros Hm. rewrite py_range_spec by exact Hm. rewrite map_map.
  apply concat_slices; [exact Hm|].
  pose proof (Nat.div_mod_eq (length l + m - 1) m) as E.
  pose proof (Nat.mod_upper_bound (length l + m - 1) m ltac:(lia)). nia.
Qed.

Lemma content_children_app l1 l2 :
  content_children (l1 ++ l2) = content_children l1 ++ content_children l2.
Proof. apply filter_app. Qed.

Lemma content_children_row authors m start :
  content_children (author_row authors m start)
  = map (fun a => make_author_paragraph a AUTHOR_AFFIL_PT)
        (slice start (start + m) authors).
Proof.
  unfold author_row. cbv zeta. unfold content_children. cbn [filter].
  rewrite section_break_descriptor. cbn [is_some negb].
  apply filter_map_all. intros a.
  now rewrite (para_with_descriptor (author_paragraph_para a _)).
Qed.

Lemma content_children_rows authors m starts :
  content_children (concat (map (author_row authors m) starts))
  = map (fun a => make_author_paragraph a AUTHOR_AFFIL_PT)
        (concat (map (fun start => slice start (start + m) authors) starts)).
Proof.
  induction starts as [|s starts IH]; [reflexivity|].
  cbn [map concat]. rewrite content_children_app, content_children_row, IH.
  now rewrite map_app.
Qed.

(** X11.  With two authors or more, the author block is appended to the
    body, and apart from the separators of its rows it is one paragraph
    per author, in the order of the authors: the rows lose no author and
    repeat none. *)
Theorem author_block_covers (authors : list author) (body : list xml) :
  2 <= length authors ->
  exists block,
    author_block authors body = body ++ block
    /\ content_children block
       = map (fun a => make_author_paragraph a AUTHOR_AFFIL_PT) authors
    /\ length (region_descriptors block) = (length authors + 3) / 4.
Proof.
  intros H. exists (author_stream authors). split; [apply author_block_eq|].
  split.
  - unfold author_stream. destruct authors as [|a [|b r]];
      [cbn in H; lia | cbn in H; lia |].
    set (l := a :: b :: r) in *. cbv zeta.
    rewrite content_children_rows.
    rewrite concat_rows; [reflexivity|]. lia.
  - rewrite author_stream_descriptors, length_map, expected_author_rows_length.
    destruct (length authors <? 2) eqn:E; [|reflexivity].
    apply Nat.ltb_lt in E. lia.
Qed.

Lemma author_block_covers_witness :
  2 <= length (authors two_author_doc)
  /\ exists block,
       author_block (authors two_author_doc) [] = [] ++ block
       /\ content_children block
          = map (fun a => make_author_paragraph a AUTHOR_AFFIL_PT)
                (authors two_author_doc)
       /\ length (region_descriptors block)
          = (length (authors two_author_doc) + 3) / 4.
Proof.
  split; [exact (le_n 2)|].
  apply (@author_block_covers (authors two_author_doc) [] (le_n 2)).
Defined.

(* ====================================================================== *)
(** * The order of the body, and plain math text *)
(* ====================================================================== *)

(** X12.  The body of the built document, in order: what is left of the
    template, the title, the author block, the separator of the
    single-column region, the abstract, the keywords when there are any,
    the sections, the heading of the references (also when there is no
    reference), the references numbered from 0 as [enumerate] gives them,
    and the section properties of the document. *)
Theorem build_document_order (rt : runtime) (parsed : parsed_document) :
  build_document rt parsed
  = template_rest rt
    ++ [title_paragraph parsed]
    ++ author_stream (authors parsed)
    ++ [two_col_break_paragraph; abstract_paragraph rt parsed]
    ++ (if nonempty (keywords parsed) then [keywords_paragraph parsed] else [])
    ++ sections_stream rt 0 (sections parsed)
    ++ [references_heading]
    ++ map (fun ir => reference_paragraph (fst ir) (snd ir))
           (enumerate_from 0 (references parsed))
    ++ [final_sectPr].
Proof.
  rewrite build_document_layout.
  unfold body_stream, front_stream, back_stream.
  cbn [app]. repeat (rewrite <- ?app_assoc, <- ?app_comm_cons; cbn [app]).
  reflexivity.
Qed.

Lemma finditer_go_none q r :
  starts_with q r ->
  forall s idx prev, Forall (fun c => q c = false) s ->
  finditer_go r 0 idx prev s = [].
Proof.
  intros Hr s. induction s as [|c s IH]; intros idx prev Hs;
    cbn [finditer_go]; unfold match_here.
  - now rewrite (starts_with_fails Hr).
  - rewrite (starts_with_fails Hr).
    + apply IH. now inversion Hs.
    + cbn. now inversion Hs.
Qed.

Lemma subsup_starts : starts_with is_marker re_subsup.
Proof.
  unfold re_subsup. cbn [seqs]. apply sw_alt.
  - apply sw_seq, sw_grp, sw_cls. auto.
  - apply sw_seq, sw_grp, sw_cls. auto.
Qed.

Lemma script_runs_plain text size bold italic font :
  no_marker text ->
  script_runs text size bold italic font
  = [make_run text size bold italic false false false font].
Proof.
  intros H. unfold script_runs, finditer.
  rewrite (finditer_go_none subsup_starts _ _ H). cbn [fold_left].
  destruct text as [|c text]; reflexivity.
Qed.

(** X13.  Text without backslash, dollar sign, underscore and caret is
    rendered as one run.  The run holds the text as it is, it has the
    size, font, weight and slant asked for, it is not in small caps, and
    it is neither lowered nor raised; the empty text gives one empty
    run. *)
Theorem parse_math_text_plain (rt : runtime) (text : pystr) (size : N)
  (bold italic : bool) (font : pystr) :
  visits_functions rt ->
  no_backslash text -> no_dollar text -> no_marker text ->
  exists r,
    parse_math_text rt text size bold italic font = [r]
    /\ run_text r = Some text
    /\ run_size r = Some (str_N (size * 2)) /\ run_font r = Some font
    /\ is_bold r = bold /\ is_italic r = italic /\ is_small_caps r = false
    /\ run_vert_align r = None /\ vert_align_count r = 0.
Proof.
  intros Hv Hb Hd Hm. unfold parse_math_text. cbv zeta.
  rewrite (resolve_latex_plain Hv Hb Hd).
  rewrite (script_runs_plain _ _ _ _ Hm).
  eexists. split; [reflexivity|].
  destruct bold, italic; repeat split.
Qed.

Lemma no_marker_dec s :
  forallb (fun c => negb (is_marker c)) s = true -> no_marker s.
Proof.
  intros H. apply Forall_forall. intros c Hc.
  rewrite forallb_forall in H. apply H in Hc. now apply negb_true_iff in Hc.
Qed.

Lemma parse_math_text_plain_witness :
  (visits_functions reference_runtime
   /\ no_backslash (py "a + b") /\ no_dollar (py "a + b")
   /\ no_marker (py "a + b"))
  /\ exists r,
       parse_math_text reference_runtime (py "a + b") 10 false true (py "F")
       = [r]
       /\ run_text r = Some (py "a + b") /\ is_italic r = true
       /\ run_vert_align r = None.
Proof.
  assert (Hb : no_backslash (py "a + b"))
    by (apply no_backslash_dec; reflexivity).
  assert (Hd : no_dollar (py "a + b")) by (apply no_dollar_dec; reflexivity).
  assert (Hm : no_marker (py "a + b")) by (apply no_marker_dec; reflexivity).
  split; [split; [exact reference_runtime_visits|];
          split; [exact Hb|]; split; [exact Hd|exact Hm]|].
  destruct (@parse_math_text_plain reference_runtime (py "a + b") 10 false true
              (py "F") reference_runtime_visits Hb Hd Hm)
    as (r & E & T & _ & _ & _ & I & _ & V & _).
  exists r. split; [exact E|]. split; [exact T|]. split; [exact I|exact V].
Defined.

(* ====================================================================== *)
(** * The tables of the transliterator *)
(* ====================================================================== *)

Lemma resolves_to_sound rt t t2 :
  visits_functions rt -> resolves_to t t2 = true -> resolve_latex rt t = t2.
Proof.
  intros Hv H. unfold resolves_to in H.
  apply andb_true_iff in H as [H H4]. apply andb_true_iff in H as [H H3].
  apply andb_true_iff in H as [H1 H2].
  apply str_eqb_eq in H1. apply str_eqb_eq in H4.
  rewrite (@resolve_latex_without_math rt t t H1 (no_dollar_dec _ H2)).
  now apply (@resolve_commands_by_stages rt t (pre_pass t) t2).
Qed.

(** X14.  Every command of the glyph table, alone, is rewritten to its
    glyph, in whatever order the function names are visited: no entry is
    shadowed by a shorter command, by a function name or by one of the
    first rewrites. *)
Theorem glyph_command_alone (rt : runtime) (cmd glyph : pystr) :
  visits_functions rt -> In (cmd, glyph) LATEX_GLYPHS ->
  resolve_latex rt cmd = glyph.
Proof.
  intros Hv Hin. apply resolves_to_sound; [exact Hv|].
  assert (H : forallb (fun kg : pystr * pystr => resolves_to (fst kg) (snd kg))
                      LATEX_GLYPHS = true) by (vm_compute; reflexivity).
  rewrite forallb_forall in H. exact (H (cmd, glyph) Hin).
Qed.

Lemma in_table (k g : pystr) (l : list (pystr * pystr)) :
  existsb (fun kg => str_eqb (fst kg) k && str_eqb (snd kg) g) l = true ->
  In (k, g) l.
Proof.
  intros H. apply existsb_exists in H as ([k' g'] & Hin & E).
  apply andb_true_iff in E as [E1 E2]. cbn [fst snd] in E1, E2.
  apply str_eqb_eq in E1, E2. now subst.
Qed.

Lemma in_strings (f : pystr) (l : list pystr) :
  existsb (str_eqb f) l = true -> In f l.
Proof.
  intros H. apply existsb_exists in H as (f' & Hin & E).
  apply str_eqb_eq in E. now subst.
Qed.

Lemma glyph_command_alone_witness :
  visits_functions reference_runtime
  /\ In (py "\infty", [0x221E%N]) LATEX_GLYPHS
  /\ resolve_latex reference_runtime (py "\infty") = [0x221E%N].
Proof.
  assert (Hin : In (py "\infty", [0x221E%N]) LATEX_GLYPHS)
    by (apply in_table; reflexivity).
  split; [exact reference_runtime_visits|]. split; [exact Hin|].
  apply (@glyph_command_alone reference_runtime (py "\infty") [0x221E%N]
           reference_runtime_visits Hin).
Defined.

Lemma func_fold_two_state (f : pystr) :
  In f LATEX_FUNCTIONS ->
  forall order, (forall g, In g order -> In g LATEX_FUNCTIONS) ->
  fold_left func_step order f
  = if existsb (str_eqb f) order then slice_from 1 f else f.
Proof.
  intros Hf.
  assert (A : forall g, In g LATEX_FUNCTIONS ->
                func_step f g = if str_eqb f g then slice_from 1 f else f).
  { assert (H : forallb (fun f =>
                  forallb (fun g =>
                    str_eqb (func_step f g)
                            (if str_eqb f g then slice_from 1 f else f))
                    LATEX_FUNCTIONS) LATEX_FUNCTIONS = true)
      by (vm_compute; reflexivity).
    rewrite forallb_forall in H. specialize (H f Hf).
    rewrite forallb_forall in H. intros g Hg. now apply str_eqb_eq, H. }
  assert (B : forall g, In g LATEX_FUNCTIONS ->
                func_step (slice_from 1 f) g = slice_from 1 f).
  { assert (H : forallb (fun f =>
                  forallb (fun g =>
                    str_eqb (func_step (slice_from 1 f) g) (slice_from 1 f))
                    LATEX_FUNCTIONS) LATEX_FUNCTIONS = true)
      by (vm_compute; reflexivity).
    rewrite forallb_forall in H. specialize (H f Hf).
    rewrite forallb_forall in H. intros g Hg. now apply str_eqb_eq, H. }
  assert (C : forall order, (forall g, In g order -> In g LATEX_FUNCTIONS) ->
                fold_left func_step order (slice_from 1 f) = slice_from 1 f).
  { induction order as [|g order IH]; intros Ho; [reflexivity|].
    cbn [fold_left]. rewrite B by (apply Ho; now left).
    apply IH. intros h Hh. apply Ho. now right. }
  induction order as [|g order IH]; intros Ho; [reflexivity|].
  cbn [fold_left existsb]. rewrite A by (apply Ho; now left).
  destruct (str_eqb f g); cbn [orb].
  - apply C. intros h Hh. apply Ho. now right.
  - apply IH. intros h Hh. apply Ho. now right.
Qed.

(** X15.  Every function name of the set, alone, loses its backslash and
    nothing else, in whatever order the set is visited. *)
Theorem function_command_alone (rt : runtime) (func : pystr) :
  visits_functions rt -> In func LATEX_FUNCTIONS ->
  resolve_latex rt func = slice_from 1 func.
Proof.
  intros Hv Hin.
  assert (H : forallb (fun f =>
                str_eqb (sub re_double_backslash
                             (fun m => c_backslash :: group_or_empty 1 m) f) f
                && forallb (fun c => negb (is_dollar c)) f
                && str_eqb (pre_pass f) f
                && str_eqb (glyph_pass (slice_from 1 f)) (slice_from 1 f))
              LATEX_FUNCTIONS = true) by (vm_compute; reflexivity).
  rewrite forallb_forall in H. specialize (H func Hin).
  apply andb_true_iff in H as [H H4]. apply andb_true_iff in H as [H H3].
  apply andb_true_iff in H as [H1 H2].
  apply str_eqb_eq in H1, H3, H4.
  rewrite (@resolve_latex_without_math rt func func H1 (no_dollar_dec _ H2)).
  rewrite resolve_commands_stages, H3.
  rewrite (@func_fold_two_state func Hin (set_order rt)).
  2:{ intros g Hg. eapply Permutation_in; [exact Hv|exact Hg]. }
  assert (E : existsb (str_eqb func) (set_order rt) = true).
  { apply existsb_exists. exists func. split.
    - eapply Permutation_in; [apply Permutation_sym; exact Hv|exact Hin].
    - now apply str_eqb_eq. }
  rewrite E. exact H4.
Qed.

Lemma function_command_alone_witness :
  visits_functions reference_runtime
  /\ In (py "\sin") LATEX_FUNCTIONS
  /\ resolve_latex reference_runtime (py "\sin") = py "sin".
Proof.
  assert (Hin : In (py "\sin") LATEX_FUNCTIONS)
    by (apply in_strings; reflexivity).
  split; [exact reference_runtime_visits|]. split; [exact Hin|].
  apply (@function_command_alone reference_runtime (py "\sin")
           reference_runtime_visits Hin).
Defined.

Lemma capitals_spec c : is_upper_AZ c = true -> In c capitals.
Proof.
  unfold is_upper_AZ, in_range. intros H.
  apply andb_true_iff in H as [H1 H2]. apply N.leb_le in H1, H2.
  unfold capitals. apply in_map_iff. exists (N.to_nat c). split.
  - apply N2Nat.id.
  - apply in_seq. lia.
Qed.

(** X16.  For every capital letter the command [\mathbb] with that
    letter in braces is rewritten to the entry of the table for the
    letter, which is never the letter itself. *)
Theorem mathbb_capital (rt : runtime) (c : char) :
  visits_functions rt -> is_upper_AZ c = true ->
  resolve_latex rt (py "\mathbb{" ++ c :: py "}") = dict_get _MATHBB [c] [c]
  /\ dict_get _MATHBB [c] [c] <> [c].
Proof.
  intros Hv Hc. apply capitals_spec in Hc.
  assert (H : forallb (fun c =>
                resolves_to (py "\mathbb{" ++ c :: py "}")
                            (dict_get _MATHBB [c] [c])
                && negb (str_eqb (dict_get _MATHBB [c] [c]) [c]))
              capitals = true) by (vm_compute; reflexivity).
  rewrite forallb_forall in H. specialize (H c Hc).
  apply andb_true_iff in H as [H1 H2]. split.
  - now apply resolves_to_sound.
  - intros E. rewrite E in H2.
    assert (R : str_eqb [c] [c] = true) by now apply str_eqb_eq.
    rewrite R in H2. discriminate H2.
Qed.

Lemma mathbb_capital_witness :
  visits_functions reference_runtime /\ is_upper_AZ 82%N = true
  /\ resolve_latex reference_runtime (py "\mathbb{R}") = [0x211D%N].
Proof.
  split; [exact reference_runtime_visits|]. split; [reflexivity|].
  exact (proj1 (@mathbb_capital reference_runtime 82%N
                  reference_runtime_visits eq_refl)).
Defined.

(* ====================================================================== *)
(** * The events of main *)
(* ====================================================================== *)

Lemma events_of_app kind l1 l2 :
  events_of kind (l1 ++ l2) = events_of kind l1 ++ events_of kind l2.
Proof. apply filter_app. Qed.

Lemma events_of_prints kind l :
  (forall s, kind (EPrint s) = false) ->
  Forall (fun e => is_print e = true) l -> events_of kind l = [].
Proof.
  intros Hk. induction 1 as [|e l He Hl IH]; [reflexivity|].
  unfold events_of in *. cbn [filter]. destruct e; try discriminate He.
  now rewrite Hk.
Qed.

Lemma summary_prints parsed :
  Forall (fun e => is_print e = true) (summary parsed).
Proof.
  unfold summary. apply Forall_app. split.
  - constructor; [reflexivity|]. constructor; [reflexivity|]. constructor.
  - apply Forall_app. split.
    + apply Forall_forall. intros e He.
      apply in_map_iff in He as (a & <- & _). reflexivity.
    + constructor; [reflexivity|]. constructor; [reflexivity|].
      constructor; [reflexivity|]. constructor; [reflexivity|]. constructor.
Qed.

Lemma events_of_summary kind parsed :
  (forall s, kind (EPrint s) = false) -> events_of kind (summary parsed) = [].
Proof.
  intros Hk. apply (@events_of_prints kind _ Hk), summary_prints.
Qed.

(** The events of [convert] and of [main] that are not lines printed. *)
Lemma convert_events_of kind rt w input_path pending :
  (forall s, kind (EPrint s) = false) ->
  events_of kind (fst (convert rt w input_path pending))
  = events_of kind [ERead input_path]
    ++ match readlines w input_path with
       | None => []
       | Some lines =>
           if build_raises rt (parse_markdown rt lines) then []
           else
             events_of kind
               [ESave (output_path_of w input_path)
                      (build_document rt (parse_markdown rt lines))]
             ++ (if save_ok w (output_path_of w input_path)
                 then if length (argv w) <=? 1
                      then events_of kind [EInput prompt_exit] else []
                 else [])
       end.
Proof.
  intros Hk. unfold convert. cbv zeta. fold (output_path_of w input_path).
  assert (S : forall parsed, filter kind (summary parsed) = [])
    by (intros parsed; apply (@events_of_summary kind parsed Hk)).
  unfold events_of.
  destruct (readlines w input_path) as [lines|].
  - destruct (build_raises rt (parse_markdown rt lines)).
    { cbn [fst]. rewrite ?filter_app, ?S. cbn [filter]. rewrite ?Hk.
      cbn [app]. destruct (kind (ERead _)); reflexivity. }
    destruct (save_ok w (output_path_of w input_path)); cbn [negb].
    + destruct (length (argv w) <=? 1).
      * destruct pending; cbn [fst]; rewrite ?filter_app, ?S; cbn [filter];
          rewrite ?Hk; cbn [app];
          destruct (kind (ERead _)), (kind (ESave _ _)), (kind (EInput _));
          reflexivity.
      * cbn [fst]. rewrite ?filter_app, ?S. cbn [filter]. rewrite ?Hk.
        cbn [app]. destruct (kind (ERead _)), (kind (ESave _ _)); reflexivity.
    + cbn [fst]. rewrite ?filter_app, ?S. cbn [filter]. rewrite ?Hk.
      cbn [app]. destruct (kind (ERead _)), (kind (ESave _ _)); reflexivity.
  - cbn [fst]. cbn [filter]. rewrite ?Hk.
    destruct (kind (ERead _)); reflexivity.
Qed.

Lemma main_with_path_events_of kind rt w ev path pending :
  (forall s, kind (EPrint s) = false) ->
  events_of kind (fst (main_with_path rt w ev path pending))
  = events_of kind ev
    ++ (if path_exists w (resolve w path)
        then events_of kind (fst (convert rt w (resolve w path) pending))
        else []).
Proof.
  intros Hk. unfold main_with_path. cbv zeta.
  assert (P : forall s l, events_of kind (l ++ [EPrint s]) = events_of kind l).
  { intros s l. rewrite events_of_app. unfold events_of at 2. cbn [filter].
    now rewrite Hk, app_nil_r. }
  destruct (path_exists w (resolve w path)); cbn [negb].
  - destruct (convert rt w (resolve w path) pending) as [ev' out].
    cbn [fst]. rewrite events_of_app.
    destruct (negb (str_eqb _ _)); [now rewrite P|reflexivity].
  - cbn [fst]. now rewrite P, app_nil_r.
Qed.

Lemma main_with_path_outcome rt w ev path pending :
  snd (main_with_path rt w ev path pending)
  = if path_exists w (resolve w path)
    then snd (convert rt w (resolve w path) pending) else SysExit 1.
Proof.
  unfold main_with_path. cbv zeta.
  destruct (path_exists w (resolve w path)); cbn [negb]; [|reflexivity].
  now destruct (convert rt w (resolve w path) pending).
Qed.

Lemma convert_outcome rt w input_path pending :
  snd (convert rt w input_path pending)
  = match readlines w input_path with
    | None => Raised
    | Some lines =>
        if build_raises rt (parse_markdown rt lines) then Raised
        else if save_ok w (output_path_of w input_path)
        then if length (argv w) <=? 1
             then match pending with [] => Raised | _ => Returned end
             else Returned
        else Raised
    end.
Proof.
  unfold convert. cbv zeta. fold (output_path_of w input_path).
  destruct (readlines w input_path) as [lines|]; [|reflexivity].
  destruct (build_raises rt (parse_markdown rt lines)); [reflexivity|].
  destruct (save_ok w (output_path_of w input_path)); cbn [negb];
    [|reflexivity].
  destruct (length (argv w) <=? 1); [|reflexivity].
  now destruct pending.
Qed.

Lemma written_texts_app a b :
  written_texts (a ++ b) = written_texts a ++ written_texts b.
Proof. unfold written_texts. now rewrite filter_app, flat_map_app. Qed.

(** The title is one of the texts written, so a title that lxml refuses
    makes the build raise. *)
Lemma title_is_written rt parsed :
  In (title parsed) (written_texts (build_document rt parsed)).
Proof.
  rewrite build_document_layout. unfold body_stream, front_stream.
  rewrite written_texts_app. apply in_or_app. right.
  cbn [app]. change (title_paragraph parsed :: ?l)
    with ([title_paragraph parsed] ++ l).
  rewrite written_texts_app. apply in_or_app. left. now left.
Qed.

Lemma build_raises_title rt parsed :
  xml_compatible (title parsed) = false -> build_raises rt parsed = true.
Proof.
  intros H. unfold build_raises. apply orb_true_iff. right.
  apply negb_true_iff.
  destruct (forallb xml_compatible (written_texts (build_document rt parsed)))
    eqn:E; [|reflexivity].
  rewrite forallb_forall in E.
  rewrite (E _ (title_is_written rt parsed)) in H. discriminate H.
Qed.

(** C9.  [main], once it has the input path: if the resolved path does
    not exist, it prints the diagnostic and ends in [sys.exit(1)], and
    nothing is read, built or saved; if the path exists and its suffix
    in lower case is not [.md], it prints the warning and goes on exactly
    as it does without the warning.  For a readable input that is to the
    end, the document saved, when the build does not raise and the output
    can be written; when the build raises, [main] ends with its exception
    and nothing is saved. *)
Theorem main_missing_or_unexpected (rt : runtime) (w : world)
  (ev : list event) (path : pystr) (pending : list pystr) :
  requested_path w = Some (ev, path, pending) ->
  (ev = [] \/ ev = [EInput prompt_path])
  /\ (path_exists w (resolve w path) = false ->
      main rt w
      = (ev ++ [EPrint (py "Error: File not found: " ++ resolve w path)],
         SysExit 1))
  /\ (path_exists w (resolve w path) = true ->
      str_eqb (str_lower w (path_suffix w (resolve w path))) (py ".md") = false ->
      main rt w
      = (ev ++ EPrint (py "Warning: Expected .md file, got "
                       ++ path_suffix w (resolve w path))
            :: fst (convert rt w (resolve w path) pending),
         snd (convert rt w (resolve w path) pending))
      /\ forall lines,
           readlines w (resolve w path) = Some lines ->
           (build_raises rt (parse_markdown rt lines) = false ->
            save_ok w (output_path_of w (resolve w path)) = true ->
            (1 < length (argv w) \/ pending <> []) ->
            snd (main rt w) = Returned
            /\ In (ESave (output_path_of w (resolve w path))
                         (build_document rt (parse_markdown rt lines)))
                  (fst (main rt w)))
           /\ (build_raises rt (parse_markdown rt lines) = true ->
               snd (main rt w) = Raised
               /\ events_of is_save (fst (main rt w)) = []))
  /\ (path_exists w (resolve w path) = true ->
      str_eqb (str_lower w (path_suffix w (resolve w path))) (py ".md") = true ->
      main rt w
      = (ev ++ fst (convert rt w (resolve w path) pending),
         snd (convert rt w (resolve w path) pending))).
Proof.
  intros Hreq.
  assert (Hev : ev = [] \/ ev = [EInput prompt_path])
    by (eapply requested_events; eauto).
  split; [exact Hev|].
  rewrite main_requested, Hreq.
  split; [|split].
  - intros He. unfold main_with_path. cbv zeta. now rewrite He.
  - intros He Hs.
    assert (M : main_with_path rt w ev path pending
                = (ev ++ EPrint (py "Warning: Expected .md file, got "
                                 ++ path_suffix w (resolve w path))
                      :: fst (convert rt w (resolve w path) pending),
                   snd (convert rt w (resolve w path) pending))).
    { unfold main_with_path. cbv zeta. rewrite He, Hs. cbn [negb].
      destruct (convert rt w (resolve w path) pending) as [ev' out].
      cbn [fst snd]. now rewrite <- app_assoc. }
    split; [exact M|].
    intros lines Hr. split.
    + intros Hb Hsv Hp.
      destruct (@convert_completes rt w (resolve w path) pending lines
                  Hr Hb Hsv Hp) as (Hout & before & after & Hc & _).
      rewrite M. cbn [fst snd]. split; [exact Hout|]. rewrite Hc.
      apply in_or_app. right. right.
      apply in_or_app. right. apply in_or_app. right.
      apply in_or_app. right. apply in_or_app. left. right. now left.
    + intros Hb. rewrite main_with_path_outcome, He, convert_outcome, Hr, Hb.
      split; [reflexivity|].
      rewrite main_with_path_events_of by reflexivity.
      rewrite He, convert_events_of by reflexivity. rewrite Hr, Hb.
      destruct Hev as [-> | ->]; reflexivity.
  - intros He Hs. unfold main_with_path. cbv zeta. rewrite He, Hs. cbn [negb].
    now destruct (convert rt w (resolve w path) pending).
Qed.

Lemma main_missing_or_unexpected_witness :
  requested_path world_missing = Some ([], py "paper.md", [])
  /\ main reference_runtime world_missing
     = ([EPrint (py "Error: File not found: paper.md")], SysExit 1)
  /\ requested_path world_txt = Some ([], py "notes.txt", [])
  /\ snd (main reference_runtime world_txt) = Returned
  /\ requested_path world_form_feed = Some ([], py "notes.txt", [])
  /\ snd (main reference_runtime world_form_feed) = Raised.
Proof.
  split; [reflexivity|]. split.
  - exact (proj1 (proj2 (@main_missing_or_unexpected reference_runtime
                           world_missing [] (py "paper.md") [] eq_refl))
             eq_refl).
  - split; [reflexivity|]. split.
    + exact (proj1 (proj1 (proj2 (proj1 (proj2 (proj2
               (@main_missing_or_unexpected reference_runtime
                  world_txt [] (py "notes.txt") [] eq_refl)))
               eq_refl eq_refl) five_sections eq_refl)
               eq_refl eq_refl (or_introl (le_n 2)))).
    + split; [reflexivity|].
      exact (proj1 (proj2 (proj2 (proj1 (proj2 (proj2
               (@main_missing_or_unexpected reference_runtime
                  world_form_feed [] (py "notes.txt") [] eq_refl)))
               eq_refl eq_refl) form_feed_lines eq_refl)
               eq_refl)).
Defined.

(** X17.  With a path on the command line [main] asks nothing: no call
    of [input] is made, neither for the path nor before it ends. *)
Theorem main_argument_no_prompt (rt : runtime) (w : world) :
  1 < length (argv w) -> events_of is_input (fst (main rt w)) = [].
Proof.
  intros H. unfold main.
  assert (E : (1 <? length (argv w)) = true) by now apply Nat.ltb_lt.
  rewrite E. rewrite main_with_path_events_of by reflexivity.
  cbn [app]. destruct (path_exists w _); [|reflexivity].
  rewrite convert_events_of by reflexivity.
  assert (E' : (length (argv w) <=? 1) = false) by (apply Nat.leb_gt; lia).
  rewrite E'. destruct (readlines w _); [|reflexivity].
  destruct (build_raises rt _); [reflexivity|].
  now destruct (save_ok w _).
Qed.

Lemma main_argument_no_prompt_witness :
  1 < length (argv world_md)
  /\ events_of is_input (fst (main reference_runtime world_md)) = [].
Proof.
  split; [exact (le_n 2)|].
  apply (@main_argument_no_prompt reference_runtime world_md (le_n 2)).
Defined.

(** X18.  [main] reads at most one file and saves at most one: when it
    saves, the path it was given exists and has been read, and what is
    saved, under the output name of that path, is the document built from
    the lines read. *)
Theorem main_saves_what_it_read (rt : runtime) (w : world) :
  (events_of is_save (fst (main rt w)) = []
   /\ length (events_of is_read (fst (main rt w))) <= 1)
  \/ exists ev path pending lines,
       requested_path w = Some (ev, path, pending)
       /\ path_exists w (resolve w path) = true
       /\ readlines w (resolve w path) = Some lines
       /\ events_of is_read (fst (main rt w)) = [ERead (resolve w path)]
       /\ events_of is_save (fst (main rt w))
          = [ESave (output_path_of w (resolve w path))
                   (build_document rt (parse_markdown rt lines))].
Proof.
  rewrite main_requested.
  destruct (requested_path w) as [[[ev path] pending]|] eqn:Hreq.
  2:{ left. split; [reflexivity|]. cbn. lia. }
  rewrite !main_with_path_events_of by reflexivity.
  assert (Hev : events_of is_save ev = [] /\ events_of is_read ev = []).
  { destruct (requested_events _ Hreq) as [-> | ->]; split; reflexivity. }
  destruct Hev as [Hs Hr]. rewrite Hs, Hr. cbn [app].
  destruct (path_exists w (resolve w path)) eqn:He.
  2:{ left. split; [reflexivity|]. cbn. lia. }
  rewrite !convert_events_of by reflexivity.
  destruct (readlines w (resolve w path)) as [lines|] eqn:Hl.
  2:{ left. split; [reflexivity|]. cbn. lia. }
  destruct (build_raises rt (parse_markdown rt lines)).
  { left. split; [reflexivity|]. cbn. lia. }
  right. exists ev, path, pending, lines.
  split; [reflexivity|]. split; [exact He|]. split; [exact Hl|].
  split.
  - destruct (save_ok w _); [destruct (length (argv w) <=? 1)|]; reflexivity.
  - destruct (save_ok w _); [destruct (length (argv w) <=? 1)|]; reflexivity.
Qed.

(** X19.  How [main] ends.  Its only exit status is 1, and it exits
    before it reads or saves anything; it returns only after it has
    saved the document, the save having succeeded. *)
Theorem main_outcome (rt : runtime) (w : world) :
  match snd (main rt w) with
  | SysExit code =>
      code = 1
      /\ events_of is_read (fst (main rt w)) = []
      /\ events_of is_save (fst (main rt w)) = []
  | Returned =>
      exists path body,
        events_of is_save (fst (main rt w)) = [ESave path body]
        /\ save_ok w path = true
  | Raised => True
  end.
Proof.
  rewrite main_requested.
  destruct (requested_path w) as [[[ev path] pending]|] eqn:Hreq;
    [|exact I].
  rewrite main_with_path_outcome, !main_with_path_events_of by reflexivity.
  assert (Hev : events_of is_save ev = [] /\ events_of is_read ev = []).
  { destruct (requested_events _ Hreq) as [-> | ->]; split; reflexivity. }
  destruct Hev as [Hs Hr]. rewrite Hs, Hr. cbn [app].
  destruct (path_exists w (resolve w path)); [|auto].
  rewrite convert_outcome, !convert_events_of by reflexivity.
  destruct (readlines w (resolve w path)) as [lines|]; [|exact I].
  destruct (build_raises rt (parse_markdown rt lines)); [exact I|].
  destruct (save_ok w (output_path_of w (resolve w path))) eqn:Hok;
    [|exact I].
  destruct (length (argv w) <=? 1).
  - destruct pending; [exact I|]. eexists _, _. split; [reflexivity|exact Hok].
  - eexists _, _. split; [reflexivity|exact Hok].
Qed.

(* ====================================================================== *)
(** * Lines the parser ignores *)
(* ====================================================================== *)

Lemma lstrip_snoc_nonspace c : isspace c = false ->
  forall a, exists b, lstrip (a ++ [c]) = b ++ [c].
Proof.
  intros Hc. induction a as [|x a IH]; cbn [app lstrip].
  - rewrite Hc. now exists [].
  - destruct (isspace x); [exact IH|]. now exists (x :: a).
Qed.

Lemma rstrip_cons_nonspace c s :
  isspace c = false -> exists u, rstrip (c :: s) = c :: u.
Proof.
  intros Hc. unfold rstrip. cbn [rev].
  destruct (@lstrip_snoc_nonspace c Hc (rev s)) as [b ->].
  rewrite rev_app_distr. now exists (rev b).
Qed.

Lemma strip_cons_nonspace c s :
  isspace c = false -> exists u, strip (c :: s) = c :: u.
Proof.
  intros Hc. unfold strip. cbn [lstrip]. rewrite Hc.
  now apply rstrip_cons_nonspace.
Qed.

(** A line whose trimmed form does not begin with [c] does not begin
    with [c] either, for [c] not white space. *)
Lemma startswith_strip c q line :
  isspace c = false ->
  head_fails (chr_eqb c) (strip line) ->
  startswith (c :: q) line = false.
Proof.
  intros Hc Hh. destruct line as [|x line]; [reflexivity|].
  cbn [startswith]. destruct (chr_eqb c x) eqn:E; [|reflexivity].
  unfold chr_eqb in E. apply N.eqb_eq in E. subst x.
  destruct (@strip_cons_nonspace c line Hc) as [u Hu].
  rewrite Hu in Hh. cbn in Hh. unfold chr_eqb in Hh.
  rewrite N.eqb_refl in Hh. discriminate Hh.
Qed.

Lemma rule_matches k :
  is_some (re_match re_rule (repeat c_minus (3 + k))) = true.
Proof.
  unfold re_match, match_here, re_rule. cbn [seqs Nat.add repeat].
  cbn [rmatch Chr Plus m_rest m_prev advance m_caps].
  unfold chr_eqb at 1 2 3. rewrite !N.eqb_refl.
  set (kk := fun st : mstate => rmatch Eol st (fun st0 => Some st0)).
  change (is_some
            (rmatch (Rep true (Cls (chr_eqb c_minus)))
                    (MState (Some c_minus) (repeat c_minus k) []) kk) = true).
  rewrite <- (app_nil_r (repeat c_minus k)).
  rewrite (@rep_cls_longest (chr_eqb c_minus) kk
             (MState (last_char (Some c_minus) (repeat c_minus k)) [] [])).
  - reflexivity.
  - apply Forall_forall. intros x Hx. apply repeat_spec in Hx. subst x.
    apply N.eqb_refl.
  - exact I.
  - reflexivity.
Qed.

Lemma head_fails_dash (q : char -> bool) t :
  q c_minus = false -> t = [] \/ is_rule t -> head_fails q t.
Proof.
  intros Hq [-> | [k ->]]; [exact I|]. exact Hq.
Qed.

Lemma ignorable_blank_or_rule t :
  t = [] \/ is_rule t ->
  negb (nonempty t) || is_some (re_match re_rule t) = true.
Proof.
  intros [-> | [k ->]]; [reflexivity|].
  rewrite rule_matches. apply orb_true_r.
Qed.

Lemma ignorable_not_references t :
  t = [] \/ is_rule t -> str_eqb t (py "REFERENCES") = false.
Proof. intros [-> | [k ->]]; reflexivity. Qed.

Lemma h2_named_starts name : starts_with (chr_eqb c_hash) (re_h2_named name).
Proof. unfold re_h2_named. cbn [seqs]. apply sw_bol, sw_seq, sw_cls. auto. Qed.

Lemma parse_body_line_ignores p t :
  t = [] \/ is_rule t -> parse_body_line p t = p.
Proof.
  intros H. unfold parse_body_line. destruct H as [-> | [k ->]].
  - change (re_match re_rule []) with (@None mstate).
    change (re_match re_h2 []) with (@None mstate).
    change (re_match re_h3 []) with (@None mstate).
    cbn [is_some nonempty]. rewrite andb_false_r.
    now destruct (current_section p).
  - now rewrite rule_matches.
Qed.

Lemma parse_keywords_line_ignores p t :
  t = [] \/ is_rule t -> parse_keywords_line p t = p.
Proof.
  intros H. unfold parse_keywords_line.
  rewrite (@re_match_fails (chr_eqb c_hash) _ t (h2_named_starts _))
    by (apply head_fails_dash; [reflexivity|exact H]).
  cbn [is_some]. rewrite (ignorable_blank_or_rule H).
  destruct (is_in_keywords (state p)); [reflexivity|].
  now apply parse_body_line_ignores.
Qed.

Lemma parse_abstract_line_ignores p t :
  t = [] \/ is_rule t -> parse_abstract_line p t = p.
Proof.
  intros H. unfold parse_abstract_line.
  rewrite (@re_match_fails (chr_eqb c_hash) _ t (h2_named_starts _))
    by (apply head_fails_dash; [reflexivity|exact H]).
  cbn [is_some]. rewrite (ignorable_blank_or_rule H).
  destruct (is_in_abstract (state p)); [reflexivity|].
  now apply parse_keywords_line_ignores.
Qed.

Lemma parse_post_title_line_ignores p t :
  t = [] \/ is_rule t -> parse_post_title_line p t = p.
Proof.
  intros H. unfold parse_post_title_line.
  pose proof (ignorable_blank_or_rule H) as R.
  destruct (is_some (re_match re_rule t)); [reflexivity|].
  rewrite orb_false_r in R. now rewrite R.
Qed.

(** X20.  A blank line and a horizontal rule change nothing in the state
    of the parser, whatever the state is, and consume no further line. *)
Theorem parse_line_ignores (rt : runtime) (p : parser) (raw : pystr)
  (rest : list pystr) :
  trimmed_of raw = [] \/ is_rule (trimmed_of raw) ->
  parse_line rt p raw rest = (p, 0).
Proof.
  intros H. unfold parse_line. cbv zeta. fold (trimmed_of raw).
  rewrite (@re_match_fails (chr_eqb c_hash) _ _ (h2_named_starts _))
    by (apply head_fails_dash; [reflexivity|exact H]).
  rewrite (ignorable_not_references H). cbn [is_some orb].
  destruct (in_references p).
  - rewrite (@re_match_fails (chr_eqb c_lbracket) (re_reference rt)).
    + reflexivity.
    + unfold re_reference. cbn [seqs]. apply sw_bol, sw_seq, sw_cls. auto.
    + apply head_fails_dash; [reflexivity|exact H].
  - change (py "# ") with [c_hash; c_space].
    rewrite startswith_strip.
    + cbn [andb]. destruct (is_post_title (state p)).
      * now rewrite parse_post_title_line_ignores.
      * now rewrite parse_abstract_line_ignores.
    + reflexivity.
    + apply head_fails_dash; [reflexivity|exact H].
Qed.

Lemma parse_line_ignores_witness :
  (trimmed_of (py "----") = [] \/ is_rule (trimmed_of (py "----")))
  /\ parse_line reference_runtime
       (Parser (Parsed (py "T") [] [] [] [] []) post_title false None 0 0)
       (py "----") []
     = (Parser (Parsed (py "T") [] [] [] [] []) post_title false None 0 0, 0).
Proof.
  assert (H : trimmed_of (py "----") = [] \/ is_rule (trimmed_of (py "----")))
    by (right; exists 1; reflexivity).
  split; [exact H|].
  apply (@parse_line_ignores reference_runtime
           (Parser (Parsed (py "T") [] [] [] [] []) post_title false None 0 0)
           (py "----") [] H).
Defined.

(* ====================================================================== *)
(** * The references and the title *)
(* ====================================================================== *)

Ltac branches :=
  repeat match goal with
         | |- context [if ?c then _ else _] => destruct c
         | |- context [match ?x with Some _ => _ | None => _ end] => destruct x
         end.

(** Outside the references, a line leaves the references and the flag
    alone, and never brings the parser back to the front state. *)
Lemma parse_body_line_frame p t :
  in_references (parse_body_line p t) = in_references p
  /\ references (result (parse_body_line p t)) = references (result p)
  /\ title (result (parse_body_line p t)) = title (result p)
  /\ (is_front (state (parse_body_line p t)) = true ->
      is_front (state p) = true).
Proof.
  unfold parse_body_line. branches; cbn; auto; repeat split; auto; discriminate.
Qed.

Lemma parse_keywords_line_frame p t :
  in_references (parse_keywords_line p t) = in_references p
  /\ references (result (parse_keywords_line p t)) = references (result p)
  /\ title (result (parse_keywords_line p t)) = title (result p)
  /\ (is_front (state (parse_keywords_line p t)) = true ->
      is_front (state p) = true).
Proof.
  unfold parse_keywords_line.
  pose proof (parse_body_line_frame p t) as B.
  pose proof (parse_body_line_frame (with_state in_body p) t) as B'.
  cbn [with_state in_references result state is_front] in B'.
  branches; cbn [with_current with_state with_result in_references result
                 state is_front set_keywords references title]; auto.
  - repeat split; auto; discriminate.
  - destruct B' as (B1 & B2 & B3 & B4). repeat split; auto.
    intros H. apply B4 in H. discriminate H.
Qed.

Lemma parse_abstract_line_frame p t :
  in_references (parse_abstract_line p t) = in_references p
  /\ references (result (parse_abstract_line p t)) = references (result p)
  /\ title (result (parse_abstract_line p t)) = title (result p)
  /\ (is_front (state (parse_abstract_line p t)) = true ->
      is_front (state p) = true).
Proof.
  unfold parse_abstract_line.
  pose proof (parse_keywords_line_frame p t) as B.
  pose proof (parse_keywords_line_frame (with_state in_body p) t) as B'.
  cbn [with_state in_references result state is_front] in B'.
  branches; cbn [with_current with_state with_result in_references result
                 state is_front set_abstract references title]; auto.
  - repeat split; auto; discriminate.
  - destruct B' as (B1 & B2 & B3 & B4). repeat split; auto.
    intros H. apply B4 in H. discriminate H.
Qed.

Lemma parse_post_title_line_frame p t :
  in_references (parse_post_title_line p t) = in_references p
  /\ references (result (parse_post_title_line p t)) = references (result p)
  /\ title (result (parse_post_title_line p t)) = title (result p)
  /\ (is_front (state (parse_post_title_line p t)) = true ->
      is_front (state p) = true).
Proof.
  unfold parse_post_title_line.
  pose proof (parse_abstract_line_frame p t) as B.
  branches; cbn [with_current with_state with_result in_references result
                 state is_front set_authors references title]; auto.
Qed.

(** Inside the references a line only adds a reference. *)
Lemma parse_line_in_references rt p raw rest :
  in_references p = true ->
  let p' := fst (parse_line rt p raw rest) in
  in_references p' = true /\ same_front (result p') (result p)
  /\ state p' = state p.
Proof.
  intros H. cbv zeta. unfold parse_line. cbv zeta. rewrite H.
  unfold same_front.
  branches; try destruct (collect_continuation _ _ _);
    cbn [fst with_result result in_references state set_references
                 title authors abstract keywords sections];
    repeat split; auto.
Qed.

Lemma parse_loop_in_references rt : forall lines skip p,
  in_references p = true ->
  let p' := parse_loop rt skip p lines in
  in_references p' = true /\ same_front (result p') (result p)
  /\ state p' = state p.
Proof.
  induction lines as [|raw rest IH]; intros skip p H; cbv zeta.
  - cbn [parse_loop]. unfold same_front. repeat split; auto.
  - cbn [parse_loop]. destruct skip as [|n]; [|now apply IH].
    destruct (@parse_line_in_references rt p raw rest H) as (H1 & H2 & H3).
    destruct (parse_line rt p raw rest) as [p1 n]. cbn [fst] in H1, H2, H3.
    destruct (IH n p1 H1) as (K1 & K2 & K3). split; [exact K1|]. split.
    + unfold same_front in *. intuition congruence.
    + congruence.
Qed.

(** Before the references, a line that is not their heading consumes no
    further line, and leaves the flag and the references alone. *)
Lemma parse_line_before_references rt p raw rest :
  in_references p = false -> is_references_heading raw = false ->
  snd (parse_line rt p raw rest) = 0
  /\ in_references (fst (parse_line rt p raw rest)) = false
  /\ references (result (fst (parse_line rt p raw rest)))
     = references (result p)
  /\ parse_line rt p raw rest = parse_line rt p raw [].
Proof.
  intros H Hh. unfold parse_line. cbv zeta. fold (trimmed_of raw).
  unfold is_references_heading in Hh. rewrite Hh, H.
  destruct (startswith (py "# ") (rstrip_chr c_lf raw) && is_front (state p)).
  - cbn. auto.
  - destruct (is_post_title (state p)); cbn [fst snd].
    + destruct (parse_post_title_line_frame p (trimmed_of raw))
        as (F1 & F2 & _). rewrite F1, F2. auto.
    + destruct (parse_abstract_line_frame p (trimmed_of raw))
        as (F1 & F2 & _). rewrite F1, F2. auto.
Qed.

Lemma before_references_split lines :
  exists tail,
    lines = before_references lines ++ tail
    /\ Forall (fun raw => is_references_heading raw = false)
              (before_references lines)
    /\ match tail with
       | [] => True
       | raw :: _ => is_references_heading raw = true
       end.
Proof.
  induction lines as [|raw rest (tail & E & F & T)]; cbn [before_references].
  - exists []. repeat split; constructor.
  - destruct (is_references_heading raw) eqn:H.
    + exists (raw :: rest). repeat split; [constructor|exact H].
    + exists tail. cbn [app]. split; [now f_equal|]. split; [|exact T].
      now constructor.
Qed.

Lemma parse_loop_before_references rt tail : forall pre p,
  in_references p = false ->
  Forall (fun raw => is_references_heading raw = false) pre ->
  parse_loop rt 0 p (pre ++ tail)
  = parse_loop rt 0 (parse_loop rt 0 p pre) tail
  /\ in_references (parse_loop rt 0 p pre) = false
  /\ references (result (parse_loop rt 0 p pre)) = references (result p).
Proof.
  induction pre as [|raw rest IH]; intros p H F.
  - cbn [parse_loop app]. auto.
  - inversion F as [|x l Hraw Hrest]; subst.
    cbn [parse_loop app].
    destruct (@parse_line_before_references rt p raw (rest ++ tail) H Hraw)
      as (S1 & _ & _ & E1).
    destruct (@parse_line_before_references rt p raw rest H Hraw)
      as (S2 & I2 & R2 & E2).
    rewrite E1. rewrite E2 in S2, I2, R2 |- *.
    destruct (parse_line rt p raw []) as [p1 n]. cbn [fst snd] in *.
    subst n. destruct (IH p1 I2 Hrest) as (K1 & K2 & K3).
    split; [exact K1|]. split; [exact K2|]. congruence.
Qed.

Lemma parse_line_heading rt p raw rest :
  is_references_heading raw = true ->
  parse_line rt p raw rest
  = (Parser (result p) (state p) true None (h1_count p) (h2_count p), 0).
Proof.
  intros Hh. unfold parse_line. cbv zeta. fold (trimmed_of raw).
  unfold is_references_heading in Hh. now rewrite Hh.
Qed.

(** X21.  The heading of the references ends the body: title, authors,
    abstract, keywords and sections of a document are those of its lines
    before the first heading of the references, and those lines give no
    reference. *)
Theorem references_end_the_body (rt : runtime) (lines : list pystr) :
  same_front (parse_markdown rt lines)
             (parse_markdown rt (before_references lines))
  /\ references (parse_markdown rt (before_references lines)) = [].
Proof.
  unfold parse_markdown.
  set (p0 := Parser (Parsed [] [] [] [] [] []) front false None 0 0).
  destruct (before_references_split lines) as (tail & E & F & T).
  destruct (@parse_loop_before_references rt tail (before_references lines)
              p0 eq_refl F) as (K1 & K2 & K3).
  split; [|exact K3].
  rewrite E at 1. rewrite K1.
  set (p1 := parse_loop rt 0 p0 (before_references lines)) in *.
  destruct tail as [|raw rest].
  - cbn [parse_loop]. unfold same_front. repeat split; reflexivity.
  - cbn [parse_loop]. rewrite (@parse_line_heading rt p1 raw rest T).
    apply (@parse_loop_in_references rt rest 0
             (Parser (result p1) (state p1) true None
                     (h1_count p1) (h2_count p1)) eq_refl).
Qed.

Lemma lstrip_chr_snoc x c :
  chr_eqb c x = false ->
  forall a, lstrip_chr x (a ++ [c]) = lstrip_chr x a ++ [c].
Proof.
  intros Hc. induction a as [|y a IH]; cbn [app lstrip_chr].
  - now rewrite Hc.
  - destruct (chr_eqb y x); [exact IH|reflexivity].
Qed.

Lemma rstrip_chr_cons x c t :
  chr_eqb c x = false -> rstrip_chr x (c :: t) = c :: rstrip_chr x t.
Proof.
  intros Hc. unfold rstrip_chr. cbn [rev].
  rewrite (@lstrip_chr_snoc x c Hc (rev t)).
  now rewrite rev_app_distr.
Qed.

Lemma lstrip_chr_split x : forall s,
  exists b, s = b ++ lstrip_chr x s /\ Forall (fun c => chr_eqb c x = true) b.
Proof.
  induction s as [|c s (b & E & F)]; cbn [lstrip_chr].
  - exists []. split; [reflexivity|constructor].
  - destruct (chr_eqb c x) eqn:H.
    + exists (c :: b). cbn [app]. split; [now f_equal|now constructor].
    + exists []. split; [reflexivity|constructor].
Qed.

Lemma rstrip_chr_split x t :
  exists b, t = rstrip_chr x t ++ b /\ Forall (fun c => chr_eqb c x = true) b.
Proof.
  destruct (lstrip_chr_split x (rev t)) as (b & E & F).
  exists (rev b). split.
  - unfold rstrip_chr. rewrite <- rev_app_distr, <- E. now rewrite rev_involutive.
  - now apply Forall_rev.
Qed.

Lemma blank_app a b : blank a -> blank b -> blank (a ++ b).
Proof. intros Ha Hb. apply Forall_app. now split. Qed.

Lemma lstrip_app_blank b s : blank b -> lstrip (b ++ s) = lstrip s.
Proof.
  induction 1 as [|c b Hc Hb IH]; [reflexivity|].
  cbn [app lstrip]. now rewrite Hc.
Qed.

Lemma lstrip_app u ws : lstrip (u ++ ws) = lstrip u ++ ws \/ blank u.
Proof.
  induction u as [|c u IH]; cbn [app lstrip].
  - right. constructor.
  - destruct (isspace c) eqn:H.
    + destruct IH as [IH|IH]; [now left|right; now constructor].
    + now left.
Qed.

Lemma rstrip_app_blank v ws : blank ws -> rstrip (v ++ ws) = rstrip v.
Proof.
  intros H. unfold rstrip. rewrite rev_app_distr.
  rewrite lstrip_app_blank; [reflexivity|]. now apply Forall_rev.
Qed.

Lemma strip_app_blank u ws : blank ws -> strip (u ++ ws) = strip u.
Proof.
  intros H. destruct (lstrip_app u ws) as [E|B].
  - unfold strip. rewrite E. now apply rstrip_app_blank.
  - rewrite (strip_blank B). apply strip_blank. now apply blank_app.
Qed.

Lemma strip_rstrip_lf t : strip (rstrip_chr c_lf t) = strip t.
Proof.
  destruct (rstrip_chr_split c_lf t) as (b & E & F).
  rewrite E at 2. symmetry. apply strip_app_blank.
  eapply Forall_impl; [|exact F]. intros c Hc.
  unfold chr_eqb in Hc. apply N.eqb_eq in Hc. now subst c.
Qed.

Lemma rstrip_cons c s :
  rstrip (c :: s) = c :: rstrip s \/ rstrip (c :: s) = [].
Proof.
  unfold rstrip. cbn [rev].
  destruct (lstrip_app (rev s) [c]) as [E|B].
  - left. rewrite E, rev_app_distr. reflexivity.
  - rewrite (lstrip_app_blank [c] B). rewrite (lstrip_blank B).
    cbn [lstrip]. destruct (isspace c); [now right|now left].
Qed.

(** The trimmed form of a title line: the hash, and if anything is left,
    the space and more. *)
Lemma title_line_trimmed r :
  exists u, strip (c_hash :: c_space :: r) = c_hash :: u
            /\ (u = [] \/ exists v, u = c_space :: v).
Proof.
  unfold strip. cbn [lstrip].
  change (isspace c_hash) with false. cbn iota.
  destruct (rstrip_cons c_hash (c_space :: r)) as [E|E].
  - rewrite E. eexists. split; [reflexivity|].
    destruct (rstrip_cons c_space r) as [E'|E']; rewrite E'; eauto.
  - destruct (@rstrip_cons_nonspace c_hash (c_space :: r) eq_refl) as [u Hu].
    rewrite Hu in E. discriminate E.
Qed.

Lemma title_line_not_heading t :
  is_references_heading (py "# " ++ t) = false.
Proof.
  unfold is_references_heading, trimmed_of.
  change (py "# " ++ t) with (c_hash :: c_space :: t).
  rewrite !rstrip_chr_cons by reflexivity.
  destruct (title_line_trimmed (rstrip_chr c_lf t)) as (u & -> & [-> | [v ->]]);
    reflexivity.
Qed.

(** After the front state the title stays. *)
Lemma parse_line_title rt p raw rest :
  is_front (state p) = false ->
  title (result (fst (parse_line rt p raw rest))) = title (result p)
  /\ is_front (state (fst (parse_line rt p raw rest))) = false.
Proof.
  intros H. unfold parse_line. cbv zeta. rewrite H, andb_false_r.
  assert (N : forall q, (is_front (state q) = true -> is_front (state p) = true)
                        -> is_front (state q) = false).
  { intros q Hq. destruct (is_front (state q)); [|reflexivity].
    rewrite Hq in H by reflexivity. discriminate H. }
  destruct (_ || _); [cbn; auto|].
  destruct (in_references p).
  - destruct (re_match _ _); [destruct (collect_continuation _ _ _)|];
      cbn; auto.
  - destruct (is_post_title (state p)); cbn [fst].
    + destruct (parse_post_title_line_frame p (strip (rstrip_chr c_lf raw)))
        as (_ & _ & F3 & F4). split; [exact F3|now apply N].
    + destruct (parse_abstract_line_frame p (strip (rstrip_chr c_lf raw)))
        as (_ & _ & F3 & F4). split; [exact F3|now apply N].
Qed.

Lemma parse_loop_title rt : forall lines skip p,
  is_front (state p) = false ->
  title (result (parse_loop rt skip p lines)) = title (result p).
Proof.
  induction lines as [|raw rest IH]; intros skip p H; cbn [parse_loop].
  - reflexivity.
  - destruct skip as [|n]; [|now apply IH].
    destruct (@parse_line_title rt p raw rest H) as (T & S).
    destruct (parse_line rt p raw rest) as [p1 n]. cbn [fst] in T, S.
    now rewrite IH.
Qed.

(** X22.  When the first line of the file is a hash, a space and a text,
    the title of the document is that text without the white space around
    it, whatever the lines after it are: no later line replaces it. *)
Theorem title_of_first_line (rt : runtime) (t : pystr) (rest : list pystr) :
  title (parse_markdown rt ((py "# " ++ t) :: rest)) = strip t.
Proof.
  unfold parse_markdown. cbn [parse_loop].
  pose proof (title_line_not_heading t) as Hh.
  unfold parse_line. cbv zeta. fold (trimmed_of (py "# " ++ t)).
  unfold is_references_heading in Hh. rewrite Hh.
  cbn [in_references state is_front].
  change (py "# " ++ t) with (c_hash :: c_space :: t).
  rewrite !rstrip_chr_cons by reflexivity.
  change (startswith (py "# ") (c_hash :: c_space :: rstrip_chr c_lf t))
    with true.
  cbn [andb]. rewrite parse_loop_title by reflexivity.
  cbn [with_state with_result result set_title title slice_from skipn].
  apply strip_rstrip_lf.
Qed.

(* ====================================================================== *)
(** * Markers of emphasis and of code *)
(* ====================================================================== *)

Lemma rmatch_seq r1 r2 st k :
  rmatch (Seq r1 r2) st k = rmatch r1 st (fun st1 => rmatch r2 st1 k).
Proof. reflexivity. Qed.

Lemma rmatch_grp n r st k :
  rmatch (Grp n r) st k = rmatch r st (fun st1 => k (capture n st st1)).
Proof. reflexivity. Qed.

Lemma rmatch_cls p prev c s caps k :
  rmatch (Cls p) (MState prev (c :: s) caps) k
  = if p c then k (MState (Some c) s caps) else None.
Proof. reflexivity. Qed.

Lemma rmatch_cls_nil p prev caps k :
  rmatch (Cls p) (MState prev [] caps) k = None.
Proof. reflexivity. Qed.

Lemma rep_lazy_cons p prev c s caps k :
  rmatch (Rep false (Cls p)) (MState prev (c :: s) caps) k
  = or_else (k (MState prev (c :: s) caps))
            (fun _ => if p c
                      then rmatch (Rep false (Cls p)) (MState (Some c) s caps) k
                      else None).
Proof.
  cbn [rmatch m_rest length advance m_caps].
  assert (L : (length s <? S (length s)) = true) by (apply Nat.ltb_lt; lia).
  rewrite L. reflexivity.
Qed.

(** A lazy repetition of a class stops at the first position where the
    continuation accepts. *)
Lemma rep_lazy_until p k r : forall x y prev caps,
  Forall (fun c => p c = true) x ->
  (forall x1 c x2, x = x1 ++ c :: x2 ->
     k (MState (last_char prev x1) (c :: x2 ++ y) caps) = None) ->
  k (MState (last_char prev x) y caps) = Some r ->
  rmatch (Rep false (Cls p)) (MState prev (x ++ y) caps) k = Some r.
Proof.
  induction x as [|c x IH]; intros y prev caps Hx Hmid Hend.
  - cbn [app]. unfold last_char in Hend. cbn [rev] in Hend.
    destruct y as [|d y]; [now rewrite rep_cls_nil|].
    rewrite rep_lazy_cons, Hend. reflexivity.
  - cbn [app]. rewrite rep_lazy_cons.
    pose proof (Hmid [] c x eq_refl) as H0.
    unfold last_char in H0. cbn [rev] in H0. rewrite H0. cbn [or_else].
    inversion Hx as [|c' x' Hc Hx']; subst. rewrite Hc.
    apply IH; [exact Hx'| |].
    + intros x1 d x2 E. rewrite <- (last_char_cons prev c x1).
      apply (Hmid (c :: x1) d x2). cbn [app]. now f_equal.
    + now rewrite <- (last_char_cons prev c x).
Qed.

Lemma firstn_consumed {A} (x z : list A) :
  firstn (length (x ++ z) - length z) (x ++ z) = x.
Proof.
  rewrite length_app. replace (length x + length z - length z) with (length x) by lia.
  rewrite firstn_app, Nat.sub_diag, firstn_all. cbn. apply app_nil_r.
Qed.

(** A group of one character or more, as few as possible: it ends at the
    first position, after its first character, where the rest of the
    pattern accepts. *)
Lemma grp_lazy_until n k r : forall x y prev caps,
  x <> [] -> one_line x ->
  (forall x1 c x2, x = x1 ++ c :: x2 -> x1 <> [] ->
     k (MState (last_char prev x1) (c :: x2 ++ y) ((n, x1) :: caps)) = None) ->
  k (MState (last_char prev x) y ((n, x) :: caps)) = Some r ->
  rmatch (Grp n (PlusLazy Any)) (MState prev (x ++ y) caps) k = Some r.
Proof.
  intros x y prev caps Hne Hx Hmid Hend.
  destruct x as [|c0 x]; [congruence|]. clear Hne.
  inversion Hx as [|c' x' Hc Hx']; subst.
  unfold PlusLazy, Any. rewrite rmatch_grp, rmatch_seq. cbn [app].
  rewrite rmatch_cls, Hc.
  set (st := MState prev (c0 :: x ++ y) caps).
  apply rep_lazy_until.
  - exact Hx'.
  - intros x1 c x2 E. unfold capture, consumed. cbn [m_rest m_prev m_caps st].
    assert (Est : c0 :: x ++ y = (c0 :: x1) ++ (c :: x2 ++ y)).
    { rewrite E. cbn [app]. now rewrite <- app_assoc. }
    rewrite Est, firstn_consumed. rewrite <- (last_char_cons prev c0 x1).
    apply Hmid; [cbn [app]; now f_equal|discriminate].
  - unfold capture, consumed. cbn [m_rest m_prev m_caps st].
    change (c0 :: x ++ y) with ((c0 :: x) ++ y).
    rewrite firstn_consumed. now rewrite <- (last_char_cons prev c0 x).
Qed.

Lemma in_split_Forall {A} (P : A -> Prop) x x1 c x2 :
  Forall P x -> x = x1 ++ c :: x2 -> P c.
Proof.
  intros H E. subst x. apply Forall_app in H as [_ H]. now inversion H.
Qed.

Ltac step_chr :=
  rewrite ?rmatch_seq; unfold Chr; rewrite rmatch_cls;
  unfold chr_eqb at 1; rewrite ?N.eqb_refl; cbv beta iota.

Lemma match_bold x b prev :
  x <> [] -> one_line x -> no_star x ->
  match_here re_bold prev (c_star :: c_star :: x ++ c_star :: c_star :: b)
  = Some (MState (Some c_star) b [(1, x)]).
Proof.
  intros Hne Hl Hs. unfold match_here, re_bold. cbn [seqs].
  step_chr. step_chr. rewrite rmatch_seq.
  apply grp_lazy_until; [exact Hne|exact Hl| |].
  - intros x1 c x2 E _. rewrite rmatch_seq. unfold Chr. rewrite rmatch_cls.
    pose proof (@in_split_Forall _ _ x x1 c x2 Hs E) as Hc.
    cbv beta in Hc. now rewrite Hc.
  - step_chr. step_chr. reflexivity.
Qed.

Lemma match_italic x b prev :
  x <> [] -> one_line x -> no_star x ->
  match_here re_italic prev (c_star :: x ++ c_star :: b)
  = Some (MState (Some c_star) b [(1, x)]).
Proof.
  intros Hne Hl Hs. unfold match_here, re_italic. cbn [seqs].
  step_chr. rewrite rmatch_seq.
  apply grp_lazy_until; [exact Hne|exact Hl| |].
  - intros x1 c x2 E _. unfold Chr. rewrite rmatch_cls.
    pose proof (@in_split_Forall _ _ x x1 c x2 Hs E) as Hc.
    cbv beta in Hc. now rewrite Hc.
  - step_chr. reflexivity.
Qed.

Lemma match_code x b prev :
  x <> [] -> one_line x -> no_backtick x ->
  match_here re_code prev (c_backtick :: x ++ c_backtick :: b)
  = Some (MState (Some c_backtick) b [(1, x)]).
Proof.
  intros Hne Hl Hs. unfold match_here, re_code. cbn [seqs].
  step_chr. rewrite rmatch_seq.
  apply grp_lazy_until; [exact Hne|exact Hl| |].
  - intros x1 c x2 E _. unfold Chr. rewrite rmatch_cls.
    pose proof (@in_split_Forall _ _ x x1 c x2 Hs E) as Hc.
    cbv beta in Hc. now rewrite Hc.
  - step_chr. reflexivity.
Qed.

(** [re.sub] copies a prefix in which the pattern cannot start. *)
Lemma sub_go_prefix q r repl :
  starts_with q r ->
  forall a prev s, Forall (fun c => q c = false) a ->
  sub_go r repl 0 prev (a ++ s) = a ++ sub_go r repl 0 (last_char prev a) s.
Proof.
  intros Hr. induction a as [|c a IH]; intros prev s Ha; [reflexivity|].
  inversion Ha as [|c' a' Hc Ha']; subst.
  cbn [app sub_go]. unfold match_here.
  rewrite (starts_with_fails Hr) by exact Hc.
  rewrite IH by exact Ha'. now rewrite last_char_cons.
Qed.

(** It passes over the characters of a match. *)
Lemma sub_go_skip r repl : forall m prev s,
  sub_go r repl (length m) prev (m ++ s)
  = sub_go r repl 0 (last_char prev m) s
  \/ (s = [] /\ sub_go r repl (length m) prev (m ++ s)
                = sub_go r repl 0 (last_char prev m) []).
Proof.
  induction m as [|c m IH]; intros prev s.
  - left. reflexivity.
  - cbn [length app sub_go]. rewrite last_char_cons. apply IH.
Qed.

Lemma sub_go_skip_eq r repl m prev s :
  sub_go r repl (length m) prev (m ++ s)
  = sub_go r repl 0 (last_char prev m) s.
Proof.
  destruct (sub_go_skip r repl m prev s) as [E | [-> E]]; exact E.
Qed.

(** It replaces a match at the current position and goes on after it. *)
Lemma sub_go_match r repl prev c m s st :
  match_here r prev (c :: m ++ s) = Some st -> m_rest st = s ->
  sub_go r repl 0 prev (c :: m ++ s)
  = repl st ++ sub_go r repl 0 (last_char (Some c) m) s.
Proof.
  intros H E. cbn [sub_go]. rewrite H, E.
  replace (length (c :: m ++ s) - length s) with (S (length m))
    by (cbn [length]; rewrite length_app; lia).
  f_equal. apply sub_go_skip_eq.
Qed.

Lemma sub_go_nomatch r repl prev c s :
  match_here r prev (c :: s) = None ->
  sub_go r repl 0 prev (c :: s) = c :: sub_go r repl 0 (Some c) s.
Proof. intros H. cbn [sub_go]. now rewrite H. Qed.

Lemma bold_starts : starts_with (chr_eqb c_star) re_bold.
Proof. apply sw_seq, sw_cls. auto. Qed.
Lemma italic_starts : starts_with (chr_eqb c_star) re_italic.
Proof. apply sw_seq, sw_cls. auto. Qed.
Lemma code_starts : starts_with (chr_eqb c_backtick) re_code.
Proof. apply sw_seq, sw_cls. auto. Qed.

Lemma sub_bold_pair a x b :
  no_star a -> x <> [] -> one_line x -> no_star x -> no_star b ->
  sub re_bold (group_or_empty 1)
      (a ++ c_star :: c_star :: x ++ c_star :: c_star :: b)
  = a ++ x ++ b.
Proof.
  intros Ha Hne Hl Hx Hb. unfold sub.
  rewrite (sub_go_prefix _ bold_starts _ _ Ha). f_equal.
  assert (S : c_star :: c_star :: x ++ c_star :: c_star :: b
              = c_star :: (c_star :: x ++ [c_star; c_star]) ++ b).
  { cbn [app]. rewrite <- app_assoc. reflexivity. }
  pose proof (@match_bold x b (last_char None a) Hne Hl Hx) as M.
  rewrite S in M |- *.
  rewrite (@sub_go_match _ _ _ _ _ _ _ M eq_refl).
  unfold group_or_empty. cbn [m_caps group Nat.eqb]. f_equal.
  now apply (sub_go_unchanged _ bold_starts).
Qed.

Lemma sub_italic_pair a x b :
  no_star a -> x <> [] -> one_line x -> no_star x -> no_star b ->
  sub re_italic (group_or_empty 1) (a ++ c_star :: x ++ c_star :: b)
  = a ++ x ++ b.
Proof.
  intros Ha Hne Hl Hx Hb. unfold sub.
  rewrite (sub_go_prefix _ italic_starts _ _ Ha). f_equal.
  assert (S : c_star :: x ++ c_star :: b = c_star :: (x ++ [c_star]) ++ b).
  { rewrite <- app_assoc. reflexivity. }
  pose proof (@match_italic x b (last_char None a) Hne Hl Hx) as M.
  rewrite S in M |- *.
  rewrite (@sub_go_match _ _ _ _ _ _ _ M eq_refl).
  unfold group_or_empty. cbn [m_caps group Nat.eqb]. f_equal.
  now apply (sub_go_unchanged _ italic_starts).
Qed.

Lemma sub_code_pair a x b :
  no_backtick a -> x <> [] -> one_line x -> no_backtick x -> no_backtick b ->
  sub re_code (group_or_empty 1) (a ++ c_backtick :: x ++ c_backtick :: b)
  = a ++ x ++ b.
Proof.
  intros Ha Hne Hl Hx Hb. unfold sub.
  rewrite (sub_go_prefix _ code_starts _ _ Ha). f_equal.
  assert (S : c_backtick :: x ++ c_backtick :: b
              = c_backtick :: (x ++ [c_backtick]) ++ b).
  { rewrite <- app_assoc. reflexivity. }
  pose proof (@match_code x b (last_char None a) Hne Hl Hx) as M.
  rewrite S in M |- *.
  rewrite (@sub_go_match _ _ _ _ _ _ _ M eq_refl).
  unfold group_or_empty. cbn [m_caps group Nat.eqb]. f_equal.
  now apply (sub_go_unchanged _ code_starts).
Qed.

(** Single asterisks around a text are no bold markers. *)
Lemma sub_bold_single a x b :
  no_star a -> x <> [] -> no_star x -> no_star b ->
  sub re_bold (group_or_empty 1) (a ++ c_star :: x ++ c_star :: b)
  = a ++ c_star :: x ++ c_star :: b.
Proof.
  intros Ha Hne Hx Hb. unfold sub.
  rewrite (sub_go_prefix _ bold_starts _ _ Ha). f_equal.
  destruct x as [|c0 x]; [congruence|].
  inversion Hx as [|c' x' Hc0 Hx']; subst.
  rewrite sub_go_nomatch.
  2:{ unfold match_here, re_bold. cbn [seqs app]. step_chr.
      rewrite rmatch_seq. unfold Chr. rewrite rmatch_cls. now rewrite Hc0. }
  f_equal.
  rewrite (sub_go_prefix _ bold_starts _ _ Hx). f_equal.
  rewrite sub_go_nomatch.
  2:{ unfold match_here, re_bold. cbn [seqs]. step_chr.
      rewrite rmatch_seq. unfold Chr.
      destruct b as [|d b]; [apply rmatch_cls_nil|].
      rewrite rmatch_cls. inversion Hb as [|d' b' Hd Hb']; subst.
      now rewrite Hd. }
  f_equal. now apply (sub_go_unchanged _ bold_starts).
Qed.

Lemma no_star_app a b : no_star a -> no_star b -> no_star (a ++ b).
Proof. intros Ha Hb. apply Forall_app. now split. Qed.

Lemma no_backtick_app a b :
  no_backtick a -> no_backtick b -> no_backtick (a ++ b).
Proof. intros Ha Hb. apply Forall_app. now split. Qed.

(** X23.  [strip_markdown] removes the markers around a marked text: two
    asterisks, one asterisk or a backtick on each side of a text that is
    not empty, holds no line feed and no marker, within text that holds
    no marker.  The text between and around the markers is kept as it
    is. *)
Theorem strip_markdown_removes_markers (a x b : pystr) :
  no_star a -> no_backtick a ->
  no_star x -> no_backtick x -> x <> [] -> one_line x ->
  no_star b -> no_backtick b ->
  strip_markdown (a ++ py "**" ++ x ++ py "**" ++ b) = a ++ x ++ b
  /\ strip_markdown (a ++ py "*" ++ x ++ py "*" ++ b) = a ++ x ++ b
  /\ strip_markdown (a ++ py "`" ++ x ++ py "`" ++ b) = a ++ x ++ b.
Proof.
  intros Has Hab Hxs Hxb Hne Hl Hbs Hbb.
  assert (Ps : no_star (a ++ x ++ b)) by (repeat apply no_star_app; auto).
  assert (Pb : no_backtick (a ++ x ++ b))
    by (repeat apply no_backtick_app; auto).
  unfold strip_markdown. cbv zeta.
  change (py "**") with [c_star; c_star]. change (py "*") with [c_star].
  change (py "`") with [c_backtick]. cbn [app].
  split; [|split].
  - rewrite sub_bold_pair by assumption.
    rewrite (sub_unchanged _ italic_starts Ps).
    now rewrite (sub_unchanged _ code_starts Pb).
  - rewrite sub_bold_single by assumption.
    rewrite sub_italic_pair by assumption.
    now rewrite (sub_unchanged _ code_starts Pb).
  - assert (Qs : no_star (a ++ c_backtick :: x ++ c_backtick :: b)).
    { apply no_star_app; [assumption|]. constructor; [reflexivity|].
      apply no_star_app; [assumption|]. constructor; [reflexivity|assumption]. }
    rewrite (sub_unchanged _ bold_starts Qs).
    rewrite (sub_unchanged _ italic_starts Qs).
    now apply sub_code_pair.
Qed.

Lemma one_line_dec s : forallb dot s = true -> one_line s.
Proof.
  intros H. apply Forall_forall. intros c Hc.
  rewrite forallb_forall in H. now apply H.
Qed.

Lemma strip_markdown_removes_markers_witness :
  (no_star (py "a ") /\ no_backtick (py "a ")
   /\ no_star (py "b c") /\ no_backtick (py "b c") /\ py "b c" <> []
   /\ one_line (py "b c") /\ no_star (py " d") /\ no_backtick (py " d"))
  /\ strip_markdown (py "a **b c** d") = py "a b c d"
  /\ strip_markdown (py "a *b c* d") = py "a b c d"
  /\ strip_markdown (py "a `b c` d") = py "a b c d".
Proof.
  assert (H1 : no_star (py "a ")) by (apply no_star_dec; reflexivity).
  assert (H2 : no_backtick (py "a ")) by (apply no_backtick_dec; reflexivity).
  assert (H3 : no_star (py "b c")) by (apply no_star_dec; reflexivity).
  assert (H4 : no_backtick (py "b c")) by (apply no_backtick_dec; reflexivity).
  assert (H5 : py "b c" <> []) by discriminate.
  assert (H6 : one_line (py "b c")) by (apply one_line_dec; reflexivity).
  assert (H7 : no_star (py " d")) by (apply no_star_dec; reflexivity).
  assert (H8 : no_backtick (py " d")) by (apply no_backtick_dec; reflexivity).
  split; [repeat split; assumption|].
  apply (@strip_markdown_removes_markers (py "a ") (py "b c") (py " d")
           H1 H2 H3 H4 H5 H6 H7 H8).
Defined.

(* ====================================================================== *)
(** * Inline math *)
(* ====================================================================== *)

Lemma rmatch_not_behind p st k :
  rmatch (NotBehind p) st k
  = match m_prev st with
    | Some c => if p c then None else k st
    | None => k st
    end.
Proof. reflexivity. Qed.

Lemma rmatch_not_ahead r st k :
  rmatch (NotAhead r) st k
  = match rmatch r st (fun st1 => Some st1) with
    | Some _ => None
    | None => k st
    end.
Proof. reflexivity. Qed.

Lemma dollar_sym c : chr_eqb c_dollar c = is_dollar c.
Proof. unfold is_dollar, chr_eqb. apply N.eqb_sym. Qed.

Lemma last_char_in prev x :
  x <> [] -> exists c, last_char prev x = Some c /\ In c x.
Proof.
  intros H. unfold last_char.
  destruct (rev x) as [|c r] eqn:E.
  - apply (f_equal (@rev char)) in E. rewrite rev_involutive in E.
    cbn in E. congruence.
  - exists c. split; [reflexivity|]. apply in_rev. rewrite E. now left.
Qed.

Lemma last_char_no_dollar prev x :
  match prev with Some c => is_dollar c = false | None => True end ->
  no_dollar x ->
  match last_char prev x with Some c => is_dollar c = false | None => True end.
Proof.
  intros Hp Hx. destruct x as [|c0 x]; [exact Hp|].
  destruct (@last_char_in prev (c0 :: x) ltac:(discriminate)) as (c & -> & Hc).
  unfold no_dollar in Hx. rewrite Forall_forall in Hx. now apply Hx.
Qed.

Lemma not_ahead_dollar s prev caps k :
  head_fails is_dollar s ->
  rmatch (NotAhead (Chr c_dollar)) (MState prev s caps) k
  = k (MState prev s caps).
Proof.
  intros Hs. rewrite rmatch_not_ahead. unfold Chr.
  destruct s as [|d s]; [now rewrite rmatch_cls_nil|].
  rewrite rmatch_cls, dollar_sym. cbn in Hs. now rewrite Hs.
Qed.

Lemma no_dollar_head s : no_dollar s -> head_fails is_dollar s.
Proof. intros H. destruct s; [exact I|]. now inversion H. Qed.

Lemma match_inline_math x b prev :
  match prev with Some c => is_dollar c = false | None => True end ->
  x <> [] -> one_line x -> no_dollar x -> no_dollar b ->
  match_here re_inline_math prev (c_dollar :: x ++ c_dollar :: b)
  = Some (MState (Some c_dollar) b [(1, x)]).
Proof.
  intros Hp Hne Hl Hx Hb. unfold match_here, re_inline_math. cbn [seqs].
  rewrite rmatch_seq, rmatch_not_behind. cbn [m_prev].
  assert (G : rmatch
                (Seq (Chr c_dollar)
                   (Seq (NotAhead (Chr c_dollar))
                      (Seq (Grp 1 (PlusLazy Any))
                         (Seq (NotBehind is_dollar)
                            (Seq (Chr c_dollar) (NotAhead (Chr c_dollar)))))))
                (MState prev (c_dollar :: x ++ c_dollar :: b) [])
                (fun st => Some st)
              = Some (MState (Some c_dollar) b [(1, x)])).
  { step_chr. rewrite rmatch_seq.
    rewrite not_ahead_dollar.
    2:{ destruct x as [|c0 x]; [congruence|]. cbn.
        now inversion Hx. }
    rewrite rmatch_seq.
    apply grp_lazy_until; [exact Hne|exact Hl| |].
    - intros x1 c x2 E _. rewrite rmatch_seq, rmatch_not_behind.
      cbn [m_prev].
      pose proof (@in_split_Forall _ _ x x1 c x2 Hx E) as Hc.
      cbv beta in Hc.
      assert (F : rmatch (Seq (Chr c_dollar) (NotAhead (Chr c_dollar)))
                    (MState (last_char (Some c_dollar) x1) (c :: x2 ++ c_dollar :: b)
                            [(1, x1)]) (fun st => Some st) = None).
      { rewrite rmatch_seq. unfold Chr at 1. rewrite rmatch_cls, dollar_sym.
        now rewrite Hc. }
      destruct (last_char (Some c_dollar) x1) as [d|];
        [destruct (is_dollar d); [reflexivity|exact F]|exact F].
    - rewrite rmatch_seq, rmatch_not_behind. cbn [m_prev].
      destruct (@last_char_in (Some c_dollar) x Hne) as (d & Ed & Hd).
      rewrite Ed.
      unfold no_dollar in Hx. rewrite Forall_forall in Hx.
      rewrite (Hx d Hd). step_chr.
      now rewrite (@not_ahead_dollar b _ _ _ (no_dollar_head Hb)). }
  destruct prev as [c|]; [rewrite Hp|]; exact G.
Qed.

Lemma replace_one_char c new : forall s,
  replace [c] new s
  = flat_map (fun d => if chr_eqb c d then new else [d]) s.
Proof.
  unfold replace. induction s as [|d s IH]; [reflexivity|].
  cbn [replace_go flat_map startswith length Nat.sub].
  rewrite andb_true_r. destruct (chr_eqb c d); cbn [app]; now rewrite IH.
Qed.

Lemma replace_space_no_backslash s :
  no_backslash s -> no_backslash (replace (py " ") NBSP s).
Proof.
  intros H. change (py " ") with [c_space]. rewrite replace_one_char.
  induction H as [|d s Hd Hs IH]; [constructor|].
  cbn [flat_map]. apply Forall_app. split; [|exact IH].
  destruct (chr_eqb c_space d); constructor; auto; constructor.
Qed.

Lemma no_backslash_app a b :
  no_backslash a -> no_backslash b -> no_backslash (a ++ b).
Proof. intros Ha Hb. apply Forall_app. now split. Qed.

(** X24.  Inline math between single dollar signs, in text without
    backslash and without other dollar signs: the dollar signs go, and
    inside them every space becomes a no-break space; the text around
    them is kept as it is. *)
Theorem inline_math_spaces (rt : runtime) (a x b : pystr) :
  visits_functions rt ->
  no_backslash a -> no_dollar a ->
  no_backslash x -> no_dollar x -> x <> [] -> one_line x ->
  no_backslash b -> no_dollar b ->
  resolve_latex rt (a ++ py "$" ++ x ++ py "$" ++ b)
  = a ++ replace (py " ") NBSP x ++ b.
Proof.
  intros Hv Hab Had Hxb Hxd Hne Hl Hbb Hbd.
  change (py "$") with [c_dollar]. cbn [app].
  rewrite resolve_latex_unfold.
  rewrite (@sub_unchanged (chr_eqb c_backslash) re_double_backslash).
  2:{ apply sw_seq, sw_cls. auto. }
  2:{ apply no_backslash_app; [exact Hab|]. constructor; [reflexivity|].
      apply no_backslash_app; [exact Hxb|]. constructor; [reflexivity|exact Hbb]. }
  unfold sub at 1.
  rewrite (sub_go_prefix _ inline_math_starts _ _ Had).
  assert (S : c_dollar :: x ++ c_dollar :: b = c_dollar :: (x ++ [c_dollar]) ++ b).
  { rewrite <- app_assoc. reflexivity. }
  pose proof (@match_inline_math x b (last_char None a)
                (last_char_no_dollar None I Had) Hne Hl Hxd Hbd) as M.
  rewrite S in M |- *.
  rewrite (@sub_go_match _ _ _ _ _ _ _ M eq_refl).
  unfold group_or_empty at 1. cbn [m_caps group Nat.eqb].
  rewrite (resolve_commands_plain Hv Hxb).
  rewrite (sub_go_unchanged _ inline_math_starts) by exact Hbd.
  apply resolve_commands_plain; [exact Hv|].
  apply no_backslash_app; [exact Hab|].
  apply no_backslash_app; [|exact Hbb].
  now apply replace_space_no_backslash.
Qed.

Lemma inline_math_spaces_witness :
  (visits_functions reference_runtime
   /\ no_backslash (py "if ") /\ no_dollar (py "if ")
   /\ no_backslash (py "a b") /\ no_dollar (py "a b") /\ py "a b" <> []
   /\ one_line (py "a b")
   /\ no_backslash (py " then") /\ no_dollar (py " then"))
  /\ resolve_latex reference_runtime (py "if $a b$ then")
     = py "if a" ++ NBSP ++ py "b then".
Proof.
  assert (H1 : no_backslash (py "if ")) by (apply no_backslash_dec; reflexivity).
  assert (H2 : no_dollar (py "if ")) by (apply no_dollar_dec; reflexivity).
  assert (H3 : no_backslash (py "a b")) by (apply no_backslash_dec; reflexivity).
  assert (H4 : no_dollar (py "a b")) by (apply no_dollar_dec; reflexivity).
  assert (H5 : py "a b" <> []) by discriminate.
  assert (H6 : one_line (py "a b")) by (apply one_line_dec; reflexivity).
  assert (H7 : no_backslash (py " then"))
    by (apply no_backslash_dec; reflexivity).
  assert (H8 : no_dollar (py " then")) by (apply no_dollar_dec; reflexivity).
  split; [repeat split; try assumption; exact reference_runtime_visits|].
  apply (@inline_math_spaces reference_runtime (py "if ") (py "a b")
           (py " then") reference_runtime_visits H1 H2 H3 H4 H5 H6 H7 H8).
Defined.

(* ====================================================================== *)
(** * Authors in the input format *)
(* ====================================================================== *)

Lemma rmatch_bol_start s caps r k :
  rmatch (Seq Bol r) (MState None s caps) k = rmatch r (MState None s caps) k.
Proof. reflexivity. Qed.

Lemma rmatch_eol_nil prev caps k :
  rmatch Eol (MState prev [] caps) k = k (MState prev [] caps).
Proof. reflexivity. Qed.

Lemma match_author_name n :
  n <> [] -> one_line n -> no_star n ->
  re_match re_author_name (c_star :: c_star :: n ++ [c_star; c_star])
  = Some (MState (Some c_star) [] [(1, n)]).
Proof.
  intros Hne Hl Hs. unfold re_match, match_here, re_author_name. cbn [seqs].
  rewrite rmatch_bol_start. step_chr. step_chr. rewrite rmatch_seq.
  apply grp_lazy_until; [exact Hne|exact Hl| |].
  - intros x1 c x2 E _. rewrite rmatch_seq. unfold Chr. rewrite rmatch_cls.
    pose proof (@in_split_Forall _ _ n x1 c x2 Hs E) as Hc.
    cbv beta in Hc. now rewrite Hc.
  - step_chr. step_chr. rewrite rmatch_seq. unfold Star.
    rewrite rep_cls_nil. apply rmatch_eol_nil.
Qed.

Lemma match_author_line l :
  l <> [] -> one_line l -> no_star l ->
  re_match re_author_line (c_star :: l ++ [c_star])
  = Some (MState (Some c_star) [] [(1, l)]).
Proof.
  intros Hne Hl Hs. unfold re_match, match_here, re_author_line. cbn [seqs].
  rewrite rmatch_bol_start. step_chr. rewrite rmatch_seq.
  apply grp_lazy_until; [exact Hne|exact Hl| |].
  - intros x1 c x2 E _. rewrite rmatch_seq. unfold Chr. rewrite rmatch_cls.
    pose proof (@in_split_Forall _ _ l x1 c x2 Hs E) as Hc.
    cbv beta in Hc. now rewrite Hc.
  - step_chr. rewrite rmatch_seq. unfold Star.
    rewrite rep_cls_nil. apply rmatch_eol_nil.
Qed.

Lemma author_line_not_name l :
  l <> [] -> no_star l ->
  re_match re_author_name (c_star :: l ++ [c_star]) = None.
Proof.
  intros Hne Hs. destruct l as [|c0 l]; [congruence|].
  inversion Hs as [|c' l' Hc Hl']; subst.
  unfold re_match, match_here, re_author_name. cbn [seqs app].
  rewrite rmatch_bol_start. step_chr. rewrite rmatch_seq. unfold Chr.
  rewrite rmatch_cls. now rewrite Hc.
Qed.

Lemma rstrip_snoc_nonspace s c :
  isspace c = false -> rstrip (s ++ [c]) = s ++ [c].
Proof.
  intros Hc. unfold rstrip. rewrite rev_app_distr. cbn [rev app lstrip].
  rewrite Hc. cbn [rev]. now rewrite rev_involutive.
Qed.

(** The trimmed form of a line that starts and ends with a marker and is
    followed by a line feed. *)
Lemma trimmed_marked c d s :
  isspace c = false -> isspace d = false ->
  trimmed_of (c :: s ++ [d] ++ [c_lf]) = c :: s ++ [d].
Proof.
  intros Hc Hd. unfold trimmed_of. rewrite strip_rstrip_lf.
  replace (c :: s ++ [d] ++ [c_lf]) with ((c :: s ++ [d]) ++ [c_lf])
    by (cbn [app]; now rewrite <- app_assoc).
  rewrite strip_app_blank by (constructor; [reflexivity|constructor]).
  unfold strip. cbn [app lstrip]. rewrite Hc.
  change (c :: s ++ [d]) with ((c :: s) ++ [d]).
  now apply rstrip_snoc_nonspace.
Qed.

Lemma rule_starts : starts_with (chr_eqb c_minus) re_rule.
Proof. unfold re_rule. cbn [seqs]. apply sw_bol, sw_seq, sw_cls. auto. Qed.

Lemma star_line_not_heading raw t :
  trimmed_of raw = c_star :: t -> is_references_heading raw = false.
Proof.
  intros E. unfold is_references_heading. rewrite E.
  rewrite (@re_match_fails (chr_eqb c_hash) _ _ (h2_named_starts _))
    by reflexivity.
  reflexivity.
Qed.

Lemma parse_line_post_title rt p raw rest :
  state p = post_title -> in_references p = false ->
  is_references_heading raw = false ->
  parse_line rt p raw rest = (parse_post_title_line p (trimmed_of raw), 0).
Proof.
  intros Hs Hr Hh. unfold parse_line. cbv zeta. fold (trimmed_of raw).
  unfold is_references_heading in Hh. rewrite Hh, Hr, Hs.
  cbn [is_front is_post_title]. now rewrite andb_false_r.
Qed.

Lemma name_line_shape n :
  py "**" ++ n ++ py "**" ++ [c_lf]
  = c_star :: (c_star :: n ++ [c_star]) ++ [c_star] ++ [c_lf].
Proof.
  change (py "**") with [c_star; c_star]. cbn [app]. do 2 f_equal.
  now rewrite <- app_assoc.
Qed.

Lemma name_line_trimmed n :
  trimmed_of (py "**" ++ n ++ py "**" ++ [c_lf])
  = c_star :: c_star :: n ++ [c_star; c_star].
Proof.
  rewrite name_line_shape, trimmed_marked by reflexivity.
  cbn [app]. do 2 f_equal. now rewrite <- app_assoc.
Qed.

Lemma affil_line_trimmed l :
  trimmed_of (py "*" ++ l ++ py "*" ++ [c_lf]) = c_star :: l ++ [c_star].
Proof.
  change (py "*") with [c_star]. cbn [app].
  change (c_star :: l ++ c_star :: [c_lf])
    with (c_star :: l ++ [c_star] ++ [c_lf]).
  now rewrite trimmed_marked.
Qed.

Lemma parse_name_line rt p n rest :
  clean n -> state p = post_title -> in_references p = false ->
  parse_line rt p (py "**" ++ n ++ py "**" ++ [c_lf]) rest
  = (with_result (set_authors (authors (result p) ++ [Author n []])) p, 0).
Proof.
  intros (Hne & Hl & Hs & Hc) Hst Hr.
  rewrite parse_line_post_title; try assumption.
  2:{ eapply star_line_not_heading. apply name_line_trimmed. }
  rewrite name_line_trimmed. unfold parse_post_title_line.
  rewrite (@re_match_fails (chr_eqb c_minus) re_rule _ rule_starts)
    by reflexivity.
  cbn [is_some nonempty negb].
  rewrite (match_author_name Hne Hl Hs).
  unfold group_or_empty. cbn [m_caps group Nat.eqb]. rewrite Hc.
  reflexivity.
Qed.

Lemma update_last_snoc {A} (f : A -> A) l x :
  update_last f (l ++ [x]) = l ++ [f x].
Proof.
  unfold update_last. rewrite length_app. cbn [length].
  replace (length l + 1 - 1) with (length l) by lia.
  induction l as [|y l IH]; [reflexivity|].
  cbn [app length update_nth]. now rewrite IH.
Qed.

Lemma parse_affil_line rt p done n l before rest :
  clean l -> state p = post_title -> in_references p = false ->
  authors (result p) = before ++ [Author n done] ->
  parse_line rt p (py "*" ++ l ++ py "*" ++ [c_lf]) rest
  = (with_result (set_authors (before ++ [Author n (done ++ [l])])) p, 0).
Proof.
  intros (Hne & Hl & Hs & Hc) Hst Hr Ha.
  rewrite parse_line_post_title; try assumption.
  2:{ eapply star_line_not_heading. apply affil_line_trimmed. }
  rewrite affil_line_trimmed. unfold parse_post_title_line.
  rewrite (@re_match_fails (chr_eqb c_minus) re_rule _ rule_starts)
    by reflexivity.
  cbn [is_some nonempty negb].
  rewrite (author_line_not_name Hne Hs).
  rewrite (match_author_line Hne Hl Hs).
  rewrite Ha, length_app. cbn [length].
  replace (length before + 1 =? 0) with false
    by (symmetry; apply Nat.eqb_neq; lia).
  cbn [negb]. unfold group_or_empty. cbn [m_caps group Nat.eqb].
  rewrite Hc. unfold with_result. rewrite Ha, update_last_snoc.
  reflexivity.
Qed.

Lemma parse_affil_lines rt n before rest : forall ls done p,
  Forall clean ls -> state p = post_title -> in_references p = false ->
  authors (result p) = before ++ [Author n done] ->
  parse_loop rt 0 p
    (map (fun l => py "*" ++ l ++ py "*" ++ [c_lf]) ls ++ rest)
  = parse_loop rt 0
      (with_result (set_authors (before ++ [Author n (done ++ ls)])) p) rest.
Proof.
  induction ls as [|l ls IH]; intros done p Hls Hst Hr Ha.
  - cbn [map app]. rewrite app_nil_r. f_equal.
    destruct p as [r s i c h1 h2]. cbn in Ha |- *. unfold with_result.
    cbn. f_equal. destruct r. cbn in Ha |- *. now subst.
  - inversion Hls as [|l' ls' Hl Hls']; subst.
    cbn [map app parse_loop].
    rewrite (@parse_affil_line rt p done n l before _ Hl Hst Hr Ha).
    rewrite (IH (done ++ [l])); try assumption; try reflexivity.
    now rewrite <- app_assoc.
Qed.

Lemma parse_author_lines rt a rest p :
  clean_author a -> state p = post_title -> in_references p = false ->
  parse_loop rt 0 p (author_lines a ++ rest)
  = parse_loop rt 0
      (with_result (set_authors (authors (result p) ++ [a])) p) rest.
Proof.
  intros (Hn & Hls) Hst Hr. unfold author_lines. cbn [app parse_loop].
  rewrite (@parse_name_line rt p (a_name a) _ Hn Hst Hr).
  rewrite (@parse_affil_lines rt (a_name a) (authors (result p)) rest
             (a_lines a) []); try assumption; try reflexivity.
  cbn [app]. now destruct a.
Qed.

Lemma parse_authors_lines rt : forall l p,
  Forall clean_author l -> state p = post_title -> in_references p = false ->
  parse_loop rt 0 p (flat_map author_lines l)
  = with_result (set_authors (authors (result p) ++ l)) p.
Proof.
  induction l as [|a l IH]; intros p Hl Hst Hr.
  - cbn [flat_map parse_loop]. rewrite app_nil_r.
    destruct p as [r s i c h1 h2]. unfold with_result. cbn. f_equal.
    now destruct r.
  - inversion Hl as [|a' l' Ha Hl']; subst. cbn [flat_map].
    rewrite (@parse_author_lines rt a _ p Ha Hst Hr).
    rewrite IH; try assumption; try reflexivity.
    unfold with_result. cbn. now rewrite <- app_assoc.
Qed.

Lemma parse_title_line rt p t rest :
  state p = front -> in_references p = false ->
  parse_line rt p (py "# " ++ t) rest
  = (with_state post_title (with_result (set_title (strip t)) p), 0).
Proof.
  intros Hst Hr. pose proof (title_line_not_heading t) as Hh.
  unfold parse_line. cbv zeta. fold (trimmed_of (py "# " ++ t)).
  unfold is_references_heading in Hh. rewrite Hh, Hr, Hst.
  change (py "# " ++ t) with (c_hash :: c_space :: t).
  rewrite !rstrip_chr_cons by reflexivity.
  change (startswith (py "# ") (c_hash :: c_space :: rstrip_chr c_lf t))
    with true.
  cbn [andb is_front slice_from skipn]. now rewrite strip_rstrip_lf.
Qed.

(** X25.  Authors written in the input format are read back as they
    are.  After the title line, each author given by the name in bold on
    a line and the affiliation lines in italics, a line each, is parsed
    to that name and those lines, in order; names and lines are texts
    that are not empty, hold no asterisk and no line feed, and have no
    white space at either end. *)
Theorem authors_round_trip (rt : runtime) (t : pystr) (l : list author) :
  Forall clean_author l ->
  let parsed := parse_markdown rt ((py "# " ++ t) :: flat_map author_lines l) in
  title parsed = strip t /\ authors parsed = l
  /\ abstract parsed = [] /\ sections parsed = [] /\ references parsed = [].
Proof.
  intros Hl. cbv zeta. unfold parse_markdown. cbn [parse_loop].
  rewrite parse_title_line by reflexivity.
  rewrite parse_authors_lines; try assumption; try reflexivity.
  cbn. auto.
Qed.

Lemma clean_dec s :
  negb (str_eqb s []) && forallb dot s
  && forallb (fun c => negb (chr_eqb c_star c)) s && str_eqb (strip s) s = true ->
  clean s.
Proof.
  intros H. apply andb_true_iff in H as [H H4]. apply andb_true_iff in H as [H H3].
  apply andb_true_iff in H as [H1 H2].
  split; [|split; [|split]].
  - intros ->. discriminate H1.
  - now apply one_line_dec.
  - now apply no_star_dec.
  - now apply str_eqb_eq.
Qed.

Lemma authors_round_trip_witness :
  Forall clean_author [Author (py "Ada L.") [py "Dept. A"; py "Univ. B"];
                       Author (py "Bob") []]
  /\ authors (parse_markdown reference_runtime
                [py "# T"; py "**Ada L.**" ++ [c_lf];
                 py "*Dept. A*" ++ [c_lf]; py "*Univ. B*" ++ [c_lf];
                 py "**Bob**" ++ [c_lf]])
     = [Author (py "Ada L.") [py "Dept. A"; py "Univ. B"]; Author (py "Bob") []].
Proof.
  assert (H : Forall clean_author
                [Author (py "Ada L.") [py "Dept. A"; py "Univ. B"];
                 Author (py "Bob") []]).
  { constructor; [|constructor; [|constructor]].
    - split; [apply clean_dec; reflexivity|].
      constructor; [apply clean_dec; reflexivity|].
      constructor; [apply clean_dec; reflexivity|constructor].
    - split; [apply clean_dec; reflexivity|constructor]. }
  split; [exact H|].
  exact (proj1 (proj2 (@authors_round_trip reference_runtime (py "T") _ H))).
Defined.

(* ====================================================================== *)
(** * References in the input format *)
(* ====================================================================== *)

Lemma lstrip_head s : head_fails isspace (lstrip s).
Proof.
  induction s as [|c s IH]; [exact I|]. cbn [lstrip].
  destruct (isspace c) eqn:E; [exact IH|exact E].
Qed.

(** A text without white space at either end begins and ends with a
    character that is no white space. *)
Lemma stripped_ends s :
  strip s = s -> s <> [] ->
  head_fails isspace s
  /\ exists s' d, s = s' ++ [d] /\ isspace d = false.
Proof.
  intros E Hne. split.
  - rewrite <- E. unfold strip.
    pose proof (lstrip_head s) as H.
    destruct (lstrip s) as [|c t]; [exact I|]. cbn in H.
    destruct (@rstrip_cons_nonspace c t H) as [u ->]. exact H.
  - unfold strip, rstrip in E.
    pose proof (lstrip_head (rev (lstrip s))) as H.
    destruct (lstrip (rev (lstrip s))) as [|d r] eqn:L.
    + cbn in E. congruence.
    + cbn in H. exists (rev r), d. split; [|exact H].
      rewrite <- E. reflexivity.
Qed.

Lemma strip_marked c d s :
  isspace c = false -> isspace d = false ->
  strip (c :: s ++ [d] ++ [c_lf]) = c :: s ++ [d].
Proof.
  intros Hc Hd.
  replace (c :: s ++ [d] ++ [c_lf]) with ((c :: s ++ [d]) ++ [c_lf])
    by (cbn [app]; now rewrite <- app_assoc).
  rewrite strip_app_blank by (constructor; [reflexivity|constructor]).
  unfold strip. cbn [app lstrip]. rewrite Hc.
  change (c :: s ++ [d]) with ((c :: s) ++ [d]).
  now apply rstrip_snoc_nonspace.
Qed.

(** A greedy group of a class takes the longest run. *)
Lemma grp_plus_greedy n p k r tok rest prev caps :
  tok <> [] -> Forall (fun c => p c = true) tok -> head_fails p rest ->
  k (MState (last_char prev tok) rest ((n, tok) :: caps)) = Some r ->
  rmatch (Grp n (Plus (Cls p))) (MState prev (tok ++ rest) caps) k = Some r.
Proof.
  intros Hne Ht Hr Hk. destruct tok as [|c tok]; [congruence|].
  inversion Ht as [|c' t' Hc Ht']; subst.
  unfold Plus. rewrite rmatch_grp, rmatch_seq. cbn [app].
  rewrite rmatch_cls, Hc.
  apply rep_cls_longest; [exact Ht'|exact Hr|].
  unfold capture, consumed. cbn [m_rest m_prev m_caps].
  change (c :: tok ++ rest) with ((c :: tok) ++ rest).
  rewrite firstn_consumed. now rewrite <- (last_char_cons prev c tok).
Qed.

Lemma grp_star_greedy n p k r tok rest prev caps :
  Forall (fun c => p c = true) tok -> head_fails p rest ->
  k (MState (last_char prev tok) rest ((n, tok) :: caps)) = Some r ->
  rmatch (Grp n (Star (Cls p))) (MState prev (tok ++ rest) caps) k = Some r.
Proof.
  intros Ht Hr Hk. unfold Star. rewrite rmatch_grp.
  apply rep_cls_longest; [exact Ht|exact Hr|].
  unfold capture, consumed. cbn [m_rest m_prev m_caps].
  now rewrite firstn_consumed.
Qed.

Lemma digit_label_rt rt s :
  ascii_digits rt -> digit_label s ->
  s <> [] /\ Forall (fun c => unicode_Nd rt c = true) s.
Proof.
  intros [Hd _] [Hne Hs]. split; [exact Hne|].
  eapply Forall_impl; [|exact Hs]. exact Hd.
Qed.

(** The first line of a reference matches the pattern of a reference,
    and its text is the second group. *)
Lemma match_reference rt label first :
  ascii_digits rt -> digit_label label -> first_line first ->
  exists st,
    re_match (re_reference rt)
             (c_lbracket :: label ++ c_rbracket :: c_space :: first) = Some st
    /\ group_or_empty 2 st = first.
Proof.
  intros Hrt Hl (Hne & Hone & Hs).
  destruct (@digit_label_rt rt label Hrt Hl) as [Hlne Hld].
  destruct (@stripped_ends first Hs Hne) as [Hh _].
  eexists. split.
  - unfold re_match, match_here, re_reference. cbn [seqs].
    rewrite rmatch_bol_start. step_chr. rewrite rmatch_seq.
    apply grp_plus_greedy; [exact Hlne|exact Hld|exact (proj2 Hrt)|].
    step_chr. rewrite rmatch_seq. unfold Star at 1.
    change (c_space :: first) with ([c_space] ++ first).
    apply rep_cls_longest;
      [constructor; [reflexivity|constructor]|exact Hh|].
    rewrite <- (app_nil_r first) at 1.
    apply grp_star_greedy; [exact Hone|exact I|]. reflexivity.
  - reflexivity.
Qed.

Lemma match_reference_start rt label tail :
  ascii_digits rt -> digit_label label ->
  is_some (re_match (re_reference_start rt)
                    (c_lbracket :: label ++ c_rbracket :: tail)) = true.
Proof.
  intros Hrt Hl.
  destruct (@digit_label_rt rt label Hrt Hl) as [Hlne Hld].
  destruct label as [|c label]; [congruence|].
  inversion Hld as [|c' l' Hc Hl']; subst.
  unfold re_match, match_here, re_reference_start. cbn [seqs].
  rewrite rmatch_bol_start. step_chr. rewrite rmatch_seq.
  unfold Plus. rewrite rmatch_seq. cbn [app]. rewrite rmatch_cls, Hc.
  rewrite (@rep_cls_longest (unicode_Nd rt) _
             (MState (Some c_rbracket) tail []) label
             (c_rbracket :: tail) (Some c) [] Hl' (proj2 Hrt)).
  - reflexivity.
  - unfold Chr. rewrite rmatch_cls. unfold chr_eqb. now rewrite N.eqb_refl.
Qed.

Lemma reference_line_shape label first f' d :
  first = f' ++ [d] ->
  py "[" ++ label ++ py "] " ++ first ++ [c_lf]
  = c_lbracket :: (label ++ c_rbracket :: c_space :: f') ++ [d] ++ [c_lf].
Proof.
  intros ->. change (py "[") with [c_lbracket].
  change (py "] ") with [c_rbracket; c_space]. cbn [app]. f_equal.
  rewrite <- !app_assoc. cbn [app]. reflexivity.
Qed.

Lemma reference_line_strip label first :
  first_line first ->
  strip (py "[" ++ label ++ py "] " ++ first ++ [c_lf])
  = c_lbracket :: label ++ c_rbracket :: c_space :: first.
Proof.
  intros (Hne & _ & Hs).
  destruct (@stripped_ends first Hs Hne) as [_ (f' & d & E & Hd)].
  rewrite (@reference_line_shape label first f' d E).
  rewrite strip_marked by (reflexivity || exact Hd).
  rewrite E. f_equal. rewrite <- !app_assoc. reflexivity.
Qed.

Lemma reference_line_trimmed label first :
  first_line first ->
  trimmed_of (py "[" ++ label ++ py "] " ++ first ++ [c_lf])
  = c_lbracket :: label ++ c_rbracket :: c_space :: first.
Proof.
  intros H. unfold trimmed_of. rewrite strip_rstrip_lf.
  now apply reference_line_strip.
Qed.

Lemma reference_lines_stop rt e rest :
  ascii_digits rt -> clean_entry e -> stops rt (reference_lines e ++ rest).
Proof.
  intros Hrt (Hl & Hf & _). unfold reference_lines, stops. cbn [app].
  rewrite (@reference_line_strip (r_label e) (r_first e) Hf).
  rewrite (@match_reference_start rt (r_label e) _ Hrt Hl). apply andb_false_r.
Qed.

Lemma collect_continuation_lines rt rest : forall conts text,
  Forall continuation_line conts -> stops rt rest ->
  collect_continuation rt text (map (fun c => c ++ [c_lf]) conts ++ rest)
  = (fold_left (fun acc c => acc ++ py " " ++ c) conts text, length conts).
Proof.
  induction conts as [|c conts IH]; intros text Hc Hr.
  - cbn [map app fold_left length]. destruct rest as [|l rest]; [reflexivity|].
    cbn [collect_continuation]. unfold stops in Hr. now rewrite Hr.
  - inversion Hc as [|c' cs' (Hne & Hs & Hh) Hcs]; subst.
    cbn [map app collect_continuation fold_left length].
    rewrite strip_app_blank by (constructor; [reflexivity|constructor]).
    rewrite Hs.
    rewrite (@re_match_fails (chr_eqb c_lbracket) (re_reference_start rt) c).
    + destruct c as [|x c]; [congruence|]. cbn [nonempty is_some negb andb].
      now rewrite IH.
    + unfold re_reference_start. cbn [seqs]. apply sw_bol, sw_seq, sw_cls. auto.
    + exact Hh.
Qed.

Lemma parse_loop_skip rt p rest : forall skipped,
  parse_loop rt (length skipped) p (skipped ++ rest) = parse_loop rt 0 p rest.
Proof.
  induction skipped as [|l skipped IH]; [reflexivity|].
  cbn [length app parse_loop]. exact IH.
Qed.

Lemma bracket_line_not_heading raw t :
  trimmed_of raw = c_lbracket :: t -> is_references_heading raw = false.
Proof.
  intros E. unfold is_references_heading. rewrite E.
  rewrite (@re_match_fails (chr_eqb c_hash) _ _ (h2_named_starts _))
    by reflexivity.
  reflexivity.
Qed.

Lemma parse_reference_entry rt e rest p :
  ascii_digits rt -> clean_entry e -> in_references p = true ->
  stops rt rest ->
  parse_loop rt 0 p (reference_lines e ++ rest)
  = parse_loop rt 0
      (with_result
         (set_references (references (result p) ++ [reference_text e])) p)
      rest.
Proof.
  intros Hrt (Hl & Hf & Hm) Hp Hr. unfold reference_lines.
  cbn [app parse_loop]. unfold parse_line. cbv zeta.
  fold (trimmed_of (py "[" ++ r_label e ++ py "] " ++ r_first e ++ [c_lf])).
  pose proof (@bracket_line_not_heading _ _ (@reference_line_trimmed (r_label e) (r_first e) Hf))
    as Hh.
  unfold is_references_heading in Hh. rewrite Hh, Hp.
  rewrite (@reference_line_trimmed (r_label e) (r_first e) Hf).
  destruct (@match_reference rt (r_label e) (r_first e) Hrt Hl Hf) as (st & Est & Eg).
  rewrite Est, Eg.
  pose proof (@collect_continuation_lines rt rest (r_more e) (r_first e) Hm Hr)
    as C.
  match goal with
  | |- context [collect_continuation ?a ?b ?c] =>
      replace (collect_continuation a b c)
        with (reference_text e, length (r_more e)) by (symmetry; exact C)
  end.
  pose proof (@parse_loop_skip rt
                (with_result
                   (fun r => set_references
                               (references r ++ [reference_text e]) r) p)
                rest (map (fun c => c ++ [c_lf]) (r_more e))) as K.
  rewrite length_map in K. exact K.
Qed.

Lemma parse_reference_entries rt : forall entries p,
  ascii_digits rt -> Forall clean_entry entries -> in_references p = true ->
  parse_loop rt 0 p (flat_map reference_lines entries)
  = with_result
      (set_references (references (result p) ++ map reference_text entries)) p.
Proof.
  induction entries as [|e entries IH]; intros p Hrt He Hp.
  - cbn [flat_map parse_loop map]. rewrite app_nil_r.
    destruct p as [r s i c h1 h2]. unfold with_result. cbn. f_equal.
    now destruct r.
  - inversion He as [|e' es' He1 Hes]; subst. cbn [flat_map map].
    rewrite (@parse_reference_entry rt e _ p Hrt He1 Hp).
    + rewrite IH; try assumption; try reflexivity.
      unfold with_result. cbn. now rewrite <- app_assoc.
    + destruct entries as [|e2 entries]; [exact I|].
      inversion Hes; subst. cbn [flat_map]. now apply reference_lines_stop.
Qed.

(** X26.  References written in the input format are read back: after
    the heading of the references, each reference given by a label of
    digits in brackets, a space and its text on a line, then the lines
    that continue it, is parsed to the text with the continuation lines
    joined to it by a space each, in order; the labels are not kept. *)
Theorem references_round_trip (rt : runtime) (entries : list reference_entry) :
  ascii_digits rt -> Forall clean_entry entries ->
  let parsed :=
    parse_markdown rt ((py "## References" ++ [c_lf])
                       :: flat_map reference_lines entries) in
  references parsed = map reference_text entries
  /\ sections parsed = [] /\ abstract parsed = [].
Proof.
  intros Hrt He. cbv zeta. unfold parse_markdown. cbn [parse_loop].
  rewrite parse_line_heading by reflexivity.
  rewrite parse_reference_entries; try assumption; try reflexivity.
  cbn. auto.
Qed.

Lemma reference_ascii_digits : ascii_digits reference_runtime.
Proof. split; [intros c H; exact H|reflexivity]. Qed.

Lemma references_round_trip_witness :
  (ascii_digits reference_runtime
   /\ Forall clean_entry
        [Entry (py "1") (py "A. Author, Title,") [py "Journal, 2020."];
         Entry (py "7") (py "B. Author.") []])
  /\ references
       (parse_markdown reference_runtime
          [py "## References" ++ [c_lf];
           py "[1] A. Author, Title," ++ [c_lf];
           py "Journal, 2020." ++ [c_lf];
           py "[7] B. Author." ++ [c_lf]])
     = [py "A. Author, Title, Journal, 2020."; py "B. Author."].
Proof.
  assert (H : Forall clean_entry
                [Entry (py "1") (py "A. Author, Title,") [py "Journal, 2020."];
                 Entry (py "7") (py "B. Author.") []]).
  { constructor; [|constructor; [|constructor]].
    - split; [split; [discriminate|repeat constructor]|].
      split; [split; [discriminate|split;
                [apply one_line_dec; reflexivity|reflexivity]]|].
      constructor; [|constructor].
      split; [discriminate|split; reflexivity].
    - split; [split; [discriminate|repeat constructor]|].
      split; [split; [discriminate|split;
                [apply one_line_dec; reflexivity|reflexivity]]|].
      constructor. }
  split; [split; [exact reference_ascii_digits|exact H]|].
  exact (proj1 (@references_round_trip reference_runtime _
                  reference_ascii_digits H)).
Defined.

(* ====================================================================== *)
(** * Sections in the input format *)
(* ====================================================================== *)

Lemma strip_prefixed c m s :
  isspace c = false -> strip s = s -> s <> [] ->
  strip (c :: m ++ s) = c :: m ++ s.
Proof.
  intros Hc Hs Hne.
  destruct (@stripped_ends s Hs Hne) as [_ (s' & d & E & Hd)].
  rewrite E. unfold strip. cbn [lstrip]. rewrite Hc.
  rewrite app_assoc. change (c :: (m ++ s') ++ [d]) with ((c :: m ++ s') ++ [d]).
  now apply rstrip_snoc_nonspace.
Qed.

Lemma trimmed_prefixed c m s :
  isspace c = false -> strip s = s -> s <> [] ->
  trimmed_of (c :: m ++ s ++ [c_lf]) = c :: m ++ s.
Proof.
  intros Hc Hs Hne. unfold trimmed_of. rewrite strip_rstrip_lf.
  replace (c :: m ++ s ++ [c_lf]) with ((c :: m ++ s) ++ [c_lf])
    by (cbn [app]; now rewrite <- app_assoc).
  rewrite strip_app_blank by (constructor; [reflexivity|constructor]).
  now apply strip_prefixed.
Qed.

Lemma trimmed_text t :
  strip t = t -> trimmed_of (t ++ [c_lf]) = t.
Proof.
  intros Hs. unfold trimmed_of. rewrite strip_rstrip_lf.
  rewrite strip_app_blank by (constructor; [reflexivity|constructor]).
  exact Hs.
Qed.

Lemma body_text_head t (q : char -> bool) :
  body_text t -> (forall c, q c = true -> opens_markup c = true) ->
  head_fails q t.
Proof.
  intros (_ & _ & Hh & _) Hq. destruct t as [|c t]; [exact I|].
  cbn in Hh |- *. destruct (q c) eqn:E; [|reflexivity].
  apply Hq in E. congruence.
Qed.

Lemma opens_hash c : chr_eqb c_hash c = true -> opens_markup c = true.
Proof. intros H. unfold opens_markup. now rewrite H. Qed.
Lemma opens_minus c : chr_eqb c_minus c = true -> opens_markup c = true.
Proof. intros H. unfold opens_markup. rewrite H. now rewrite orb_true_r. Qed.
Lemma opens_dollar c : chr_eqb c_dollar c = true -> opens_markup c = true.
Proof. intros H. unfold opens_markup. rewrite H. now rewrite !orb_true_r. Qed.

Lemma body_text_not_heading t :
  body_text t -> is_references_heading (t ++ [c_lf]) = false.
Proof.
  intros H. pose proof H as (Hne & Hs & Hh & Hr).
  unfold is_references_heading. rewrite (@trimmed_text t Hs), Hr.
  rewrite (@re_match_fails (chr_eqb c_hash) _ t (h2_named_starts _)).
  - reflexivity.
  - exact (@body_text_head t (chr_eqb c_hash) H opens_hash).
Qed.

Lemma parse_line_plain rt p raw rest :
  in_references p = false -> is_references_heading raw = false ->
  is_front (state p) = false -> is_post_title (state p) = false ->
  parse_line rt p raw rest = (parse_abstract_line p (trimmed_of raw), 0).
Proof.
  intros Hr Hh Hf Hp. unfold parse_line. cbv zeta. fold (trimmed_of raw).
  unfold is_references_heading in Hh. rewrite Hh, Hr, Hf, Hp.
  now rewrite andb_false_r.
Qed.

Lemma h2_any_starts : starts_with (chr_eqb c_hash) re_h2_any.
Proof. unfold re_h2_any. cbn [seqs]. apply sw_bol, sw_seq, sw_cls. auto. Qed.
Lemma h2_starts : starts_with (chr_eqb c_hash) re_h2.
Proof. unfold re_h2. apply sw_bol. cbn [Lit]. apply sw_seq, sw_cls. auto. Qed.
Lemma h3_starts : starts_with (chr_eqb c_hash) re_h3.
Proof. unfold re_h3. apply sw_bol. cbn [Lit]. apply sw_seq, sw_cls. auto. Qed.
Lemma display_equation_starts :
  starts_with (chr_eqb c_dollar) re_display_equation.
Proof.
  unfold re_display_equation. cbn [seqs]. apply sw_bol, sw_seq, sw_cls. auto.
Qed.

Lemma parse_abstract_heading rt p rest :
  state p = post_title -> in_references p = false ->
  parse_line rt p (py "## Abstract" ++ [c_lf]) rest
  = (with_current None (with_state in_abstract p), 0).
Proof.
  intros Hs Hr. rewrite parse_line_post_title by (assumption || reflexivity).
  change (trimmed_of (py "## Abstract" ++ [c_lf])) with (py "## Abstract").
  unfold parse_post_title_line.
  change (re_match re_rule (py "## Abstract")) with (@None mstate).
  change (re_match re_author_name (py "## Abstract")) with (@None mstate).
  change (re_match re_author_line (py "## Abstract")) with (@None mstate).
  cbn [is_some nonempty negb py]. unfold parse_abstract_line.
  assert (E : is_some (re_match (re_h2_named (py "Abstract"))
                                (py "## Abstract")) = true) by reflexivity.
  now rewrite E.
Qed.

Lemma parse_abstract_text rt p a rest :
  state p = in_abstract -> in_references p = false -> body_text a ->
  parse_line rt p (a ++ [c_lf]) rest
  = (with_result (fun r => set_abstract (abstract r ++ [a]) r) p, 0).
Proof.
  intros Hs Hr Ha. pose proof Ha as (Hne & Hst & _ & _).
  rewrite parse_line_plain;
    [|assumption|now apply body_text_not_heading|now rewrite Hs|now rewrite Hs].
  rewrite (@trimmed_text a Hst). unfold parse_abstract_line.
  rewrite (@re_match_fails (chr_eqb c_hash) _ a (h2_named_starts _))
    by exact (@body_text_head a _ Ha opens_hash).
  rewrite Hs. cbn [is_some is_in_abstract].
  rewrite (@re_match_fails (chr_eqb c_minus) re_rule a rule_starts)
    by exact (@body_text_head a _ Ha opens_minus).
  rewrite (@re_match_fails (chr_eqb c_hash) re_h2_any a h2_any_starts)
    by exact (@body_text_head a _ Ha opens_hash).
  destruct a as [|c a]; [congruence|]. reflexivity.
Qed.

Lemma parse_abstract_block rt rest : forall l p,
  state p = in_abstract -> in_references p = false -> Forall body_text l ->
  parse_loop rt 0 p (map (fun a => a ++ [c_lf]) l ++ rest)
  = parse_loop rt 0
      (with_result (set_abstract (abstract (result p) ++ l)) p) rest.
Proof.
  induction l as [|a l IH]; intros p Hs Hr Hl.
  - cbn [map app]. rewrite app_nil_r. f_equal.
    destruct p as [r s i c h1 h2]. unfold with_result. cbn. f_equal.
    now destruct r.
  - inversion Hl as [|a' l' Ha Hl']; subst. cbn [map app parse_loop].
    rewrite (@parse_abstract_text rt p a _ Hs Hr Ha).
    rewrite IH; try assumption.
    unfold with_result. cbn. now rewrite <- app_assoc.
Qed.

Lemma parse_keywords_heading rt p rest :
  state p = in_abstract -> in_references p = false ->
  parse_line rt p (py "## Keywords" ++ [c_lf]) rest
  = (Parser (result p) in_keywords false None (h1_count p) (h2_count p), 0).
Proof.
  intros Hs Hr.
  rewrite parse_line_plain; [|assumption|reflexivity|now rewrite Hs|now rewrite Hs].
  change (trimmed_of (py "## Keywords" ++ [c_lf])) with (py "## Keywords").
  unfold parse_abstract_line. rewrite Hs.
  change (re_match (re_h2_named (py "Abstract")) (py "## Keywords"))
    with (@None mstate).
  change (re_match re_rule (py "## Keywords")) with (@None mstate).
  assert (E : is_some (re_match re_h2_any (py "## Keywords")) = true)
    by reflexivity.
  cbn [is_some is_in_abstract nonempty negb orb py]. 
  change (is_some (re_match re_h2_any (py "## Keywords"))) with true.
  cbn iota. unfold parse_keywords_line.
  assert (E' : is_some (re_match (re_h2_named (py "Keywords"))
                                 (py "## Keywords")) = true) by reflexivity.
  rewrite E'. unfold with_current, with_state. cbn. now rewrite Hr.
Qed.

Lemma parse_keywords_text rt p k rest :
  state p = in_keywords -> in_references p = false ->
  body_text k -> no_star k -> no_backtick k ->
  parse_line rt p (k ++ [c_lf]) rest = (with_result (set_keywords k) p, 0).
Proof.
  intros Hs Hr Hk Hstar Htick. pose proof Hk as (Hne & Hst & _ & _).
  rewrite parse_line_plain;
    [|assumption|now apply body_text_not_heading|now rewrite Hs|now rewrite Hs].
  rewrite (@trimmed_text k Hst). unfold parse_abstract_line.
  rewrite (@re_match_fails (chr_eqb c_hash) _ k (h2_named_starts _))
    by exact (@body_text_head k _ Hk opens_hash).
  rewrite Hs. cbn [is_some is_in_abstract]. unfold parse_keywords_line.
  rewrite (@re_match_fails (chr_eqb c_hash) _ k (h2_named_starts _))
    by exact (@body_text_head k _ Hk opens_hash).
  rewrite Hs. cbn [is_some is_in_keywords].
  rewrite (@re_match_fails (chr_eqb c_minus) re_rule k rule_starts)
    by exact (@body_text_head k _ Hk opens_minus).
  rewrite (@re_match_fails (chr_eqb c_hash) re_h2_any k h2_any_starts)
    by exact (@body_text_head k _ Hk opens_hash).
  rewrite (strip_markdown_unchanged Hstar Htick).
  destruct k as [|c k]; [congruence|]. reflexivity.
Qed.

Lemma named_heading_false h name :
  named_heading h = false ->
  In name [py "References"; py "Abstract"; py "Keywords"] ->
  is_some (re_match (re_h2_named name) (c_hash :: c_hash :: c_space :: h))
  = false.
Proof.
  unfold named_heading. intros H Hin.
  destruct (is_some (re_match (re_h2_named name)
                              (c_hash :: c_hash :: c_space :: h))) eqn:E;
    [|reflexivity].
  assert (X : existsb
                (fun name => is_some (re_match (re_h2_named name)
                                               (py "## " ++ h)))
                [py "References"; py "Abstract"; py "Keywords"] = true).
  { apply existsb_exists. exists name. split; [exact Hin|exact E]. }
  congruence.
Qed.

(** A heading of level 1, read in the state of the keywords or of the
    body. *)
Lemma parse_heading_1 rt p h rest :
  state p = in_keywords \/ state p = in_body -> in_references p = false ->
  named_heading h = false -> h <> [] -> strip h = h ->
  parse_line rt p (py "## " ++ h ++ [c_lf]) rest
  = (Parser (set_sections
               (sections (result p) ++ [Sec 1 h (h1_count p + 1) []])
               (result p))
            in_body false (Some (length (sections (result p))))
            (h1_count p + 1) 0, 0).
Proof.
  intros Hs Hr Hn Hne Hst.
  assert (T : trimmed_of (py "## " ++ h ++ [c_lf])
              = c_hash :: c_hash :: c_space :: h).
  { change (py "## " ++ h ++ [c_lf])
      with (c_hash :: [c_hash; c_space] ++ h ++ [c_lf]).
    now rewrite trimmed_prefixed. }
  assert (Hh : is_references_heading (py "## " ++ h ++ [c_lf]) = false).
  { unfold is_references_heading. rewrite T.
    rewrite (@named_heading_false h (py "References") Hn) by (left; reflexivity).
    reflexivity. }
  assert (B : forall q, state q = in_body -> in_references q = false ->
                parse_body_line q (c_hash :: c_hash :: c_space :: h)
                = Parser (set_sections
                            (sections (result q) ++ [Sec 1 h (h1_count q + 1) []])
                            (result q))
                         in_body false (Some (length (sections (result q))))
                         (h1_count q + 1) 0).
  { intros q Hq Hqr. unfold parse_body_line.
    rewrite (@re_match_fails (chr_eqb c_minus) re_rule _ rule_starts)
      by reflexivity.
    change (is_some (re_match re_h2 (c_hash :: c_hash :: c_space :: h)))
      with true.
    cbn [is_some slice_from skipn]. now rewrite Hst, Hqr. }
  rewrite parse_line_plain;
    [|assumption|assumption
     |destruct Hs as [-> | ->]; reflexivity
     |destruct Hs as [-> | ->]; reflexivity].
  rewrite T. unfold parse_abstract_line.
  rewrite (@named_heading_false h (py "Abstract") Hn)
    by (right; left; reflexivity).
  assert (Ha : is_in_abstract (state p) = false)
    by (destruct Hs as [-> | ->]; reflexivity).
  rewrite Ha. unfold parse_keywords_line.
  rewrite (@named_heading_false h (py "Keywords") Hn)
    by (right; right; left; reflexivity).
  destruct Hs as [Hs | Hs]; rewrite Hs; cbn [is_in_keywords].
  - rewrite (@re_match_fails (chr_eqb c_minus) re_rule _ rule_starts)
      by reflexivity.
    change (is_some (re_match re_h2_any (c_hash :: c_hash :: c_space :: h)))
      with true.
    cbn [is_some nonempty negb orb].
    rewrite (B (with_state in_body p)) by (reflexivity || assumption).
    reflexivity.
  - now rewrite (B p Hs Hr).
Qed.

(** A heading of level 2, read in the state of the body. *)
Lemma parse_heading_2 rt p h rest :
  state p = in_body -> in_references p = false -> h <> [] -> strip h = h ->
  parse_line rt p (py "### " ++ h ++ [c_lf]) rest
  = (Parser (set_sections
               (sections (result p) ++ [Sec 2 h (h2_count p + 1) []])
               (result p))
            in_body false (Some (length (sections (result p))))
            (h1_count p) (h2_count p + 1), 0).
Proof.
  intros Hs Hr Hne Hst.
  assert (T : trimmed_of (py "### " ++ h ++ [c_lf])
              = c_hash :: c_hash :: c_hash :: c_space :: h).
  { change (py "### " ++ h ++ [c_lf])
      with (c_hash :: [c_hash; c_hash; c_space] ++ h ++ [c_lf]).
    now rewrite trimmed_prefixed. }
  assert (N : forall name,
            re_match (re_h2_named name)
                     (c_hash :: c_hash :: c_hash :: c_space :: h) = None)
    by reflexivity.
  rewrite parse_line_plain; [|assumption| |now rewrite Hs|now rewrite Hs].
  2:{ unfold is_references_heading. rewrite T, N. reflexivity. }
  rewrite T. unfold parse_abstract_line. rewrite N, Hs.
  cbn [is_some is_in_abstract]. unfold parse_keywords_line. rewrite N, Hs.
  cbn [is_some is_in_keywords]. unfold parse_body_line.
  rewrite (@re_match_fails (chr_eqb c_minus) re_rule _ rule_starts)
    by reflexivity.
  change (re_match re_h2 (c_hash :: c_hash :: c_hash :: c_space :: h))
    with (@None mstate).
  change (is_some (re_match re_h3 (c_hash :: c_hash :: c_hash :: c_space :: h)))
    with true.
  cbn [is_some slice_from skipn]. now rewrite Hst, Hs, Hr.
Qed.

Lemma match_display_equation x :
  equation_text x ->
  re_match re_display_equation
           (c_dollar :: c_dollar :: x ++ [c_dollar; c_dollar])
  = Some (MState (Some c_dollar) [] [(1, x)]).
Proof.
  intros (Hne & Hl & Hd). unfold re_match, match_here, re_display_equation.
  cbn [seqs]. rewrite rmatch_bol_start. step_chr. step_chr. rewrite rmatch_seq.
  apply grp_lazy_until; [exact Hne|exact Hl| |].
  - intros x1 c x2 E _. rewrite rmatch_seq. unfold Chr. rewrite rmatch_cls.
    pose proof (@in_split_Forall _ _ x x1 c x2 Hd E) as Hc.
    cbv beta in Hc. rewrite dollar_sym. now rewrite Hc.
  - step_chr. step_chr. apply rmatch_eol_nil.
Qed.

Lemma equation_line_trimmed x :
  trimmed_of (py "$$" ++ x ++ py "$$" ++ [c_lf])
  = c_dollar :: c_dollar :: x ++ [c_dollar; c_dollar].
Proof.
  replace (py "$$" ++ x ++ py "$$" ++ [c_lf])
    with (c_dollar :: (c_dollar :: x ++ [c_dollar]) ++ [c_dollar] ++ [c_lf]).
  - rewrite trimmed_marked by reflexivity. cbn [app]. do 2 f_equal.
    now rewrite <- app_assoc.
  - change (py "$$") with [c_dollar; c_dollar]. cbn [app]. do 2 f_equal.
    now rewrite <- app_assoc.
Qed.

Lemma update_nth_length {A} (f : A -> A) before x :
  update_nth (length before) f (before ++ [x]) = before ++ [f x].
Proof.
  induction before as [|y before IH]; [reflexivity|].
  cbn [length app update_nth]. now rewrite IH.
Qed.

(** A line of content, read in the body under a heading. *)
Lemma parse_content_line rt p item before s rest :
  state p = in_body -> in_references p = false ->
  current_section p = Some (length before) ->
  sections (result p) = before ++ [s] -> clean_item item ->
  parse_line rt p (content_line item) rest
  = (with_result (set_sections (before ++ [add_content item s])) p, 0).
Proof.
  intros Hs Hr Hc Hsec Hi.
  assert (R : forall t it,
            head_fails (chr_eqb c_hash) t -> head_fails (chr_eqb c_minus) t ->
            t <> [] ->
            match re_match re_display_equation t with
            | Some m => Equation (group_or_empty 1 m)
            | None => PlainText t
            end = it ->
            parse_abstract_line p t
            = with_result (set_sections (before ++ [add_content it s])) p).
  { intros t it Hh Hm Hne Hit. unfold parse_abstract_line.
    rewrite (@re_match_fails (chr_eqb c_hash) _ t (h2_named_starts _) Hh).
    rewrite Hs. cbn [is_some is_in_abstract]. unfold parse_keywords_line.
    rewrite (@re_match_fails (chr_eqb c_hash) _ t (h2_named_starts _) Hh).
    rewrite Hs. cbn [is_some is_in_keywords]. unfold parse_body_line.
    rewrite (@re_match_fails (chr_eqb c_minus) re_rule t rule_starts Hm).
    rewrite (@re_match_fails (chr_eqb c_hash) re_h2 t h2_starts Hh).
    rewrite (@re_match_fails (chr_eqb c_hash) re_h3 t h3_starts Hh).
    rewrite Hc, Hs, Hit. cbn [is_some is_in_body andb].
    destruct t as [|c t]; [congruence|]. cbn [nonempty].
    unfold with_result. rewrite Hsec, update_nth_length. reflexivity. }
  destruct item as [t|x]; cbn [content_line clean_item] in *.
  - pose proof Hi as (Hne & Hst & _ & _).
    rewrite parse_line_plain;
      [|assumption|now apply body_text_not_heading
       |now rewrite Hs|now rewrite Hs].
    rewrite (@trimmed_text t Hst). f_equal. apply R.
    + exact (@body_text_head t _ Hi opens_hash).
    + exact (@body_text_head t _ Hi opens_minus).
    + exact Hne.
    + rewrite (@re_match_fails (chr_eqb c_dollar) re_display_equation t
                 display_equation_starts).
      * reflexivity.
      * exact (@body_text_head t _ Hi opens_dollar).
  - rewrite parse_line_plain; [|assumption| |now rewrite Hs|now rewrite Hs].
    2:{ unfold is_references_heading. rewrite equation_line_trimmed.
        rewrite (@re_match_fails (chr_eqb c_hash) _ _ (h2_named_starts _))
          by reflexivity.
        reflexivity. }
    rewrite equation_line_trimmed. f_equal. apply R.
    + reflexivity.
    + reflexivity.
    + discriminate.
    + now rewrite (match_display_equation Hi).
Qed.

Lemma parse_content_lines rt rest before lvl h n : forall items done p,
  state p = in_body -> in_references p = false ->
  current_section p = Some (length before) ->
  sections (result p) = before ++ [Sec lvl h n done] ->
  Forall clean_item items ->
  parse_loop rt 0 p (map content_line items ++ rest)
  = parse_loop rt 0
      (with_result (set_sections (before ++ [Sec lvl h n (done ++ items)])) p)
      rest.
Proof.
  induction items as [|item items IH]; intros done p Hs Hr Hc Hsec Hi.
  - cbn [map app]. rewrite app_nil_r. f_equal.
    destruct p as [r s i c h1 h2]. unfold with_result. cbn in *. f_equal.
    destruct r. cbn in *. now subst.
  - inversion Hi as [|i' is' Hitem Hitems]; subst. cbn [map app parse_loop].
    rewrite (@parse_content_line rt p item before _ _ Hs Hr Hc Hsec Hitem).
    rewrite (IH (done ++ [item])); try assumption; try reflexivity.
    now rewrite <- app_assoc.
Qed.

(** A section in the input format, read in the body; its first heading
    may also be read in the state of the keywords when it is of level
    1. *)
Lemma parse_section rt rest s p :
  state p = in_body \/ (state p = in_keywords /\ level s = 1) ->
  in_references p = false -> clean_section s ->
  number s = (if level s =? 1 then h1_count p + 1 else h2_count p + 1) ->
  parse_loop rt 0 p (section_lines s ++ rest)
  = parse_loop rt 0
      (Parser (set_sections (sections (result p) ++ [s]) (result p))
              in_body false (Some (length (sections (result p))))
              (if level s =? 1 then h1_count p + 1 else h1_count p)
              (if level s =? 1 then 0 else h2_count p + 1))
      rest.
Proof.
  intros Hs Hr (Hlv & Hne & Hst & Hitems) Hn.
  destruct s as [lvl h n items]. cbn [level heading number content] in *.
  unfold section_lines, heading_line. cbn [level heading content app parse_loop].
  destruct Hlv as [[-> Hnamed] | ->]; cbn [Nat.eqb] in *.
  - rewrite (@parse_heading_1 rt p h _); try assumption.
    2:{ destruct Hs as [Hs | [Hs _]]; auto. }
    rewrite (@parse_content_lines rt rest (sections (result p)) 1 h
               (h1_count p + 1) items []); try reflexivity; try assumption.
    cbn. now subst n.
  - assert (Hb : state p = in_body).
    { destruct Hs as [Hs | [_ Hs]]; [exact Hs|discriminate Hs]. }
    rewrite (@parse_heading_2 rt p h _); try assumption.
    rewrite (@parse_content_lines rt rest (sections (result p)) 2 h
               (h2_count p + 1) items []); try reflexivity; try assumption.
    cbn. now subst n.
Qed.

Lemma parse_sections rt rest : forall l p,
  state p = in_body -> in_references p = false ->
  Forall clean_section l ->
  map number l = numbering (h1_count p) (h2_count p) (map level l) ->
  exists c h1 h2,
    parse_loop rt 0 p (flat_map section_lines l ++ rest)
    = parse_loop rt 0
        (Parser (set_sections (sections (result p) ++ l) (result p))
                in_body false c h1 h2)
        rest.
Proof.
  induction l as [|s l IH]; intros p Hs Hr Hl Hn.
  - exists (current_section p), (h1_count p), (h2_count p).
    cbn [flat_map app]. f_equal.
    destruct p as [r st i c h1 h2]. cbn in *. subst. f_equal.
    destruct r. cbn. now rewrite app_nil_r.
  - inversion Hl as [|s' l' Hs1 Hl']; subst.
    cbn [map numbering] in Hn. cbn [flat_map]. rewrite <- app_assoc.
    assert (Hnum : number s
                   = if level s =? 1 then h1_count p + 1 else h2_count p + 1).
    { destruct (level s =? 1); now inversion Hn. }
    rewrite (@parse_section rt _ s p (or_introl Hs) Hr Hs1 Hnum).
    edestruct IH as (c & h1 & h2 & E);
      [| |exact Hl'| |rewrite E]; try reflexivity.
    + cbn [h1_count h2_count].
      destruct (level s =? 1); now inversion Hn.
    + exists c, h1, h2. cbn. now rewrite <- app_assoc.
Qed.

Lemma parse_authors_block rt rest : forall l p,
  Forall clean_author l -> state p = post_title -> in_references p = false ->
  parse_loop rt 0 p (flat_map author_lines l ++ rest)
  = parse_loop rt 0 (with_result (set_authors (authors (result p) ++ l)) p) rest.
Proof.
  induction l as [|a l IH]; intros p Hl Hst Hr.
  - cbn [flat_map app]. rewrite app_nil_r. f_equal.
    destruct p as [r s i c h1 h2]. unfold with_result. cbn. f_equal.
    now destruct r.
  - inversion Hl as [|a' l' Ha Hl']; subst. cbn [flat_map].
    rewrite <- app_assoc.
    rewrite (@parse_author_lines rt a _ p Ha Hst Hr).
    rewrite IH; try assumption; try reflexivity.
    unfold with_result. cbn. now rewrite <- app_assoc.
Qed.

(** X27.  A document written in the input format is read back as it is:
    the title line, the authors, the abstract under its heading, the
    keywords under theirs, the sections with their content, and the
    references under their heading give the title, the authors, the
    paragraphs of the abstract, the keywords, the sections and the texts
    of the references.  The texts are clean in the sense of the
    definitions, the first section is of level 1, and the sections carry
    the numbers the two counters give. *)
Theorem document_round_trip (rt : runtime) (t : pystr) (auths : list author)
  (abstr : list pystr) (kws : pystr) (secs : list sec)
  (entries : list reference_entry) :
  ascii_digits rt ->
  strip t = t ->
  Forall clean_author auths ->
  Forall body_text abstr ->
  body_text kws -> no_star kws -> no_backtick kws ->
  Forall clean_section secs -> starts_at_level_1 secs ->
  map number secs = numbering 0 0 (map level secs) ->
  Forall clean_entry entries ->
  parse_markdown rt (document_lines t auths abstr kws secs entries)
  = Parsed t auths abstr kws secs (map reference_text entries).
Proof.
  intros Hrt Ht Hau Hab Hk Hks Hkb Hsec Hstart Hnum Hen.
  unfold parse_markdown, document_lines. cbn [parse_loop].
  rewrite parse_title_line by reflexivity.
  rewrite strip_app_blank by (constructor; [reflexivity|constructor]).
  rewrite Ht.
  rewrite parse_authors_block by (assumption || reflexivity).
  unfold abstract_lines. cbn [app parse_loop].
  rewrite parse_abstract_heading by reflexivity.
  rewrite parse_abstract_block by (assumption || reflexivity).
  unfold keywords_lines. cbn [app parse_loop].
  rewrite parse_keywords_heading by reflexivity.
  rewrite parse_keywords_text by (assumption || reflexivity).
  unfold with_result, with_state, with_current.
  cbn [result state in_references current_section h1_count h2_count
       set_title set_authors set_abstract set_keywords
       title authors abstract keywords sections references app].
  set (p := Parser (Parsed t auths abstr kws [] []) in_keywords false None 0 0).
  assert (Refs : forall q,
            references (result q) = [] ->
            result (parse_loop rt 0 q (references_lines entries))
            = set_references (map reference_text entries) (result q)).
  { intros q Hq. unfold references_lines. cbn [parse_loop].
    rewrite parse_line_heading by reflexivity.
    rewrite parse_reference_entries by (assumption || reflexivity).
    cbn. now rewrite Hq. }
  destruct secs as [|s l].
  - cbn [flat_map app]. now rewrite Refs.
  - cbn [flat_map]. rewrite <- app_assoc.
    inversion Hsec as [|s' l' Hs1 Hl']; subst. cbn in Hstart.
    cbn [map numbering] in Hnum. rewrite Hstart in Hnum. cbn [Nat.eqb] in Hnum.
    rewrite (@parse_section rt _ s p (or_intror (conj eq_refl Hstart))
               eq_refl Hs1).
    2:{ rewrite Hstart. cbn. now inversion Hnum. }
    rewrite Hstart. cbn [Nat.eqb].
    edestruct (@parse_sections rt (references_lines entries) l)
      as (c & h1 & h2 & E); [| |exact Hl'| |rewrite E]; try reflexivity.
    + cbn [h1_count h2_count]. now inversion Hnum.
    + rewrite Refs by reflexivity. reflexivity.
Qed.

Lemma body_text_dec t :
  negb (str_eqb t []) && str_eqb (strip t) t
  && match t with [] => true | c :: _ => negb (opens_markup c) end
  && negb (str_eqb t (py "REFERENCES")) = true ->
  body_text t.
Proof.
  intros H. apply andb_true_iff in H as [H H4]. apply andb_true_iff in H as [H H3].
  apply andb_true_iff in H as [H1 H2].
  split; [|split; [|split]].
  - intros ->. discriminate H1.
  - now apply str_eqb_eq.
  - destruct t as [|c t]; [exact I|]. now apply negb_true_iff in H3.
  - now apply negb_true_iff in H4.
Qed.

Lemma document_round_trip_witness :
  let auths := [Author (py "Ada") [py "Dept. A"]] in
  let secs := [Sec 1 (py "Intro") 1 [PlainText (py "Hello."); Equation (py "E=mc")];
               Sec 2 (py "Scope") 1 []] in
  let entries := [Entry (py "1") (py "A. Author.") []] in
  (ascii_digits reference_runtime /\ strip (py "T") = py "T"
   /\ Forall clean_author auths /\ Forall body_text [py "Text."]
   /\ body_text (py "a, b") /\ no_star (py "a, b") /\ no_backtick (py "a, b")
   /\ Forall clean_section secs /\ starts_at_level_1 secs
   /\ map number secs = numbering 0 0 (map level secs)
   /\ Forall clean_entry entries)
  /\ parse_markdown reference_runtime
       [py "# T" ++ [c_lf]; py "**Ada**" ++ [c_lf]; py "*Dept. A*" ++ [c_lf];
        py "## Abstract" ++ [c_lf]; py "Text." ++ [c_lf];
        py "## Keywords" ++ [c_lf]; py "a, b" ++ [c_lf];
        py "## Intro" ++ [c_lf]; py "Hello." ++ [c_lf]; py "$$E=mc$$" ++ [c_lf];
        py "### Scope" ++ [c_lf];
        py "## References" ++ [c_lf]; py "[1] A. Author." ++ [c_lf]]
     = Parsed (py "T") auths [py "Text."] (py "a, b") secs [py "A. Author."].
Proof.
  cbv zeta.
  assert (H1 : strip (py "T") = py "T") by reflexivity.
  assert (H2 : Forall clean_author [Author (py "Ada") [py "Dept. A"]]).
  { constructor; [|constructor].
    split; [apply clean_dec; reflexivity|].
    constructor; [apply clean_dec; reflexivity|constructor]. }
  assert (H3 : Forall body_text [py "Text."])
    by (constructor; [apply body_text_dec; reflexivity|constructor]).
  assert (H4 : body_text (py "a, b")) by (apply body_text_dec; reflexivity).
  assert (H5 : no_star (py "a, b")) by (apply no_star_dec; reflexivity).
  assert (H6 : no_backtick (py "a, b")) by (apply no_backtick_dec; reflexivity).
  assert (H7 : Forall clean_section
                 [Sec 1 (py "Intro") 1
                      [PlainText (py "Hello."); Equation (py "E=mc")];
                  Sec 2 (py "Scope") 1 []]).
  { constructor; [|constructor; [|constructor]].
    - split; [left; split; reflexivity|]. split; [discriminate|].
      split; [reflexivity|].
      constructor; [apply body_text_dec; reflexivity|].
      constructor; [|constructor].
      split; [discriminate|].
      split; [apply one_line_dec; reflexivity|apply no_dollar_dec; reflexivity].
    - split; [right; reflexivity|]. split; [discriminate|].
      split; [reflexivity|constructor]. }
  assert (H8 : starts_at_level_1
                 [Sec 1 (py "Intro") 1
                      [PlainText (py "Hello."); Equation (py "E=mc")];
                  Sec 2 (py "Scope") 1 []]) by reflexivity.
  assert (H9 : map number
                 [Sec 1 (py "Intro") 1
                      [PlainText (py "Hello."); Equation (py "E=mc")];
                  Sec 2 (py "Scope") 1 []]
               = numbering 0 0
                   (map level
                      [Sec 1 (py "Intro") 1
                           [PlainText (py "Hello."); Equation (py "E=mc")];
                       Sec 2 (py "Scope") 1 []])) by reflexivity.
  assert (H10 : Forall clean_entry [Entry (py "1") (py "A. Author.") []]).
  { constructor; [|constructor].
    split; [split; [discriminate|repeat constructor]|].
    split; [split; [discriminate|split;
              [apply one_line_dec; reflexivity|reflexivity]]|constructor]. }
  split.
  - repeat (split; [assumption || exact reference_ascii_digits|]). exact H10.
  - apply (@document_round_trip reference_runtime (py "T") _ _ _ _ _
             reference_ascii_digits H1 H2 H3 H4 H5 H6 H7 H8 H9 H10).
Defined.

(* ====================================================================== *)
(** * More of the builder *)
(* ====================================================================== *)

Lemma startswith_head c q t :
  head_fails (chr_eqb c) t -> startswith (c :: q) t = false.
Proof.
  intros H. destruct t as [|x t]; [reflexivity|]. cbn in H |- *.
  now rewrite H.
Qed.

Lemma head_fails_weaken (q q' : char -> bool) t :
  (forall c, q c = true -> q' c = true) -> head_fails q' t -> head_fails q t.
Proof.
  intros Hq H. destruct t as [|c t]; [exact I|]. cbn in H |- *.
  destruct (q c) eqn:E; [|reflexivity]. apply Hq in E. congruence.
Qed.

Lemma no_star_head t : no_star t -> head_fails (chr_eqb c_star) t.
Proof. intros H. destruct t; [exact I|]. now inversion H. Qed.

Lemma list_label_starts rt : starts_with (unicode_Nd rt) (re_list_label rt).
Proof.
  unfold re_list_label. cbn [seqs].
  apply sw_bol, sw_seq, sw_grp, sw_seq, sw_cls. auto.
Qed.

Lemma bold_label_starts : starts_with (chr_eqb c_star) re_bold_label.
Proof.
  unfold re_bold_label. cbn [seqs]. apply sw_bol, sw_seq, sw_cls. auto.
Qed.

Lemma bullet_starts : starts_with is_bullet_marker re_bullet.
Proof. unfold re_bullet. cbn [seqs]. apply sw_bol, sw_seq, sw_cls. auto. Qed.

(** Ordinary text falls through to the last rule of the builder. *)
Lemma text_paragraph_regular (rt : runtime) (t : pystr) :
  visits_functions rt -> plain_text t -> strip t <> [] ->
  head_fails (opens_item rt) t ->
  text_paragraph rt t = Some (regular_paragraph t).
Proof.
  intros Hv (Hb & Hd & Hm & Hs & Hk) Hne Hh. unfold text_paragraph.
  change (py "> ") with [c_gt; c_space].
  rewrite startswith_head.
  2:{ apply (@head_fails_weaken _ (opens_item rt) t); [|exact Hh].
      intros c E. unfold opens_item. now rewrite E. }
  rewrite (@re_match_fails (unicode_Nd rt) _ t (list_label_starts rt)).
  2:{ apply (@head_fails_weaken _ (opens_item rt) t); [|exact Hh].
      intros c E. unfold opens_item. rewrite E. now rewrite orb_true_r. }
  rewrite (@re_match_fails (chr_eqb c_star) _ t bold_label_starts)
    by now apply no_star_head.
  cbv zeta. unfold bullet_or_regular.
  rewrite (@re_match_fails is_bullet_marker _ t bullet_starts).
  2:{ destruct t as [|c t]; [exact I|]. cbn in Hh |- *.
      unfold opens_item in Hh. apply orb_false_iff in Hh as [_ Hminus].
      inversion Hs as [|c' t' Hstar _]; subst.
      unfold is_bullet_marker, chr_eqb in *.
      rewrite (N.eqb_sym c c_minus), (N.eqb_sym c c_star), Hminus, Hstar.
      reflexivity. }
  cbn [is_some]. cbv zeta.
  rewrite (strip_markdown_unchanged Hs Hk).
  destruct (strip t) as [|c s] eqn:E; [congruence|]. cbn [nonempty negb].
  unfold parse_math_text. cbv zeta.
  rewrite (resolve_latex_plain Hv Hb Hd).
  now rewrite (script_runs_plain _ _ _ _ Hm).
Qed.

Lemma plus_cls_greedy p k r tok rest prev caps :
  tok <> [] -> Forall (fun c => p c = true) tok -> head_fails p rest ->
  k (MState (last_char prev tok) rest caps) = Some r ->
  rmatch (Plus (Cls p)) (MState prev (tok ++ rest) caps) k = Some r.
Proof.
  intros Hne Ht Hr Hk. destruct tok as [|c tok]; [congruence|].
  inversion Ht as [|c' t' Hc Ht']; subst.
  unfold Plus. rewrite rmatch_seq. cbn [app]. rewrite rmatch_cls, Hc.
  apply rep_cls_longest; [exact Ht'|exact Hr|].
  now rewrite <- (last_char_cons prev c tok).
Qed.

(** A list item is taken by the rule of the bullet items. *)
Lemma text_paragraph_bullet (rt : runtime) (m : char) (ws item : pystr) :
  visits_functions rt -> unicode_Nd rt m = false ->
  is_bullet_marker m = true -> ws <> [] -> blank ws ->
  plain_text item -> head_fails isspace item ->
  text_paragraph rt (m :: ws ++ item) = Some (bullet_paragraph item).
Proof.
  intros Hv Hdig Hm Hne Hws (Hb & Hd & Hmk & Hs & Hk) Hh.
  assert (Hgt : chr_eqb c_gt m = false).
  { unfold is_bullet_marker, chr_eqb in *.
    apply orb_true_iff in Hm as [E|E]; apply N.eqb_eq in E; subst m;
      reflexivity. }
  destruct ws as [|w0 ws']; [congruence|].
  inversion Hws as [|w0' ws'' Hw0 Hws']; subst.
  unfold text_paragraph.
  change (py "> ") with [c_gt; c_space].
  rewrite startswith_head by exact Hgt.
  rewrite (@re_match_fails (unicode_Nd rt) _ _ (list_label_starts rt))
    by exact Hdig.
  assert (Hbold : re_match re_bold_label (m :: (w0 :: ws') ++ item) = None).
  { unfold re_match, match_here, re_bold_label. cbn [seqs app].
    rewrite rmatch_bol_start, rmatch_seq. unfold Chr. rewrite rmatch_cls.
    destruct (chr_eqb c_star m); [|reflexivity].
    rewrite rmatch_seq, rmatch_cls.
    now rewrite (@space_not c_star w0 eq_refl Hw0). }
  rewrite Hbold. cbv zeta. unfold bullet_or_regular.
  assert (Hbul : is_some (re_match re_bullet (m :: (w0 :: ws') ++ item)) = true).
  { unfold re_match, match_here, re_bullet. cbn [seqs app].
    rewrite rmatch_bol_start, rmatch_seq, rmatch_cls, Hm.
    now rewrite rmatch_cls, Hw0. }
  rewrite Hbul. cbv zeta.
  assert (Hsub : sub re_bullet_strip (fun _ => []) (m :: (w0 :: ws') ++ item)
                 = item).
  { unfold re_bullet_strip. cbn [seqs].
    apply (@sub_bol_match _ (fun _ => []) _
             (MState (last_char (Some m) (w0 :: ws')) item [])
             (m :: w0 :: ws')); [|reflexivity|discriminate].
    unfold match_here. rewrite rmatch_bol_start, rmatch_seq.
    cbn [app]. rewrite rmatch_cls, Hm.
    change (w0 :: ws' ++ item) with ((w0 :: ws') ++ item).
    apply plus_cls_greedy; [discriminate|exact Hws|exact Hh|reflexivity]. }
  rewrite Hsub. rewrite (strip_markdown_unchanged Hs Hk).
  unfold parse_math_text. cbv zeta.
  rewrite (resolve_latex_plain Hv Hb Hd).
  rewrite (script_runs_plain _ _ _ _ Hmk). reflexivity.
Qed.




Lemma plain_text_dec t :
  forallb (fun c => negb (chr_eqb c_backslash c)) t
  && forallb (fun c => negb (is_dollar c)) t
  && forallb (fun c => negb (is_marker c)) t
  && forallb (fun c => negb (chr_eqb c_star c)) t
  && forallb (fun c => negb (chr_eqb c_backtick c)) t = true ->
  plain_text t.
Proof.
  intros H. apply andb_true_iff in H as [H H5]. apply andb_true_iff in H as [H H4].
  apply andb_true_iff in H as [H H3]. apply andb_true_iff in H as [H1 H2].
  split; [now apply no_backslash_dec|]. split; [now apply no_dollar_dec|].
  split; [now apply no_marker_dec|]. split; [now apply no_star_dec|].
  now apply no_backtick_dec.
Qed.

(** X28.  Ordinary text of the body, which holds nothing the builder
    rewrites, does not begin a quote, a numbered item or a list item and
    is not blank, becomes one paragraph.  The paragraph is justified, has
    the first-line indent of the body and no other indent, and 120 after
    it; it holds one run, with the text as it is, in the plain style of
    the body. *)
Theorem ordinary_text_paragraph (rt : runtime) (t : pystr) :
  visits_functions rt -> plain_text t -> strip t <> [] ->
  head_fails (opens_item rt) t ->
  exists p r,
    text_paragraph rt t = Some p
    /\ alignment p = Some (py "both")
    /\ para_attr "w:ind" "w:firstLine" p = Some (str_N BODY_FIRST_INDENT)
    /\ para_attr "w:ind" "w:left" p = None
    /\ para_attr "w:ind" "w:hanging" p = None
    /\ para_attr "w:spacing" "w:before" p = Some (py "0")
    /\ para_attr "w:spacing" "w:after" p = Some (py "120")
    /\ para_runs p = [r]
    /\ run_text r = Some t
    /\ plain_run BODY_PT FONT r.
Proof.
  intros Hv Hp Hne Hh.
  rewrite (@text_paragraph_regular rt t Hv Hp Hne Hh).
  eexists _, _. split; [reflexivity|]. unfold regular_paragraph.
  repeat split.
Qed.

(** X29.  A list item, which is a dash or an asterisk, white space and
    the text of the item, becomes one justified paragraph with the left
    indent 576 and the hanging indent 288.  It holds three runs: the
    bullet, a tab, and the text of the item in the plain style of the
    body; the marker and the white space after it are dropped. *)
Theorem bullet_item_paragraph (rt : runtime) (m : char) (ws item : pystr) :
  visits_functions rt -> unicode_Nd rt m = false ->
  is_bullet_marker m = true -> ws <> [] -> blank ws ->
  plain_text item -> head_fails isspace item ->
  exists p bullet tab r,
    text_paragraph rt (m :: ws ++ item) = Some p
    /\ alignment p = Some (py "both")
    /\ para_attr "w:ind" "w:left" p = Some (py "576")
    /\ para_attr "w:ind" "w:hanging" p = Some (py "288")
    /\ para_attr "w:ind" "w:firstLine" p = None
    /\ para_attr "w:spacing" "w:after" p = Some (py "40")
    /\ para_runs p = [bullet; tab; r]
    /\ run_text bullet = Some [0x2022%N]
    /\ is_tab_run tab = true
    /\ run_text r = Some item
    /\ plain_run BODY_PT FONT r.
Proof.
  intros Hv Hdig Hm Hne Hws Hp Hh.
  rewrite (@text_paragraph_bullet rt m ws item Hv Hdig Hm Hne Hws Hp Hh).
  eexists _, _, _, _. split; [reflexivity|]. unfold bullet_paragraph.
  repeat split.
Qed.


Lemma ordinary_text_paragraph_witness :
  (visits_functions reference_runtime /\ plain_text (py "Hello world.")
   /\ strip (py "Hello world.") <> []
   /\ head_fails (opens_item reference_runtime) (py "Hello world."))
  /\ exists p r,
       text_paragraph reference_runtime (py "Hello world.") = Some p
       /\ para_runs p = [r] /\ run_text r = Some (py "Hello world.").
Proof.
  assert (H1 : plain_text (py "Hello world."))
    by (apply plain_text_dec; reflexivity).
  assert (H2 : strip (py "Hello world.") <> []) by discriminate.
  assert (H3 : head_fails (opens_item reference_runtime) (py "Hello world."))
    by reflexivity.
  split; [split; [exact reference_runtime_visits|];
          split; [exact H1|]; split; [exact H2|exact H3]|].
  destruct (@ordinary_text_paragraph reference_runtime (py "Hello world.")
              reference_runtime_visits H1 H2 H3)
    as (p & r & E & _ & _ & _ & _ & _ & _ & R & T & _).
  exists p, r. split; [exact E|]. split; [exact R|exact T].
Defined.

Lemma bullet_item_paragraph_witness :
  (visits_functions reference_runtime
   /\ unicode_Nd reference_runtime c_minus = false
   /\ is_bullet_marker c_minus = true /\ py " " <> [] /\ blank (py " ")
   /\ plain_text (py "point") /\ head_fails isspace (py "point"))
  /\ exists p bullet tab r,
       text_paragraph reference_runtime (py "- point") = Some p
       /\ para_runs p = [bullet; tab; r] /\ run_text r = Some (py "point").
Proof.
  assert (H1 : py " " <> []) by discriminate.
  assert (H2 : blank (py " ")) by (constructor; [reflexivity|constructor]).
  assert (H3 : plain_text (py "point")) by (apply plain_text_dec; reflexivity).
  assert (H4 : head_fails isspace (py "point")) by reflexivity.
  split; [split; [exact reference_runtime_visits|];
          split; [reflexivity|]; split; [reflexivity|];
          split; [exact H1|]; split; [exact H2|];
          split; [exact H3|exact H4]|].
  destruct (@bullet_item_paragraph reference_runtime c_minus (py " ")
              (py "point") reference_runtime_visits eq_refl eq_refl
              H1 H2 H3 H4)
    as (p & b & tb & r & E & _ & _ & _ & _ & _ & R & _ & _ & T & _).
  exists p, b, tb, r. split; [exact E|]. split; [exact R|exact T].
Defined.

